(** * A discrete-event microsimulation: kernel, age-partitioned report and
      prostate-cancer natural-history model

    Shallow embedding of [microsimulation.h], [illness-death.cpp],
    [fhcrc-example.cpp] and [calibperson-r.cc].

    Numbers.  Simulation times and ages are [double] in the source.  The
    properties studied here are order-theoretic and additive, and they are
    meant in exact arithmetic, so a time is an exact rational ([Q]); the
    rounding of [double] is not modelled.  The survival computation, which
    uses [exp], [log] and [pow], is embedded over the real numbers in its own
    module.  Event and prevalence counters are [int] in the source and [Z]
    here (signed overflow is not reached by counting single events).

    Undefined behaviour.  A read through an iterator that lies outside its
    vector or set is undefined in C++; the embedding makes every such read
    explicit and returns [None] for it. *)

From Stdlib Require Import ZArith QArith Qminmax Lqa Lia List Bool Sorted.
From Stdlib Require Import Reals Lra Psatz.
From stdpp Require Import gmap list strings sorting.

Local Open Scope Q_scope.

(** ** Rationals as map keys and as a decidable order *)

#[global] Instance Q_eq_dec : EqDecision Q.
Proof. solve_decision. Defined.

#[global] Program Instance Q_countable : Countable Q :=
  inj_countable' (fun q => (Qnum q, Qden q)) (fun p => Qmake (fst p) (snd p)) _.
Next Obligation. intros [n d]. reflexivity. Qed.

(** [x < y] on [double], as a boolean. *)
Definition Qltb (x y : Q) : bool := negb (Qle_bool y x).

(** [x <= y] on [double], as a boolean. *)
Definition Qleb (x y : Q) : bool := Qle_bool x y.

(** ** [std::map] with [operator[]]

    [m[k]] creates the entry with a value-initialised (zero) value when the
    key is absent; [m[k1][k2] += d] therefore always succeeds. *)
Section MapEntry.
Context {K V : Type} `{Countable K}.
Variable zero : V.

(** the value read at [m[k]] *)
Definition at1 (m : gmap K V) (k : K) : V := default zero (m !! k).

(** [m[k] = f(m[k])] *)
Definition upd1 (f : V -> V) (k : K) (m : gmap K V) : gmap K V :=
    <[k := f (at1 m k)]> m.
End MapEntry.

Section NestedMaps.
Context {K1 K2 V : Type} `{Countable K1} `{Countable K2}.
Variable zero : V.

(** the value read at [m[k1][k2]] *)
Definition at2 (m : gmap K1 (gmap K2 V)) (k1 : K1) (k2 : K2) : V :=
    at1 zero (at1 ∅ m k1) k2.

(** [m[k1][k2] = f(m[k1][k2])] *)
Definition upd2 (f : V -> V) (k1 : K1) (k2 : K2)
      (m : gmap K1 (gmap K2 V)) : gmap K1 (gmap K2 V) :=
    upd1 ∅ (upd1 zero f k2) k1 m.
End NestedMaps.

Section NestedMaps3.
Context {K1 K2 K3 V : Type} `{Countable K1} `{Countable K2} `{Countable K3}.
Variable zero : V.

(** the value read at [m[k1][k2][k3]] *)
Definition at3 (m : gmap K1 (gmap K2 (gmap K3 V))) (k1 : K1) (k2 : K2)
      (k3 : K3) : V :=
    at2 zero (at1 ∅ m k1) k2 k3.

(** [m[k1][k2][k3] = f(m[k1][k2][k3])] *)
Definition upd3 (f : V -> V) (k1 : K1) (k2 : K2) (k3 : K3)
      (m : gmap K1 (gmap K2 (gmap K3 V))) : gmap K1 (gmap K2 (gmap K3 V)) :=
    upd1 ∅ (upd2 zero f k2 k3) k1 m.
End NestedMaps3.

(** ** [std::vector] positions

    An iterator is a position; [deref v i] is [*it], defined only inside the
    vector. *)
Definition deref (v : list Q) (i : Z) : option Q :=
  if (i <? 0)%Z then None else v !! Z.to_nat i.

(** [std::lower_bound(v.begin(), v.end(), x)]: the furthest position such
    that every element before it is [< x]. *)
Fixpoint lower_bound (v : list Q) (x : Q) : nat :=
  match v with
  | [] => O
  | a :: v' => if Qltb a x then S (lower_bound v' x) else O
  end.

(** [*std::max_element(v.begin(), v.end())]: the first greatest element;
    on an empty vector the result is [end()] and must not be read. *)
Definition max_element (v : list Q) : option Q :=
  match v with
  | [] => None
  | a :: v' =>
      Some (fold_left (fun largest x => if Qltb largest x then x else largest) v' a)
  end.

(** ** [EventReport<Tstate,Tevent,T>] with [T] exact *)
Module Report.
Section EventReport.
Context {Tstate Tevent : Type} `{Countable Tstate} `{Countable Tevent}.

Record EventReport := mkEventReport {
    _max : Q;
    _partition : list Q;
    _prev : gmap Tstate (gmap Q Z);
    _pt : gmap Tstate (gmap Q Q);
    _events : gmap Tstate (gmap Tevent (gmap Q Z))
  }.

Definition setPartition (partition : list Q) (r : EventReport)
      : option EventReport :=
    match max_element partition with
    | None => None
    | Some m =>
        Some {| _max := m; _partition := partition; _prev := _prev r;
                _pt := _pt r; _events := _events r |}
    end.

Definition clear (r : EventReport) : EventReport :=
    {| _max := _max r; _partition := []; _prev := ∅; _pt := ∅; _events := ∅ |}.

(** The two statements of the loop body, for the bucket that starts at
      [a = *it] and ends at [b = *(it+1)]. *)
Definition credit (lhs rhs a b : Q) : Q :=
    (if Qltb b rhs then b else rhs) - (if Qltb a lhs then lhs else a).

Definition body_pt (state : Tstate) (lhs rhs a b : Q)
      (pt : gmap Tstate (gmap Q Q)) : gmap Tstate (gmap Q Q) :=
    upd2 0 (fun x => x + credit lhs rhs a b) state a pt.

Definition body_prev (state : Tstate) (lhs rhs a : Q)
      (prev : gmap Tstate (gmap Q Z)) : gmap Tstate (gmap Q Z) :=
    if Qleb lhs a && Qltb a rhs
    then upd2 0%Z (fun n => (n + 1)%Z) state a prev
    else prev.

(** The [for] loop of [add]: [it] walks the partition, here as the suffix
      that starts at [it] together with its index.  The loop test reads
      [*it]; the body reads [*(it+1)]. *)
Fixpoint add_loop (state : Tstate) (lhs rhs itmax : Q) (suffix : list Q)
      (it : nat) (pt : gmap Tstate (gmap Q Q)) (prev : gmap Tstate (gmap Q Z))
      : option (gmap Tstate (gmap Q Q) * gmap Tstate (gmap Q Z) * nat) :=
    match suffix with
    | [] => None
    | a :: rest =>
        if Qltb a itmax then
          match rest with
          | [] => None
          | b :: _ =>
              add_loop state lhs rhs itmax rest (S it)
                       (body_pt state lhs rhs a b pt)
                       (body_prev state lhs rhs a prev)
          end
        else Some (pt, prev, it)
    end.

Definition add (state : Tstate) (event : Tevent) (lhs rhs : Q)
      (r : EventReport) : option EventReport :=
    let v := _partition r in
    let lo0 := Z.of_nat (lower_bound v lhs) in
    match deref v lo0 with
    | None => None
    | Some x =>
        let lo := if Qltb lhs x then (lo0 - 1)%Z else lo0 in
        let itmax := if Qltb rhs (_max r) then rhs else _max r in
        if (lo <? 0)%Z then None       (* [*it] one before [begin()] *)
        else
          match add_loop state lhs rhs itmax (drop (Z.to_nat lo) v)
                         (Z.to_nat lo) (_pt r) (_prev r) with
          | None => None
          | Some (pt', prev', it) =>
              if Qltb rhs (_max r) then
                match deref v (Z.of_nat it - 1) with
                | None => None
                | Some a =>
                    Some {| _max := _max r; _partition := v; _prev := prev';
                            _pt := pt';
                            _events :=
                              upd3 0%Z (fun n => (n + 1)%Z) state event a
                                   (_events r) |}
                end
              else
                Some {| _max := _max r; _partition := v; _prev := prev';
                        _pt := pt'; _events := _events r |}
          end
    end.

(** Readers of the three tables, with the value of an absent entry. *)
Definition pt_at (r : EventReport) (s : Tstate) (a : Q) : Q :=
    at2 0 (_pt r) s a.
Definition prev_at (r : EventReport) (s : Tstate) (a : Q) : Z :=
    at2 0%Z (_prev r) s a.
Definition events_at (r : EventReport) (s : Tstate) (e : Tevent) (a : Q) : Z :=
    at3 0%Z (_events r) s e a.

(** The sum of all person-time entries, over every state and bucket. *)
Definition sum_values (m : gmap Q Q) : Q :=
    map_fold (fun _ x acc => x + acc) 0 m.
Definition sum_rows (pt : gmap Tstate (gmap Q Q)) : Q :=
    map_fold (fun _ inner acc => sum_values inner + acc) 0 pt.
Definition total_pt (r : EventReport) : Q := sum_rows (_pt r).

(** What [setPartition] establishes when it is given a strictly increasing
      sequence of cutpoints. *)
Definition well_formed (r : EventReport) : Prop :=
    StronglySorted Qlt (_partition r) /\ last (_partition r) = Some (_max r).

End EventReport.
Arguments EventReport : clear implicits.
Arguments EventReport _ _ {_ _ _ _}.
End Report.

(** Whether a sequence of cutpoints is strictly increasing. *)
Fixpoint increasing (v : list Q) : bool :=
  match v with
  | a :: (b :: _) as rest => Qltb a b && increasing rest
  | _ => true
  end.

(** A report with cutpoints 0, 1, 2 and no record yet, as
    [clear(); setPartition({0,1,2})] leaves it. *)
Definition report3 : Report.EventReport Z Z :=
  Report.mkEventReport 2 [0; 1; 2] ∅ ∅ ∅.


(** * The simulation kernel and [cProcess]

    [cMessage] and [cProcess] are in [microsimulation.h]; the kernel they
    call ([ssim::Sim]) is not, and is modelled from the specification. *)
Module Kernel.

(** The dynamic class of a message: [cMessage] itself or one of the two
    classes derived from it in [fhcrc-example.cpp] (what [dynamic_cast]
    tests). *)
Inductive message_class :=
| PlainMessage
| MessageUtilityChange (change : Q)
| MessageUtility (utility : Q).

Record cMessage := mkMessage {
  kind : Z;
  name : string;
  sendingTime : Q;
  timestamp : Q;
  dynamic_class : message_class
}.

(** [cMessage(k, n)] at clock [now]: the constructor stamps [sendingTime];
    [timestamp] is left unset until [scheduleAt] (0 stands for that). *)
Definition new_cMessage (now : Q) (k : Z) (n : string) (c : message_class)
    : cMessage :=
  {| kind := k; name := n; sendingTime := now; timestamp := 0;
     dynamic_class := c |}.

(** [cMessageKindEq] and [cMessageNameEq]. *)
Definition cMessageKindEq (k : Z) (msg : cMessage) : bool :=
  bool_decide (kind msg = k).
Definition cMessageNameEq (s : string) (msg : cMessage) : bool :=
  bool_decide (name msg = s).

Inductive error := TimeReversal | AlreadyRunning | UndefinedBehaviour.

Inductive result (A : Type) :=
| Ok (a : A)
| Err (e : error).
Arguments Ok {A} a.
Arguments Err {A} e.

(** ** The kernel state *)

(** Modelled from the spec: a queue entry is (timestamp, insertion order,
    message); [ssim.h] is not among the sources. *)
Record Entry := mkEntry { e_time : Q; e_seq : nat; e_msg : cMessage }.

(** Modelled from the spec: the simulation context (clock, queue, running
    flag, attached process) with the counter of insertions. *)
Record Sim := mkSim {
  clock : Q;
  queue : list Entry;
  next_seq : nat;
  running : bool;
  attached : bool
}.

Definition initial_sim : Sim :=
  {| clock := 0; queue := []; next_seq := O; running := false; attached := false |}.

(** Modelled from the spec: [Sim::self_signal_event(msg, delay)] inserts the
    message [delay] after the clock with the next insertion number, and
    scheduling in the past fails with [TimeReversal]. *)
Definition self_signal_event (msg : cMessage) (delay : Q) (s : Sim) : result Sim :=
  if Qltb delay 0 then Err TimeReversal
  else Ok {| clock := clock s;
             queue := queue s ++ [mkEntry (clock s + delay) (next_seq s) msg];
             next_seq := S (next_seq s);
             running := running s;
             attached := attached s |}.

(** Modelled from the spec: [stop()] clears the running flag. *)
Definition stop_simulation (s : Sim) : Sim :=
  {| clock := clock s; queue := queue s; next_seq := next_seq s;
     running := false; attached := attached s |}.

(** Modelled from the spec: [remove_if(pred)] removes every entry whose
    message satisfies [pred]. *)
Definition remove_event (pred : cMessage -> bool) (s : Sim) : Sim :=
  {| clock := clock s;
     queue := filter (fun e => pred (e_msg e) = false) (queue s);
     next_seq := next_seq s; running := running s; attached := attached s |}.

(** Modelled from the spec: [clear()] drops the queue, resets the clock and
    detaches the process. *)
Definition clear (s : Sim) : Sim :=
  {| clock := 0; queue := []; next_seq := next_seq s; running := false;
     attached := false |}.

(** Modelled from the spec: the queue order, smallest timestamp first and
    insertion order among equal timestamps. *)
Definition earlier (x y : Entry) : bool :=
  Qltb (e_time x) (e_time y)
  || (Qeq_bool (e_time x) (e_time y) && (e_seq x <? e_seq y)%nat).

(** Modelled from the spec: the minimum entry of the queue and the queue
    without it. *)
Fixpoint pop_min (q : list Entry) : option (Entry * list Entry) :=
  match q with
  | [] => None
  | x :: q' =>
      match pop_min q' with
      | None => Some (x, [])
      | Some (y, rest) => if earlier y x then Some (y, x :: rest) else Some (x, q')
      end
  end.

(** ** Processes *)

(** What a handler asks of the kernel.  A handler runs to completion before
    the kernel looks at its queue again and never reads the queue, so its
    calls are collected in program order and carried out in that order when
    it returns. *)
Inductive request :=
| SelfSignal (msg : cMessage) (delay : Q)
| RemoveEvent (pred : cMessage -> bool)
| StopSimulation.

Definition exec_request (r : request) (s : Sim) : result Sim :=
  match r with
  | SelfSignal msg delay => self_signal_event msg delay s
  | RemoveEvent pred => Ok (remove_event pred s)
  | StopSimulation => Ok (stop_simulation s)
  end.

Fixpoint exec_requests (rs : list request) (s : Sim) : result Sim :=
  match rs with
  | [] => Ok s
  | r :: rs' =>
      match exec_request r s with
      | Ok s' => exec_requests rs' s'
      | Err e => Err e
      end
  end.

Section Process.
Context {P : Type}.

(** [cProcess]: the field [previousEventTime] and the state of the derived
    class. *)
Record cProcess := mkProcess { previousEventTime : Q; self : P }.

(** The state a handler works on: the state of the derived class, the two
    times it reads ([previousEventTime], which no handler of these sources
    assigns, and the clock behind [now()]), and its calls into the kernel so
    far. *)
Record HState := mkHState {
  h_self : P;
  h_previousEventTime : Q;
  h_now : Q;
  h_calls : list request
}.

Definition H (A : Type) : Type := HState -> result (A * HState).

Definition ret {A : Type} (a : A) : H A := fun h => Ok (a, h).

Definition bind {A B : Type} (m : H A) (f : A -> H B) : H B :=
  fun h => match m h with
           | Ok (a, h') => f a h'
           | Err e => Err e
           end.

Definition now : H Q := fun h => Ok (h_now h, h).

Definition get_previousEventTime : H Q :=
  fun h => Ok (h_previousEventTime h, h).

Definition get_self : H P := fun h => Ok (h_self h, h).

Definition put_self (p : P) : H unit :=
  fun h => Ok (tt, {| h_self := p;
                      h_previousEventTime := h_previousEventTime h;
                      h_now := h_now h; h_calls := h_calls h |}).

Definition fail {A : Type} (e : error) : H A := fun _ => Err e.

Definition call (r : request) : H unit :=
  fun h => Ok (tt, {| h_self := h_self h;
                      h_previousEventTime := h_previousEventTime h;
                      h_now := h_now h;
                      h_calls := h_calls h ++ [r] |}).

(** [cProcess::scheduleAt(t, msg)]: [msg->timestamp = t;
    Sim::self_signal_event(msg, t - Sim::clock())]. *)
Definition scheduleAt (t : Q) (msg : cMessage) : H unit :=
  fun h =>
    call (SelfSignal {| kind := kind msg; name := name msg;
                        sendingTime := sendingTime msg; timestamp := t;
                        dynamic_class := dynamic_class msg |}
                     (t - h_now h)) h.

(** [scheduleAt(t, new cMessage(k))] and the like: the message is
    constructed at the call. *)
Definition scheduleAt_new (t : Q) (k : Z) (n : string) (c : message_class)
    : H unit :=
  fun h => scheduleAt t (new_cMessage (h_now h) k n c) h.

(** [cProcess::scheduleAt(t, short k)] *)
Definition scheduleAt_kind (t : Q) (k : Z) : H unit :=
  scheduleAt_new t k "" PlainMessage.

(** [cProcess::scheduleAt(t, string n)] *)
Definition scheduleAt_name (t : Q) (n : string) : H unit :=
  scheduleAt_new t (-1)%Z n PlainMessage.

Definition RemoveKind (k : Z) : H unit := call (RemoveEvent (cMessageKindEq k)).

Definition Sim_stop_simulation : H unit := call StopSimulation.

(** The interface of a process: [init()] and [handleMessage(msg)]. *)
Class Process := {
  init : H unit;
  handleMessage : cMessage -> H unit
}.

(** One dispatch, as the log of a run keeps it: the entry, the
    [previousEventTime] that its handler found, and the insertion counter of
    the kernel when the handler started. *)
Record Dispatch := mkDispatch { d_entry : Entry; d_prev : Q; d_next_seq : nat }.

(** The world of one run: kernel, process, and the log of dispatches, most
    recent first. *)
Record World := mkWorld {
  sim : Sim;
  process : cProcess;
  dispatched : list Dispatch
}.

(** Runs a handler at the current clock and carries out its calls. *)
Definition run_handler (m : H unit) (w : World) : result World :=
  match m {| h_self := self (process w);
             h_previousEventTime := previousEventTime (process w);
             h_now := clock (sim w); h_calls := [] |} with
  | Err e => Err e
  | Ok (_, h) =>
      match exec_requests (h_calls h) (sim w) with
      | Err e => Err e
      | Ok s =>
          Ok {| sim := s;
                process := {| previousEventTime := previousEventTime (process w);
                              self := h_self h |};
                dispatched := dispatched w |}
      end
  end.

(** [cProcess::process_event]: [handleMessage(msg); previousEventTime =
    Sim::clock();].  Every event of these models is a [cMessage]. *)
Definition process_event `{Process} (msg : cMessage) (w : World) : result World :=
  match run_handler (handleMessage msg) w with
  | Err e => Err e
  | Ok w' =>
      Ok {| sim := sim w';
            process := {| previousEventTime := clock (sim w');
                          self := self (process w') |};
            dispatched := dispatched w' |}
  end.

(** Modelled from the spec: [create_process(p)] attaches [p] and calls
    [p.init()]; it fails with [AlreadyRunning] if a process is attached. *)
Definition create_process `{Process} (p : cProcess) (s : Sim) : result World :=
  if attached s then Err AlreadyRunning
  else
    run_handler init
      {| sim := {| clock := clock s; queue := queue s; next_seq := next_seq s;
                   running := running s; attached := true |};
         process := p; dispatched := [] |}.

Inductive outcome := Finished | OutOfFuel.

(** Modelled from the spec: the kernel takes the entry [e] off its queue,
    advances the clock to its timestamp, and logs the dispatch. *)
Definition popped (e : Entry) (rest : list Entry) (w : World) : World :=
  {| sim := {| clock := e_time e; queue := rest;
               next_seq := next_seq (sim w);
               running := running (sim w);
               attached := attached (sim w) |};
     process := process w;
     dispatched :=
       mkDispatch e (previousEventTime (process w)) (next_seq (sim w))
       :: dispatched w |}.

(** Modelled from the spec: the dispatch loop of [run()]: pop the minimum
    entry, advance the clock to its timestamp, dispatch; exit when the queue
    is empty or [stop()] was invoked.  [fuel] bounds the number of
    dispatches. *)
Fixpoint run_loop `{Process} (fuel : nat) (w : World) : result (outcome * World) :=
  if negb (running (sim w)) then Ok (Finished, w)
  else
    match pop_min (queue (sim w)) with
    | None => Ok (Finished, w)
    | Some (e, rest) =>
        match fuel with
        | O => Ok (OutOfFuel, w)
        | S fuel' =>
            match process_event (e_msg e) (popped e rest w) with
            | Err x => Err x
            | Ok w2 => run_loop fuel' w2
            end
        end
    end.

(** Modelled from the spec: [run()] sets the running flag and enters the
    loop. *)
Definition run_simulation `{Process} (fuel : nat) (w : World)
    : result (outcome * World) :=
  run_loop fuel
    {| sim := {| clock := clock (sim w); queue := queue (sim w);
                 next_seq := next_seq (sim w); running := true;
                 attached := attached (sim w) |};
       process := process w; dispatched := dispatched w |}.

(** The log of a run in the order of dispatch. *)
Definition log (w : World) : list Dispatch := rev (dispatched w).

(** The process as its constructor leaves it: [cProcess() :
    previousEventTime(0.0)]. *)
Definition new_cProcess (p : P) : cProcess :=
  {| previousEventTime := 0; self := p |}.

(** One individual, as the drivers run it: [Sim::create_process(&person);
    Sim::run_simulation();]. *)
Definition simulate `{Process} (fuel : nat) (p : P) (s : Sim)
    : result (outcome * World) :=
  match create_process (new_cProcess p) s with
  | Err e => Err e
  | Ok w => run_simulation fuel w
  end.

End Process.
Arguments cProcess : clear implicits.
Arguments HState : clear implicits.
Arguments H : clear implicits.
Arguments World : clear implicits.
Arguments Process : clear implicits.

(** The log of a run as (kind, time) pairs. *)
Definition trace_of {P : Type} (w : World P) : list (Z * Q) :=
  map (fun d => (kind (e_msg (d_entry d)), e_time (d_entry d))) (log w).

(** Handlers are written with [x ← m; k] and [m;; k]. *)
#[global] Instance H_ret (P : Type) : MRet (H P) := fun A a => ret a.
#[global] Instance H_bind (P : Type) : MBind (H P) := fun A B f m => bind m f.

End Kernel.

(** * Random variates

    A random variate is an input of the simulation.  The value that the
    [n]-th draw on stream [s] returns is [variates s n]; the distribution of
    a draw constrains that value (a uniform variate lies in (0,1), a Weibull
    variate is positive) and theorems state such constraints where they
    need them.  [Rng::set()] selects the stream that the next draws read. *)
Module Random.

Record state := mkState {
  variates : nat -> nat -> Q;
  current_stream : nat;
  position : gmap nat nat
}.

(** How many variates were read from a stream. *)
Definition read_so_far (g : state) (stream : nat) : nat :=
  default O (position g !! stream).

Definition draw (g : state) : Q * state :=
  let n := read_so_far g (current_stream g) in
  (variates g (current_stream g) n,
   {| variates := variates g;
      current_stream := current_stream g;
      position := <[current_stream g := S n]> (position g) |}).

Definition set (stream : nat) (g : state) : state :=
  {| variates := variates g; current_stream := stream; position := position g |}.

Definition start (v : nat -> nat -> Q) : state :=
  {| variates := v; current_stream := O; position := ∅ |}.

End Random.

(** * The illness-death model ([illness-death.cpp]) *)
Module IllnessDeath.
Import Kernel.

Inductive state_t := Healthy | Cancer.
Inductive event_t := toOtherDeath | toCancer | toCancerDeath.

(** The enumerators as [short]. *)
Definition state_code (s : state_t) : Z :=
  match s with Healthy => 0 | Cancer => 1 end.
Definition event_code (e : event_t) : Z :=
  match e with toOtherDeath => 0 | toCancer => 1 | toCancerDeath => 2 end.

(** [SimplePerson], with the two objects of the namespace that its methods
    use: the [EventReport<short,short,double> report] and the generator
    behind [R::runif] and [R::rweibull]. *)
Record SimplePerson := mkPerson {
  state : state_t;
  id : Z;
  z : Q;
  report : Report.EventReport Z Z;
  rng : Random.state
}.

(** [SimplePerson(i)]; [state] and [z] are set by [init()]. *)
Definition new_SimplePerson (i : Z) (rep : Report.EventReport Z Z)
    (g : Random.state) : SimplePerson :=
  {| state := Healthy; id := i; z := 1; report := rep; rng := g |}.

(** A call of [R::runif] or [R::rweibull]: the realised variate. *)
Definition R_draw : H SimplePerson Q :=
  p ← get_self;
  let '(x, g) := Random.draw (rng p) in
  put_self {| state := state p; id := id p; z := z p; report := report p;
              rng := g |};;
  mret x.

Definition set_state (s : state_t) : H SimplePerson unit :=
  p ← get_self;
  put_self {| state := s; id := id p; z := z p; report := report p;
              rng := rng p |}.

Definition set_z (x : Q) : H SimplePerson unit :=
  p ← get_self;
  put_self {| state := state p; id := id p; z := x; report := report p;
              rng := rng p |}.

(** [report.add(state, event, lhs, rhs)] on the report of the namespace. *)
Definition report_add (s e : Z) (lhs rhs : Q) : H SimplePerson unit :=
  p ← get_self;
  match Report.add s e lhs rhs (report p) with
  | None => fail UndefinedBehaviour
  | Some r =>
      put_self {| state := state p; id := id p; z := z p; report := r;
                  rng := rng p |}
  end.

(** [toOtherDeathPred] *)
Definition toOtherDeathPred : cMessage -> bool :=
  cMessageKindEq (event_code toOtherDeath).

(** [SimplePerson::init()].  The scale [b_weibull(..)] of the Weibull
    variates goes through [gammafn] and [pow] and only shapes the
    distribution of the variate that is read. *)
Definition SimplePerson_init : H SimplePerson unit :=
  set_state Healthy;;
  set_z 1;;
  t ← R_draw;
  scheduleAt_kind t (event_code toOtherDeath);;
  u ← R_draw;
  if Qltb u (1 # 10) then
    t' ← R_draw;
    scheduleAt_kind t' (event_code toCancer)
  else mret tt.

(** [SimplePerson::handleMessage(msg)] *)
Definition SimplePerson_handleMessage (msg : cMessage) : H SimplePerson unit :=
  p ← get_self;
  prev ← get_previousEventTime;
  t ← now;
  report_add (state_code (state p)) (kind msg) prev t;;
  if bool_decide (kind msg = event_code toOtherDeath)
     || bool_decide (kind msg = event_code toCancerDeath) then
    Sim_stop_simulation
  else if bool_decide (kind msg = event_code toCancer) then
    set_state Cancer;;
    call (RemoveEvent toOtherDeathPred);;
    u ← R_draw;
    if Qltb u (1 # 2) then
      w ← R_draw;
      t ← now;
      scheduleAt_kind (t + w) (event_code toCancerDeath)
    else mret tt
  else mret tt.

#[global] Instance SimplePerson_process : Process SimplePerson :=
  {| init := SimplePerson_init; handleMessage := SimplePerson_handleMessage |}.

(** The partition of [callIllnessDeath]: 0, 1, ..., 100 and 1.0e+6. *)
Definition ages : list Q :=
  map (fun n => inject_Z (Z.of_nat n)) (seq 0 101) ++ [1000000].

(** The report as [report.clear(); report.setPartition(ages)] leaves it. *)
Definition initial_report : Report.EventReport Z Z :=
  Report.mkEventReport 1000000 ages ∅ ∅ ∅.

(** One iteration of the loop of [callIllnessDeath]:
    [person = SimplePerson(i); Sim::create_process(&person);
     Sim::run_simulation(); Sim::clear();] *)
Definition simulate_person (fuel : nat) (i : Z) (rep : Report.EventReport Z Z)
    (g : Random.state) (s : Sim) : result (outcome * World SimplePerson) :=
  match simulate fuel (new_SimplePerson i rep g) s with
  | Err e => Err e
  | Ok (o, w) =>
      Ok (o, {| sim := clear (sim w); process := process w;
                dispatched := dispatched w |})
  end.

End IllnessDeath.

(** * The prostate-cancer model ([fhcrc-example.cpp]) *)
Module Fhcrc.
Import Kernel.

Module base.
Inductive grade_t := Gleason_le_7 | Gleason_ge_8.
End base.

Module ext.
Inductive grade_t := Gleason_le_6 | Gleason_7 | Gleason_ge_8.
End ext.

Inductive state_t := Healthy | Localised | Metastatic.

Inductive diagnosis_t := NotDiagnosed | ClinicalDiagnosis | ScreenDiagnosis.

Inductive event_t :=
| toLocalised | toMetastatic | toClinicalDiagnosis | toCancerDeath
| toOtherDeath | toScreen | toBiopsyFollowUpScreen | toScreenInitiatedBiopsy
| toClinicalDiagnosticBiopsy | toScreenDiagnosis | toOrganised | toTreatment
| toCM | toRP | toRT | toADT | toUtilityChange | toUtility.

Inductive screen_t :=
| noScreening | randomScreen50to70 | twoYearlyScreen50to70
| fourYearlyScreen50to70 | screen50 | screen60 | screen70 | screenUptake
| stockholm3_goteborg | stockholm3_risk_stratified.

Inductive treatment_t := no_treatment | CM | RP | RT.

(** The enumerators as integers. *)
Definition grade_code (g : base.grade_t) : Z :=
  match g with base.Gleason_le_7 => 0 | base.Gleason_ge_8 => 1 end.
Definition ext_grade_code (g : ext.grade_t) : Z :=
  match g with ext.Gleason_le_6 => 0 | ext.Gleason_7 => 1 | ext.Gleason_ge_8 => 2 end.
Definition state_code (s : state_t) : Z :=
  match s with Healthy => 0 | Localised => 1 | Metastatic => 2 end.
Definition diagnosis_code (d : diagnosis_t) : Z :=
  match d with NotDiagnosed => 0 | ClinicalDiagnosis => 1 | ScreenDiagnosis => 2 end.
Definition treatment_code (t : treatment_t) : Z :=
  match t with no_treatment => 0 | CM => 1 | RP => 2 | RT => 3 end.
Definition event_code (e : event_t) : Z :=
  match e with
  | toLocalised => 0 | toMetastatic => 1 | toClinicalDiagnosis => 2
  | toCancerDeath => 3 | toOtherDeath => 4 | toScreen => 5
  | toBiopsyFollowUpScreen => 6 | toScreenInitiatedBiopsy => 7
  | toClinicalDiagnosticBiopsy => 8 | toScreenDiagnosis => 9
  | toOrganised => 10 | toTreatment => 11 | toCM => 12 | toRP => 13
  | toRT => 14 | toADT => 15 | toUtilityChange => 16 | toUtility => 17
  end.
Definition event_of_code (k : Z) : option event_t :=
  match k with
  | 0 => Some toLocalised | 1 => Some toMetastatic
  | 2 => Some toClinicalDiagnosis | 3 => Some toCancerDeath
  | 4 => Some toOtherDeath | 5 => Some toScreen
  | 6 => Some toBiopsyFollowUpScreen | 7 => Some toScreenInitiatedBiopsy
  | 8 => Some toClinicalDiagnosticBiopsy | 9 => Some toScreenDiagnosis
  | 10 => Some toOrganised | 11 => Some toTreatment | 12 => Some toCM
  | 13 => Some toRP | 14 => Some toRT | 15 => Some toADT
  | 16 => Some toUtilityChange | 17 => Some toUtility
  | _ => None
  end%Z.
Definition screen_of_code (k : Z) : option screen_t :=
  match k with
  | 0 => Some noScreening | 1 => Some randomScreen50to70
  | 2 => Some twoYearlyScreen50to70 | 3 => Some fourYearlyScreen50to70
  | 4 => Some screen50 | 5 => Some screen60 | 6 => Some screen70
  | 7 => Some screenUptake | 8 => Some stockholm3_goteborg
  | 9 => Some stockholm3_risk_stratified
  | _ => None
  end%Z.

(** [FullState::Type]: (state, ext_grade, dx, psa_ge_3, cohort). *)
Definition FullState : Type := Z * Z * Z * bool * Q.

(** The random streams [rngNh], [rngOther], [rngScreen], [rngTreatment]. *)
Definition rngNh : nat := 0.
Definition rngOther : nat := 1.
Definition rngScreen : nat := 2.
Definition rngTreatment : nat := 3.

(** What the model takes from outside the sources at hand: the parameter
    vectors and tables that [callFhcrc] reads from its argument, the
    elementary functions of the C library, and the classes [Table],
    [NumericInterpolate] and [Rpexp::rand] seen as functions. *)
Record Externals := mkExternals {
  parameter : string -> Q;
  utility_estimates : string -> Q;
  utility_duration : string -> Q;
  mubeta2 : base.grade_t -> Q;
  sebeta2 : base.grade_t -> Q;
  screen : Z;
  x_exp : Q -> Q;
  x_log : Q -> Q;
  x_sqrt : Q -> Q;
  prtxCM : Q * Q * Z -> Q;
  prtxRP : Q * Q * Z -> Q;
  pradt : Z * Q * Q * Z -> Q;
  tableBiopsyCompliance : Q * Q -> Q;
  rescreen_cure : Q * Q -> Q;
  interp_prob_grade7_approx : Q -> Q;
  rmu0_rand : Q -> Q -> Q;
  (** [calculate_survival(u, age_diag, age_c, tx)] for a person with the
      given [tm] and [grade]; embedded over the reals in module Survival *)
  x_calculate_survival : Q -> Q -> Q -> treatment_t -> Q -> base.grade_t -> Q
}.

(** [FhcrcPerson], with the objects of the namespace that enter the claims:
    the event report and the random streams.  The cost report, the life
    histories and the parameter and PSA records are write-only logs of the
    run and are left out. *)
Record FhcrcPerson := mkPerson {
  beta0 : Q; beta1 : Q; beta2 : Q;
  t0 : Q; y0 : Q; tm : Q; tc : Q; tmc : Q;
  state : state_t;
  dx : diagnosis_t;
  grade : base.grade_t;
  ext_grade : ext.grade_t;
  tx : treatment_t;
  adt : bool;
  txhaz : Q;
  id : Z;
  cohort : Q;
  utility : Q;
  everPSA : bool;
  previousNegativeBiopsy : bool;
  organised : bool;
  report : Report.EventReport FullState Z;
  rng : Random.state
}.

(** [FhcrcPerson(id, cohort)]: the constructor sets [id], [cohort] and
    [utility]; every other member is assigned by [init()] before it is
    read. *)
Definition new_FhcrcPerson (i : Z) (c : Q)
    (rep : Report.EventReport FullState Z) (g : Random.state) : FhcrcPerson :=
  {| beta0 := 0; beta1 := 0; beta2 := 0; t0 := 0; y0 := 0; tm := 0; tc := 0;
     tmc := 0; state := Healthy; dx := NotDiagnosed;
     grade := base.Gleason_le_7; ext_grade := ext.Gleason_le_6;
     tx := no_treatment; adt := false; txhaz := 0; id := i; cohort := c;
     utility := 1; everPSA := false; previousNegativeBiopsy := false;
     organised := false; report := rep; rng := g |}.

(** Assignments to single members. *)
Definition with_state (s : state_t) (p : FhcrcPerson) : FhcrcPerson :=
  {| beta0 := beta0 p; beta1 := beta1 p; beta2 := beta2 p; t0 := t0 p;
     y0 := y0 p; tm := tm p; tc := tc p; tmc := tmc p; state := s; dx := dx p;
     grade := grade p; ext_grade := ext_grade p; tx := tx p; adt := adt p;
     txhaz := txhaz p; id := id p; cohort := cohort p; utility := utility p;
     everPSA := everPSA p; previousNegativeBiopsy := previousNegativeBiopsy p;
     organised := organised p; report := report p; rng := rng p |}.
Definition with_dx (d : diagnosis_t) (p : FhcrcPerson) : FhcrcPerson :=
  {| beta0 := beta0 p; beta1 := beta1 p; beta2 := beta2 p; t0 := t0 p;
     y0 := y0 p; tm := tm p; tc := tc p; tmc := tmc p; state := state p; dx := d;
     grade := grade p; ext_grade := ext_grade p; tx := tx p; adt := adt p;
     txhaz := txhaz p; id := id p; cohort := cohort p; utility := utility p;
     everPSA := everPSA p; previousNegativeBiopsy := previousNegativeBiopsy p;
     organised := organised p; report := report p; rng := rng p |}.
Definition with_tx (t : treatment_t) (p : FhcrcPerson) : FhcrcPerson :=
  {| beta0 := beta0 p; beta1 := beta1 p; beta2 := beta2 p; t0 := t0 p;
     y0 := y0 p; tm := tm p; tc := tc p; tmc := tmc p; state := state p;
     dx := dx p; grade := grade p; ext_grade := ext_grade p; tx := t;
     adt := adt p; txhaz := txhaz p; id := id p; cohort := cohort p;
     utility := utility p; everPSA := everPSA p;
     previousNegativeBiopsy := previousNegativeBiopsy p;
     organised := organised p; report := report p; rng := rng p |}.
Definition with_adt (b : bool) (p : FhcrcPerson) : FhcrcPerson :=
  {| beta0 := beta0 p; beta1 := beta1 p; beta2 := beta2 p; t0 := t0 p;
     y0 := y0 p; tm := tm p; tc := tc p; tmc := tmc p; state := state p;
     dx := dx p; grade := grade p; ext_grade := ext_grade p; tx := tx p;
     adt := b; txhaz := txhaz p; id := id p; cohort := cohort p;
     utility := utility p; everPSA := everPSA p;
     previousNegativeBiopsy := previousNegativeBiopsy p;
     organised := organised p; report := report p; rng := rng p |}.
Definition with_utility (u : Q) (p : FhcrcPerson) : FhcrcPerson :=
  {| beta0 := beta0 p; beta1 := beta1 p; beta2 := beta2 p; t0 := t0 p;
     y0 := y0 p; tm := tm p; tc := tc p; tmc := tmc p; state := state p;
     dx := dx p; grade := grade p; ext_grade := ext_grade p; tx := tx p;
     adt := adt p; txhaz := txhaz p; id := id p; cohort := cohort p;
     utility := u; everPSA := everPSA p;
     previousNegativeBiopsy := previousNegativeBiopsy p;
     organised := organised p; report := report p; rng := rng p |}.
Definition with_everPSA (b : bool) (p : FhcrcPerson) : FhcrcPerson :=
  {| beta0 := beta0 p; beta1 := beta1 p; beta2 := beta2 p; t0 := t0 p;
     y0 := y0 p; tm := tm p; tc := tc p; tmc := tmc p; state := state p;
     dx := dx p; grade := grade p; ext_grade := ext_grade p; tx := tx p;
     adt := adt p; txhaz := txhaz p; id := id p; cohort := cohort p;
     utility := utility p; everPSA := b;
     previousNegativeBiopsy := previousNegativeBiopsy p;
     organised := organised p; report := report p; rng := rng p |}.
Definition with_previousNegativeBiopsy (b : bool) (p : FhcrcPerson)
    : FhcrcPerson :=
  {| beta0 := beta0 p; beta1 := beta1 p; beta2 := beta2 p; t0 := t0 p;
     y0 := y0 p; tm := tm p; tc := tc p; tmc := tmc p; state := state p;
     dx := dx p; grade := grade p; ext_grade := ext_grade p; tx := tx p;
     adt := adt p; txhaz := txhaz p; id := id p; cohort := cohort p;
     utility := utility p; everPSA := everPSA p;
     previousNegativeBiopsy := b;
     organised := organised p; report := report p; rng := rng p |}.
Definition with_organised (b : bool) (p : FhcrcPerson) : FhcrcPerson :=
  {| beta0 := beta0 p; beta1 := beta1 p; beta2 := beta2 p; t0 := t0 p;
     y0 := y0 p; tm := tm p; tc := tc p; tmc := tmc p; state := state p;
     dx := dx p; grade := grade p; ext_grade := ext_grade p; tx := tx p;
     adt := adt p; txhaz := txhaz p; id := id p; cohort := cohort p;
     utility := utility p; everPSA := everPSA p;
     previousNegativeBiopsy := previousNegativeBiopsy p;
     organised := b; report := report p; rng := rng p |}.
Definition with_report (r : Report.EventReport FullState Z) (p : FhcrcPerson)
    : FhcrcPerson :=
  {| beta0 := beta0 p; beta1 := beta1 p; beta2 := beta2 p; t0 := t0 p;
     y0 := y0 p; tm := tm p; tc := tc p; tmc := tmc p; state := state p;
     dx := dx p; grade := grade p; ext_grade := ext_grade p; tx := tx p;
     adt := adt p; txhaz := txhaz p; id := id p; cohort := cohort p;
     utility := utility p; everPSA := everPSA p;
     previousNegativeBiopsy := previousNegativeBiopsy p;
     organised := organised p; report := r; rng := rng p |}.
Definition with_rng (g : Random.state) (p : FhcrcPerson) : FhcrcPerson :=
  {| beta0 := beta0 p; beta1 := beta1 p; beta2 := beta2 p; t0 := t0 p;
     y0 := y0 p; tm := tm p; tc := tc p; tmc := tmc p; state := state p;
     dx := dx p; grade := grade p; ext_grade := ext_grade p; tx := tx p;
     adt := adt p; txhaz := txhaz p; id := id p; cohort := cohort p;
     utility := utility p; everPSA := everPSA p;
     previousNegativeBiopsy := previousNegativeBiopsy p;
     organised := organised p; report := report p; rng := g |}.

(** [bounds(x, a, b)] *)
Definition bounds (x a b : Q) : Q :=
  if Qltb x a then a else if Qltb b x then b else x.

Definition modify (f : FhcrcPerson -> FhcrcPerson) : H FhcrcPerson unit :=
  p ← get_self; put_self (f p).

(** A call of one of [R::runif], [R::rexp], [R::rnorm], [R::rnormPos],
    [R::rweibull], [R::rllogis], [R::rllogis_trunc]: the realised variate,
    read from the current stream. *)
Definition R_draw : H FhcrcPerson Q :=
  p ← get_self;
  let '(x, g) := Random.draw (rng p) in
  put_self (with_rng g p);;
  mret x.

(** [rng->set()] *)
Definition Rng_set (stream : nat) : H FhcrcPerson unit :=
  modify (fun p => with_rng (Random.set stream (rng p)) p).

(** [scheduleAt(t, kind)] for an enumerator. *)
Definition schedule (t : Q) (e : event_t) : H FhcrcPerson unit :=
  scheduleAt_kind t (event_code e).

(** [scheduleAt(t, new cMessageUtilityChange(change))] *)
Definition schedule_UtilityChange (t change : Q) : H FhcrcPerson unit :=
  scheduleAt_new t (event_code toUtilityChange) "" (MessageUtilityChange change).

(** [scheduleAt(t, new cMessageUtility(utility))] *)
Definition schedule_Utility (t u : Q) : H FhcrcPerson unit :=
  scheduleAt_new t (event_code toUtility) "" (MessageUtility u).

Section Model.
Variable X : Externals.

(** [FhcrcPerson::ymean(t)] *)
Definition ymean (p : FhcrcPerson) (t : Q) : Q :=
  let t := if Qltb t 0 then 0 else t in
  if Qltb t (t0 p) then x_exp X (beta0 p + beta1 p * t)
  else x_exp X (beta0 p + beta1 p * t + beta2 p * (t - t0 p)).

(** [FhcrcPerson::y(t)] *)
Definition y (t : Q) : H FhcrcPerson Q :=
  p ← get_self;
  n ← R_draw;
  mret (ymean p t * x_exp X n).

(** [FhcrcPerson::calculate_treatment(u, age, year)] *)
Definition calculate_treatment (p : FhcrcPerson) (u age year : Q) : treatment_t :=
  let key := (bounds age 50 79, bounds year 1973 2004, grade_code (grade p)) in
  let pCM := prtxCM X key in
  let pRP := prtxRP X key in
  if Qltb u pCM then CM else if Qltb u (pCM + pRP) then RP else RT.

(** [for (double start = 50.0; start<=70.0; start += step)
      scheduleAt(start, toScreen);] *)
Fixpoint schedule_screens (n : nat) (start step : Q) : H FhcrcPerson unit :=
  match n with
  | O => mret tt
  | S n' =>
      if Qleb start 70 then
        schedule start toScreen;;
        schedule_screens n' (start + step) step
      else mret tt
  end.

(** The first screen of [screenUptake] and of the two Stockholm-3
    scenarios. *)
Definition schedule_uptake : H FhcrcPerson unit :=
  p ← get_self;
  let cohort := cohort p in
  let pscreening :=
    if Qleb 1932 cohort then 9 # 10 else (9 # 10) - (1932 - cohort) * (3 # 100) in
  uscreening ← R_draw;
  first_screen ←
    (if Qltb 1960 cohort then
       v ← R_draw; mret (35 + v)
     else if Qltb cohort 1945 then
       v ← R_draw; mret ((1995 - cohort) + v)
     else
       let age0 := 1995 - cohort in
       u ← R_draw;
       if Qltb ((age0 - 35) / 15) u then
         v ← R_draw; mret (age0 + v)
       else
         v ← R_draw; mret (age0 + v) : H FhcrcPerson Q);
  if Qltb uscreening pscreening then schedule first_screen toScreen
  else mret tt.

(** [FhcrcPerson::init()] *)
Definition FhcrcPerson_init : H FhcrcPerson unit :=
  modify (fun p =>
    with_adt false (with_organised false (with_previousNegativeBiopsy false
      (with_everPSA false (with_dx NotDiagnosed (with_state Healthy p))))));;
  Rng_set rngNh;;
  e0 ← R_draw;
  let t0' := x_sqrt X (2 * e0 / parameter X "g0") in
  ug ← R_draw;
  let grade' :=
    if Qleb (1 + parameter X "c_low_grade_slope" * t0') ug
    then base.Gleason_ge_8 else base.Gleason_le_7 in
  beta0' ← R_draw;
  beta1' ← R_draw;
  beta2' ← R_draw;
  p ← get_self;
  let p1 :=
    {| beta0 := beta0'; beta1 := beta1'; beta2 := beta2'; t0 := t0';
       y0 := y0 p; tm := tm p; tc := tc p; tmc := tmc p; state := state p;
       dx := dx p; grade := grade'; ext_grade := ext_grade p; tx := tx p;
       adt := adt p; txhaz := txhaz p; id := id p; cohort := cohort p;
       utility := utility p; everPSA := everPSA p;
       previousNegativeBiopsy := previousNegativeBiopsy p;
       organised := organised p; report := report p; rng := rng p |} in
  let y0' := ymean p1 t0' in
  em ← R_draw;
  let tm' := (x_log X ((beta1' + beta2') * em / parameter X "gm" + y0')
              - beta0' + beta2' * t0') / (beta1' + beta2') in
  let p2 :=
    {| beta0 := beta0'; beta1 := beta1'; beta2 := beta2'; t0 := t0';
       y0 := y0'; tm := tm'; tc := tc p; tmc := tmc p; state := state p;
       dx := dx p; grade := grade'; ext_grade := ext_grade p; tx := tx p;
       adt := adt p; txhaz := txhaz p; id := id p; cohort := cohort p;
       utility := utility p; everPSA := everPSA p;
       previousNegativeBiopsy := previousNegativeBiopsy p;
       organised := organised p; report := report p; rng := rng p |} in
  let ym := ymean p2 tm' in
  ec ← R_draw;
  let tc' := (x_log X ((beta1' + beta2') * ec / parameter X "gc" + y0')
              - beta0' + beta2' * t0') / (beta1' + beta2') in
  emc ← R_draw;
  let tmc' := (x_log X ((beta1' + beta2') * emc
                        / (parameter X "gc" * parameter X "thetac") + ym)
               - beta0' + beta2' * t0') / (beta1' + beta2') in
  ua ← R_draw;
  ea ← R_draw;
  let aoc := rmu0_rand X ua ea in
  ext_grade' ←
    (match grade' with
     | base.Gleason_le_7 =>
         u7 ← R_draw;
         mret (if Qleb u7 (interp_prob_grade7_approx X beta2')
               then ext.Gleason_7 else ext.Gleason_le_6)
     | base.Gleason_ge_8 => mret ext.Gleason_ge_8
     end : H FhcrcPerson ext.grade_t);
  modify (fun q =>
    {| beta0 := beta0'; beta1 := beta1'; beta2 := beta2'; t0 := t0';
       y0 := y0'; tm := tm'; tc := tc'; tmc := tmc'; state := state q;
       dx := dx q; grade := grade'; ext_grade := ext_grade';
       tx := no_treatment; adt := adt q; txhaz := -1; id := id q;
       cohort := cohort q; utility := utility q; everPSA := everPSA q;
       previousNegativeBiopsy := previousNegativeBiopsy q;
       organised := organised q; report := report q; rng := rng q |});;
  schedule (t0' + 35) toLocalised;;
  schedule aoc toOtherDeath;;
  Rng_set rngScreen;;
  us ← R_draw;
  (if Qltb us (parameter X "screeningCompliance") then
     match screen_of_code (screen X) with
     | Some noScreening => mret tt
     | Some randomScreen50to70 => v ← R_draw; schedule v toScreen
     | Some twoYearlyScreen50to70 => schedule_screens 11 50 2
     | Some fourYearlyScreen50to70 => schedule_screens 6 50 4
     | Some screen50 => schedule 50 toScreen
     | Some screen60 => schedule 60 toScreen
     | Some screen70 => schedule 70 toScreen
     | Some stockholm3_goteborg
     | Some stockholm3_risk_stratified
     | Some screenUptake => schedule_uptake
     | None => mret tt
     end
   else mret tt);;
  up ← R_draw;
  q ← get_self;
  (if Qltb up (parameter X "studyParticipation")
      && (bool_decide (screen X = 8%Z) || bool_decide (screen X = 9%Z))
      && (Qleb 50 (2013 - cohort q) && Qltb (2013 - cohort q) 70)
   then v ← R_draw; schedule (v - cohort q) toOrganised
   else mret tt);;
  Rng_set rngNh;;
  modify (with_utility (98 # 100));;
  schedule_Utility 20 (97 # 100);;
  schedule_Utility 40 (96 # 100);;
  schedule_Utility 60 (95 # 100);;
  schedule_Utility 80 (91 # 100).

(** Modelled from the spec: [report.add(state, event, lhs, rhs)], for the
    call [report.add(FullState::Type(..), msg->kind, previousEventTime, age,
    utility)] of the handler, whose five-argument overload is not in
    [microsimulation.h] as given. *)
Definition report_add (s : FullState) (e : Z) (lhs rhs : Q)
    : H FhcrcPerson unit :=
  p ← get_self;
  match Report.add s e lhs rhs (report p) with
  | None => fail UndefinedBehaviour
  | Some r => put_self (with_report r p)
  end.

(** The follow-up after a negative biopsy. *)
Definition follow_up_screen : H FhcrcPerson unit :=
  t ← now;
  if Qltb t 70 then
    u ← R_draw;
    if Qltb u (parameter X "screeningCompliance")
    then schedule (t + 1) toBiopsyFollowUpScreen
    else mret tt
  else mret tt.

(** The cases [toBiopsyFollowUpScreen] and [toScreen] of the handler. *)
Definition handle_screen (k : event_t) (psa age : Q) : H FhcrcPerson unit :=
  t ← now;
  p ← get_self;
  (if organised p then
     schedule_UtilityChange t (- utility_estimates X "FormalPSAUtility");;
     schedule_UtilityChange (t + utility_duration X "FormalPSAUtilityDuration")
                            (utility_estimates X "FormalPSAUtility")
   else
     schedule_UtilityChange t (- utility_estimates X "OpportunisticPSAUtility");;
     schedule_UtilityChange
       (t + utility_duration X "OpportunisticPSAUtilityDuration")
       (utility_estimates X "OpportunisticPSAUtility"));;
  (if everPSA p then mret tt else modify (with_everPSA true));;
  let compliance :=
    tableBiopsyCompliance X (bounds psa 4 7, bounds age 55 75) in
  biopsy ←
    (match k with
     | toScreen =>
         if Qleb (parameter X "psaThreshold") psa then
           u ← R_draw; mret (Qltb u compliance)
         else mret false
     | toBiopsyFollowUpScreen =>
         if Qleb (parameter X "psaThresholdBiopsyFollowUp") psa then
           u ← R_draw; mret (Qltb u compliance)
         else mret false
     | _ => mret false
     end : H FhcrcPerson bool);
  if (biopsy : bool) then schedule t toScreenInitiatedBiopsy
  else
    Rng_set rngScreen;;
    (if organised p then
       match screen_of_code (screen X) with
       | Some stockholm3_goteborg =>
           if Qltb psa 1 then schedule (t + 4) toScreen
           else schedule (t + 2) toScreen
       | Some stockholm3_risk_stratified =>
           schedule_UtilityChange t (- utility_estimates X "FormalPSAUtility");;
           schedule_UtilityChange
             (t + utility_duration X "FormalPSAUtilityDuration")
             (utility_estimates X "FormalPSAUtility");;
           if Qltb psa 1 then schedule (t + 8) toScreen
           else schedule (t + 4) toScreen
       | _ => mret tt
       end
     else
       match screen_of_code (screen X) with
       | Some screenUptake
       | Some stockholm3_goteborg
       | Some stockholm3_risk_stratified =>
           let prescreened := 1 - rescreen_cure X (bounds t 30 90, psa) in
           u ← R_draw;
           w ← R_draw;
           if Qltb u prescreened then schedule (t + w) toScreen else mret tt
       | _ => mret tt
       end);;
    Rng_set rngNh.

(** The case [toTreatment] of the handler. *)
Definition handle_treatment (year : Q) : H FhcrcPerson unit :=
  t ← now;
  Rng_set rngTreatment;;
  u_tx ← R_draw;
  u_adt ← R_draw;
  p ← get_self;
  (match state p with
   | Metastatic =>
       schedule_UtilityChange t (- utility_estimates X "MetastaticCancerUtility")
   | _ =>
       let tx' := calculate_treatment p u_tx t year in
       modify (with_tx tx');;
       (match tx' with
        | CM => schedule t toCM
        | RP => schedule t toRP
        | RT => schedule t toRT
        | no_treatment => mret tt
        end);;
       let pADT :=
         pradt X (treatment_code tx', bounds t 50 79, bounds year 1973 2004,
                  grade_code (grade p)) in
       if Qltb u_adt pADT then modify (with_adt true);; schedule t toADT
       else mret tt
   end);;
  Rng_set rngNh;;
  u_surv ← R_draw;
  p ← get_self;
  let age_c :=
    match state p with Localised => tc p + 35 | _ => tmc p + 35 end in
  let lead_time := age_c - t in
  let age_cd :=
    x_calculate_survival X u_surv age_c age_c
      (calculate_treatment p u_tx age_c (year + lead_time)) (tm p) (grade p) in
  let age_sd := x_calculate_survival X u_surv t age_c (tx p) (tm p) (grade p) in
  let weight := x_exp X (- parameter X "c_benefit_value" * lead_time) in
  let age_cancer_death := weight * age_cd + (1 - weight) * age_sd in
  schedule age_cancer_death toCancerDeath;;
  let durM := utility_duration X "MetastaticCancerUtilityDuration" in
  let durP := utility_duration X "PalliativeUtilityDuration" in
  (match state p with
   | Localised =>
       if Qltb (t + durM + durP) age_cancer_death then
         schedule_UtilityChange (age_cancer_death - durM - durP)
           (- utility_estimates X "MetastaticCancerUtility")
       else
         schedule_UtilityChange t
           (- utility_estimates X "MetastaticCancerUtility")
   | _ => mret tt
   end);;
  if Qltb (t + durP) age_cancer_death then
    schedule_UtilityChange (age_cancer_death - durP)
      (- utility_estimates X "PalliativeUtility"
       + utility_estimates X "MetastaticCancerUtility")
  else
    schedule_UtilityChange t
      (- utility_estimates X "PalliativeUtility"
       + utility_estimates X "MetastaticCancerUtility").

(** The two utility messages that follow a procedure. *)
Definition procedure_utilities (part1 part2 dur1 dur2 : string)
    : H FhcrcPerson unit :=
  t ← now;
  schedule_UtilityChange t (- utility_estimates X part1);;
  schedule_UtilityChange (t + utility_duration X dur1) (utility_estimates X part1);;
  schedule_UtilityChange (t + utility_duration X dur1)
                         (- utility_estimates X part2);;
  schedule_UtilityChange (t + utility_duration X dur2) (utility_estimates X part2).

(** A biopsy: its cost, and its utility decrement and recovery. *)
Definition biopsy_utilities : H FhcrcPerson unit :=
  t ← now;
  schedule_UtilityChange t (- utility_estimates X "BiopsyUtility");;
  schedule_UtilityChange (t + utility_duration X "BiopsyUtilityDuration")
                         (utility_estimates X "BiopsyUtility").

(** [FhcrcPerson::handleMessage(msg)] *)
Definition FhcrcPerson_handleMessage (msg : cMessage) : H FhcrcPerson unit :=
  t ← now;
  psa ← y (t - 35);
  let age := t in
  p ← get_self;
  let year := age + cohort p in
  prev ← get_previousEventTime;
  report_add (state_code (state p), ext_grade_code (ext_grade p),
              diagnosis_code (dx p), Qleb 3 psa, cohort p)
             (kind msg) prev age;;
  Rng_set rngNh;;
  match event_of_code (kind msg) with
  | Some toCancerDeath => Sim_stop_simulation
  | Some toOtherDeath => Sim_stop_simulation
  | Some toLocalised =>
      modify (with_state Localised);;
      schedule (tc p + 35) toClinicalDiagnosis;;
      schedule (tm p + 35) toMetastatic
  | Some toMetastatic =>
      modify (with_state Metastatic);;
      RemoveKind (event_code toClinicalDiagnosis);;
      RemoveKind (event_code toUtility);;
      schedule (tmc p + 35) toClinicalDiagnosis
  | Some toClinicalDiagnosis =>
      modify (with_dx ClinicalDiagnosis);;
      RemoveKind (event_code toMetastatic);;
      RemoveKind (event_code toScreen);;
      schedule t toClinicalDiagnosticBiopsy;;
      schedule t toClinicalDiagnosticBiopsy;;
      schedule t toClinicalDiagnosticBiopsy;;
      schedule t toTreatment
  | Some toOrganised =>
      modify (with_organised true);;
      RemoveKind (event_code toScreen);;
      schedule t toScreen
  | Some toBiopsyFollowUpScreen => handle_screen toBiopsyFollowUpScreen psa age
  | Some toScreen => handle_screen toScreen psa age
  | Some toScreenDiagnosis =>
      modify (with_dx ScreenDiagnosis);;
      RemoveKind (event_code toMetastatic);;
      RemoveKind (event_code toClinicalDiagnosis);;
      RemoveKind (event_code toScreen);;
      schedule t toTreatment
  | Some toClinicalDiagnosticBiopsy => biopsy_utilities
  | Some toScreenInitiatedBiopsy =>
      biopsy_utilities;;
      q ← get_self;
      match state q with
      | Healthy =>
          modify (with_previousNegativeBiopsy true);;
          follow_up_screen
      | Metastatic => schedule t toScreenDiagnosis
      | Localised =>
          u ← R_draw;
          if Qltb u (parameter X "biopsySensitivity")
          then schedule t toScreenDiagnosis
          else follow_up_screen
      end
  | Some toTreatment => handle_treatment year
  | Some toRP =>
      procedure_utilities "ProstatectomyUtilityPart1" "ProstatectomyUtilityPart2"
        "ProstatectomyUtilityDurationPart1" "ProstatectomyUtilityDurationPart2"
  | Some toRT =>
      procedure_utilities "RadiationTherapyUtilityPart1"
        "RadiationTherapyUtilityPart2" "RadiationTherapyUtilityDurationPart1"
        "RadiationTherapyUtilityDurationPart2"
  | Some toCM =>
      schedule_UtilityChange t (- utility_estimates X "ActiveSurveillanceUtility");;
      schedule_UtilityChange
        (t + utility_duration X "ActiveSurveillanceUtilityDuration")
        (utility_estimates X "ActiveSurveillanceUtility")
  | Some toADT => mret tt
  | Some toUtility =>
      match dynamic_class msg with
      | MessageUtility u => modify (with_utility u)
      | _ => mret tt
      end
  | Some toUtilityChange =>
      match dynamic_class msg with
      | MessageUtilityChange c => modify (fun q => with_utility (utility q + c) q)
      | _ => mret tt
      end
  | None => mret tt
  end.

#[global] Instance FhcrcPerson_process : Process FhcrcPerson :=
  {| init := FhcrcPerson_init; handleMessage := FhcrcPerson_handleMessage |}.

End Model.

(** The partition of [callFhcrc]: 0, 1, ..., 100 and 1.0e+6. *)
Definition ages : list Q :=
  map (fun n => inject_Z (Z.of_nat n)) (seq 0 101) ++ [1000000].

(** The report as [report.clear(); report.setPartition(ages)] leaves it. *)
Definition initial_report : Report.EventReport FullState Z :=
  Report.mkEventReport 1000000 ages ∅ ∅ ∅.

(** The two events on which the handler stops the simulation. *)
Definition is_death (k : Z) : bool :=
  bool_decide (k = event_code toCancerDeath)
  || bool_decide (k = event_code toOtherDeath).

End Fhcrc.

(** * The survival computation, over the reals *)
Module Survival.
Import Fhcrc.
Local Open Scope R_scope.

(** [bounds<double>(x, a, b)] *)
Definition bounds (x a b : R) : R :=
  if Rlt_dec x a then a else if Rgt_dec x b then b else x.

(** [std::set<double, greater<double>>::lower_bound(x)], on the elements of
    the set in iteration order (strictly decreasing): the first element [e]
    for which [e > x] fails; [end()], which must not be read, when there is
    none. *)
Fixpoint set_lower_bound (s : list R) (x : R) : option R :=
  match s with
  | [] => None
  | e :: s' => if Rgt_dec e x then set_lower_bound s' x else Some e
  end.

Section CalculateSurvival.
(** [parameter["c_txlt_interaction"]], [parameter["c_baseline_specific"]],
    [parameter["sxbenefit"]] *)
Variables (c_txlt_interaction c_baseline_specific sxbenefit : R).
(** [H_local[key].invert(x)] and [H_dist[grade].invert(x)]: the class
    [NumericInterpolate] is not among the sources. *)
Variable H_local_invert : R * base.grade_t -> R -> R.
Variable H_dist_invert : base.grade_t -> R -> R.
Variable H_local_age_set : list R.
(** the members [tm] and [grade] of the person *)
Variable tm : R.
Variable grade : base.grade_t.

(** [*H_local_age_set.lower_bound(bounds<double>(age_diag,50.0,80.0))]: the
    age key of the row of [H_local] that is used. *)
Definition survival_row (age_diag : R) : option R :=
  set_lower_bound H_local_age_set (bounds age_diag 50 80).

Definition is_RP_or_RT (tx : treatment_t) : bool :=
  match tx with RP | RT => true | _ => false end.

(** [u^(1/(c_baseline_specific*txbenefit*sxbenefit))] with the treatment
    and lead-time effect [txbenefit]. *)
Definition ustar (u age_diag age_c : R) (tx : treatment_t) : R :=
  let age_m := tm + 35 in
  let txhaz :=
    if Rlt_dec age_diag age_m then (if is_RP_or_RT tx then 62 / 100 else 1)
    else 1 in
  let lead_time := age_c - age_diag in
  let txbenefit := exp (ln txhaz + ln c_txlt_interaction * lead_time) in
  Rpower u (1 / (c_baseline_specific * txbenefit * sxbenefit)).

(** [FhcrcPerson::calculate_survival(u, age_diag, age_c, tx)] *)
Definition calculate_survival (u age_diag age_c : R) (tx : treatment_t)
    : option R :=
  let age_m := tm + 35 in
  if Rlt_dec age_diag age_m then
    match survival_row age_diag with
    | None => None
    | Some a =>
        Some (age_c + H_local_invert (a, grade) (- ln (ustar u age_diag age_c tx)))
    end
  else Some (age_c + H_dist_invert grade (- ln (ustar u age_diag age_c tx))).

End CalculateSurvival.

(** The ages 80, 70, 60, 50 as the set iterates over them. *)
Definition example_age_set : list R := [80; 70; 60; 50].

End Survival.

(** * Example inputs *)
Module Examples.
Import Kernel.

(** An individual of the illness-death model: other-cause death drawn at
    70, cancer (uniform 0.05 < 0.1) at 50, and then either cured (uniform
    0.7 >= 0.5) or not (uniform 0.3, cancer death 3 years later). *)
Definition cured_variates (s n : nat) : Q :=
  match n with
  | 0%nat => 70 | 1%nat => 5 # 100 | 2%nat => 50 | 3%nat => 7 # 10 | _ => 3
  end.
Definition not_cured_variates (s n : nat) : Q :=
  match n with
  | 0%nat => 70 | 1%nat => 5 # 100 | 2%nat => 50 | 3%nat => 3 # 10 | _ => 3
  end.

Definition cured : IllnessDeath.SimplePerson :=
  IllnessDeath.new_SimplePerson 0 IllnessDeath.initial_report
    (Random.start cured_variates).
Definition not_cured : IllnessDeath.SimplePerson :=
  IllnessDeath.new_SimplePerson 0 IllnessDeath.initial_report
    (Random.start not_cured_variates).

(** The world of [not_cured] at the clock 5, nothing pending. *)
Definition at_five : World IllnessDeath.SimplePerson :=
  {| sim := {| clock := 5; queue := []; next_seq := 0; running := true;
               attached := true |};
     process := new_cProcess not_cured;
     dispatched := [] |}.

Definition cured_person : result (outcome * World IllnessDeath.SimplePerson) :=
  IllnessDeath.simulate_person 10 0 IllnessDeath.initial_report
    (Random.start cured_variates) initial_sim.

Definition not_cured_person
    : result (outcome * World IllnessDeath.SimplePerson) :=
  IllnessDeath.simulate_person 10 0 IllnessDeath.initial_report
    (Random.start not_cured_variates) initial_sim.

(** Inputs of the cancer model without screening.  The elementary functions
    and the tables only fix the values of the natural-history times; they
    are chosen so that the variates below give [t0 = 10], [tc = 25],
    [tm = 30] and [aoc = 80], and a cancer death at 70. *)
Definition example_externals : Fhcrc.Externals :=
  {| Fhcrc.parameter := fun name =>
       if bool_decide (name = "g0"%string) then 1 # 2000
       else if bool_decide (name = "c_low_grade_slope"%string) then - (6 # 1000)
       else 1;
     Fhcrc.utility_estimates := fun _ => 1 # 100;
     Fhcrc.utility_duration := fun _ => 1 # 10;
     Fhcrc.mubeta2 := fun _ => 1 # 10;
     Fhcrc.sebeta2 := fun _ => 1 # 10;
     Fhcrc.screen := 0;
     Fhcrc.x_exp := fun _ => 1;
     Fhcrc.x_log := fun x => x;
     Fhcrc.x_sqrt := fun x => x;
     Fhcrc.prtxCM := fun _ => 3 # 10;
     Fhcrc.prtxRP := fun _ => 3 # 10;
     Fhcrc.pradt := fun _ => 2 # 10;
     Fhcrc.tableBiopsyCompliance := fun _ => 1;
     Fhcrc.rescreen_cure := fun _ => 0;
     Fhcrc.interp_prob_grade7_approx := fun _ => 1 # 2;
     Fhcrc.rmu0_rand := fun _ e => e;
     Fhcrc.x_calculate_survival := fun _ _ age_c _ _ _ => age_c + 10 |}.

Definition example_variates (s n : nat) : Q :=
  match s, n with
  | 0%nat, 0%nat => 1 # 400
  | 0%nat, 2%nat => 0
  | 0%nat, 3%nat => 1 # 10
  | 0%nat, 4%nat => 1 # 10
  | 0%nat, 5%nat => 20
  | 0%nat, 6%nat => 15
  | 0%nat, 7%nat => 5
  | 0%nat, 9%nat => 80
  | _, _ => 1 # 2
  end.

Definition example_person : Fhcrc.FhcrcPerson :=
  Fhcrc.new_FhcrcPerson 0 1950 Fhcrc.initial_report
    (Random.start example_variates).

Definition example_patient : result (outcome * World Fhcrc.FhcrcPerson) :=
  simulate (H0 := Fhcrc.FhcrcPerson_process example_externals) 40
    example_person initial_sim.

(** The log of a run as (kind, time, previousEventTime) triples. *)
Definition log_of {P : Type} (r : result (outcome * World P))
    : option (outcome * list (Z * Q * Q)) :=
  match r with
  | Ok (o, w) =>
      Some (o, map (fun d => (kind (e_msg (d_entry d)),
                              Qred (e_time (d_entry d)), Qred (d_prev d)))
                   (log w))
  | Err _ => None
  end.

(** How a run ended. *)
Definition outcome_of {P : Type} (r : result (outcome * World P))
    : option outcome :=
  match r with
  | Ok (o, _) => Some o
  | Err _ => None
  end.

(** The last dispatch of a run. *)
Definition last_dispatch {P : Type} (r : result (outcome * World P))
    : option Dispatch :=
  match r with
  | Ok (_, w) => last (log w)
  | Err _ => None
  end.

(** The [i]-th dispatch of a run. *)
Definition dispatch_at {P : Type} (r : result (outcome * World P)) (i : nat)
    : option Dispatch :=
  match r with
  | Ok (_, w) => log w !! i
  | Err _ => None
  end.

(** The message that the kernel dispatches next after a run that was cut
    short: its kind, whether its timestamp is the one of the last message
    dispatched, and how many messages were dispatched before it. *)
Definition next_message {P : Type} (r : result (outcome * World P))
    : option (Z * bool * nat) :=
  match r with
  | Ok (OutOfFuel, w) =>
      match pop_min (queue (sim w)) with
      | Some (e, _) =>
          Some (kind (e_msg e),
                match dispatched w with
                | [] => false
                | d :: _ => Qeq_bool (e_time (d_entry d)) (e_time e)
                end,
                length (dispatched w))
      | None => None
      end
  | _ => None
  end.

End Examples.


(** * The calibration model ([calibperson-r.cc]) *)
Module Calib.
Import Kernel.

Inductive stage_t := DiseaseFree | Precursor | PreClinical | Clinical | Death.
Inductive event_t := toPrecursor | toPreClinical | toClinical | toDeath | Count.

(** The enumerators as [short]. *)
Definition event_code (e : event_t) : Z :=
  match e with
  | toPrecursor => 0 | toPreClinical => 1 | toClinical => 2 | toDeath => 3
  | Count => 4
  end.

(** [stage_names[stage]] *)
Definition stage_names (s : stage_t) : string :=
  match s with
  | DiseaseFree => "DiseaseFree" | Precursor => "Precursor"
  | PreClinical => "PreClinical" | Clinical => "Clinical" | Death => "Death"
  end.

(** [CalibPerson], with the two static members that its methods use: the
    [report] and the generator behind [rng["NH"]]. *)
Record CalibPerson := mkPerson {
  stage : stage_t;
  diseasepot : bool;
  Lam1 : Q; sigm1 : Q; p2 : Q; lam2 : Q; mu3 : Q; tau3 : Q;
  clinTime : Q;
  id : Z;
  report : gmap string (list Q);
  rng : Random.state
}.

(** [CalibPerson(par, i)]: the six parameters are read from [par[0..5]];
    [stage], [diseasepot] and [clinTime] are set by [init()]. *)
Definition new_CalibPerson (par : list Q) (i : Z) (rep : gmap string (list Q))
    (g : Random.state) : option CalibPerson :=
  match par with
  | a :: b :: c :: d :: e :: f :: _ =>
      Some {| stage := DiseaseFree; diseasepot := false;
              Lam1 := a; sigm1 := b; p2 := c; lam2 := d; mu3 := e; tau3 := f;
              clinTime := 0; id := i; report := rep; rng := g |}
  | _ => None
  end.

Definition with_stage (s : stage_t) (p : CalibPerson) : CalibPerson :=
  {| stage := s; diseasepot := diseasepot p;
     Lam1 := Lam1 p; sigm1 := sigm1 p; p2 := p2 p; lam2 := lam2 p;
     mu3 := mu3 p; tau3 := tau3 p; clinTime := clinTime p; id := id p;
     report := report p; rng := rng p |}.

Definition with_diseasepot (b : bool) (p : CalibPerson) : CalibPerson :=
  {| stage := stage p; diseasepot := b;
     Lam1 := Lam1 p; sigm1 := sigm1 p; p2 := p2 p; lam2 := lam2 p;
     mu3 := mu3 p; tau3 := tau3 p; clinTime := clinTime p; id := id p;
     report := report p; rng := rng p |}.

Definition with_clinTime (t : Q) (p : CalibPerson) : CalibPerson :=
  {| stage := stage p; diseasepot := diseasepot p;
     Lam1 := Lam1 p; sigm1 := sigm1 p; p2 := p2 p; lam2 := lam2 p;
     mu3 := mu3 p; tau3 := tau3 p; clinTime := t; id := id p;
     report := report p; rng := rng p |}.

Definition with_report (r : gmap string (list Q)) (p : CalibPerson)
    : CalibPerson :=
  {| stage := stage p; diseasepot := diseasepot p;
     Lam1 := Lam1 p; sigm1 := sigm1 p; p2 := p2 p; lam2 := lam2 p;
     mu3 := mu3 p; tau3 := tau3 p; clinTime := clinTime p; id := id p;
     report := r; rng := rng p |}.

Definition with_rng (g : Random.state) (p : CalibPerson) : CalibPerson :=
  {| stage := stage p; diseasepot := diseasepot p;
     Lam1 := Lam1 p; sigm1 := sigm1 p; p2 := p2 p; lam2 := lam2 p;
     mu3 := mu3 p; tau3 := tau3 p; clinTime := clinTime p; id := id p;
     report := report p; rng := g |}.

Definition modify (f : CalibPerson -> CalibPerson) : H CalibPerson unit :=
  p ← get_self; put_self (f p).

(** A call of [R::runif], [R::rnorm] or [R::rexp]: the realised variate. *)
Definition R_draw : H CalibPerson Q :=
  p ← get_self;
  let '(x, g) := Random.draw (rng p) in
  put_self (with_rng g p);;
  mret x.

(** ** The time at risk *)

(** [double ctime[] = {20,40,60,80};] *)
Definition ctime : list Q := [20; 40; 60; 80].

(** The loop of the case [toDeath] from the index [i] on, [cs] being
    [ctime[i..]] and [v] the vector [report["TimeAtRisk"]]:
    [if (i < v.size()) v[i] += std::min(ctime[i],clinTime);
     else v.push_back(std::min(ctime[i],clinTime));
     if (clinTime < ctime[i]) break;] *)
Fixpoint time_at_risk (cs : list Q) (i : nat) (clin : Q) (v : list Q)
    : list Q :=
  match cs with
  | [] => v
  | c :: cs' =>
      let v' :=
        if (i <? length v)%nat then alter (fun x => x + Qmin c clin) i v
        else v ++ [Qmin c clin] in
      if Qltb clin c then v' else time_at_risk cs' (S i) clin v'
  end.

(** ** The counts by stage *)

(** [int(x)] for a [double]: the integer part, towards zero; the conversion
    of a value outside the range of [int] is undefined. *)
Definition to_int (x : Q) : option Z :=
  let z := Z.quot (Qnum x) (Z.pos (Qden x)) in
  if ((- 2147483648 <=? z) && (z <=? 2147483647))%Z then Some z else None.

(** [cind = min(9, int(now()/10 - 1))] *)
Definition count_index (now : Q) : option Z :=
  match to_int (now / 10 - 1) with
  | None => None
  | Some z => Some (Z.min 9 z)
  end.

(** [if (report.find(stagestr) == report.end()) report[stagestr].assign(10,0);
     report[stagestr][cind] += 1;]: the column of the stage, made of ten
    zeros if the report has none, gets one more at [cind]; an index outside
    the column is not checked. *)
Definition count_stage (s : stage_t) (cind : Z) (r : gmap string (list Q))
    : option (gmap string (list Q)) :=
  let col := match r !! stage_names s with
             | None => replicate 10 0
             | Some col => col
             end in
  if ((0 <=? cind) && (cind <? Z.of_nat (length col)))%Z then
    Some (<[stage_names s := alter (fun x => x + 1) (Z.to_nat cind) col]> r)
  else None.

Section Model.
(** [exp] and [log] of the C library. *)
Variables x_exp x_log : Q -> Q.

(** [for (int i = 10; i < 110; i = i + 10) scheduleAt(i, Count);] from the
    value [i] on. *)
Fixpoint schedule_counts (n : nat) (i : Z) : H CalibPerson unit :=
  match n with
  | O => mret tt
  | S n' =>
      if (i <? 110)%Z then
        scheduleAt_kind (inject_Z i) (event_code Count);;
        schedule_counts n' (i + 10)
      else mret tt
  end.

(** [CalibPerson::init()].  The rate [lam1 = exp(R::rnorm(Lam1,sigm1))]
    only shapes the distribution of the exponential variate that is
    read. *)
Definition CalibPerson_init : H CalibPerson unit :=
  modify (fun p => with_rng (Random.set 0 (rng p)) p);;
  u ← R_draw;
  p ← get_self;
  modify (with_diseasepot (Qltb u (p2 p)));;
  modify (with_clinTime 1000);;
  modify (with_stage DiseaseFree);;
  n ← R_draw;
  e ← R_draw;
  scheduleAt_kind e (event_code toPrecursor);;
  x ← R_draw;
  scheduleAt_kind (65 - 15 * x_log (- x_log x)) (event_code toDeath);;
  schedule_counts 10 10.

(** [CalibPerson::handleMessage(msg)] *)
Definition CalibPerson_handleMessage (msg : cMessage) : H CalibPerson unit :=
  if bool_decide (kind msg = event_code toDeath) then
    t ← now;
    modify (with_stage Death);;
    modify (fun p => with_clinTime (Qmin (clinTime p) t) p);;
    modify (fun p =>
      with_report
        (<["TimeAtRisk"%string :=
             time_at_risk ctime 0 (clinTime p)
               (default [] (report p !! "TimeAtRisk"%string))]> (report p)) p);;
    Sim_stop_simulation
  else if bool_decide (kind msg = event_code toPrecursor) then
    modify (with_stage Precursor);;
    p ← get_self;
    if diseasepot p then
      t ← now;
      e ← R_draw;
      scheduleAt_kind (t + e) (event_code toPreClinical)
    else mret tt
  else if bool_decide (kind msg = event_code toPreClinical) then
    modify (with_stage PreClinical);;
    t ← now;
    n ← R_draw;
    scheduleAt_kind (t + x_exp n) (event_code toClinical)
  else if bool_decide (kind msg = event_code toClinical) then
    modify (with_stage Clinical);;
    t ← now;
    modify (with_clinTime t)
  else if bool_decide (kind msg = event_code Count) then
    t ← now;
    p ← get_self;
    match count_index t with
    | None => fail UndefinedBehaviour
    | Some cind =>
        match count_stage (stage p) cind (report p) with
        | None => fail UndefinedBehaviour
        | Some r => modify (with_report r)
        end
    end
  else mret tt.

#[global] Instance CalibPerson_process : Process CalibPerson :=
  {| init := CalibPerson_init; handleMessage := CalibPerson_handleMessage |}.

End Model.
End Calib.

(** * Utility classes of [microsimulation.h] *)

(** ** [Means]: running mean and variance

    [_n] is an [int]; [_sum] and [_sumsq] are [long double], exact here.
    A quotient by zero is a NaN or an infinity in the source and has no
    rational value: [None].  [var()] and [sd()] subtract the square of the
    [double] that [mean()] returns from a [long double] quotient; what they
    return depends on the rounding of the two types, which is not modelled,
    and they are left out. *)
Module Means.

Record Means := mkMeans {
  _n : Z;
  _sum : Q;
  _sumsq : Q
}.

Definition INT_MAX : Z := 2147483647.


(** [operator +=(value)]: [_n++; _sum += value; _sumsq += value*value].
    Incrementing an [int] that holds [INT_MAX] is undefined. *)
Definition add (value : Q) (m : Means) : option Means :=
  if (_n m =? INT_MAX)%Z then None
  else Some {| _n := _n m + 1; _sum := _sum m + value;
               _sumsq := _sumsq m + value * value |}.

(** [n()] and [sum()] *)
Definition n (m : Means) : Z := _n m.



End Means.

(** ** [Rpexp]: piecewise constant hazards *)
Module Rpexp.

Record Rpexp := mkRpexp {
  H : list Q;
  h : list Q;
  t : list Q;
  n : Z
}.

(** The loop of the constructor from [i = 1]: [h[i]=hin[i]; t[i]=tin[i];
    H[i] = H[i-1]+(t[i]-t[i-1])*h[i-1]], given the three entries at
    [i-1]. *)
Fixpoint fill (Hprev tprev hprev : Q) (hin tin : list Q) : list Q :=
  match hin, tin with
  | hi :: hin', ti :: tin' =>
      let Hi := Hprev + (ti - tprev) * hprev in
      Hi :: fill Hi ti hi hin' tin'
  | _, _ => []
  end.

(** [Rpexp(hin, tin, nin)].  The three vectors get [nin] entries.  With
    [nin <= 0] the assignment [H[0]=0.0] is outside the vector (a negative
    [nin] makes [resize] throw); the arrays [hin] and [tin] must hold
    [nin] values. *)
Definition new_Rpexp (hin tin : list Q) (nin : Z) : option Rpexp :=
  if (nin <=? 0)%Z then None
  else if (Z.of_nat (length hin) <? nin)%Z || (Z.of_nat (length tin) <? nin)%Z
  then None
  else
    match take (Z.to_nat nin) hin, take (Z.to_nat nin) tin with
    | h0 :: hs, t0 :: ts =>
        Some {| H := 0 :: fill 0 t0 h0 hs ts; h := h0 :: hs; t := t0 :: ts;
                n := nin |}
    | _, _ => None
    end.

(** The index [(x >= v[n-1]) ? (n-1) : int(lower_bound(v.begin(), v.end(),
    x) - v.begin())-1]. *)
Definition index_of (v : list Q) (n : Z) (x : Q) : option Z :=
  match deref v (n - 1) with
  | None => None
  | Some top =>
      if Qleb top x then Some (n - 1)%Z
      else Some (Z.of_nat (lower_bound v x) - 1)%Z
  end.

(** The cumulative hazard read at [x] in the piece [i]:
    [H[i] + (x - t[i])*h[i]]. *)
Definition hazard_at (p : Rpexp) (i : Z) (x : Q) : option Q :=
  match deref (H p) i, deref (t p) i, deref (h p) i with
  | Some Hi, Some ti, Some hi => Some (Hi + (x - ti) * hi)
  | _, _, _ => None
  end.

(** [rand(from)], with [e] the variate that [R::rexp(1.0)] returns.  The
    quotient by a hazard that is zero has no rational value. *)
Definition rand (p : Rpexp) (e from : Q) : option Q :=
  match
    (if Qltb 0 from then
       match index_of (t p) (n p) from with
       | None => None
       | Some i0 => hazard_at p i0 from
       end
     else Some 0)
  with
  | None => None
  | Some H0 =>
      let v := e + H0 in
      match index_of (H p) (n p) v with
      | None => None
      | Some i =>
          match deref (H p) i, deref (t p) i, deref (h p) i with
          | Some Hi, Some ti, Some hi =>
              if Qeq_bool hi 0 then None else Some (ti + (v - Hi) / hi)
          | _, _, _ => None
          end
      end
  end.

End Rpexp.

(** * [SimpleReport<double>] of [fhcrc-example.cpp]

    [_data] is a [map<string, vector<double>>]; [_data[field]] creates the
    field, empty, when it is absent. *)
Module SimpleReport.

(** [_data[field]] as a value *)
Definition column (field : string) (d : gmap string (list Q)) : list Q :=
  default [] (d !! field).

(** [record(field, value)]: [_data[field].push_back(value)] *)
Definition record (field : string) (value : Q) (d : gmap string (list Q))
    : gmap string (list Q) :=
  <[field := column field d ++ [value]]> d.

(** [revise(field, value)]: [_data[field].pop_back();
    _data[field].push_back(value)].  [pop_back] on an empty vector is
    undefined. *)
Definition revise (field : string) (value : Q) (d : gmap string (list Q))
    : option (gmap string (list Q)) :=
  match column field d with
  | [] => None
  | l => Some (<[field := removelast l ++ [value]]> d)
  end.

(** [clear()] *)
Definition clear (d : gmap string (list Q)) : gmap string (list Q) := ∅.

(** [append(obj)], for another report [obj]: for every field of [obj],
    [_data[field].insert(_data[field].end(), values of obj)]. *)
Definition append (obj d : gmap string (list Q)) : gmap string (list Q) :=
  map_fold (fun field values acc => <[field := column field acc ++ values]> acc)
           d obj.

End SimpleReport.

(** * Properties of runs: vocabulary *)
Module Run.
Import Kernel.

(** The order of the queue: by timestamp, then by insertion. *)
Definition lex_lt (x y : Entry) : Prop :=
  e_time x < e_time y \/ (e_time x == e_time y /\ (e_seq x < e_seq y)%nat).

Definition lex_le (x y : Entry) : Prop :=
  e_time x < e_time y \/ (e_time x == e_time y /\ (e_seq x <= e_seq y)%nat).

(** The timestamp of the most recent dispatch, 0 before the first. *)
Definition last_time (ds : list Dispatch) : Q :=
  match ds with
  | [] => 0
  | d :: _ => e_time (d_entry d)
  end.

(** Each handler found, as [previousEventTime], the timestamp of the
    dispatch before it. *)
Fixpoint prev_chain (ds : list Dispatch) : Prop :=
  match ds with
  | [] => True
  | d :: ds' => d_prev d = last_time ds' /\ prev_chain ds'
  end.

(** A kernel between two runs. *)
Definition cleared (s : Sim) : Prop :=
  queue s = [] /\ clock s = 0 /\ attached s = false.

(** What holds of the kernel and of the log of dispatches at every point
    of a run: pending entries lie at or after the clock and carry distinct
    insertion numbers below the counter; every dispatched entry is before
    every pending one in the order of the queue; the log is in that order. *)
Record kernel_ok (s : Sim) (ds : list Dispatch) : Prop := {
  ok_pending : forall e, e ∈ queue s ->
      clock s <= e_time e /\ (e_seq e < next_seq s)%nat;
  ok_nodup : NoDup (map e_seq (queue s));
  ok_before : forall d e, d ∈ ds -> e ∈ queue s -> lex_lt (d_entry d) e;
  ok_sorted : StronglySorted (fun d1 d2 => lex_lt (d_entry d2) (d_entry d1)) ds;
  ok_past : forall d, d ∈ ds ->
      e_time (d_entry d) <= clock s /\ (e_seq (d_entry d) < next_seq s)%nat;
  ok_nonneg : forall d, d ∈ ds ->
      0 <= e_time (d_entry d) /\ (e_seq (d_entry d) < d_next_seq d)%nat;
  ok_clock : 0 <= clock s
}.

Section Invariant.
Context {P : Type}.

(** Between two dispatches, in addition, [previousEventTime] is the
    timestamp of the last dispatch. *)
Record world_ok (w : World P) : Prop := {
  ok_kernel : kernel_ok (sim w) (dispatched w);
  ok_prev : previousEventTime (process w) = last_time (dispatched w);
  ok_chain : prev_chain (dispatched w)
}.

(** The state on which a handler starts: the person, what it reads as
    [previousEventTime] and as [now()], and no call yet. *)
Definition handler_state (p : P) (prev now : Q) : HState P :=
  {| h_self := p; h_previousEventTime := prev; h_now := now; h_calls := [] |}.

(** What [process_event] does in the world [w] once [handleMessage] has
    returned [r]: the calls of the handler are carried out, and
    [previousEventTime = Sim::clock()]. *)
Definition after_handler (w : World P) (r : result (unit * HState P))
    : result (World P) :=
  match r with
  | Err e => Err e
  | Ok (_, h) =>
      match exec_requests (h_calls h) (sim w) with
      | Err e => Err e
      | Ok s =>
          Ok {| sim := s;
                process := {| previousEventTime := clock s; self := h_self h |};
                dispatched := dispatched w |}
      end
  end.
End Invariant.

End Run.

Module Stamps.
Import Kernel.

(** A call that schedules a message made at the call: the constructor has
    stamped the clock as sending time, and the delay leads to the
    timestamp. *)
Definition stamped (now : Q) (r : request) : Prop :=
  match r with
  | SelfSignal msg d => sendingTime msg = now /\ d = timestamp msg - now
  | _ => True
  end.

(** A process that schedules only such messages, as [scheduleAt(t, kind)],
    [scheduleAt(t, name)] and [scheduleAt(t, new cMessage..(..))] do. *)
Definition stamps_messages {P : Type} (proc : Process P) : Prop :=
  (forall h h', init h = Ok (tt, h') -> h_calls h = [] ->
      Forall (stamped (h_now h)) (h_calls h'))
  /\ (forall msg h h', handleMessage msg h = Ok (tt, h') -> h_calls h = [] ->
        Forall (stamped (h_now h)) (h_calls h')).

(** Every pending message was sent no later than it is due, and is queued
    at its timestamp. *)
Definition all_stamped (s : Sim) : Prop :=
  forall e, e ∈ queue s ->
    sendingTime (e_msg e) <= timestamp (e_msg e)
    /\ timestamp (e_msg e) == e_time e.
End Stamps.

Module Quiet.
Import Kernel.

(** A call that neither stops the simulation nor removes anything but
    pending messages of the four kinds [toMetastatic] (1),
    [toClinicalDiagnosis] (2), [toScreen] (5) and [toUtility] (17) of the
    cancer model. *)
Definition quiet (r : request) : Prop :=
  match r with
  | SelfSignal _ _ => True
  | RemoveEvent pred =>
      exists k, pred = cMessageKindEq k
                /\ (k = 1 \/ k = 2 \/ k = 5 \/ k = 17)%Z
  | StopSimulation => False
  end.

(** A call that removes nothing but pending messages of the four kinds. *)
Definition harmless (r : request) : Prop :=
  match r with
  | RemoveEvent pred =>
      exists k, pred = cMessageKindEq k
                /\ (k = 1 \/ k = 2 \/ k = 5 \/ k = 17)%Z
  | _ => True
  end.

(** A call that schedules a message. *)
Definition is_signal (r : request) : Prop :=
  match r with
  | SelfSignal _ _ => True
  | _ => False
  end.

(** A kind of message that the cancer model never removes. *)
Definition never_removed (k : Z) : Prop :=
  (k <> 1 /\ k <> 2 /\ k <> 5 /\ k <> 17)%Z.
End Quiet.

Module Offspring.
Import Kernel.

(** The entry that [scheduleAt(now(), kind)] creates at clock [T] with the
    insertion number [seq]. *)
Definition entry_at (T : Q) (seq : nat) (k : Z) : Entry :=
  mkEntry (T + (T - T)) seq
          {| kind := k; name := ""; sendingTime := T; timestamp := T;
             dynamic_class := PlainMessage |}.

(** The four entries that the handler of [toClinicalDiagnosis] creates:
    three [toClinicalDiagnosticBiopsy] and then one [toTreatment]. *)
Definition biopsy (d : Dispatch) (i : nat) : Entry :=
  entry_at (e_time (d_entry d)) (d_next_seq d + i)
           (Fhcrc.event_code Fhcrc.toClinicalDiagnosticBiopsy).
Definition treatment (d : Dispatch) : Entry :=
  entry_at (e_time (d_entry d)) (d_next_seq d + 3)
           (Fhcrc.event_code Fhcrc.toTreatment).
Definition offspring (d : Dispatch) : list Entry :=
  [biopsy d 0; biopsy d 1; biopsy d 2; treatment d].

(** An entry that is pending or was dispatched. *)
Definition settled {P : Type} (w : World P) (E : Entry) : Prop :=
  E ∈ queue (sim w) \/ exists d, d ∈ dispatched w /\ d_entry d = E.

(** Every clinical diagnosis of the log has its four entries settled. *)
Definition diagnoses_settled {P : Type} (w : World P) : Prop :=
  forall d, d ∈ dispatched w ->
    kind (e_msg (d_entry d)) = Fhcrc.event_code Fhcrc.toClinicalDiagnosis ->
    forall E, E ∈ offspring d -> settled w E.
End Offspring.

Module Deaths.
Import Kernel.

(** The two deaths of the illness-death model. *)
Definition simple_death (k : Z) : bool :=
  bool_decide (k = IllnessDeath.event_code IllnessDeath.toOtherDeath)
  || bool_decide (k = IllnessDeath.event_code IllnessDeath.toCancerDeath).

(** No dispatch of the list is a death. *)
Definition death_free (is_death : Z -> bool) (ds : list Dispatch) : Prop :=
  forall d, d ∈ ds -> is_death (kind (e_msg (d_entry d))) = false.

(** The run has stopped on a death, the only one of the log. *)
Definition dead {P : Type} (is_death : Z -> bool) (w : World P) : Prop :=
  running (sim w) = false
  /\ exists d ds, dispatched w = d :: ds
       /\ is_death (kind (e_msg (d_entry d))) = true
       /\ death_free is_death ds.

(** The cancer model: either no death yet and [toOtherDeath] pending, or
    dead. *)
Definition fhcrc_alive_or_dead (w : World Fhcrc.FhcrcPerson) : Prop :=
  (running (sim w) = true
   /\ death_free Fhcrc.is_death (dispatched w)
   /\ exists e, e ∈ queue (sim w)
        /\ kind (e_msg e) = Fhcrc.event_code Fhcrc.toOtherDeath)
  \/ dead Fhcrc.is_death w.

(** The illness-death model: healthy with [toOtherDeath] pending and at
    most one [toCancer]; or with cancer, and nothing pending but cancer
    deaths; or dead. *)
Definition simple_alive_or_dead (w : World IllnessDeath.SimplePerson) : Prop :=
  (running (sim w) = true /\ dispatched w = []
   /\ (exists e, e ∈ queue (sim w)
         /\ kind (e_msg e) = IllnessDeath.event_code IllnessDeath.toOtherDeath)
   /\ (forall e, e ∈ queue (sim w) ->
         kind (e_msg e) = IllnessDeath.event_code IllnessDeath.toOtherDeath
         \/ kind (e_msg e) = IllnessDeath.event_code IllnessDeath.toCancer)
   /\ (forall e e', e ∈ queue (sim w) -> e' ∈ queue (sim w) ->
         kind (e_msg e) = IllnessDeath.event_code IllnessDeath.toCancer ->
         kind (e_msg e') = IllnessDeath.event_code IllnessDeath.toCancer ->
         e = e'))
  \/ (running (sim w) = true
      /\ (exists d, dispatched w = [d]
            /\ kind (e_msg (d_entry d))
               = IllnessDeath.event_code IllnessDeath.toCancer)
      /\ (forall e, e ∈ queue (sim w) ->
            kind (e_msg e) = IllnessDeath.event_code IllnessDeath.toCancerDeath))
  \/ dead simple_death w.

(** The handler ends with a call that schedules a [toOtherDeath] of the
    cancer model. *)
Definition schedules_other_death {P : Type} (h : HState P) : Prop :=
  exists msg d, SelfSignal msg d ∈ h_calls h
                /\ kind msg = Fhcrc.event_code Fhcrc.toOtherDeath.
End Deaths.

Module Recording.
Import Kernel.

Section Recording.
Context {P Tstate Tevent : Type} `{Countable Tstate} `{Countable Tevent}.
Variable rep : P -> Report.EventReport Tstate Tevent.

(** A process that records, on every message, the interval from
    [previousEventTime] to [now()] in its report, as
    [report.add(state, msg->kind, previousEventTime, now())] does, and that
    does not touch the report otherwise. *)
Definition records_interval (proc : Process P) : Prop :=
  (forall h h', init h = Ok (tt, h') -> rep (h_self h') = rep (h_self h))
  /\ (forall msg h h', handleMessage msg h = Ok (tt, h') ->
        exists state event,
          Report.add state event (h_previousEventTime h) (h_now h)
                     (rep (h_self h))
          = Some (rep (h_self h'))).

(** The person-time of the report of a running individual: what the report
    had before, plus the time of the last message cut at [_max]. *)
Definition recorded (r0 : Report.EventReport Tstate Tevent) (w : World P)
    : Prop :=
  let r := rep (self (process w)) in
  Report.well_formed r
  /\ Report._partition r = Report._partition r0
  /\ Report._max r = Report._max r0
  /\ match dispatched w with
     | [] => Report.total_pt r == Report.total_pt r0
     | d :: _ =>
         Report.total_pt r
         == Report.total_pt r0 + Qmin (e_time (d_entry d)) (Report._max r0)
     end.
End Recording.
End Recording.

(** * The driver of the illness-death model *)
Module IllnessDeathDriver.
Import Kernel IllnessDeath.

(** What the objects of the namespace hold between two individuals: the
    report, the generator behind [R::runif] and [R::rweibull], and the
    kernel; [pop_runs] keeps the world that each individual left, most
    recent first. *)
Record Population := mkPopulation {
  pop_report : Report.EventReport Z Z;
  pop_rng : Random.state;
  pop_sim : Sim;
  pop_runs : list (World SimplePerson)
}.

(** [for (int i = 0; i < n; i++) { person = SimplePerson(i);
     Sim::create_process(&person); Sim::run_simulation(); Sim::clear(); }]
    from the index [i] on, with [count] individuals to go.  [fuel] bounds
    the dispatches of each individual. *)
Fixpoint individuals (fuel : nat) (count : nat) (i : Z) (pop : Population)
    : result (outcome * Population) :=
  match count with
  | O => Ok (Finished, pop)
  | S count' =>
      match simulate_person fuel i (pop_report pop) (pop_rng pop) (pop_sim pop)
      with
      | Err e => Err e
      | Ok (o, w) =>
          let pop' :=
            {| pop_report := report (self (process w));
               pop_rng := rng (self (process w));
               pop_sim := sim w;
               pop_runs := w :: pop_runs pop |} in
          match o with
          | OutOfFuel => Ok (OutOfFuel, pop')
          | Finished => individuals fuel count' (i + 1) pop'
          end
      end
  end.

(** [callIllnessDeath(parms)] with [n = parms["n"]]: [report.clear();
    report.setPartition(ages);] and the loop over the individuals
    [0 .. n-1].  The result holds the report that [report.out()] then
    tabulates. *)
Definition callIllnessDeath (fuel : nat) (n : Z) (rep : Report.EventReport Z Z)
    (g : Random.state) (s : Sim) : result (outcome * Population) :=
  match Report.setPartition ages (Report.clear rep) with
  | None => Err UndefinedBehaviour
  | Some r0 =>
      individuals fuel (Z.to_nat n) 0
        {| pop_report := r0; pop_rng := g; pop_sim := s; pop_runs := [] |}
  end.

(** The kinds of the messages that an individual received, in the order of
    dispatch. *)
Definition kinds (w : World SimplePerson) : list Z :=
  map (fun d => kind (e_msg (d_entry d))) (log w).

(** The three lives of the model: death from other causes while healthy;
    cancer and cure; cancer and death from cancer. *)
Definition life_history (w : World SimplePerson) : Prop :=
  (kinds w = [event_code toOtherDeath] /\ state (self (process w)) = Healthy)
  \/ (kinds w = [event_code toCancer] /\ state (self (process w)) = Cancer)
  \/ (kinds w = [event_code toCancer; event_code toCancerDeath]
      /\ state (self (process w)) = Cancer).

(** The person-time that the individuals of a population lived: for each,
    the time of the last message, cut at [cut]. *)
Fixpoint person_years (cut : Q) (runs : list (World SimplePerson)) : Q :=
  match runs with
  | [] => 0
  | w :: runs' =>
      person_years cut runs'
      + Qmin (Run.last_time (dispatched w)) cut
  end.

(** Where a running individual stands, with the number of messages that it
    can still receive. *)
Definition life_stage (w : World SimplePerson) (k : nat) : Prop :=
  Deaths.simple_alive_or_dead w
  /\ match k with
     | 2%nat =>
         running (sim w) = true /\ dispatched w = []
         /\ state (self (process w)) = Healthy
     | 1%nat =>
         running (sim w) = true /\ kinds w = [event_code toCancer]
         /\ state (self (process w)) = Cancer
     | 0%nat =>
         running (sim w) = false
         /\ ((kinds w = [event_code toOtherDeath]
              /\ state (self (process w)) = Healthy)
             \/ (kinds w = [event_code toCancer; event_code toCancerDeath]
                 /\ state (self (process w)) = Cancer))
     | _ => False
     end.
End IllnessDeathDriver.

(** * The members of a person of the cancer model *)
Module FhcrcMembers.
Import Fhcrc.

(** What [init()] draws for the natural history of the person, with the two
    members that the constructor sets. *)
Definition natural_history (p : FhcrcPerson)
    : Q * Q * Q * Q * Q * Q * Q * Q * base.grade_t * ext.grade_t * Z * Q :=
  (beta0 p, beta1 p, beta2 p, t0 p, y0 p, tm p, tc p, tmc p, grade p,
   ext_grade p, id p, cohort p).

(** The clinical course of the person. *)
Definition clinical_course (p : FhcrcPerson)
    : state_t * diagnosis_t * Q * bool :=
  (state p, dx p, utility p, organised p).

(** The treatment of the person. *)
Definition treatment (p : FhcrcPerson) : treatment_t * bool * Q :=
  (tx p, adt p, txhaz p).
End FhcrcMembers.

(** * The report of the calibration model *)
Module CalibReport.
Import Calib.

(** How many times the body of the loop of the case [toDeath] runs on the
    cutpoints [cs]: up to and including the first cutpoint that the time
    [clin] is before. *)
Fixpoint iterations (cs : list Q) (clin : Q) : nat :=
  match cs with
  | [] => O
  | c :: cs' => if Qltb clin c then 1%nat else S (iterations cs' clin)
  end.

(** Every column of counts of the report holds the ten age groups. *)
Definition columns_ok (r : gmap string (list Q)) : Prop :=
  forall s col, r !! stage_names s = Some col -> length col = 10%nat.
End CalibReport.

(** * The run of an individual of the calibration model *)
Module CalibRun.
Import Kernel Calib CalibReport.

(** What a pending message can still cost in dispatches: itself, and the
    messages that its handler and theirs can schedule ([toPrecursor] leads
    to [toPreClinical], and that one to [toClinical]). *)
Definition cost (k : Z) : nat :=
  if bool_decide (k = event_code toPrecursor) then 3%nat
  else if bool_decide (k = event_code toPreClinical) then 2%nat
  else 1%nat.

Definition pending_cost (q : list Entry) : nat :=
  sum_list_with (fun e => cost (kind (e_msg e))) q.

(** The individual is alive and its death is pending, or it has died with
    the last message. *)
Definition alive_or_dead (w : World CalibPerson) (k : nat) : Prop :=
  columns_ok (report (self (process w)))
  /\ report (self (process w)) !! "Death"%string = None
  /\ ((running (sim w) = true
       /\ stage (self (process w)) <> Death
       /\ (exists e, e ∈ queue (sim w)
             /\ kind (e_msg e) = event_code toDeath)
       /\ pending_cost (queue (sim w)) = k
       /\ (length (dispatched w) + k <= 14)%nat)
      \/ (running (sim w) = false
          /\ stage (self (process w)) = Death
          /\ (length (dispatched w) <= 14)%nat
          /\ exists d ds, dispatched w = d :: ds
               /\ kind (e_msg (d_entry d)) = event_code toDeath
               /\ clinTime (self (process w)) <= e_time (d_entry d))).
End CalibRun.

(** An individual of the calibration model: with every variate 1/4 and the
    identity for [exp] and [log], the stages of the disease start at 1/4,
    1/2 and 3/4, and the death is at 68.75. *)
Module CalibExamples.
Definition example_calib_person : Calib.CalibPerson :=
  {| Calib.stage := Calib.DiseaseFree; Calib.diseasepot := false;
     Calib.Lam1 := 1; Calib.sigm1 := 1; Calib.p2 := 1 # 2;
     Calib.lam2 := 1; Calib.mu3 := 1; Calib.tau3 := 1;
     Calib.clinTime := 0; Calib.id := 0; Calib.report := ∅;
     Calib.rng := Random.start (fun _ _ => 1 # 4) |}.

End CalibExamples.

(** ** Facts about the boolean comparisons *)

Lemma Qltb_lt x y : Qltb x y = true <-> x < y.
Proof.
  unfold Qltb. rewrite negb_true_iff. split; intros Hxy.
  - apply Qnot_le_lt. intros Hle. apply Qle_bool_iff in Hle. congruence.
  - destruct (Qle_bool y x) eqn:E; [|reflexivity].
    apply Qle_bool_iff in E. lra.
Qed.

Lemma Qltb_ge x y : Qltb x y = false <-> y <= x.
Proof.
  split; intros Hxy.
  - destruct (Qlt_le_dec x y) as [Hlt|Hle]; [|exact Hle].
    apply Qltb_lt in Hlt. congruence.
  - destruct (Qltb x y) eqn:E; [|reflexivity]. apply Qltb_lt in E. lra.
Qed.

Lemma Qleb_le x y : Qleb x y = true <-> x <= y.
Proof. apply Qle_bool_iff. Qed.

Lemma Qleb_gt x y : Qleb x y = false <-> y < x.
Proof.
  unfold Qleb. split; intros Hxy.
  - apply Qnot_le_lt. intros Hle. apply Qle_bool_iff in Hle. congruence.
  - destruct (Qle_bool x y) eqn:E; [|reflexivity].
    apply Qle_bool_iff in E. lra.
Qed.

(** Case analysis on every comparison of the goal, leaving linear facts. *)
Ltac cmp_cases :=
  repeat match goal with
  | |- context [Qltb ?x ?y] =>
      let E := fresh "E" in
      destruct (Qltb x y) eqn:E;
      [apply Qltb_lt in E | apply Qltb_ge in E]
  | |- context [Qleb ?x ?y] =>
      let E := fresh "E" in
      destruct (Qleb x y) eqn:E;
      [apply Qleb_le in E | apply Qleb_gt in E]
  end.

Lemma Qmin_case_ltb x y : Qmin x y == (if Qltb x y then x else y).
Proof.
  cmp_cases.
  - rewrite Q.min_l; lra.
  - rewrite Q.min_r; lra.
Qed.

Lemma Qmax_case_ltb x y : Qmax x y == (if Qltb x y then y else x).
Proof.
  cmp_cases.
  - rewrite Q.max_r; lra.
  - rewrite Q.max_l; lra.
Qed.

(** Addition of rationals is commutative and associative on the nose, which
    is what folding over a map needs. *)
Lemma Qplus_comm_L (x y : Q) : x + y = y + x.
Proof.
  destruct x as [a b], y as [c d]. unfold Qplus; simpl.
  f_equal; [ring | apply Pos.mul_comm].
Qed.

Lemma Qplus_assoc_L (x y z : Q) : x + (y + z) = (x + y) + z.
Proof.
  destruct x as [a b], y as [c d], z as [e f]. unfold Qplus; simpl.
  f_equal; [|apply Pos.mul_assoc].
  rewrite !Pos2Z.inj_mul. ring.
Qed.

(** ** Facts about [operator[]] on nested maps *)
Section MapFacts.
Context {K V : Type} `{Countable K}.
Variable zero : V.

Lemma at1_upd1_eq f (k : K) (m : gmap K V) :
    at1 zero (upd1 zero f k m) k = f (at1 zero m k).
Proof. unfold at1 at 1, upd1. by rewrite lookup_insert_eq. Qed.

Lemma lookup_upd1_ne f (k k' : K) (m : gmap K V) :
    k <> k' -> upd1 zero f k m !! k' = m !! k'.
Proof. intros Hne. unfold upd1. by rewrite lookup_insert_ne. Qed.

Lemma at1_upd1_ne f (k k' : K) (m : gmap K V) :
    k <> k' -> at1 zero (upd1 zero f k m) k' = at1 zero m k'.
Proof. intros Hne. unfold at1. by rewrite lookup_upd1_ne. Qed.
End MapFacts.

Section NestedFacts.
Context {K1 K2 V : Type} `{Countable K1} `{Countable K2}.
Variable zero : V.

Lemma at2_upd2_eq f (k1 : K1) (k2 : K2) (m : gmap K1 (gmap K2 V)) :
    at2 zero (upd2 zero f k1 k2 m) k1 k2 = f (at2 zero m k1 k2).
Proof. unfold at2, upd2. by rewrite !at1_upd1_eq. Qed.

(** Every other entry keeps its lookup, present or absent. *)
Lemma lookup_upd2_ne f (k1 k1' : K1) (k2 k2' : K2) (m : gmap K1 (gmap K2 V)) :
    k1 <> k1' \/ k2 <> k2' ->
    at1 ∅ (upd2 zero f k1 k2 m) k1' !! k2' = at1 ∅ m k1' !! k2'.
Proof.
    intros Hne. unfold upd2.
    destruct (decide (k1 = k1')) as [->|Hk1].
    - rewrite at1_upd1_eq. apply lookup_upd1_ne. by destruct Hne.
    - by rewrite at1_upd1_ne.
Qed.

Lemma at2_upd2_ne f (k1 k1' : K1) (k2 k2' : K2) (m : gmap K1 (gmap K2 V)) :
    k1 <> k1' \/ k2 <> k2' ->
    at2 zero (upd2 zero f k1 k2 m) k1' k2' = at2 zero m k1' k2'.
Proof. intros Hne. unfold at2, at1 at 1 3. by rewrite lookup_upd2_ne. Qed.
End NestedFacts.

Section NestedFacts3.
Context {K1 K2 K3 V : Type} `{Countable K1} `{Countable K2} `{Countable K3}.
Variable zero : V.

Lemma at3_upd3_eq f (k1 : K1) (k2 : K2) (k3 : K3)
      (m : gmap K1 (gmap K2 (gmap K3 V))) :
    at3 zero (upd3 zero f k1 k2 k3 m) k1 k2 k3 = f (at3 zero m k1 k2 k3).
Proof. unfold at3, upd3. by rewrite at1_upd1_eq, at2_upd2_eq. Qed.

Lemma at3_upd3_ne f (k1 k1' : K1) (k2 k2' : K2) (k3 k3' : K3)
      (m : gmap K1 (gmap K2 (gmap K3 V))) :
    k1 <> k1' \/ k2 <> k2' \/ k3 <> k3' ->
    at3 zero (upd3 zero f k1 k2 k3 m) k1' k2' k3' = at3 zero m k1' k2' k3'.
Proof.
    intros Hne. unfold at3, upd3.
    destruct (decide (k1 = k1')) as [->|Hk1].
    - rewrite at1_upd1_eq. apply at2_upd2_ne. destruct Hne; tauto.
    - by rewrite at1_upd1_ne.
Qed.
End NestedFacts3.

(** ** Sums over a map of person-time *)

Lemma sum_values_insert (k : Q) (x : Q) (m : gmap Q Q) :
  m !! k = None ->
  Report.sum_values (<[k := x]> m) = x + Report.sum_values m.
Proof.
  intros Hk. unfold Report.sum_values.
  apply (map_fold_insert_L (fun _ x acc => x + acc)); [|exact Hk].
  intros. rewrite !Qplus_assoc_L. f_equal. apply Qplus_comm_L.
Qed.

Lemma sum_values_upd1 (k : Q) (d : Q) (m : gmap Q Q) :
  Report.sum_values (upd1 0 (fun x => x + d) k m) == Report.sum_values m + d.
Proof.
  unfold upd1, at1. destruct (m !! k) as [x|] eqn:Hk; simpl.
  - rewrite <- (insert_delete_eq m k (x + d)).
    rewrite <- (insert_delete_id m k x Hk) at 2.
    rewrite !sum_values_insert by apply lookup_delete_eq. lra.
  - rewrite sum_values_insert by exact Hk. lra.
Qed.

Section SumRows.
Context {Tstate : Type} `{Countable Tstate}.

Lemma sum_rows_insert (s : Tstate) (inner : gmap Q Q)
      (pt : gmap Tstate (gmap Q Q)) :
    pt !! s = None ->
    Report.sum_rows (<[s := inner]> pt)
    = Report.sum_values inner + Report.sum_rows pt.
Proof.
    intros Hs. unfold Report.sum_rows.
    apply (map_fold_insert_L (fun _ inner acc => Report.sum_values inner + acc));
      [|exact Hs].
    intros. rewrite !Qplus_assoc_L. f_equal. apply Qplus_comm_L.
Qed.

(** [pt[s][a] += d] adds [d] to the grand total. *)
Lemma sum_rows_upd2 (s : Tstate) (a d : Q) (pt : gmap Tstate (gmap Q Q)) :
    Report.sum_rows (upd2 0 (fun x => x + d) s a pt) == Report.sum_rows pt + d.
Proof.
    unfold upd2, upd1 at 1, at1 at 1.
    destruct (pt !! s) as [inner|] eqn:Hs; simpl.
    - rewrite <- (insert_delete_eq pt s).
      rewrite <- (insert_delete_id pt s inner Hs) at 2.
      rewrite !sum_rows_insert by apply lookup_delete_eq.
      rewrite sum_values_upd1. lra.
    - rewrite sum_rows_insert by exact Hs.
      rewrite sum_values_upd1. unfold Report.sum_values.
      rewrite map_fold_empty. lra.
Qed.
End SumRows.

(** ** Strictly increasing partitions *)

Lemma StronglySorted_lookup {A : Type} (R : A -> A -> Prop) (v : list A)
    (i j : nat) (a b : A) :
  StronglySorted R v -> v !! i = Some a -> v !! j = Some b ->
  (i < j)%nat -> R a b.
Proof.
  intros Hs. revert i j. induction Hs as [|x v Hs IH Hall]; intros i j Hi Hj Hij.
  - discriminate.
  - destruct j as [|j]; [lia|]. destruct i as [|i]; simpl in *.
    + injection Hi as <-. rewrite Forall_forall in Hall.
      apply Hall. eapply list_elem_of_lookup_2, Hj.
    + eapply IH; eauto. lia.
Qed.

Lemma sorted_lookup_lt (v : list Q) (i j : nat) (a b : Q) :
  StronglySorted Qlt v -> v !! i = Some a -> v !! j = Some b ->
  (i < j)%nat -> a < b.
Proof. apply StronglySorted_lookup. Qed.

Lemma sorted_lookup_inj (v : list Q) (i j : nat) (a : Q) :
  StronglySorted Qlt v -> v !! i = Some a -> v !! j = Some a -> i = j.
Proof.
  intros Hs Hi Hj.
  destruct (Nat.lt_trichotomy i j) as [Hlt|[Heq|Hgt]]; [|exact Heq|].
  - pose proof (sorted_lookup_lt _ _ _ _ _ Hs Hi Hj Hlt). lra.
  - pose proof (sorted_lookup_lt _ _ _ _ _ Hs Hj Hi Hgt). lra.
Qed.

Lemma sorted_drop (v : list Q) (n : nat) :
  StronglySorted Qlt v -> StronglySorted Qlt (drop n v).
Proof.
  intros Hs. revert n. induction Hs as [|x v Hs IH Hall]; intros [|n]; simpl;
    try constructor; auto.
Qed.

Lemma last_lookup_length (v : list Q) (m : Q) :
  last v = Some m -> v !! (length v - 1)%nat = Some m /\ (0 < length v)%nat.
Proof.
  rewrite last_lookup. intros Hl. destruct v; simpl in *; [discriminate|].
  rewrite Nat.sub_0_r. split; [exact Hl | lia].
Qed.

Lemma sorted_le_last (v : list Q) (m a : Q) (i : nat) :
  StronglySorted Qlt v -> last v = Some m -> v !! i = Some a ->
  a <= m /\ (a < m <-> (S i < length v)%nat).
Proof.
  intros Hs Hl Hi. apply last_lookup_length in Hl as [Hl Hpos].
  pose proof (lookup_lt_Some _ _ _ Hi) as Hlen.
  destruct (decide (i = length v - 1)%nat) as [->|Hne].
  - rewrite Hl in Hi. injection Hi as <-. split; [lra|]. split; [lra|lia].
  - assert (i < length v - 1)%nat as Hlt by lia.
    pose proof (sorted_lookup_lt _ _ _ _ _ Hs Hi Hl Hlt). split; [lra|].
    split; [lia|auto].
Qed.

Lemma last_drop (v : list Q) (n : nat) (m : Q) :
  last v = Some m -> (n < length v)%nat -> last (drop n v) = Some m.
Proof.
  intros Hl Hn. rewrite last_lookup in *. rewrite lookup_drop, length_drop.
  rewrite <- Hl. f_equal. lia.
Qed.

(** ** [lower_bound] *)

Lemma lower_bound_le_length v x : (lower_bound v x <= length v)%nat.
Proof. induction v as [|a v IH]; simpl; [lia|]. destruct (Qltb a x); simpl; lia. Qed.

Lemma lower_bound_before v x i a :
  (i < lower_bound v x)%nat -> v !! i = Some a -> a < x.
Proof.
  revert i. induction v as [|b v IH]; intros i Hi Hl; simpl in *; [lia|].
  destruct (Qltb b x) eqn:E; [|lia].
  destruct i as [|i]; simpl in *.
  - injection Hl as <-. by apply Qltb_lt.
  - apply (IH i); [lia | exact Hl].
Qed.

Lemma lower_bound_at v x a :
  v !! lower_bound v x = Some a -> x <= a.
Proof.
  induction v as [|b v IH]; simpl; [discriminate|].
  destruct (Qltb b x) eqn:E; simpl.
  - exact IH.
  - intros Hb. injection Hb as <-. by apply Qltb_ge.
Qed.

Lemma lower_bound_le_index v x j b :
  v !! j = Some b -> x <= b -> (lower_bound v x <= j)%nat.
Proof.
  intros Hj Hb. destruct (le_lt_dec (lower_bound v x) j) as [Hle|Hlt]; [exact Hle|].
  pose proof (lower_bound_before _ _ _ _ Hlt Hj). lra.
Qed.

(** ** The loop of [add] *)
Section AddLoop.
Context {Tstate : Type} `{Countable Tstate}.
Variables (state : Tstate) (lhs rhs itmax m : Q).
Hypothesis itmax_le : itmax <= m.

(** A rule for the loop: an invariant that the body preserves holds when
      the loop ends, and the loop does end on a position inside the
      partition. *)
Lemma add_loop_rule
      (P : gmap Tstate (gmap Q Q) -> gmap Tstate (gmap Q Z) -> nat -> list Q -> Prop) :
    (forall a b rest it pt prev,
        a < itmax -> P pt prev it (a :: b :: rest) ->
        P (Report.body_pt state lhs rhs a b pt)
          (Report.body_prev state lhs rhs a prev) (S it) (b :: rest)) ->
    forall suffix it pt prev,
      StronglySorted Qlt suffix -> last suffix = Some m -> P pt prev it suffix ->
      exists pt' prev' it' c rest,
        Report.add_loop state lhs rhs itmax suffix it pt prev = Some (pt', prev', it')
        /\ P pt' prev' it' (c :: rest) /\ itmax <= c.
Proof.
    intros Hstep suffix.
    induction suffix as [|a rest IH]; intros it pt prev Hs Hl HP.
    - discriminate.
    - simpl. destruct (Qltb a itmax) eqn:E.
      + apply Qltb_lt in E. destruct rest as [|b rest'].
        * simpl in Hl. injection Hl as ->. lra.
        * apply IH.
          -- by apply StronglySorted_inv in Hs as [Hs _].
          -- exact Hl.
          -- by apply Hstep.
      + apply Qltb_ge in E. by exists pt, prev, it, a, rest.
Qed.
End AddLoop.

(** ** What one call of [add] does

    The partition is [v], strictly increasing, with last cutpoint [m]; the
    loop starts at position [lo], the greatest cutpoint not after [lhs]. *)
Section AddSpec.
Context {Tstate : Type} `{Countable Tstate}.
Variables (v : list Q) (m : Q) (state : Tstate) (lhs rhs : Q).
Variables (lo : nat) (alo : Q).
Variables (pt0 : gmap Tstate (gmap Q Q)) (prev0 : gmap Tstate (gmap Q Z)).
Hypothesis Hsorted : StronglySorted Qlt v.
Hypothesis Hlast : last v = Some m.
Hypothesis Hlo : v !! lo = Some alo.
Hypothesis Hlo_le : alo <= lhs.
Hypothesis Hafter : forall j b, (lo < j)%nat -> v !! j = Some b -> lhs < b.
Hypothesis Hle : lhs <= rhs.
Hypothesis Hlm : lhs <= m.

(** [itmax = rhs<_max ? rhs : _max] *)
Definition itmax_of (rhs m : Q) : Q := if Qltb rhs m then rhs else m.

(** The buckets [lo <= j < it] have been visited. *)
Definition visited (it : nat) (k : Q) : Prop :=
  exists j, (lo <= j < it)%nat /\ v !! j = Some k.

Definition loop_inv (pt : gmap Tstate (gmap Q Q)) (prev : gmap Tstate (gmap Q Z))
    (it : nat) (suf : list Q) : Prop :=
  suf = drop it v /\ (lo <= it)%nat
  /\ (forall j a, (lo <= j < it)%nat -> v !! j = Some a -> a < itmax_of rhs m)
  /\ (forall j a b, (lo <= j < it)%nat -> v !! j = Some a -> v !! S j = Some b ->
        at2 0 pt state a == at2 0 pt0 state a + Report.credit lhs rhs a b)
  /\ (forall s' k, s' <> state \/ ~ visited it k ->
        at1 ∅ pt s' !! k = at1 ∅ pt0 s' !! k)
  /\ (forall j a, (lo <= j < it)%nat -> v !! j = Some a ->
        at2 0%Z prev state a
        = (at2 0%Z prev0 state a + (if Qleb lhs a && Qltb a rhs then 1 else 0))%Z)
  /\ (forall s' k, s' <> state \/ ~ visited it k ->
        at1 ∅ prev s' !! k = at1 ∅ prev0 s' !! k)
  /\ (lhs == rhs -> prev = prev0)
  /\ (it = lo -> pt = pt0)
  /\ (it <> lo -> exists c, v !! it = Some c /\
        Report.sum_rows pt
        == Report.sum_rows pt0 + ((if Qltb c rhs then c else rhs) - lhs)).

Lemma itmax_le_last : itmax_of rhs m <= m.
Proof. unfold itmax_of. cmp_cases; lra. Qed.

Lemma itmax_le_rhs : itmax_of rhs m <= rhs.
Proof. unfold itmax_of. cmp_cases; lra. Qed.

Lemma loop_inv_init : loop_inv pt0 prev0 lo (drop lo v).
Proof.
  unfold loop_inv. repeat split; try done; try (intros; lia).
Qed.

Lemma loop_inv_step a b rest it pt prev :
  a < itmax_of rhs m -> loop_inv pt prev it (a :: b :: rest) ->
  loop_inv (Report.body_pt state lhs rhs a b pt)
           (Report.body_prev state lhs rhs a prev) (S it) (b :: rest).
Proof.
  intros Ha (Hsuf & Hge & Hvis & Hpt & Hpt' & Hprev & Hprev' & Hempty & Hfirst & Hsum).
  assert (v !! it = Some a) as Hit.
  { rewrite <- (Nat.add_0_r it), <- lookup_drop, <- Hsuf. reflexivity. }
  assert (v !! S it = Some b) as HSit.
  { rewrite <- (Nat.add_1_r it), <- lookup_drop, <- Hsuf. reflexivity. }
  assert (forall j k, (lo <= j < it)%nat -> v !! j = Some k -> k <> a) as Hfresh.
  { intros j k Hj Hk ->.
    pose proof (sorted_lookup_inj _ _ _ _ Hsorted Hk Hit). lia. }
  unfold loop_inv. split; [|split; [lia|]].
  { rewrite <- Nat.add_1_r, <- drop_drop, <- Hsuf. reflexivity. }
  split; [|split; [|split; [|split; [|split; [|split; [|split]]]]]].
  - intros j k Hj Hk. destruct (decide (j = it)) as [->|Hne].
    + rewrite Hit in Hk. by injection Hk as <-.
    + apply (Hvis j); [lia | done].
  - intros j k k' Hj Hk Hk'. unfold Report.body_pt.
    destruct (decide (j = it)) as [->|Hne].
    + rewrite Hit in Hk. injection Hk as <-.
      rewrite HSit in Hk'. injection Hk' as <-.
      rewrite at2_upd2_eq.
      assert (at2 0 pt state a = at2 0 pt0 state a) as ->; [|reflexivity].
      unfold at2, at1 at 1 3. rewrite Hpt'; [done|].
      right. intros (j & Hj' & Hk). by eapply Hfresh.
    + rewrite at2_upd2_ne.
      * apply (Hpt j); [lia | done | done].
      * right. intros Heq. eapply (Hfresh j k); [lia | done | by symmetry].
  - intros s' k Hk. unfold Report.body_pt. rewrite lookup_upd2_ne.
    + apply Hpt'. destruct Hk as [Hk|Hk]; [by left|right].
      intros (j & Hj & Hjk). apply Hk. exists j. split; [lia|done].
    + destruct Hk as [Hk|Hk]; [left; congruence|right].
      intros <-. apply Hk. exists it. split; [lia|done].
  - intros j k Hj Hk. unfold Report.body_prev.
    destruct (decide (j = it)) as [->|Hne].
    + rewrite Hit in Hk. injection Hk as <-.
      assert (at2 0%Z prev state a = at2 0%Z prev0 state a) as Hsame.
      { unfold at2, at1 at 1 3. rewrite Hprev'; [done|].
        right. intros (j & Hj' & Hk). by eapply Hfresh. }
      destruct (Qleb lhs a && Qltb a rhs).
      * rewrite at2_upd2_eq. by rewrite Hsame.
      * rewrite Hsame. lia.
    + assert (k <> a) as Hka by (eapply (Hfresh j k); [lia | done]).
      destruct (Qleb lhs a && Qltb a rhs).
      * rewrite at2_upd2_ne by (right; congruence). apply (Hprev j); [lia|done].
      * apply (Hprev j); [lia|done].
  - intros s' k Hk. unfold Report.body_prev.
    assert (at1 ∅ prev s' !! k = at1 ∅ prev0 s' !! k) as Hold.
    { apply Hprev'. destruct Hk as [Hk|Hk]; [by left|right].
      intros (j & Hj & Hjk). apply Hk. exists j. split; [lia|done]. }
    destruct (Qleb lhs a && Qltb a rhs); [|done].
    rewrite lookup_upd2_ne; [done|].
    destruct Hk as [Hk|Hk]; [left; congruence|right].
    intros <-. apply Hk. exists it. split; [lia|done].
  - intros Heq. unfold Report.body_prev.
    destruct (Qleb lhs a) eqn:E1; simpl; [|by apply Hempty].
    destruct (Qltb a rhs) eqn:E2; simpl; [|by apply Hempty].
    apply Qleb_le in E1. apply Qltb_lt in E2. lra.
  - lia.
  - intros _. exists b. split; [done|]. unfold Report.body_pt.
    rewrite sum_rows_upd2. unfold Report.credit.
    pose proof itmax_le_rhs as Hir.
    destruct (decide (it = lo)) as [->|Hne].
    + rewrite (Hfirst eq_refl). rewrite Hlo in Hit. injection Hit as ->.
      cmp_cases; lra.
    + destruct (Hsum Hne) as (c & Hc & ->). rewrite Hit in Hc. injection Hc as <-.
      assert (lhs < a) by (apply (Hafter it); [lia|done]).
      cmp_cases; lra.
Qed.

(** The loop, from [lo], ends at a position [it] inside the partition; at
    that point the invariant holds and [*it >= itmax]. *)
Lemma add_loop_runs :
  exists pt' prev' it c,
    Report.add_loop state lhs rhs (itmax_of rhs m) (drop lo v) lo pt0 prev0
    = Some (pt', prev', it)
    /\ loop_inv pt' prev' it (drop it v) /\ v !! it = Some c
    /\ itmax_of rhs m <= c.
Proof.
  destruct (add_loop_rule state lhs rhs (itmax_of rhs m) m itmax_le_last
              loop_inv loop_inv_step (drop lo v) lo pt0 prev0)
    as (pt' & prev' & it & c & rest & Hrun & Hinv & Hc).
  - by apply sorted_drop.
  - apply last_drop; [done|]. by eapply lookup_lt_Some.
  - apply loop_inv_init.
  - exists pt', prev', it, c. split; [done|].
    pose proof Hinv as (Hsuf & _). split; [by rewrite <- Hsuf|]. split; [|done].
    rewrite <- (Nat.add_0_r it), <- lookup_drop, <- Hsuf. reflexivity.
Qed.

(** The person-time credited by the whole loop. *)
Lemma loop_inv_total pt' prev' it c :
  loop_inv pt' prev' it (drop it v) -> v !! it = Some c ->
  itmax_of rhs m <= c ->
  Report.sum_rows pt' == Report.sum_rows pt0 + (itmax_of rhs m - lhs).
Proof.
  intros (_ & Hge & Hvis & _ & _ & _ & _ & _ & Hfirst & Hsum) Hc Hcmax.
  destruct (sorted_le_last _ _ _ _ Hsorted Hlast Hc) as [Hcm _].
  destruct (decide (it = lo)) as [->|Hne].
  - rewrite (Hfirst eq_refl). rewrite Hlo in Hc. injection Hc as ->.
    revert Hcmax. unfold itmax_of. cmp_cases; lra.
  - destruct (Hsum Hne) as (c' & Hc' & ->). rewrite Hc in Hc'. injection Hc' as <-.
    revert Hcmax. unfold itmax_of. cmp_cases; lra.
Qed.
End AddSpec.

(** ** The start of the loop: [lower_bound] and the step back *)

Lemma add_start (v : list Q) (lhs a0 m : Q) :
  StronglySorted Qlt v -> head v = Some a0 -> last v = Some m ->
  a0 <= lhs -> lhs <= m ->
  exists x lo alo,
    deref v (Z.of_nat (lower_bound v lhs)) = Some x
    /\ (if Qltb lhs x then (Z.of_nat (lower_bound v lhs) - 1)%Z
        else Z.of_nat (lower_bound v lhs)) = Z.of_nat lo
    /\ v !! lo = Some alo /\ alo <= lhs
    /\ (forall j b, (lo < j)%nat -> v !! j = Some b -> lhs < b)
    /\ (forall j b, (j <= lo)%nat -> v !! j = Some b -> b <= lhs).
Proof.
  intros Hs Hh Hl Ha0 Hm.
  assert (v !! 0%nat = Some a0) as H0 by (by rewrite <- head_lookup).
  destruct (last_lookup_length _ _ Hl) as [Hlast Hpos].
  pose proof (lower_bound_le_index v lhs _ _ Hlast Hm) as Hlb.
  destruct (lookup_lt_is_Some_2 v (lower_bound v lhs)) as [x Hx]; [lia|].
  pose proof (lower_bound_at _ _ _ Hx) as Hxge.
  assert (forall i j a b, v !! i = Some a -> v !! j = Some b -> (i <= j)%nat -> a <= b)
    as Hmono.
  { intros i j a b Hi Hj Hij. destruct (decide (i = j)) as [->|Hne].
    - rewrite Hi in Hj. injection Hj as ->. lra.
    - assert (a < b); [|lra]. eapply sorted_lookup_lt; eauto. lia. }
  exists x. unfold deref.
  assert ((Z.of_nat (lower_bound v lhs) <? 0)%Z = false) as -> by lia.
  rewrite Nat2Z.id.
  destruct (Qltb lhs x) eqn:E; [apply Qltb_lt in E | apply Qltb_ge in E].
  - assert (lower_bound v lhs <> 0%nat) as Hnz.
    { intros Hz. rewrite Hz in Hx. rewrite H0 in Hx. injection Hx as ->. lra. }
    destruct (lookup_lt_is_Some_2 v (lower_bound v lhs - 1)) as [alo Halo]; [lia|].
    exists (lower_bound v lhs - 1)%nat, alo. split; [done|]. split; [lia|].
    split; [done|].
    assert (alo < lhs) by (eapply lower_bound_before; [|exact Halo]; lia).
    split; [lra|]. split.
    + intros j b Hj Hb. assert (x <= b); [|lra].
      eapply (Hmono (lower_bound v lhs) j); eauto. lia.
    + intros j b Hj Hb. assert (b <= alo); [|lra].
      eapply (Hmono j (lower_bound v lhs - 1)%nat); eauto.
  - exists (lower_bound v lhs), x. split; [done|]. split; [done|].
    split; [done|]. split; [lra|]. split.
    + intros j b Hj Hb. assert (x < b); [|lra]. eapply sorted_lookup_lt; eauto.
    + intros j b Hj Hb. assert (b <= x); [|lra]. eapply Hmono; eauto.
Qed.

Section AddWhole.
Context {Tstate Tevent : Type} `{Countable Tstate} `{Countable Tevent}.
Implicit Types r : Report.EventReport Tstate Tevent.

(** The report that [add] returns once the loop has produced [pt'], [prev']
    and stopped at [it]. *)
Definition add_result r (state : Tstate) (event : Tevent) (rhs : Q)
    (pt' : gmap Tstate (gmap Q Q)) (prev' : gmap Tstate (gmap Q Z)) (it : nat)
    : option (Report.EventReport Tstate Tevent) :=
  if Qltb rhs (Report._max r) then
    match deref (Report._partition r) (Z.of_nat it - 1) with
    | None => None
    | Some a =>
        Some (Report.mkEventReport (Report._max r) (Report._partition r) prev' pt'
                (upd3 0%Z (fun n => (n + 1)%Z) state event a (Report._events r)))
    end
  else
    Some (Report.mkEventReport (Report._max r) (Report._partition r) prev' pt'
            (Report._events r)).

(** One call of [add] on an interval that starts inside the partition. *)
Lemma add_runs r state event lhs rhs a0 :
  Report.well_formed r -> head (Report._partition r) = Some a0 ->
  a0 <= lhs -> lhs <= Report._max r -> lhs <= rhs ->
  exists lo alo pt' prev' it c,
    Report._partition r !! lo = Some alo /\ alo <= lhs
    /\ (forall j b, (lo < j)%nat -> Report._partition r !! j = Some b -> lhs < b)
    /\ (forall j b, (j <= lo)%nat -> Report._partition r !! j = Some b -> b <= lhs)
    /\ loop_inv (Report._partition r) (Report._max r) state lhs rhs lo
                (Report._pt r) (Report._prev r) pt' prev' it
                (drop it (Report._partition r))
    /\ Report._partition r !! it = Some c
    /\ itmax_of rhs (Report._max r) <= c
    /\ Report.add state event lhs rhs r = add_result r state event rhs pt' prev' it.
Proof.
  intros [Hs Hl] Hh Ha0 Hm Hle.
  destruct (add_start _ _ _ _ Hs Hh Hl Ha0 Hm)
    as (x & lo & alo & Hx & Hlo & Halo & Hale & Hafter & Hbefore).
  destruct (add_loop_runs (Report._partition r) (Report._max r) state lhs rhs lo alo
              (Report._pt r) (Report._prev r) Hs Hl Halo Hale Hafter Hle)
    as (pt' & prev' & it & c & Hrun & Hinv & Hc & Hcge).
  exists lo, alo, pt', prev', it, c. repeat (split; [done|]).
  unfold Report.add, add_result. rewrite Hx, Hlo.
  assert ((Z.of_nat lo <? 0)%Z = false) as -> by lia.
  rewrite Nat2Z.id. fold (itmax_of rhs (Report._max r)). rewrite Hrun. reflexivity.
Qed.
End AddWhole.

(** ** [setPartition] on a strictly increasing sequence *)

Lemma fold_largest_sorted (p : list Q) (a : Q) :
  StronglySorted Qlt (a :: p) ->
  fold_left (fun largest x => if Qltb largest x then x else largest) p a
  = default a (last p).
Proof.
  revert a. induction p as [|b p IH]; intros a Hs; [done|].
  apply StronglySorted_inv in Hs as [Hs Hall].
  rewrite Forall_forall in Hall.
  assert (a < b) as Hab by (apply Hall; left).
  apply Qltb_lt in Hab. simpl fold_left. rewrite Hab, (IH b Hs), last_cons.
  by destruct (last p).
Qed.

Lemma max_element_sorted (p : list Q) :
  StronglySorted Qlt p -> max_element p = last p.
Proof.
  destruct p as [|a p]; [done|]. intros Hs. unfold max_element.
  rewrite (fold_largest_sorted p a Hs), last_cons. by destruct (last p).
Qed.

Section AddFacts.
Context {Tstate Tevent : Type} `{Countable Tstate} `{Countable Tevent}.
Implicit Types r : Report.EventReport Tstate Tevent.

Lemma setPartition_well_formed r (p : list Q) :
  StronglySorted Qlt p -> p <> [] ->
  exists r', Report.setPartition p r = Some r' /\ Report.well_formed r'
             /\ Report._partition r' = p
             /\ Report._pt r' = Report._pt r
             /\ Report._prev r' = Report._prev r
             /\ Report._events r' = Report._events r.
Proof.
  intros Hs Hne. unfold Report.setPartition.
  rewrite (max_element_sorted p Hs).
  destruct (last p) as [m|] eqn:Hl.
  - eexists. split; [reflexivity|]. by repeat split.
  - apply last_None in Hl. contradiction.
Qed.

Lemma add_result_fields r state event rhs pt' prev' it r' :
  add_result r state event rhs pt' prev' it = Some r' ->
  Report._pt r' = pt' /\ Report._prev r' = prev'
  /\ Report._max r' = Report._max r
  /\ Report._partition r' = Report._partition r.
Proof.
  unfold add_result. destruct (Qltb rhs (Report._max r)).
  - destruct (deref _ _); [|discriminate]. intros [= <-]. by repeat split.
  - intros [= <-]. by repeat split.
Qed.

(** [add] keeps the partition, hence well-formedness. *)
Lemma add_well_formed r state event lhs rhs r' :
  Report.well_formed r -> Report.add state event lhs rhs r = Some r' ->
  Report.well_formed r' /\ Report._partition r' = Report._partition r
  /\ Report._max r' = Report._max r.
Proof.
  intros [Hs Hl]. unfold Report.add.
  destruct (deref _ _); [|discriminate].
  destruct (_ <? 0)%Z; [discriminate|].
  destruct (Report.add_loop _ _ _ _ _ _ _ _) as [[[pt' prev'] it]|]; [|discriminate].
  destruct (Qltb rhs (Report._max r)).
  - destruct (deref _ _); [|discriminate]. intros [= <-].
    unfold Report.well_formed; simpl. auto.
  - intros [= <-]. unfold Report.well_formed; simpl. auto.
Qed.

(** The person-time that one call adds to the grand total: the length of
    the interval, cut at the last cutpoint. *)
Lemma add_total_pt r state event lhs rhs a0 r' :
  Report.well_formed r -> head (Report._partition r) = Some a0 ->
  a0 <= lhs -> lhs <= Report._max r -> lhs <= rhs ->
  Report.add state event lhs rhs r = Some r' ->
  Report.total_pt r' == Report.total_pt r + (Qmin rhs (Report._max r) - lhs).
Proof.
  intros Hwf Hh Ha0 Hm Hle Hadd.
  destruct (add_runs r state event lhs rhs a0 Hwf Hh Ha0 Hm Hle)
    as (lo & alo & pt' & prev' & it & c & Hlo & Halo & Hafter & Hbefore
        & Hinv & Hc & Hcge & Heq).
  rewrite Heq in Hadd. apply add_result_fields in Hadd as (Hpt & _).
  unfold Report.total_pt. rewrite Hpt. destruct Hwf as [Hs Hl].
  rewrite (loop_inv_total _ _ state lhs rhs lo alo _ _ Hs Hl Hlo Halo Hle Hm
             pt' prev' it c Hinv Hc Hcge).
  rewrite Qmin_case_ltb. reflexivity.
Qed.

(** Where the loop stops, seen from the partition. *)
Lemma loop_stop_index (v : list Q) (m : Q) (state : Tstate) (lhs rhs : Q) (lo : nat)
    pt0 prev0 pt' prev' (it : nat) (c : Q) :
  StronglySorted Qlt v ->
  loop_inv v m state lhs rhs lo pt0 prev0 pt' prev' it (drop it v) ->
  v !! it = Some c -> itmax_of rhs m <= c ->
  forall j a, v !! j = Some a ->
    ((lo <= j < it)%nat <-> (lo <= j)%nat /\ a < itmax_of rhs m).
Proof.
  intros Hs (_ & Hge & Hvis & _) Hc Hcge j a Hj. split.
  - intros Hji. split; [lia|]. by apply (Hvis j).
  - intros [Hlj Ha]. split; [done|].
    destruct (le_lt_dec it j) as [Hij|Hij]; [|done].
    assert (c <= a); [|lra].
    destruct (decide (it = j)) as [->|Hne].
    + rewrite Hc in Hj. injection Hj as ->. lra.
    + assert (c < a); [|lra]. eapply sorted_lookup_lt; eauto. lia.
Qed.
End AddFacts.

Section AddBuckets.
Context {Tstate Tevent : Type} `{Countable Tstate} `{Countable Tevent}.
Implicit Types r : Report.EventReport Tstate Tevent.

(** The person-time that one call credits to each bucket: the overlap of
    [[lhs, rhs)] with the bucket, for the buckets the loop visits. *)
Lemma add_pt_bucket r state event lhs rhs a0 r' :
  Report.well_formed r -> head (Report._partition r) = Some a0 ->
  a0 <= lhs -> lhs <= Report._max r -> lhs <= rhs ->
  Report.add state event lhs rhs r = Some r' ->
  (forall i a b,
      Report._partition r !! i = Some a -> Report._partition r !! S i = Some b ->
      Report.pt_at r' state a
      == Report.pt_at r state a
         + (if Qltb lhs b && Qltb a rhs then Qmin b rhs - Qmax a lhs else 0))
  /\ (forall s' k,
        s' <> state
        \/ (forall i, Report._partition r !! i = Some k ->
                      Report._partition r !! S i = None) ->
        Report.pt_at r' s' k = Report.pt_at r s' k).
Proof.
  intros Hwf Hh Ha0 Hm Hle Hadd.
  destruct (add_runs r state event lhs rhs a0 Hwf Hh Ha0 Hm Hle)
    as (lo & alo & pt' & prev' & it & c & Hlo & Halo & Hafter & Hbefore
        & Hinv & Hc & Hcge & Heq).
  rewrite Heq in Hadd. apply add_result_fields in Hadd as (Hpt & _).
  destruct Hwf as [Hs Hl].
  pose proof (loop_stop_index _ _ _ _ _ _ _ _ _ _ _ _ Hs Hinv Hc Hcge) as Hstop.
  destruct Hinv as (_ & Hge & Hvis & Hcred & Hsame & _).
  unfold Report.pt_at. rewrite Hpt. split.
  - intros i a b Hi HSi.
    assert (a < b) as Hab by (eapply sorted_lookup_lt; eauto).
    destruct (sorted_le_last _ _ _ _ Hs Hl HSi) as [Hbm _].
    assert (a < itmax_of rhs (Report._max r) <-> a < rhs) as Hit.
    { unfold itmax_of. cmp_cases; split; lra. }
    assert ((lo <= i)%nat <-> lhs < b) as Hloi.
    { split; intros Hx.
      - apply (Hafter (S i)); [lia|done].
      - destruct (le_lt_dec lo i) as [Hy|Hy]; [done|].
        assert (b <= lhs) by (apply (Hbefore (S i)); [lia|done]). lra. }
    destruct (Qltb lhs b) eqn:E1; [apply Qltb_lt in E1 | apply Qltb_ge in E1];
      simpl.
    destruct (Qltb a rhs) eqn:E2; [apply Qltb_lt in E2 | apply Qltb_ge in E2].
    + rewrite (Hcred i a b); [| |done|done].
      * unfold Report.credit. rewrite Qmin_case_ltb, Qmax_case_ltb. reflexivity.
      * apply (Hstop i a Hi). split; [tauto|]. apply Hit, E2.
    + assert (at2 0 pt' state a = at2 0 (Report._pt r) state a) as ->; [|lra].
      unfold at2, at1 at 1 3. rewrite Hsame; [done|]. right.
      intros (j & Hj & Hja).
      assert (a < rhs); [|lra]. apply Hit. by apply (Hvis j).
    + assert (at2 0 pt' state a = at2 0 (Report._pt r) state a) as ->; [|lra].
      unfold at2, at1 at 1 3. rewrite Hsame; [done|]. right.
      intros (j & Hj & Hja).
      pose proof (sorted_lookup_inj _ _ _ _ Hs Hja Hi) as ->.
      assert (lhs < b); [|lra]. apply Hloi. lia.
  - intros s' k Hk. unfold at2, at1 at 1 3. rewrite Hsame; [done|].
    destruct Hk as [Hk|Hk]; [by left|right].
    intros (j & Hj & Hjk). specialize (Hk j Hjk).
    apply lookup_ge_None in Hk. apply lookup_lt_Some in Hc. lia.
Qed.

(** An empty interval leaves every person-time value and the whole
    prevalence table as they were. *)
Lemma add_empty_interval r state event lhs rhs a0 r' :
  Report.well_formed r -> head (Report._partition r) = Some a0 ->
  a0 <= lhs -> lhs <= Report._max r -> lhs == rhs ->
  Report.add state event lhs rhs r = Some r' ->
  Report._prev r' = Report._prev r
  /\ forall s' k, Report.pt_at r' s' k == Report.pt_at r s' k.
Proof.
  intros Hwf Hh Ha0 Hm Heq Hadd.
  assert (lhs <= rhs) as Hle by lra.
  destruct (add_pt_bucket r state event lhs rhs a0 r' Hwf Hh Ha0 Hm Hle Hadd)
    as [Hin Hout].
  split.
  - destruct (add_runs r state event lhs rhs a0 Hwf Hh Ha0 Hm Hle)
      as (lo & alo & pt' & prev' & it & c & _ & _ & _ & _ & Hinv & _ & _ & Hres).
    rewrite Hres in Hadd. apply add_result_fields in Hadd as (_ & -> & _).
    destruct Hinv as (_ & _ & _ & _ & _ & _ & _ & Hempty & _). by apply Hempty.
  - intros s' k. destruct (decide (s' = state)) as [->|Hs'].
    2:{ rewrite Hout; [reflexivity | by left]. }
    destruct (decide (k ∈ Report._partition r)) as [Hk|Hk].
    + apply list_elem_of_lookup in Hk as [i Hi].
      destruct (Report._partition r !! S i) as [b|] eqn:HSi.
      * rewrite (Hin i k b Hi HSi).
        destruct (Qltb lhs b) eqn:E1; [apply Qltb_lt in E1 | apply Qltb_ge in E1];
          simpl; [|lra].
        destruct (Qltb k rhs) eqn:E2; [apply Qltb_lt in E2 | apply Qltb_ge in E2];
          [|lra].
        rewrite Q.min_r, Q.max_r by lra. lra.
      * rewrite Hout; [reflexivity|]. right. intros j Hj.
        destruct Hwf as [Hs _].
        by rewrite (sorted_lookup_inj _ _ _ _ Hs Hj Hi).
    + rewrite Hout; [reflexivity|]. right. intros j Hj.
      exfalso. apply Hk. by eapply list_elem_of_lookup_2.
Qed.
End AddBuckets.

(** ** The claims about [EventReport::add] *)

Lemma increasing_sorted (v : list Q) :
  increasing v = true -> StronglySorted Qlt v.
Proof.
  intros Hinc. apply Sorted_StronglySorted.
  { intros x y z. apply Qlt_trans. }
  induction v as [|a [|b v] IH]; [constructor|by repeat constructor|].
  simpl in Hinc. apply andb_true_iff in Hinc as [Hab Hrest].
  constructor; [by apply IH|]. constructor. by apply Qltb_lt.
Qed.

Lemma report3_from_setPartition r :
  Report.setPartition [0; 1; 2] (Report.clear r) = Some report3.
Proof. reflexivity. Qed.

Lemma report3_well_formed : Report.well_formed report3.
Proof.
  split; [|reflexivity].
  repeat constructor; reflexivity.
Defined.

Lemma lower_bound_all_before (v : list Q) (x : Q) :
  (forall i a, v !! i = Some a -> a < x) -> lower_bound v x = length v.
Proof.
  induction v as [|b v IH]; intros Hall; [done|]. simpl.
  assert (b < x) as Hb by (apply (Hall 0%nat); done).
  apply Qltb_lt in Hb. rewrite Hb. f_equal. apply IH.
  intros i a Hi. by apply (Hall (S i)).
Qed.

Section AddClaims.
Context {Tstate Tevent : Type} `{Countable Tstate} `{Countable Tevent}.
Implicit Types r : Report.EventReport Tstate Tevent.

(** An interval that starts after the last cutpoint: [lower_bound] returns
    [end()], which is read. *)
Lemma add_past_max r state event lhs rhs :
  Report.well_formed r -> Report._max r < lhs ->
  Report.add state event lhs rhs r = None.
Proof.
  intros [Hs Hl] Hlt. unfold Report.add.
  rewrite lower_bound_all_before.
  - unfold deref. rewrite Nat2Z.id.
    assert ((Z.of_nat (length (Report._partition r)) <? 0)%Z = false) as ->
      by (apply Z.ltb_ge, Nat2Z.is_nonneg).
    by rewrite (lookup_ge_None_2 _ _ (Nat.le_refl _)).
  - intros i a Hi. destruct (sorted_le_last _ _ _ _ Hs Hl Hi). lra.
Qed.

(** An interval that starts before the first cutpoint: the iterator is
    moved one position before [begin()], which is read. *)
Lemma add_before_first r state event lhs rhs a0 :
  head (Report._partition r) = Some a0 -> lhs < a0 ->
  Report.add state event lhs rhs r = None.
Proof.
  intros Hh Hlt. unfold Report.add.
  destruct (Report._partition r) as [|b v] eqn:Hv; [done|].
  simpl in Hh. injection Hh as ->. simpl.
  assert (Qltb a0 lhs = false) as -> by (apply Qltb_ge; lra). simpl.
  assert (Qltb lhs a0 = true) as -> by (apply Qltb_lt; lra). reflexivity.
Qed.

(** C10. On a non-empty, strictly increasing partition [a0 < ... < ak] with
    [_max = ak], [add] reads the partition only inside its bounds, and so
    returns a report, whenever [a0 < lhs <= ak] and [lhs <= rhs].  Both ends
    of the condition matter: for [lhs = rhs = a0 < _max] the event step reads
    [*(it-1)] one position before the first cutpoint, and for [lhs] greater
    than every cutpoint [lower_bound] returns [end()], which is then read. *)
Theorem add_in_bounds r state event lhs rhs a0 :
  Report.well_formed r -> head (Report._partition r) = Some a0 ->
  (a0 < lhs -> lhs <= Report._max r -> lhs <= rhs ->
     is_Some (Report.add state event lhs rhs r))
  /\ (lhs == a0 -> rhs == a0 -> a0 < Report._max r ->
        Report.add state event lhs rhs r = None)
  /\ (Report._max r < lhs -> Report.add state event lhs rhs r = None).
Proof.
  intros Hwf Hh. split; [|split].
  - intros Ha0 Hm Hle.
    destruct (add_runs r state event lhs rhs a0 Hwf Hh ltac:(lra) Hm Hle)
      as (lo & alo & pt' & prev' & it & c & Hlo & Halo & Hafter & Hbefore
          & Hinv & Hc & Hcge & ->).
    unfold add_result.
    destruct (Qltb rhs (Report._max r)) eqn:E; [|by eexists].
    apply Qltb_lt in E.
    assert (it <> 0%nat) as Hit.
    { intros ->. rewrite <- head_lookup, Hh in Hc. injection Hc as <-.
      revert Hcge. unfold itmax_of. cmp_cases; lra. }
    unfold deref. assert ((Z.of_nat it - 1 <? 0)%Z = false) as -> by lia.
    destruct (lookup_lt_is_Some_2 (Report._partition r) (Z.to_nat (Z.of_nat it - 1)))
      as [a Ha].
    { apply lookup_lt_Some in Hc. lia. }
    rewrite Ha. by eexists.
  - intros Hl Hr Hlt. unfold Report.add.
    destruct (Report._partition r) as [|b v] eqn:Hv; [done|].
    simpl in Hh. injection Hh as ->. simpl.
    assert (Qltb a0 lhs = false) as -> by (apply Qltb_ge; lra).
    simpl. assert (Qltb lhs a0 = false) as -> by (apply Qltb_ge; lra).
    simpl. assert (Qltb rhs (Report._max r) = true) as -> by (apply Qltb_lt; lra).
    assert (Qltb a0 rhs = false) as -> by (apply Qltb_ge; lra).
    reflexivity.
  - intros Hlt. by apply add_past_max.
Qed.

(** C7, as amended.  For [a0 <= lhs <= rhs] with [a0 < rhs < _max], [add]
    adds one to [events[state][event]] at the cutpoint [a] of the bucket with
    [a < rhs <= b]: the bucket that contains [rhs] when [rhs] is no cutpoint,
    the bucket that ends at [rhs] when it is one.  No other event entry
    changes.  When the interval is empty, no person-time value and no
    prevalence entry changes, and the event is credited all the same. *)
Theorem add_credits_event r state event lhs rhs a0 :
  Report.well_formed r -> head (Report._partition r) = Some a0 ->
  a0 <= lhs -> lhs <= rhs -> a0 < rhs -> rhs < Report._max r ->
  exists r' i a b,
    Report.add state event lhs rhs r = Some r'
    /\ Report._partition r !! i = Some a /\ Report._partition r !! S i = Some b
    /\ a < rhs /\ rhs <= b
    /\ Report.events_at r' state event a = (Report.events_at r state event a + 1)%Z
    /\ (forall s' e' k, s' <> state \/ e' <> event \/ k <> a ->
          Report.events_at r' s' e' k = Report.events_at r s' e' k)
    /\ (lhs == rhs ->
          Report._prev r' = Report._prev r
          /\ forall s' k, Report.pt_at r' s' k == Report.pt_at r s' k).
Proof.
  intros Hwf Hh Ha0 Hle Hpos Hlt.
  assert (lhs <= Report._max r) as Hm by lra.
  destruct (add_runs r state event lhs rhs a0 Hwf Hh Ha0 Hm Hle)
    as (lo & alo & pt' & prev' & it & c & Hlo & Halo & Hafter & Hbefore
        & Hinv & Hc & Hcge & Hres).
  pose proof Hwf as [Hs Hl].
  assert (itmax_of rhs (Report._max r) = rhs) as Hitmax.
  { unfold itmax_of. apply Qltb_lt in Hlt. by rewrite Hlt. }
  rewrite Hitmax in Hcge.
  assert (it <> 0%nat) as Hit.
  { intros ->. rewrite <- head_lookup, Hh in Hc. injection Hc as <-. lra. }
  destruct (lookup_lt_is_Some_2 (Report._partition r) (it - 1)) as [a Ha].
  { apply lookup_lt_Some in Hc. lia. }
  assert (Report.add state event lhs rhs r
          = Some (Report.mkEventReport (Report._max r) (Report._partition r) prev' pt'
                    (upd3 0%Z (fun n => (n + 1)%Z) state event a (Report._events r))))
    as Hadd.
  { rewrite Hres. unfold add_result. apply Qltb_lt in Hlt. rewrite Hlt.
    unfold deref. assert ((Z.of_nat it - 1 <? 0)%Z = false) as -> by lia.
    replace (Z.to_nat (Z.of_nat it - 1)) with (it - 1)%nat by lia.
    by rewrite Ha. }
  eexists _, (it - 1)%nat, a, c. split; [exact Hadd|].
  split; [done|]. split; [by replace (S (it - 1)) with it by lia|].
  split; [|split; [done|]].
  - destruct (le_lt_dec lo (it - 1)) as [Hin|Hout].
    + destruct Hinv as (_ & _ & Hvis & _).
      rewrite <- Hitmax. apply (Hvis (it - 1)%nat); [lia|done].
    + destruct Hinv as (_ & Hge & _).
      assert (it = lo) as -> by lia.
      rewrite Hlo in Hc. injection Hc as ->.
      assert (a < c); [|lra]. eapply sorted_lookup_lt; eauto; lia.
  - split; [|split].
    + unfold Report.events_at; simpl. by rewrite at3_upd3_eq.
    + intros s' e' k Hne. unfold Report.events_at; simpl.
      apply at3_upd3_ne.
      destruct Hne as [?|[?|?]]; [left|right; left|right; right]; congruence.
    + intros Heq.
      apply (add_empty_interval r state event lhs rhs a0 _ Hwf Hh Ha0 Hm Heq Hadd).
Qed.

(** C2, as amended.  For [a0 <= lhs <= rhs] with [lhs <= _max <= rhs], [add]
    records no event, credits to every bucket [[a, b)] of the partition that
    ends after [lhs] the person-time [min(b, rhs) - max(a, lhs)], changes no
    other person-time value, and so credits [_max - lhs] in all: nothing
    after [_max]. *)
Theorem add_truncates_at_max r state event lhs rhs a0 :
  Report.well_formed r -> head (Report._partition r) = Some a0 ->
  a0 <= lhs -> lhs <= rhs -> lhs <= Report._max r -> Report._max r <= rhs ->
  exists r',
    Report.add state event lhs rhs r = Some r'
    /\ Report._events r' = Report._events r
    /\ (forall i a b,
          Report._partition r !! i = Some a -> Report._partition r !! S i = Some b ->
          Report.pt_at r' state a
          == Report.pt_at r state a
             + (if Qltb lhs b then Qmin b rhs - Qmax a lhs else 0))
    /\ (forall s' k,
          s' <> state
          \/ (forall i, Report._partition r !! i = Some k ->
                        Report._partition r !! S i = None) ->
          Report.pt_at r' s' k = Report.pt_at r s' k)
    /\ Report.total_pt r' == Report.total_pt r + (Report._max r - lhs).
Proof.
  intros Hwf Hh Ha0 Hle Hm Hmax.
  destruct (add_runs r state event lhs rhs a0 Hwf Hh Ha0 Hm Hle)
    as (lo & alo & pt' & prev' & it & c & _ & _ & _ & _ & _ & _ & _ & Hres).
  assert (Qltb rhs (Report._max r) = false) as Hge by (by apply Qltb_ge).
  unfold add_result in Hres. rewrite Hge in Hres.
  eexists. split; [exact Hres|]. split; [reflexivity|].
  destruct (add_pt_bucket r state event lhs rhs a0 _ Hwf Hh Ha0 Hm Hle Hres)
    as [Hin Hout].
  split; [|split; [exact Hout|]].
  - intros i a b Hi HSi. rewrite (Hin i a b Hi HSi).
    destruct Hwf as [Hs Hl].
    assert (a < b) by (eapply sorted_lookup_lt; eauto).
    destruct (sorted_le_last _ _ _ _ Hs Hl HSi) as [Hbm _].
    assert (Qltb a rhs = true) as -> by (apply Qltb_lt; lra).
    by rewrite andb_true_r.
  - rewrite (add_total_pt r state event lhs rhs a0 _ Hwf Hh Ha0 Hm Hle Hres).
    rewrite Q.min_r by lra. reflexivity.
Qed.
End AddClaims.

(** Witness for C10: an interval inside the partition 0, 1, 2, the empty
    interval at the first cutpoint, and an interval after the last one. *)
Lemma add_in_bounds_witness :
  is_Some (Report.add 0%Z 0%Z (1#2) (3#2) report3)
  /\ Report.add 0%Z 0%Z 0 0 report3 = None
  /\ Report.add 0%Z 0%Z 3 4 report3 = None.
Proof.
  split; [|split].
  - apply (proj1 (add_in_bounds report3 0%Z 0%Z (1#2) (3#2) 0
                    report3_well_formed eq_refl));
      reflexivity || discriminate.
  - apply (proj1 (proj2 (add_in_bounds report3 0%Z 0%Z 0 0 0
                           report3_well_formed eq_refl)));
      reflexivity.
  - apply (proj2 (proj2 (add_in_bounds report3 0%Z 0%Z 3 4 0
                           report3_well_formed eq_refl))).
    reflexivity.
Defined.

(** Counterexample to C7 as stated: on the partition 0, 1, 2 the interval
    [[1/2, 1)] ends on the cutpoint 1; the bucket that contains 1 is [[1, 2)],
    yet its event count is not incremented (the event goes to bucket 0). *)
Lemma add_event_on_cutpoint_goes_to_previous_bucket :
  ~ (exists r', Report.add 0%Z 7%Z (1#2) 1 report3 = Some r'
                /\ Report.events_at r' 0%Z 7%Z 1
                   = (Report.events_at report3 0%Z 7%Z 1 + 1)%Z).
Proof.
  intros (r' & Hadd & Hev). vm_compute in Hadd. injection Hadd as <-.
  vm_compute in Hev. discriminate.
Qed.

(** Witness for C7 as amended: the empty interval at 1 on the same
    partition credits its event to the bucket that ends at 1, and changes
    neither person-time nor prevalence. *)
Lemma add_credits_event_witness :
  exists r' i a b,
    Report.add 0%Z 7%Z 1 1 report3 = Some r'
    /\ Report._partition report3 !! i = Some a
    /\ Report._partition report3 !! S i = Some b
    /\ a < 1 /\ 1 <= b
    /\ Report.events_at r' 0%Z 7%Z a = (Report.events_at report3 0%Z 7%Z a + 1)%Z
    /\ (forall s' e' k, s' <> 0%Z \/ e' <> 7%Z \/ k <> a ->
          Report.events_at r' s' e' k = Report.events_at report3 s' e' k)
    /\ Report._prev r' = Report._prev report3
    /\ forall s' k, Report.pt_at r' s' k == Report.pt_at report3 s' k.
Proof.
  destruct (add_credits_event report3 0%Z 7%Z 1 1 0 report3_well_formed eq_refl)
    as (r' & i & a & b & Hadd & Hi & HSi & Ha & Hb & Hev & Hother & Hempty);
    try (reflexivity || discriminate).
  exists r', i, a, b. repeat (split; [assumption|]).
  apply Hempty. reflexivity.
Defined.

(** Counterexample to C2 as stated: on the partition 0, 1, 2 the interval
    [[3, 4)] satisfies [a0 <= lhs <= rhs] and [rhs >= _max], and [add]
    returns no report: [lower_bound] is [end()] and is read. *)
Lemma add_after_last_cutpoint_undefined :
  ~ (exists r', Report.add 0%Z 7%Z 3 4 report3 = Some r'
                /\ Report._events r' = Report._events report3).
Proof. intros (r' & Hadd & _). vm_compute in Hadd. discriminate. Qed.

(** Witness for C2 as amended: the interval [[1/2, 5)] on the partition
    0, 1, 2. *)
Lemma add_truncates_at_max_witness :
  exists r',
    Report.add 0%Z 7%Z (1#2) 5 report3 = Some r'
    /\ Report._events r' = Report._events report3
    /\ (forall i a b,
          Report._partition report3 !! i = Some a ->
          Report._partition report3 !! S i = Some b ->
          Report.pt_at r' 0%Z a
          == Report.pt_at report3 0%Z a
             + (if Qltb (1#2) b then Qmin b 5 - Qmax a (1#2) else 0))
    /\ (forall s' k,
          s' <> 0%Z
          \/ (forall i, Report._partition report3 !! i = Some k ->
                        Report._partition report3 !! S i = None) ->
          Report.pt_at r' s' k = Report.pt_at report3 s' k)
    /\ Report.total_pt r' == Report.total_pt report3 + (Report._max report3 - (1#2)).
Proof.
  apply (add_truncates_at_max report3 0%Z 7%Z (1#2) 5 0 report3_well_formed eq_refl);
    reflexivity || discriminate.
Defined.

(** * The kernel: order of dispatch *)
Section KernelFacts.
Import Kernel Run.

Lemma elem_of_rev_1 {A : Type} (x : A) (l : list A) : x ∈ rev l -> x ∈ l.
Proof. rewrite !list_elem_of_In. apply in_rev. Qed.

Lemma elem_of_rev_2 {A : Type} (x : A) (l : list A) : x ∈ l -> x ∈ rev l.
Proof. rewrite !list_elem_of_In. apply in_rev. Qed.

Lemma earlier_spec x y : earlier x y = true <-> lex_lt x y.
Proof.
  unfold earlier, lex_lt. rewrite orb_true_iff, andb_true_iff.
  rewrite Qltb_lt, Qeq_bool_iff, Nat.ltb_lt. reflexivity.
Qed.

Lemma not_earlier_spec x y : earlier x y = false <-> lex_le y x.
Proof.
  split.
  - intros He. unfold lex_le.
    destruct (Qlt_le_dec (e_time y) (e_time x)) as [Hlt|Hle]; [by left|].
    right. destruct (Qlt_le_dec (e_time x) (e_time y)) as [Hlt'|Hle'].
    + assert (earlier x y = true) by (apply earlier_spec; by left). congruence.
    + split; [lra|]. destruct (le_lt_dec (e_seq y) (e_seq x)) as [Hs|Hs]; [done|].
      assert (earlier x y = true); [|congruence].
      apply earlier_spec. right. split; [lra|done].
  - intros Hle. destruct (earlier x y) eqn:E; [|done].
    apply earlier_spec in E. unfold lex_lt, lex_le in *.
    destruct E as [E|[E1 E2]], Hle as [Hle|[H1 H2]]; try lra. lia.
Qed.

Lemma lex_le_trans x y z : lex_le x y -> lex_le y z -> lex_le x z.
Proof.
  unfold lex_le. intros [Hxy|[Hxy Hs]] [Hyz|[Hyz Hs']].
  - left; lra.
  - left; lra.
  - left; lra.
  - right. split; [lra|lia].
Qed.

Lemma lex_le_refl x : lex_le x x.
Proof. right. split; [lra|lia]. Qed.

Lemma pop_min_None q : pop_min q = None -> q = [].
Proof.
  destruct q as [|x q]; [done|]. simpl.
  destruct (pop_min q) as [[y rest]|]; [|done]. by destruct (earlier y x).
Qed.

(** [pop_min] takes one entry out of the queue, and that entry is not after
    any other. *)
Lemma pop_min_spec q e rest :
  pop_min q = Some (e, rest) ->
  q ≡ₚ e :: rest /\ forall x, x ∈ rest -> lex_le e x.
Proof.
  revert e rest. induction q as [|x q IH]; intros e rest; [done|]. simpl.
  destruct (pop_min q) as [[y rest']|] eqn:Hq.
  - destruct (IH y rest' eq_refl) as [Hperm Hmin].
    destruct (earlier y x) eqn:E; intros [= <- <-].
    + split.
      * rewrite Hperm. apply Permutation_swap.
      * intros z Hz. apply elem_of_cons in Hz as [->|Hz]; [|by apply Hmin].
        apply earlier_spec in E. destruct E as [E|[E1 E2]]; [by left|].
        right. split; [done|lia].
    + split; [done|]. intros z Hz. apply not_earlier_spec in E.
      rewrite Hperm in Hz. apply elem_of_cons in Hz as [->|Hz]; [done|].
      eapply lex_le_trans; [exact E|]. by apply Hmin.
  - intros [= <- <-]. apply pop_min_None in Hq as ->. split; [done|].
    intros z Hz. by apply elem_of_nil in Hz.
Qed.

(** ** Carrying out the calls of a handler *)

(** What a handler's calls may do to the kernel: the clock stays, entries
    are removed, and the new entries lie at or after the clock with fresh
    insertion numbers. *)
Definition grows (s s' : Sim) : Prop :=
  clock s' = clock s /\ attached s' = attached s
  /\ (next_seq s <= next_seq s')%nat
  /\ (forall e, e ∈ queue s' ->
        e ∈ queue s
        \/ (clock s <= e_time e /\ (next_seq s <= e_seq e < next_seq s')%nat))
  /\ (NoDup (map e_seq (queue s)) ->
      (forall e, e ∈ queue s -> (e_seq e < next_seq s)%nat) ->
      NoDup (map e_seq (queue s'))).

Lemma grows_refl s : grows s s.
Proof. unfold grows. repeat split; auto. Qed.

Lemma grows_trans s1 s2 s3 : grows s1 s2 -> grows s2 s3 -> grows s1 s3.
Proof.
  intros (Hc & Ha & Hn & Hq & Hd) (Hc' & Ha' & Hn' & Hq' & Hd').
  unfold grows. split; [congruence|]. split; [congruence|]. split; [lia|].
  split.
  - intros e He. destruct (Hq' e He) as [He'|[Ht Hs]].
    + destruct (Hq e He') as [?|[? ?]]; [by left|]. right. split; [done|lia].
    + right. rewrite <- Hc. split; [done|lia].
  - intros Hnd Hlt. apply Hd'; [by apply Hd|].
    intros e He. destruct (Hq e He) as [He'|[_ Hs]]; [|lia].
    specialize (Hlt e He'). lia.
Qed.

Lemma exec_request_grows r s s' :
  exec_request r s = Ok s' -> grows s s'.
Proof.
  destruct r as [msg delay|pred|]; simpl.
  - unfold self_signal_event.
    destruct (Qltb delay 0) eqn:E; [done|]. apply Qltb_ge in E.
    intros [= <-]. unfold grows; simpl. repeat split; auto.
    + intros e He. apply elem_of_app in He as [He|He]; [by left|].
      apply list_elem_of_singleton in He as ->. right; simpl. split; [lra|lia].
    + intros Hnd Hlt. rewrite map_app. apply NoDup_app. split; [done|]. split.
      * intros n Hn Hn'. apply list_elem_of_singleton in Hn' as ->.
        apply list_elem_of_fmap in Hn as (e & He & Hin).
        specialize (Hlt e Hin). simpl in He. lia.
      * simpl. apply NoDup_singleton.
  - intros [= <-]. unfold grows; simpl. repeat split; auto.
    + intros e He. left. by apply list_elem_of_filter in He as [_ He].
    + intros Hnd _. revert Hnd. generalize (queue s). intros q.
      induction q as [|x q IH]; [done|]. simpl. rewrite NoDup_cons.
      intros [Hx Hq]. rewrite filter_cons. destruct (decide _) as [Hkeep|Hdrop].
      * simpl. apply NoDup_cons. split; [|by apply IH].
        intros Hin. apply Hx. apply list_elem_of_fmap in Hin as (e & He & Hin).
        apply list_elem_of_filter in Hin as [_ Hin].
        apply list_elem_of_fmap. by exists e.
      * by apply IH.
  - intros [= <-]. unfold grows; simpl. repeat split; auto.
Qed.

Lemma exec_requests_grows rs s s' :
  exec_requests rs s = Ok s' -> grows s s'.
Proof.
  revert s. induction rs as [|r rs IH]; intros s; simpl.
  - intros [= <-]. apply grows_refl.
  - destruct (exec_request r s) as [s1|] eqn:Hr; [|done]. intros Hrs.
    eapply grows_trans; [by eapply exec_request_grows | by apply IH].
Qed.
End KernelFacts.

Section KernelInvariant.
Import Kernel Run.

Lemma kernel_ok_grows s s' ds : kernel_ok s ds -> grows s s' -> kernel_ok s' ds.
Proof.
  intros [Hp Hnd Hb Hs Hpast Hnn Hc] (Hclk & _ & Hn & Hq & Hd).
  split.
  - intros e He. rewrite Hclk. destruct (Hq e He) as [Hold|[Ht Hseq]].
    + destruct (Hp e Hold). split; [done|lia].
    + split; [done|lia].
  - apply Hd; [done|]. intros e He. by destruct (Hp e He).
  - intros d e Hdin He. destruct (Hq e He) as [Hold|[Ht Hseq]]; [by apply Hb|].
    destruct (Hpast d Hdin) as [Hdt Hds]. unfold lex_lt.
    destruct (Qlt_le_dec (e_time (d_entry d)) (e_time e)) as [Hlt|Hle]; [by left|].
    right. split; [lra|lia].
  - done.
  - intros d Hdin. rewrite Hclk. destruct (Hpast d Hdin). split; [done|lia].
  - done.
  - by rewrite Hclk.
Qed.

Lemma kernel_ok_pop s ds e rest prev :
  kernel_ok s ds -> pop_min (queue s) = Some (e, rest) ->
  kernel_ok {| clock := e_time e; queue := rest; next_seq := next_seq s;
               running := running s; attached := attached s |}
            (mkDispatch e prev (next_seq s) :: ds).
Proof.
  intros [Hp Hnd Hb Hs Hpast Hnn Hc] Hpop.
  destruct (pop_min_spec _ _ _ Hpop) as [Hperm Hmin].
  assert (e ∈ queue s) as Hein by (rewrite Hperm; left).
  assert (forall x, x ∈ rest -> x ∈ queue s) as Hsub.
  { intros x Hx. rewrite Hperm. by right. }
  assert (NoDup (e_seq e :: map e_seq rest)) as Hnd'.
  { change (NoDup (map e_seq (e :: rest))). by rewrite <- Hperm. }
  apply NoDup_cons in Hnd' as [Hfresh Hnd'].
  assert (forall x, x ∈ rest -> lex_lt e x) as Hstrict.
  { intros x Hx. destruct (Hmin x Hx) as [Hlt|[Heq Hle]]; [by left|].
    right. split; [done|].
    assert (e_seq e <> e_seq x); [|lia].
    intros Hsame. apply Hfresh. rewrite Hsame.
    apply list_elem_of_fmap. by exists x. }
  destruct (Hp e Hein) as [Het Hes].
  split; simpl.
  - intros x Hx. destruct (Hp x (Hsub x Hx)) as [_ Hxs]. split; [|done].
    destruct (Hmin x Hx) as [?|[? _]]; lra.
  - done.
  - intros d x Hd Hx. apply elem_of_cons in Hd as [->|Hd]; simpl.
    + by apply Hstrict.
    + apply Hb; [done|]. by apply Hsub.
  - constructor; [done|]. apply Forall_forall. intros d Hd. simpl. by apply Hb.
  - intros d Hd. apply elem_of_cons in Hd as [->|Hd]; simpl.
    + split; [lra|done].
    + destruct (Hpast d Hd). split; [lra|done].
  - intros d Hd. apply elem_of_cons in Hd as [->|Hd]; simpl.
    + split; [lra|done].
    + by apply Hnn.
  - lra.
Qed.

Context {P : Type} `{Process P}.

Lemma run_handler_spec (m : H P unit) (w w' : World P) :
  run_handler m w = Ok w' ->
  grows (sim w) (sim w') /\ dispatched w' = dispatched w
  /\ previousEventTime (process w') = previousEventTime (process w).
Proof.
  unfold run_handler. destruct (m _) as [[[] h]|]; [|done].
  destruct (exec_requests _ _) as [s|] eqn:Hx; [|done].
  intros [= <-]; simpl. split; [by eapply exec_requests_grows | done].
Qed.

Lemma process_event_spec (msg : cMessage) (w w' : World P) :
  process_event msg w = Ok w' ->
  grows (sim w) (sim w') /\ dispatched w' = dispatched w
  /\ previousEventTime (process w') = clock (sim w).
Proof.
  unfold process_event. destruct (run_handler _ _) as [w1|] eqn:Hh; [|done].
  intros [= <-]; simpl.
  destruct (run_handler_spec _ _ _ Hh) as (Hg & Hd & _).
  split; [done|]. split; [done|]. by destruct Hg.
Qed.

(** The invariant holds at every point of the dispatch loop. *)
Lemma run_loop_ok (fuel : nat) (w : World P) o w' :
  world_ok w -> run_loop fuel w = Ok (o, w') -> world_ok w'.
Proof.
  revert w. induction fuel as [|fuel IH]; intros w Hok; simpl.
  - destruct (negb _); [by intros [= <- <-]|].
    destruct (pop_min _) as [[e rest]|]; by intros [= <- <-].
  - destruct (negb _); [by intros [= <- <-]|].
    destruct (pop_min _) as [[e rest]|] eqn:Hpop; [|by intros [= <- <-]].
    destruct (process_event _ _) as [w2|] eqn:Hev; [|done].
    apply IH. destruct Hok as [Hk Hprev Hchain].
    destruct (process_event_spec _ _ _ Hev) as (Hg & Hd & Hp); simpl in *.
    split.
    + rewrite Hd. eapply kernel_ok_grows; [|exact Hg].
      by apply kernel_ok_pop.
    + by rewrite Hd, Hp.
    + rewrite Hd. simpl. by rewrite <- Hprev.
Qed.

Lemma create_process_ok (p : P) (s : Sim) (w : World P) :
  cleared s -> create_process (new_cProcess p) s = Ok w -> world_ok w.
Proof.
  intros (Hq & Hc & Ha). unfold create_process. rewrite Ha. intros Hrun.
  destruct (run_handler_spec _ _ _ Hrun) as (Hg & Hd & Hp); simpl in *.
  split.
  - rewrite Hd. eapply kernel_ok_grows; [|exact Hg]. split; simpl.
    + rewrite Hq. intros e He. by apply elem_of_nil in He.
    + rewrite Hq. constructor.
    + intros d e Hd'. by apply elem_of_nil in Hd'.
    + constructor.
    + intros d Hd'. by apply elem_of_nil in Hd'.
    + intros d Hd'. by apply elem_of_nil in Hd'.
    + rewrite Hc. lra.
  - by rewrite Hd, Hp.
  - by rewrite Hd.
Qed.

(** The invariant holds at every point of the run of an individual. *)
Lemma simulate_ok (fuel : nat) (p : P) (s : Sim) o (w : World P) :
  cleared s -> simulate fuel p s = Ok (o, w) -> world_ok w.
Proof.
  intros Hs. unfold simulate.
  destruct (create_process _ _) as [w0|] eqn:Hc; [|done].
  unfold run_simulation. apply run_loop_ok.
  destruct (create_process_ok _ _ _ Hs Hc) as [Hk Hp Hch].
  split; simpl; [|done|done].
  destruct Hk. by split.
Qed.
End KernelInvariant.

Section RunInduction.
Import Kernel Run.
Context {P : Type} `{Process P}.

(** The state a handler starts from in the world [w]. *)
Definition handler_start (w : World P) : HState P :=
  {| h_self := self (process w);
     h_previousEventTime := previousEventTime (process w);
     h_now := clock (sim w); h_calls := [] |}.

Lemma run_handler_inv (m : H P unit) (w w' : World P) :
  run_handler m w = Ok w' ->
  exists h, m (handler_start w) = Ok (tt, h)
    /\ exec_requests (h_calls h) (sim w) = Ok (sim w')
    /\ self (process w') = h_self h
    /\ previousEventTime (process w') = previousEventTime (process w)
    /\ dispatched w' = dispatched w.
Proof.
  unfold run_handler. fold (handler_start w).
  destruct (m _) as [[[] h]|]; [|done].
  destruct (exec_requests _ _) as [s|] eqn:Hx; [|done].
  intros [= <-]; simpl. by exists h.
Qed.

Lemma process_event_inv (msg : cMessage) (w w' : World P) :
  process_event msg w = Ok w' ->
  exists h, handleMessage msg (handler_start w) = Ok (tt, h)
    /\ exec_requests (h_calls h) (sim w) = Ok (sim w')
    /\ self (process w') = h_self h
    /\ previousEventTime (process w') = clock (sim w)
    /\ dispatched w' = dispatched w.
Proof.
  unfold process_event. destruct (run_handler _ _) as [w1|] eqn:Hh; [|done].
  intros [= <-]; simpl.
  destruct (run_handler_inv _ _ _ Hh) as (h & Hm & Hx & Hs & Hp & Hd).
  exists h. repeat (split; [done|]). split; [|done].
  apply exec_requests_grows in Hx. by destruct Hx.
Qed.

Lemma popped_ok (w : World P) e rest :
  world_ok w -> pop_min (queue (sim w)) = Some (e, rest) ->
  kernel_ok (sim (popped e rest w)) (dispatched (popped e rest w))
  /\ previousEventTime (process (popped e rest w)) <= clock (sim (popped e rest w)).
Proof.
  intros [Hk Hprev Hchain] Hpop. split; [by apply kernel_ok_pop|]. simpl.
  destruct (pop_min_spec _ _ _ Hpop) as [Hperm _].
  assert (e ∈ queue (sim w)) as Hein by (rewrite Hperm; left).
  destruct (ok_pending _ _ Hk e Hein) as [Hclk _].
  rewrite Hprev. destruct (dispatched w) as [|d ds] eqn:Hd; simpl.
  - pose proof (ok_clock _ _ Hk). lra.
  - destruct (ok_past _ _ Hk d) as [Hpast _]; [first [rewrite Hd; left | left]|].
    lra.
Qed.

(** Induction over the dispatches of a run: a property of the world that
    every dispatch preserves holds at every point of the loop. *)
Lemma run_loop_ind (I : World P -> Prop) :
  (forall w e rest w2,
      world_ok w -> I w -> running (sim w) = true ->
      pop_min (queue (sim w)) = Some (e, rest) ->
      process_event (e_msg e) (popped e rest w) = Ok w2 -> I w2) ->
  forall fuel w o w',
    world_ok w -> I w -> run_loop fuel w = Ok (o, w') -> I w'.
Proof.
  intros Hstep fuel. induction fuel as [|fuel IH]; intros w o w' Hok HI; simpl.
  - destruct (negb _); [by intros [= <- <-]|].
    destruct (pop_min _) as [[e rest]|]; by intros [= <- <-].
  - destruct (running (sim w)) eqn:Hr; simpl; [|by intros [= <- <-]].
    destruct (pop_min _) as [[e rest]|] eqn:Hpop; [|by intros [= <- <-]].
    destruct (process_event _ _) as [w2|] eqn:Hev; [|done].
    apply IH.
    + assert (run_loop 1 w = run_loop 0 w2) as Hone.
      { simpl. by rewrite Hr, Hpop, Hev. }
      destruct (running (sim w2)) eqn:Hr2.
      * destruct (pop_min (queue (sim w2))) as [[e2 rest2]|] eqn:Hpop2.
        -- apply (run_loop_ok 1 w OutOfFuel w2 Hok). rewrite Hone. simpl.
           by rewrite Hr2, Hpop2.
        -- apply (run_loop_ok 1 w Finished w2 Hok). rewrite Hone. simpl.
           by rewrite Hr2, Hpop2.
      * apply (run_loop_ok 1 w Finished w2 Hok). rewrite Hone. simpl.
        by rewrite Hr2.
    + by eapply Hstep.
Qed.

(** How a finished run ended. *)
Lemma run_loop_finished fuel (w w' : World P) :
  run_loop fuel w = Ok (Finished, w') ->
  running (sim w') = false \/ queue (sim w') = [].
Proof.
  revert w. induction fuel as [|fuel IH]; intros w; simpl.
  - destruct (running (sim w)) eqn:Hr; simpl; [|intros [= <-]; by left].
    destruct (pop_min _) as [[e rest]|] eqn:Hpop; [done|].
    intros [= <-]. right. by apply pop_min_None.
  - destruct (running (sim w)) eqn:Hr; simpl; [|intros [= <-]; by left].
    destruct (pop_min _) as [[e rest]|] eqn:Hpop.
    + destruct (process_event _ _) as [w2|]; [|done]. apply IH.
    + intros [= <-]. right. by apply pop_min_None.
Qed.
End RunInduction.

(** * Reasoning about handlers

    A handler is a sequence of steps on its state; a relation between the
    state before and after that is reflexive and transitive, and that every
    primitive step respects, holds of the whole handler. *)
Section HandlerLogic.
Import Kernel Run.
Context {P : Type}.

Definition hstep (R : relation (HState P)) {A : Type} (m : H P A) : Prop :=
  forall h a h', m h = Ok (a, h') -> R h h'.

Lemma hstep_ret (R : relation (HState P)) `{!Reflexive R} {A : Type} (a : A) :
  hstep R (mret a : H P A).
Proof. intros h a' h' [= <- <-]. reflexivity. Qed.

Lemma hstep_bind (R : relation (HState P)) `{!Transitive R} {A B : Type}
    (m : H P A) (f : A -> H P B) :
  hstep R m -> (forall a, hstep R (f a)) -> hstep R (m ≫= f).
Proof.
  intros Hm Hf h b h'. unfold mbind, H_bind, bind.
  destruct (m h) as [[a h1]|] eqn:E; [|done]. intros Hfa.
  transitivity h1; [by eapply Hm | by eapply Hf].
Qed.

Lemma hstep_fail (R : relation (HState P)) {A : Type} (e : error) :
  hstep R (fail e : H P A).
Proof. intros h a h'. discriminate. Qed.

Lemma hstep_now (R : relation (HState P)) `{!Reflexive R} : hstep R now.
Proof. intros h a h' [= <- <-]. reflexivity. Qed.

Lemma hstep_get_previousEventTime (R : relation (HState P)) `{!Reflexive R} :
  hstep R get_previousEventTime.
Proof. intros h a h' [= <- <-]. reflexivity. Qed.

Lemma hstep_get_self (R : relation (HState P)) `{!Reflexive R} :
  hstep R get_self.
Proof. intros h a h' [= <- <-]. reflexivity. Qed.

Lemma hstep_put_self (R : relation (HState P)) (p : P) :
  (forall h, R h {| h_self := p;
                    h_previousEventTime := h_previousEventTime h;
                    h_now := h_now h; h_calls := h_calls h |}) ->
  hstep R (put_self p).
Proof. intros HR h a h' [= <- <-]. apply HR. Qed.

Lemma hstep_call (R : relation (HState P)) (r : request) :
  (forall h, R h {| h_self := h_self h;
                    h_previousEventTime := h_previousEventTime h;
                    h_now := h_now h; h_calls := h_calls h ++ [r] |}) ->
  hstep R (call r).
Proof. intros HR h a h' [= <- <-]. apply HR. Qed.

Lemma hstep_scheduleAt_new (R : relation (HState P)) (t : Q) (k : Z) (n : string)
    (c : message_class) :
  (forall h,
      R h {| h_self := h_self h;
             h_previousEventTime := h_previousEventTime h;
             h_now := h_now h;
             h_calls :=
               h_calls h
               ++ [SelfSignal {| kind := k; name := n; sendingTime := h_now h;
                                 timestamp := t; dynamic_class := c |}
                              (t - h_now h)] |}) ->
  hstep R (scheduleAt_new t k n c).
Proof. intros HR h a h' [= <- <-]. apply HR. Qed.

(** ** The calls that a handler makes *)

(** The handler leaves the two times alone and adds calls that satisfy
    [Φ now]. *)
Definition emits (Φ : Q -> request -> Prop) : relation (HState P) :=
  fun h h' =>
    h_now h' = h_now h
    /\ h_previousEventTime h' = h_previousEventTime h
    /\ exists new, h_calls h' = h_calls h ++ new /\ Forall (Φ (h_now h)) new.

#[global] Instance emits_refl Φ : Reflexive (emits Φ).
Proof.
  intros h. split; [done|]. split; [done|]. exists []. by rewrite app_nil_r.
Qed.

#[global] Instance emits_trans Φ : Transitive (emits Φ).
Proof.
  intros h1 h2 h3 (Hn & Hp & new & Hc & Hall) (Hn' & Hp' & new' & Hc' & Hall').
  split; [congruence|]. split; [congruence|].
  exists (new ++ new'). split.
  - by rewrite Hc', Hc, app_assoc.
  - apply Forall_app. split; [done|]. by rewrite <- Hn.
Qed.

Lemma emits_same_calls Φ (h : HState P) (p : P) :
  emits Φ h {| h_self := p; h_previousEventTime := h_previousEventTime h;
               h_now := h_now h; h_calls := h_calls h |}.
Proof.
  split; [done|]. split; [done|]. exists []. by rewrite app_nil_r.
Qed.

Lemma emits_one_call Φ (h : HState P) (r : request) :
  Φ (h_now h) r ->
  emits Φ h {| h_self := h_self h; h_previousEventTime := h_previousEventTime h;
               h_now := h_now h; h_calls := h_calls h ++ [r] |}.
Proof.
  intros Hr. split; [done|]. split; [done|]. exists [r]. split; [done|].
  by apply Forall_singleton.
Qed.

(** ** A member of the state that a handler keeps *)

(** The handler leaves the two times and the member [f] of the process
    alone. *)
Definition steady {X : Type} (f : P -> X) : relation (HState P) :=
  fun h h' =>
    h_now h' = h_now h
    /\ h_previousEventTime h' = h_previousEventTime h
    /\ f (h_self h') = f (h_self h).

#[global] Instance steady_refl {X : Type} (f : P -> X) : Reflexive (steady f).
Proof. by intros h. Qed.

#[global] Instance steady_trans {X : Type} (f : P -> X) : Transitive (steady f).
Proof.
  intros h1 h2 h3 (Hn & Hp & Hf) (Hn' & Hp' & Hf').
  unfold steady. by rewrite Hn', Hp', Hf'.
Qed.

(** What a handler that ran has done. *)
Lemma hstep_run (R : relation (HState P)) {A : Type} (m : H P A) h a h' :
  m h = Ok (a, h') -> hstep R m -> R h h'.
Proof. intros Hrun Hm. by eapply Hm. Qed.

Lemma bind_inv {A B : Type} (m : H P A) (f : A -> H P B) h b h' :
  (m ≫= f) h = Ok (b, h') ->
  exists a h1, m h = Ok (a, h1) /\ f a h1 = Ok (b, h').
Proof.
  unfold mbind, H_bind, bind. destruct (m h) as [[a h1]|]; [|done].
  intros Hf. by exists a, h1.
Qed.
End HandlerLogic.

(** Decomposes a handler along its binds, conditionals and matches, by the
    shape of its head, and closes the primitive steps with [tac]. *)
Ltac hstep_go tac :=
  repeat match goal with
    | |- hstep _ (mret _) => apply hstep_ret; tc_solve
    | |- hstep _ (Kernel.ret _) => apply hstep_ret; tc_solve
    | |- hstep _ Kernel.now => apply hstep_now; tc_solve
    | |- hstep _ Kernel.get_previousEventTime =>
        apply hstep_get_previousEventTime; tc_solve
    | |- hstep _ Kernel.get_self => apply hstep_get_self; tc_solve
    | |- hstep _ (Kernel.fail _) => apply hstep_fail
    | |- hstep _ (_ ≫= _) => apply hstep_bind; [tc_solve | | intros ?]
    | |- hstep _ (Kernel.bind _ _) => apply hstep_bind; [tc_solve | | intros ?]
    | |- hstep _ (Kernel.put_self _) => apply hstep_put_self; intros ?; tac
    | |- hstep _ (Kernel.call _) => apply hstep_call; intros ?; tac
    | |- hstep _ (Kernel.scheduleAt_new _ _ _ _) =>
        apply hstep_scheduleAt_new; intros ?; tac
    | |- hstep _ (if ?b then _ else _) => destruct b
    | |- hstep _ (match ?x with _ => _ end) => destruct x
    | |- hstep _ (let _ := _ in _) => cbv zeta
    end.

(** Runs the primitive steps of a handler on a state given by its four
    members. *)
Ltac hrun :=
  cbv beta iota zeta delta
    [mbind mret Kernel.H_bind Kernel.H_ret Kernel.bind Kernel.ret
     Kernel.now Kernel.get_self Kernel.get_previousEventTime Kernel.put_self
     Kernel.call Kernel.fail Kernel.scheduleAt Kernel.new_cMessage
     Kernel.scheduleAt_new Kernel.scheduleAt_kind Kernel.scheduleAt_name
     Kernel.RemoveKind Kernel.Sim_stop_simulation Random.draw Random.set
     Kernel.h_self Kernel.h_now Kernel.h_calls Kernel.h_previousEventTime].

(** * The example runs *)
Lemma initial_sim_cleared : Run.cleared Kernel.initial_sim.
Proof. by repeat split. Defined.


(** The two example runs finish. *)
Lemma example_runs_finish :
  Examples.outcome_of
    (Kernel.simulate (H0 := Fhcrc.FhcrcPerson_process Examples.example_externals)
       40 Examples.example_person Kernel.initial_sim) = Some Kernel.Finished
  /\ Examples.outcome_of
       (Kernel.simulate 10 Examples.not_cured Kernel.initial_sim)
     = Some Kernel.Finished.
Proof. split; vm_compute; reflexivity. Qed.


(** The run of the example patient: its fifth message is the clinical
    diagnosis at 60 and its ninth is the [toTreatment] that the diagnosis
    scheduled. *)
Lemma example_patient_diagnosis :
  exists d d3,
    Examples.dispatch_at
      (Kernel.simulate (H0 := Fhcrc.FhcrcPerson_process Examples.example_externals)
         40 Examples.example_person Kernel.initial_sim) 4 = Some d
    /\ Examples.dispatch_at
         (Kernel.simulate (H0 := Fhcrc.FhcrcPerson_process Examples.example_externals)
            40 Examples.example_person Kernel.initial_sim) 8 = Some d3
    /\ Kernel.kind (Kernel.e_msg (Kernel.d_entry d))
       = Fhcrc.event_code Fhcrc.toClinicalDiagnosis
    /\ Kernel.d_entry d3 = Offspring.treatment d.
Proof.
  eexists _, _. split; [vm_compute; reflexivity|].
  split; [vm_compute; reflexivity|]. split; vm_compute; reflexivity.
Qed.


(** The individual of the illness-death model who gets cancer at 50 dies
    of it at 53, with the last message of the run. *)
Lemma not_cured_dies_at_53 :
  exists d,
    Examples.last_dispatch
      (Kernel.simulate 10 Examples.not_cured Kernel.initial_sim) = Some d
    /\ Kernel.kind (Kernel.e_msg (Kernel.d_entry d))
       = IllnessDeath.event_code IllnessDeath.toCancerDeath
    /\ Kernel.e_time (Kernel.d_entry d) == 53.
Proof.
  eexists. split; [vm_compute; reflexivity|].
  split; [reflexivity|]. vm_compute. reflexivity.
Qed.

(** * Scheduling *)
Section Scheduling.
Import Kernel Run Stamps.

Lemma exec_requests_stamped rs s s' :
  Forall (stamped (clock s)) rs -> all_stamped s ->
  exec_requests rs s = Ok s' -> all_stamped s'.
Proof.
  revert s. induction rs as [|r rs IH]; intros s Hall Hs; simpl.
  - by intros [= <-].
  - apply Forall_cons in Hall as [Hr Hall].
    destruct (exec_request r s) as [s1|] eqn:Hx; [|done].
    assert (clock s1 = clock s) as Hclk.
    { apply exec_request_grows in Hx. by destruct Hx. }
    apply IH; [by rewrite Hclk|].
    destruct r as [msg d|pred|]; simpl in Hx.
    + unfold self_signal_event in Hx.
      destruct (Qltb d 0) eqn:E; [done|]. apply Qltb_ge in E.
      injection Hx as <-. destruct Hr as [Hsend ->].
      intros e He; simpl in He. apply elem_of_app in He as [He|He]; [by apply Hs|].
      apply list_elem_of_singleton in He as ->; simpl. rewrite Hsend.
      split; lra.
    + injection Hx as <-. intros e He; simpl in He.
      apply list_elem_of_filter in He as [_ He]. by apply Hs.
    + injection Hx as <-. exact Hs.
Qed.

Context {P : Type} `{proc : Process P}.

(** In a run of a process that stamps its messages, every pending message
    has [sendingTime <= timestamp]. *)
Lemma simulate_all_stamped (fuel : nat) (p : P) (s : Sim) o (w : World P) :
  stamps_messages proc -> cleared s ->
  simulate fuel p s = Ok (o, w) -> all_stamped (sim w).
Proof.
  intros [Hinit Hhandle] Hs. unfold simulate.
  destruct (create_process _ _) as [w0|] eqn:Hc; [|done].
  unfold run_simulation.
  pose proof (create_process_ok _ _ _ Hs Hc) as [Hk Hp Hch].
  assert (all_stamped (sim w0)) as H0.
  { revert Hc. unfold create_process. destruct Hs as (Hq & Hclk & ->).
    intros Hrun. apply run_handler_inv in Hrun as (h & Hm & Hx & _).
    eapply exec_requests_stamped; [|..|exact Hx].
    - by apply (Hinit _ _ Hm).
    - intros e He; simpl in He. rewrite Hq in He. by apply elem_of_nil in He. }
  apply (run_loop_ind (fun w => all_stamped (sim w))).
  - intros w1 e rest w2 Hok HI _ Hpop Hev.
    apply process_event_inv in Hev as (h & Hm & Hx & _).
    eapply exec_requests_stamped; [|..|exact Hx].
    + by apply (Hhandle _ _ _ Hm).
    + intros x Hxin; simpl in Hxin. apply HI.
      destruct (pop_min_spec _ _ _ Hpop) as [Hperm _]. rewrite Hperm. by right.
  - split; simpl; [|done|done]. destruct Hk. by split.
  - exact H0.
Qed.

(** C9.  Scheduling a message at a time [t] before the clock fails with
    [TimeReversal] and inserts nothing; for [t] at or after the clock the
    message is inserted, behind the pending ones, with [timestamp = t] and
    [sendingTime = now()]; and so, in every run of a process that schedules
    its messages in this way, every queued message has
    [sendingTime <= timestamp]. *)
Theorem scheduleAt_rejects_the_past (w : World P) (t : Q) (k : Z) (n : string)
    (c : message_class) :
  (t < clock (sim w) ->
     run_handler (scheduleAt_new t k n c) w = Err TimeReversal)
  /\ (clock (sim w) <= t ->
        exists w' e,
          run_handler (scheduleAt_new t k n c) w = Ok w'
          /\ queue (sim w') = queue (sim w) ++ [e]
          /\ e_time e == t /\ e_seq e = next_seq (sim w)
          /\ kind (e_msg e) = k
          /\ timestamp (e_msg e) = t
          /\ sendingTime (e_msg e) = clock (sim w)
          /\ sendingTime (e_msg e) <= timestamp (e_msg e))
  /\ (forall fuel p s o w',
        stamps_messages proc -> cleared s ->
        simulate fuel p s = Ok (o, w') ->
        forall e, e ∈ queue (sim w') ->
          sendingTime (e_msg e) <= timestamp (e_msg e)).
Proof.
  split; [|split].
  - intros Hlt. unfold run_handler; simpl. unfold self_signal_event.
    assert (Qltb (t - clock (sim w)) 0 = true) as -> by (apply Qltb_lt; lra).
    reflexivity.
  - intros Hle. unfold run_handler; simpl. unfold self_signal_event.
    assert (Qltb (t - clock (sim w)) 0 = false) as -> by (apply Qltb_ge; lra).
    eexists _, _. split; [reflexivity|]. simpl.
    split; [reflexivity|]. split; [simpl; lra|]. by repeat split.
  - intros fuel p s o w' Hst Hs Hrun e He.
    by destruct (simulate_all_stamped fuel p s o w' Hst Hs Hrun e He).
Qed.
End Scheduling.

(** * The handlers of the two models *)
Section HandlerFacts.
Import Kernel Run Stamps Quiet.

Lemma emits_stamps {P : Type} (proc : Process P) :
  hstep (emits (fun now r => stamped now r)) init ->
  (forall msg, hstep (emits (fun now r => stamped now r)) (handleMessage msg)) ->
  stamps_messages proc.
Proof.
  intros Hi Hh. split.
  - intros h h' Hrun Hc. destruct (Hi _ _ _ Hrun) as (_ & _ & new & -> & Hall).
    by rewrite Hc.
  - intros msg h h' Hrun Hc.
    destruct (Hh msg _ _ _ Hrun) as (_ & _ & new & -> & Hall). by rewrite Hc.
Qed.

Lemma emits_weaken {P : Type} (Φ Ψ : Q -> request -> Prop) {A : Type}
    (m : H P A) :
  (forall now r, Φ now r -> Ψ now r) -> hstep (emits Φ) m -> hstep (emits Ψ) m.
Proof.
  intros Himp Hm h a h' Hrun.
  destruct (Hm h a h' Hrun) as (Hn & Hp & new & Hc & Hall).
  split; [done|]. split; [done|]. exists new. split; [done|].
  eapply Forall_impl; [exact Hall|]. intros r. apply Himp.
Qed.
End HandlerFacts.

(** Closes the primitive steps of a handler for [emits]. *)
Ltac emits_prim :=
  first
    [ apply emits_same_calls
    | apply emits_one_call; simpl;
      first [ exact I
            | split; reflexivity
            | split; [exact I | exact I]
            | split; [split; reflexivity | exact I]
            | eexists; split; [reflexivity | simpl; tauto]
            | split; [exact I | eexists; split; [reflexivity | simpl; tauto]] ] ].

Section IllnessDeathHandlers.
Import Kernel Run Stamps Quiet IllnessDeath.

Lemma SimplePerson_init_emits :
  hstep (emits (fun now r => stamped now r /\ is_signal r)) SimplePerson_init.
Proof.
  unfold SimplePerson_init, set_state, set_z, R_draw, scheduleAt_kind.
  hstep_go emits_prim.
Qed.

Lemma SimplePerson_handleMessage_emits msg :
  hstep (emits (fun now r => stamped now r)) (SimplePerson_handleMessage msg).
Proof.
  unfold SimplePerson_handleMessage, set_state, R_draw, scheduleAt_kind,
    report_add, Sim_stop_simulation.
  hstep_go emits_prim.
Qed.

Lemma SimplePerson_stamps : stamps_messages SimplePerson_process.
Proof.
  apply emits_stamps.
  - eapply emits_weaken; [|exact SimplePerson_init_emits]. by intros now r [].
  - exact SimplePerson_handleMessage_emits.
Qed.
End IllnessDeathHandlers.

Section FhcrcHandlers.
Import Kernel Run Stamps Quiet Fhcrc.
Variable X : Externals.

Lemma event_of_code_Some k e : event_of_code k = Some e -> k = event_code e.
Proof.
  unfold event_of_code.
  destruct k as [|q|q]; try discriminate; [by intros [= <-]|].
  repeat (destruct q as [q|q|]; try discriminate; try (by intros [= <-])).
Qed.

Lemma schedule_screens_emits (n : nat) (start step : Q) :
  hstep (emits (fun now r => stamped now r /\ is_signal r))
        (schedule_screens n start step).
Proof.
  revert start. induction n as [|n IH]; intros start; simpl.
  - apply hstep_ret; tc_solve.
  - destruct (Qleb start 70); [|apply hstep_ret; tc_solve].
    apply hstep_bind; [tc_solve| |intros _; apply IH].
    unfold schedule, scheduleAt_kind. hstep_go emits_prim.
Qed.

(** [init()] only schedules. *)
Lemma FhcrcPerson_init_emits :
  hstep (emits (fun now r => stamped now r /\ is_signal r)) (FhcrcPerson_init X).
Proof.
  unfold FhcrcPerson_init, schedule_uptake, Rng_set, modify, R_draw, schedule,
    schedule_Utility, scheduleAt_kind.
  repeat first
    [ progress hstep_go emits_prim
    | match goal with
      | |- hstep _ (schedule_screens _ _ _) => apply schedule_screens_emits
      end ].
Qed.

(** On a message that is not a death, the handler neither stops the
    simulation nor removes a message of another kind than the four. *)
Lemma FhcrcPerson_handleMessage_quiet msg :
  is_death (kind msg) = false ->
  hstep (emits (fun now r => stamped now r /\ quiet r))
        (FhcrcPerson_handleMessage X msg).
Proof.
  intros Hnd. unfold FhcrcPerson_handleMessage.
  destruct (event_of_code (kind msg)) as [e|] eqn:E.
  2:{ unfold y, report_add, Rng_set, modify, R_draw. hstep_go emits_prim. }
  apply event_of_code_Some in E. rewrite E in Hnd.
  destruct e; try discriminate Hnd;
    unfold handle_screen, handle_treatment, follow_up_screen,
      procedure_utilities, biopsy_utilities, y, report_add, Rng_set, modify,
      R_draw, RemoveKind, schedule, schedule_UtilityChange, schedule_Utility,
      scheduleAt_kind;
    hstep_go emits_prim.
Qed.

Lemma is_death_event k :
  is_death k = true ->
  event_of_code k = Some toCancerDeath \/ event_of_code k = Some toOtherDeath.
Proof.
  unfold is_death. intros Hd. apply orb_true_iff in Hd as [Hd|Hd];
    apply bool_decide_eq_true in Hd; rewrite Hd; [by left|by right].
Qed.

(** On a death the handler makes one call: it stops the simulation. *)
Lemma FhcrcPerson_handleMessage_death msg h h' :
  is_death (kind msg) = true ->
  FhcrcPerson_handleMessage X msg h = Ok (tt, h') ->
  h_calls h' = h_calls h ++ [StopSimulation].
Proof.
  intros Hd. unfold FhcrcPerson_handleMessage.
  apply is_death_event in Hd as Hk.
  destruct h as [p prev t calls].
  unfold y, report_add, Rng_set, modify, R_draw. hrun.
  destruct (Report.add _ _ _ _ _) as [r|]; [|done]. hrun.
  destruct Hk as [-> | ->]; by intros [= <-].
Qed.

Lemma FhcrcPerson_handleMessage_emits msg :
  hstep (emits (fun now r => stamped now r)) (FhcrcPerson_handleMessage X msg).
Proof.
  destruct (is_death (kind msg)) eqn:Hd.
  - apply is_death_event in Hd. unfold FhcrcPerson_handleMessage.
    destruct Hd as [-> | ->];
      unfold y, report_add, Rng_set, modify, R_draw, Sim_stop_simulation;
      hstep_go emits_prim.
  - eapply emits_weaken; [|by apply FhcrcPerson_handleMessage_quiet].
    by intros now r [].
Qed.

(** The methods of the process of the cancer model. *)
Lemma FhcrcPerson_process_init :
  init (Process := FhcrcPerson_process X) = FhcrcPerson_init X.
Proof. reflexivity. Qed.

Lemma FhcrcPerson_process_handleMessage msg :
  handleMessage (Process := FhcrcPerson_process X) msg
  = FhcrcPerson_handleMessage X msg.
Proof. reflexivity. Qed.

Lemma FhcrcPerson_stamps : stamps_messages (FhcrcPerson_process X).
Proof.
  apply emits_stamps.
  - eapply emits_weaken; [|exact FhcrcPerson_init_emits]. by intros now r [].
  - exact FhcrcPerson_handleMessage_emits.
Qed.
End FhcrcHandlers.

(** Witness for C9: at the clock 5, scheduling at 3 fails and scheduling
    at 7 inserts the message; and the run of the individual of the
    illness-death model who dies of cancer at 53. *)
Lemma scheduleAt_rejects_the_past_witness :
  Kernel.run_handler
    (Kernel.scheduleAt_new 3 (IllnessDeath.event_code IllnessDeath.toCancer)
       "" Kernel.PlainMessage) Examples.at_five
  = Kernel.Err Kernel.TimeReversal
  /\ (exists w' e,
        Kernel.run_handler
          (Kernel.scheduleAt_new 7 (IllnessDeath.event_code IllnessDeath.toCancer)
             "" Kernel.PlainMessage) Examples.at_five
        = Kernel.Ok w'
        /\ Kernel.queue (Kernel.sim w') = [e]
        /\ Kernel.timestamp (Kernel.e_msg e) = 7
        /\ Kernel.sendingTime (Kernel.e_msg e) = 5)
  /\ (exists o w,
        Kernel.simulate 10 Examples.not_cured Kernel.initial_sim
        = Kernel.Ok (o, w)
        /\ forall e, e ∈ Kernel.queue (Kernel.sim w) ->
             Kernel.sendingTime (Kernel.e_msg e)
             <= Kernel.timestamp (Kernel.e_msg e)).
Proof.
  split; [|split].
  - apply (proj1 (scheduleAt_rejects_the_past Examples.at_five 3
                    (IllnessDeath.event_code IllnessDeath.toCancer) ""
                    Kernel.PlainMessage)).
    reflexivity.
  - destruct (proj1 (proj2 (scheduleAt_rejects_the_past Examples.at_five 7
                              (IllnessDeath.event_code IllnessDeath.toCancer) ""
                              Kernel.PlainMessage)))
      as (w' & e & Hrun & Hq & _ & _ & _ & Ht & Hs & _).
    { discriminate. }
    exists w', e. split; [exact Hrun|]. split; [exact Hq|].
    split; [exact Ht|exact Hs].
  - destruct example_runs_finish as [_ F].
    destruct (Kernel.simulate 10%nat Examples.not_cured Kernel.initial_sim)
      as [[o w]|e] eqn:E; [|discriminate F].
    exists o, w. split; [reflexivity|].
    exact (proj2 (proj2 (scheduleAt_rejects_the_past Examples.at_five 0 0%Z ""
                           Kernel.PlainMessage))
             10%nat _ _ o w SimplePerson_stamps initial_sim_cleared E).
Defined.

(** * [previousEventTime] *)
Section PreviousEventTime.
Import Kernel Run.

Lemma prev_chain_log (ds : list Dispatch) :
  prev_chain ds ->
  (forall d, rev ds !! 0%nat = Some d -> d_prev d = 0)
  /\ (forall i d d', rev ds !! i = Some d -> rev ds !! S i = Some d' ->
        d_prev d' = e_time (d_entry d)).
Proof.
  induction ds as [|x ds IH]; simpl.
  - intros _. split; intros; discriminate.
  - intros [Hx Hchain]. destruct (IH Hchain) as [IH0 IHS]. split.
    + intros d. destruct ds as [|y ds'].
      * simpl. intros [= <-]. exact Hx.
      * intros Hd. apply IH0. rewrite lookup_app_l in Hd; [done|].
        rewrite length_rev. simpl. lia.
    + intros i d d' Hd Hd'.
      assert (S i < length (rev ds ++ [x]))%nat as Hlen
        by (by eapply lookup_lt_Some).
      rewrite length_app, length_rev in Hlen. simpl in Hlen.
      rewrite lookup_app_l in Hd by (rewrite length_rev; lia).
      destruct (decide (S i = length ds)) as [Heq|Hne].
      * rewrite lookup_app_r in Hd' by (rewrite length_rev; lia).
        rewrite length_rev, Heq, Nat.sub_diag in Hd'. injection Hd' as <-.
        rewrite Hx. destruct ds as [|y ds']; [simpl in Heq; lia|].
        simpl in *. rewrite lookup_app_r in Hd by (rewrite length_rev; lia).
        rewrite length_rev in Hd. injection Heq as ->.
        rewrite Nat.sub_diag in Hd. by injection Hd as <-.
      * rewrite lookup_app_l in Hd' by (rewrite length_rev; lia).
        by eapply IHS.
Qed.

Lemma lex_lt_time_le x y : lex_lt x y -> e_time x <= e_time y.
Proof. intros [?|[? _]]; lra. Qed.

Lemma prev_le_time (s : Sim) (ds : list Dispatch) :
  kernel_ok s ds -> prev_chain ds ->
  forall d, d ∈ ds -> d_prev d <= e_time (d_entry d).
Proof.
  intros Hk. pose proof (ok_sorted _ _ Hk) as Hs.
  pose proof (ok_nonneg _ _ Hk) as Hnn. clear Hk.
  induction Hs as [|x ds Hs IH Hall]; intros Hchain d Hd.
  - by apply elem_of_nil in Hd.
  - destruct Hchain as [Hx Hchain].
    apply elem_of_cons in Hd as [->|Hd].
    + rewrite Hx. destruct ds as [|y ds']; simpl.
      * apply (Hnn x). left.
      * apply lex_lt_time_le. rewrite Forall_forall in Hall. apply Hall. left.
    + apply IH; [|done|done]. intros d' Hd'. apply Hnn. by right.
Qed.

Context {P : Type} `{proc : Process P}.

(** The state that [process_event] hands to the handler of the entry [e]
    that the kernel has just taken off its queue: [previousEventTime] is
    the timestamp of the last message dispatched before (0 if there is
    none), and [now()] is the timestamp of [e]. *)
Lemma process_event_handler_state (w : World P) (e : Entry) (rest : list Entry) :
  world_ok w ->
  process_event (e_msg e) (popped e rest w)
  = after_handler (popped e rest w)
      (handleMessage (e_msg e)
         (handler_state (self (process w)) (last_time (dispatched w))
            (e_time e))).
Proof.
  intros Hok. unfold process_event, run_handler, after_handler, handler_state.
  simpl. rewrite (ok_prev _ Hok).
  destruct (handleMessage (e_msg e) _) as [[[] h]|]; [|reflexivity].
  destruct (exec_requests _ _) as [s'|]; reflexivity.
Qed.

(** A run with one more unit of fuel goes on from where the run stopped. *)
Lemma run_loop_S (fuel : nat) (w : World P) :
  run_loop (S fuel) w
  = match run_loop fuel w with
    | Ok (OutOfFuel, w') => run_loop 1 w'
    | r => r
    end.
Proof.
  revert w. induction fuel as [|fuel IH]; intros w.
  - simpl. destruct (negb (running (sim w))) eqn:Hr; [reflexivity|].
    destruct (pop_min (queue (sim w))) as [[e rest]|] eqn:Hpop;
      [|reflexivity].
    by rewrite Hr, Hpop.
  - change (run_loop (S (S fuel)) w)
      with (if negb (running (sim w)) then Ok (Finished, w)
            else match pop_min (queue (sim w)) with
                 | None => Ok (Finished, w)
                 | Some (e, rest) =>
                     match process_event (e_msg e) (popped e rest w) with
                     | Err x => Err x
                     | Ok w2 => run_loop (S fuel) w2
                     end
                 end).
    change (run_loop (S fuel) w)
      with (if negb (running (sim w)) then Ok (Finished, w)
            else match pop_min (queue (sim w)) with
                 | None => Ok (Finished, w)
                 | Some (e, rest) =>
                     match process_event (e_msg e) (popped e rest w) with
                     | Err x => Err x
                     | Ok w2 => run_loop fuel w2
                     end
                 end).
    destruct (negb (running (sim w))); [reflexivity|].
    destruct (pop_min (queue (sim w))) as [[e rest]|]; [|reflexivity].
    destruct (process_event (e_msg e) (popped e rest w)) as [w2|];
      [|reflexivity].
    apply IH.
Qed.

Lemma run_loop_out_of_fuel (fuel : nat) (w w' : World P) :
  run_loop fuel w = Ok (OutOfFuel, w') -> running (sim w') = true.
Proof.
  revert w. induction fuel as [|fuel IH]; intros w; simpl.
  - destruct (running (sim w)) eqn:Hr; simpl; [|done].
    destruct (pop_min _) as [[e rest]|]; [|done]. by intros [= <-].
  - destruct (running (sim w)) eqn:Hr; simpl; [|done].
    destruct (pop_min _) as [[e rest]|]; [|done].
    destruct (process_event _ _) as [w2|]; [|done]. apply IH.
Qed.

(** The dispatch that follows a run cut short by its fuel is the next
    dispatch of the longer run. *)
Lemma simulate_S (fuel : nat) (p : P) (s : Sim) (w : World P) e rest :
  simulate fuel p s = Ok (OutOfFuel, w) ->
  pop_min (queue (sim w)) = Some (e, rest) ->
  simulate (S fuel) p s
  = match process_event (e_msg e) (popped e rest w) with
    | Err x => Err x
    | Ok w2 => run_loop 0 w2
    end.
Proof.
  unfold simulate. destruct (create_process _ _) as [w0|]; [|done].
  unfold run_simulation. intros Hrun Hpop.
  rewrite run_loop_S, Hrun.
  apply run_loop_out_of_fuel in Hrun.
  change (run_loop 1 w)
    with (if negb (running (sim w)) then Ok (Finished, w)
          else match pop_min (queue (sim w)) with
               | None => Ok (Finished, w)
               | Some (e, rest) =>
                   match process_event (e_msg e) (popped e rest w) with
                   | Err x => Err x
                   | Ok w2 => run_loop 0 w2
                   end
               end).
  by rewrite Hrun, Hpop.
Qed.

(** C8, as amended.  In the run of a process constructed for it
    ([previousEventTime] 0, clock 0), at every point of the run (the world
    [w] that any number [fuel] of dispatches leads to): the handler of the
    next message [e] is run by [process_event] on the state in which
    [previousEventTime] is the timestamp of the message handled before it,
    0 for the first message, and [now()] is the timestamp of [e]; so
    [previousEventTime <= now()] inside the handler; when the handler has
    returned, [previousEventTime] is the clock, the timestamp of [e].
    The log of the run records this for every message dispatched: the
    first handler found 0 and every later handler the timestamp of the
    message before it, so equality holds exactly when a message carries
    the timestamp of its predecessor (or the first one is due at 0). *)
Theorem previousEventTime_follows_clock (fuel : nat) (p : P) (s : Sim) o
    (w : World P) :
  cleared s -> simulate fuel p s = Ok (o, w) ->
  (forall i d, log w !! i = Some d -> d_prev d <= e_time (d_entry d))
  /\ (forall d, log w !! 0%nat = Some d -> d_prev d = 0)
  /\ (forall i d d', log w !! i = Some d -> log w !! S i = Some d' ->
        d_prev d' = e_time (d_entry d))
  /\ previousEventTime (process w) = last_time (dispatched w)
  /\ (forall e rest,
        pop_min (queue (sim w)) = Some (e, rest) ->
        process_event (e_msg e) (popped e rest w)
        = after_handler (popped e rest w)
            (handleMessage (e_msg e)
               (handler_state (self (process w)) (last_time (dispatched w))
                  (e_time e)))
        /\ last_time (dispatched w) <= e_time e
        /\ (dispatched w = [] -> last_time (dispatched w) = 0)
        /\ (forall d ds, dispatched w = d :: ds ->
              last_time (dispatched w) = e_time (d_entry d))
        /\ (o = OutOfFuel ->
            simulate (S fuel) p s
            = match process_event (e_msg e) (popped e rest w) with
              | Err x => Err x
              | Ok w2 => run_loop 0 w2
              end)
        /\ (forall w2,
              process_event (e_msg e) (popped e rest w) = Ok w2 ->
              previousEventTime (process w2) = e_time e
              /\ dispatched w2
                 = mkDispatch e (last_time (dispatched w)) (next_seq (sim w))
                   :: dispatched w)).
Proof.
  intros Hs Hrun.
  pose proof (simulate_ok fuel p s o w Hs Hrun) as Hok.
  destruct Hok as [Hk Hp Hc].
  destruct (prev_chain_log _ Hc) as [H0 HS].
  split.
  { intros i d Hd. apply (prev_le_time _ _ Hk Hc).
    apply list_elem_of_lookup_2 in Hd. unfold log in Hd.
    by apply elem_of_rev_1 in Hd. }
  split; [exact H0|]. split; [exact HS|]. split; [exact Hp|].
  intros e rest Hpop.
  assert (world_ok w) as Hok by (by split).
  split; [by apply process_event_handler_state|].
  split.
  { destruct (popped_ok w e rest Hok Hpop) as [_ Hle]. simpl in Hle.
    by rewrite Hp in Hle. }
  split; [by intros ->|]. split; [by intros d ds ->|].
  split.
  { intros ->. by apply simulate_S. }
  intros w2 Hev.
  apply process_event_inv in Hev as (h & _ & _ & _ & Hprev & Hd).
  simpl in Hprev, Hd. split; [exact Hprev|]. by rewrite Hd, Hp.
Qed.
End PreviousEventTime.

(** The run of the individual of the illness-death model who gets cancer
    at 50 and dies of it at 53, cut after its first message: the message to
    come is the death from cancer. *)
Lemma not_cured_after_cancer :
  Examples.next_message
    (Kernel.simulate 1 Examples.not_cured Kernel.initial_sim)
  = Some (IllnessDeath.event_code IllnessDeath.toCancerDeath, false, 1%nat).
Proof. vm_compute. reflexivity. Qed.

(** Witness for C8 as amended: that individual after the first message;
    the handler of the death from cancer runs on the state in which
    [previousEventTime] is the time of the cancer. *)
Lemma previousEventTime_follows_clock_witness :
  exists w e rest d,
    Kernel.simulate 1 Examples.not_cured Kernel.initial_sim
    = Kernel.Ok (Kernel.OutOfFuel, w)
    /\ Kernel.pop_min (Kernel.queue (Kernel.sim w)) = Some (e, rest)
    /\ Kernel.kind (Kernel.e_msg e)
       = IllnessDeath.event_code IllnessDeath.toCancerDeath
    /\ Kernel.log w !! 0%nat = Some d /\ Kernel.d_prev d = 0
    /\ Kernel.process_event (Kernel.e_msg e) (Kernel.popped e rest w)
       = Run.after_handler (Kernel.popped e rest w)
           (Kernel.handleMessage (Kernel.e_msg e)
              (Run.handler_state (Kernel.self (Kernel.process w))
                 (Kernel.e_time (Kernel.d_entry d)) (Kernel.e_time e)))
    /\ Kernel.e_time (Kernel.d_entry d) <= Kernel.e_time e.
Proof.
  pose proof not_cured_after_cancer as Hnext.
  destruct (Kernel.simulate 1%nat Examples.not_cured Kernel.initial_sim)
    as [[o w]|x] eqn:E; [|discriminate Hnext].
  destruct o; [discriminate Hnext|].
  unfold Examples.next_message in Hnext.
  destruct (Kernel.pop_min (Kernel.queue (Kernel.sim w))) as [[e rest]|]
    eqn:Hpop; [|discriminate Hnext].
  destruct (Kernel.dispatched w) as [|d [|d' ds]] eqn:Hd;
    [discriminate Hnext| |discriminate Hnext].
  injection Hnext as Hkind _.
  destruct (previousEventTime_follows_clock 1 Examples.not_cured
              Kernel.initial_sim Kernel.OutOfFuel w initial_sim_cleared E)
    as (_ & Hfirst & _ & _ & Hnextmsg).
  destruct (Hnextmsg e rest Hpop) as (Hstate & Hle & _ & Hlast & _).
  rewrite (Hlast d [] Hd) in Hstate, Hle.
  assert (Kernel.log w !! 0%nat = Some d) as Hlog.
  { unfold Kernel.log. rewrite Hd. reflexivity. }
  exists w, e, rest, d.
  split; [reflexivity|]. split; [exact Hpop|]. split; [exact Hkind|].
  split; [exact Hlog|]. split; [exact (Hfirst d Hlog)|].
  split; [exact Hstate|exact Hle].
Defined.

(** The run of the example patient cut after its fifth message, the
    clinical diagnosis at 60: the message to come is a
    [toClinicalDiagnosticBiopsy] with that timestamp. *)
Lemma example_patient_after_diagnosis :
  Examples.next_message
    (Kernel.simulate
       (H0 := Fhcrc.FhcrcPerson_process Examples.example_externals) 5
       Examples.example_person Kernel.initial_sim)
  = Some (Fhcrc.event_code Fhcrc.toClinicalDiagnosticBiopsy, true, 5%nat).
Proof. vm_compute. reflexivity. Qed.

(** Counterexample to C8 as stated: in the run of the example patient the
    sixth message, a [toClinicalDiagnosticBiopsy] that the clinical
    diagnosis scheduled at [now()], is not the first of the run, and
    [process_event] runs its handler on a state in which
    [previousEventTime] equals [now()]. *)
Lemma previousEventTime_equals_now_after_first_message :
  exists w e rest prev,
    Kernel.simulate
      (H0 := Fhcrc.FhcrcPerson_process Examples.example_externals) 5
      Examples.example_person Kernel.initial_sim
    = Kernel.Ok (Kernel.OutOfFuel, w)
    /\ Kernel.pop_min (Kernel.queue (Kernel.sim w)) = Some (e, rest)
    /\ length (Kernel.dispatched w) = 5%nat
    /\ Kernel.kind (Kernel.e_msg e)
       = Fhcrc.event_code Fhcrc.toClinicalDiagnosticBiopsy
    /\ Kernel.process_event
         (H0 := Fhcrc.FhcrcPerson_process Examples.example_externals)
         (Kernel.e_msg e) (Kernel.popped e rest w)
       = Run.after_handler (Kernel.popped e rest w)
           (Fhcrc.FhcrcPerson_handleMessage Examples.example_externals
              (Kernel.e_msg e)
              (Run.handler_state (Kernel.self (Kernel.process w)) prev
                 (Kernel.e_time e)))
    /\ prev == Kernel.e_time e.
Proof.
  pose proof example_patient_after_diagnosis as Hnext.
  destruct (Kernel.simulate
              (H0 := Fhcrc.FhcrcPerson_process Examples.example_externals) 5
              Examples.example_person Kernel.initial_sim)
    as [[o w]|x] eqn:E; [|discriminate Hnext].
  destruct o; [discriminate Hnext|].
  unfold Examples.next_message in Hnext.
  destruct (Kernel.pop_min (Kernel.queue (Kernel.sim w))) as [[e rest]|]
    eqn:Hpop; [|discriminate Hnext].
  pose proof (simulate_ok
                (H0 := Fhcrc.FhcrcPerson_process Examples.example_externals)
                5 Examples.example_person Kernel.initial_sim
                Kernel.OutOfFuel w initial_sim_cleared E) as Hok.
  pose proof (process_event_handler_state
                (proc := Fhcrc.FhcrcPerson_process Examples.example_externals)
                w e rest Hok) as Hstate.
  destruct (Kernel.dispatched w) as [|d ds] eqn:Hd; [discriminate Hnext|].
  injection Hnext as Hkind Heq Hlen.
  exists w, e, rest, (Kernel.e_time (Kernel.d_entry d)).
  split; [reflexivity|]. split; [exact Hpop|].
  split; [rewrite Hd; simpl; by rewrite Hlen|].
  split; [exact Hkind|]. split; [exact Hstate|].
  apply Qeq_bool_iff. exact Heq.
Qed.

(** * Order of dispatch *)
Section Fifo.
Import Kernel Run Stamps Quiet Offspring Fhcrc.

Lemma sorted_log (s : Sim) (ds : list Dispatch) :
  kernel_ok s ds ->
  forall i j d1 d2, rev ds !! i = Some d1 -> rev ds !! j = Some d2 ->
    (i < j)%nat -> lex_lt (d_entry d1) (d_entry d2).
Proof.
  intros Hk. pose proof (ok_sorted _ _ Hk) as Hs.
  assert (StronglySorted (fun d1 d2 => lex_lt (d_entry d1) (d_entry d2)) (rev ds))
    as Hrev.
  { clear Hk. induction Hs as [|x ds Hs IH Hall]; simpl; [constructor|].
    apply StronglySorted_app_2; [|done|repeat constructor].
    intros x1 x2 Hx1 Hx2. apply list_elem_of_singleton in Hx2 as ->.
    rewrite Forall_forall in Hall. apply Hall. by apply elem_of_rev_1 in Hx1. }
  intros i j d1 d2 H1 H2 Hij.
  exact (StronglySorted_lookup _ _ _ _ _ _ Hrev H1 H2 Hij).
Qed.

Lemma lex_lt_irrefl x : ~ lex_lt x x.
Proof. intros [?|[_ ?]]; [lra|lia]. Qed.

Lemma lex_lt_asym x y : lex_lt x y -> ~ lex_lt y x.
Proof. intros [?|[? ?]] [?|[? ?]]; try lra. lia. Qed.

(** In the log, an entry that is before another in the order of the queue
    was dispatched before it. *)
Lemma log_position (s : Sim) (ds : list Dispatch) i j d1 d2 :
  kernel_ok s ds -> rev ds !! i = Some d1 -> rev ds !! j = Some d2 ->
  lex_lt (d_entry d1) (d_entry d2) -> (i < j)%nat.
Proof.
  intros Hk H1 H2 Hlt.
  destruct (Nat.lt_trichotomy i j) as [?|[->|Hgt]]; [done| |].
  - rewrite H1 in H2. injection H2 as ->. by apply lex_lt_irrefl in Hlt.
  - pose proof (sorted_log _ _ Hk _ _ _ _ H2 H1 Hgt) as Hlt'.
    by apply lex_lt_asym in Hlt.
Qed.

Lemma exec_requests_harmless_keeps rs s s' :
  Forall harmless rs -> exec_requests rs s = Ok s' ->
  forall e, e ∈ queue s -> never_removed (kind (e_msg e)) -> e ∈ queue s'.
Proof.
  revert s. induction rs as [|r rs IH]; intros s Hall; simpl.
  - by intros [= <-].
  - apply Forall_cons in Hall as [Hr Hall].
    destruct (exec_request r s) as [s1|] eqn:Hx; [|done].
    intros Hrs e He Hk. apply (IH s1 Hall Hrs); [|done].
    destruct r as [msg d|pred|]; simpl in Hx.
    + unfold self_signal_event in Hx. destruct (Qltb d 0); [done|].
      injection Hx as <-. simpl. apply elem_of_app. by left.
    + injection Hx as <-. simpl. apply list_elem_of_filter. split; [|done].
      destruct Hr as (k & -> & Hkk). unfold cMessageKindEq.
      apply bool_decide_eq_false. destruct Hk as (? & ? & ? & ?).
      intros Heq. rewrite Heq in *. lia.
    + by injection Hx as <-.
Qed.

Lemma exec_requests_quiet_running rs s s' :
  Forall quiet rs -> exec_requests rs s = Ok s' -> running s' = running s.
Proof.
  revert s. induction rs as [|r rs IH]; intros s Hall; simpl.
  - by intros [= <-].
  - apply Forall_cons in Hall as [Hr Hall].
    destruct (exec_request r s) as [s1|] eqn:Hx; [|done].
    intros Hrs. rewrite (IH s1 Hall Hrs).
    destruct r as [msg d|pred|]; simpl in Hx.
    + unfold self_signal_event in Hx. destruct (Qltb d 0); [done|].
      by injection Hx as <-.
    + by injection Hx as <-.
    + done.
Qed.

Lemma quiet_harmless r : quiet r -> harmless r.
Proof. by destruct r. Qed.

Variable X : Externals.

(** Every call of the handler of the cancer model is harmless. *)
Lemma FhcrcPerson_calls_harmless msg (w : World FhcrcPerson) h :
  FhcrcPerson_handleMessage X msg (handler_start w) = Ok (tt, h) ->
  Forall harmless (h_calls h).
Proof.
  intros Hrun. destruct (is_death (kind msg)) eqn:Hd.
  - rewrite (FhcrcPerson_handleMessage_death X msg _ _ Hd Hrun). simpl.
    by apply Forall_singleton.
  - destruct (FhcrcPerson_handleMessage_quiet X msg Hd _ _ _ Hrun)
      as (_ & _ & new & -> & Hall). simpl.
    eapply Forall_impl; [exact Hall|]. intros r [_ Hq]. by apply quiet_harmless.
Qed.

(** The calls of the handler of [toClinicalDiagnosis]. *)
Lemma FhcrcPerson_diagnosis_calls msg (w : World FhcrcPerson) h :
  kind msg = event_code toClinicalDiagnosis ->
  FhcrcPerson_handleMessage X msg (handler_start w) = Ok (tt, h) ->
  let T := clock (sim w) in
  let m k := {| kind := event_code k; name := ""; sendingTime := T;
                timestamp := T; dynamic_class := PlainMessage |} in
  h_calls h
  = [RemoveEvent (cMessageKindEq (event_code toMetastatic));
     RemoveEvent (cMessageKindEq (event_code toScreen));
     SelfSignal (m toClinicalDiagnosticBiopsy) (T - T);
     SelfSignal (m toClinicalDiagnosticBiopsy) (T - T);
     SelfSignal (m toClinicalDiagnosticBiopsy) (T - T);
     SelfSignal (m toTreatment) (T - T)].
Proof.
  intros Hk. unfold FhcrcPerson_handleMessage, handler_start. rewrite Hk.
  unfold y, report_add, Rng_set, modify, R_draw, schedule. hrun.
  destruct (Report.add _ _ _ _ _) as [r|]; [|done]. hrun.
  by intros [= <-].
Qed.

Lemma diagnosis_offspring_queued (s s' : Sim) (prev : Q) (e : Entry) :
  clock s = e_time e ->
  let T := clock s in
  let m k := {| kind := event_code k; name := ""; sendingTime := T;
                timestamp := T; dynamic_class := PlainMessage |} in
  exec_requests
    [RemoveEvent (cMessageKindEq (event_code toMetastatic));
     RemoveEvent (cMessageKindEq (event_code toScreen));
     SelfSignal (m toClinicalDiagnosticBiopsy) (T - T);
     SelfSignal (m toClinicalDiagnosticBiopsy) (T - T);
     SelfSignal (m toClinicalDiagnosticBiopsy) (T - T);
     SelfSignal (m toTreatment) (T - T)] s = Ok s' ->
  forall E, E ∈ offspring (mkDispatch e prev (next_seq s)) -> E ∈ queue s'.
Proof.
  intros Hclk T m. simpl. unfold self_signal_event. simpl.
  assert (Qltb (T - T) 0 = false) as -> by (apply Qltb_ge; lra).
  intros [= <-] E HE. simpl.
  unfold offspring, biopsy, treatment, entry_at in HE. simpl in HE.
  fold T in Hclk. rewrite <- Hclk in HE.
  rewrite !elem_of_app, !list_elem_of_singleton.
  rewrite !elem_of_cons in HE. rewrite elem_of_nil in HE.
  replace (next_seq s + 0)%nat with (next_seq s) in HE by lia.
  replace (next_seq s + 1)%nat with (S (next_seq s)) in HE by lia.
  replace (next_seq s + 2)%nat with (S (S (next_seq s))) in HE by lia.
  replace (next_seq s + 3)%nat with (S (S (S (next_seq s)))) in HE by lia.
  tauto.
Qed.

(** The four entries of every clinical diagnosis stay settled along the
    run. *)
Lemma diagnoses_settled_step (w : World FhcrcPerson) e rest w2 :
  world_ok w -> diagnoses_settled w ->
  pop_min (queue (sim w)) = Some (e, rest) ->
  process_event (H0 := FhcrcPerson_process X) (e_msg e) (popped e rest w) = Ok w2 ->
  diagnoses_settled w2.
Proof.
  intros Hok HJ Hpop Hev.
  apply process_event_inv in Hev as (h & Hm & Hx & _ & _ & Hd).
  rewrite FhcrcPerson_process_handleMessage in Hm.
  destruct (pop_min_spec _ _ _ Hpop) as [Hperm _].
  pose proof (FhcrcPerson_calls_harmless _ _ _ Hm) as Hharm.
  intros d Hdin Hkind E HE. rewrite Hd in Hdin. simpl in Hdin.
  assert (never_removed (kind (e_msg E))) as Hnr.
  { unfold offspring in HE. rewrite !elem_of_cons, elem_of_nil in HE.
    destruct HE as [->|[->|[->|[->|[]]]]]; simpl; repeat split; discriminate. }
  apply elem_of_cons in Hdin as [->|Hdin].
  - left. simpl in Hkind.
    rewrite (FhcrcPerson_diagnosis_calls _ _ _ Hkind Hm) in Hx. simpl in Hx.
    eapply (diagnosis_offspring_queued
              (sim (popped e rest w)) (sim w2) _ e eq_refl); [exact Hx|].
    exact HE.
  - destruct (HJ d Hdin Hkind E HE) as [Hq|(d' & Hd' & Hent)].
    + rewrite Hperm in Hq. apply elem_of_cons in Hq as [->|Hq].
      * right. eexists. split; [rewrite Hd; left|]. reflexivity.
      * left. by eapply exec_requests_harmless_keeps.
    + right. exists d'. split; [|done]. rewrite Hd. by right.
Qed.

Lemma simulate_diagnoses_settled (fuel : nat) (p : FhcrcPerson) (s : Sim) o
    (w : World FhcrcPerson) :
  cleared s ->
  simulate (H0 := FhcrcPerson_process X) fuel p s = Ok (o, w) ->
  diagnoses_settled w.
Proof.
  intros Hs. unfold simulate.
  destruct (create_process _ _) as [w0|] eqn:Hc; [|done].
  unfold run_simulation.
  pose proof (create_process_ok _ _ _ Hs Hc) as [Hk Hp Hch].
  assert (dispatched w0 = []) as Hd0.
  { revert Hc. unfold create_process. destruct Hs as (_ & _ & ->).
    intros Hrun. by apply run_handler_inv in Hrun as (h & _ & _ & _ & _ & ->). }
  apply (run_loop_ind diagnoses_settled).
  - intros w1 e rest w2 Hok HI _ Hpop Hev. by eapply diagnoses_settled_step.
  - split; simpl; [|done|done]. destruct Hk. by split.
  - intros d Hd. simpl in Hd. rewrite Hd0 in Hd. by apply elem_of_nil in Hd.
Qed.
End Fifo.

Section FifoClaim.
Import Kernel Run Quiet Offspring Fhcrc.

Lemma treatment_after_biopsies (X : Externals) (w : World FhcrcPerson)
    (i j : nat) (d d3 : Dispatch) :
  world_ok w -> diagnoses_settled w ->
  log w !! i = Some d ->
  kind (e_msg (d_entry d)) = event_code toClinicalDiagnosis ->
  log w !! j = Some d3 -> d_entry d3 = treatment d ->
  exists j0 j1 j2 d0 d1 d2,
    (i < j0)%nat /\ (j0 < j1)%nat /\ (j1 < j2)%nat /\ (j2 < j)%nat
    /\ log w !! j0 = Some d0 /\ d_entry d0 = biopsy d 0
    /\ log w !! j1 = Some d1 /\ d_entry d1 = biopsy d 1
    /\ log w !! j2 = Some d2 /\ d_entry d2 = biopsy d 2.
Proof.
  intros [Hk _ _] HJ Hd Hkind Hd3 Htr.
  assert (d ∈ dispatched w) as Hdin.
  { apply list_elem_of_lookup_2 in Hd. unfold log in Hd. by apply elem_of_rev_1 in Hd. }
  assert (d3 ∈ dispatched w) as Hd3in.
  { apply list_elem_of_lookup_2 in Hd3. unfold log in Hd3.
    by apply elem_of_rev_1 in Hd3. }
  assert (forall c, (c < 3)%nat ->
            exists jc dc, log w !! jc = Some dc /\ d_entry dc = biopsy d c) as Hlogged.
  { intros c Hc.
    assert (biopsy d c ∈ offspring d) as Hoff.
    { unfold offspring. destruct c as [|[|[|c]]]; [| | |lia];
        rewrite !elem_of_cons; tauto. }
    destruct (HJ d Hdin Hkind _ Hoff) as [Hq|(dc & Hdc & Hent)].
    - pose proof (ok_before _ _ Hk d3 _ Hd3in Hq) as Hlt.
      rewrite Htr in Hlt. unfold treatment, biopsy, entry_at, lex_lt in Hlt.
      simpl in Hlt. destruct Hlt as [?|[_ ?]]; [lra|lia].
    - apply elem_of_rev_2, list_elem_of_lookup in Hdc as [jc Hjc].
      by exists jc, dc. }
  destruct (Hlogged 0%nat) as (j0 & d0 & Hj0 & He0); [lia|].
  destruct (Hlogged 1%nat) as (j1 & d1 & Hj1 & He1); [lia|].
  destruct (Hlogged 2%nat) as (j2 & d2 & Hj2 & He2); [lia|].
  exists j0, j1, j2, d0, d1, d2.
  destruct (ok_nonneg _ _ Hk d Hdin) as [_ Hseq].
  repeat split; try done.
  - apply (log_position _ _ _ _ d d0 Hk Hd Hj0). rewrite He0.
    right. unfold biopsy, entry_at; simpl. split; [lra|lia].
  - apply (log_position _ _ _ _ d0 d1 Hk Hj0 Hj1). rewrite He0, He1.
    right. unfold biopsy, entry_at; simpl. split; [lra|lia].
  - apply (log_position _ _ _ _ d1 d2 Hk Hj1 Hj2). rewrite He1, He2.
    right. unfold biopsy, entry_at; simpl. split; [lra|lia].
  - apply (log_position _ _ _ _ d2 d3 Hk Hj2 Hd3). rewrite He2, Htr.
    right. unfold biopsy, treatment, entry_at; simpl. split; [lra|lia].
Qed.
End FifoClaim.

(** C3.  In every run of the kernel, of any process, the messages are
    dispatched in the order of their timestamps, and messages with equal
    timestamps in the order of their insertion; no pending message is before
    a dispatched one in that order.  In particular, in the cancer model, the
    three [toClinicalDiagnosticBiopsy] messages and the [toTreatment]
    message that the handler of [toClinicalDiagnosis] schedules at [now()]
    are never lost, and when that [toTreatment] is dispatched the three
    biopsies have been dispatched before it, after the diagnosis. *)
Theorem dispatch_is_fifo :
  (forall (P : Type) (proc : Kernel.Process P) (fuel : nat) (p : P)
          (s : Kernel.Sim) o (w : Kernel.World P),
      Run.cleared s -> Kernel.simulate fuel p s = Kernel.Ok (o, w) ->
      (forall i j d1 d2,
          Kernel.log w !! i = Some d1 -> Kernel.log w !! j = Some d2 ->
          (i < j)%nat ->
          Kernel.e_time (Kernel.d_entry d1) <= Kernel.e_time (Kernel.d_entry d2)
          /\ (Kernel.e_time (Kernel.d_entry d1) == Kernel.e_time (Kernel.d_entry d2) ->
              (Kernel.e_seq (Kernel.d_entry d1) < Kernel.e_seq (Kernel.d_entry d2))%nat))
      /\ (forall d e, d ∈ Kernel.log w -> e ∈ Kernel.queue (Kernel.sim w) ->
            Run.lex_lt (Kernel.d_entry d) e))
  /\ (forall (X : Fhcrc.Externals) (fuel : nat) (p : Fhcrc.FhcrcPerson)
             (s : Kernel.Sim) o (w : Kernel.World Fhcrc.FhcrcPerson),
        Run.cleared s ->
        Kernel.simulate (H0 := Fhcrc.FhcrcPerson_process X) fuel p s
        = Kernel.Ok (o, w) ->
        forall i d,
          Kernel.log w !! i = Some d ->
          Kernel.kind (Kernel.e_msg (Kernel.d_entry d))
          = Fhcrc.event_code Fhcrc.toClinicalDiagnosis ->
          (forall E, E ∈ Offspring.offspring d -> Offspring.settled w E)
          /\ forall j d3,
               Kernel.log w !! j = Some d3 ->
               Kernel.d_entry d3 = Offspring.treatment d ->
               exists j0 j1 j2 d0 d1 d2,
                 (i < j0)%nat /\ (j0 < j1)%nat /\ (j1 < j2)%nat /\ (j2 < j)%nat
                 /\ Kernel.log w !! j0 = Some d0
                 /\ Kernel.d_entry d0 = Offspring.biopsy d 0
                 /\ Kernel.log w !! j1 = Some d1
                 /\ Kernel.d_entry d1 = Offspring.biopsy d 1
                 /\ Kernel.log w !! j2 = Some d2
                 /\ Kernel.d_entry d2 = Offspring.biopsy d 2).
Proof.
  split.
  - intros P proc fuel p s o w Hs Hrun.
    destruct (simulate_ok fuel p s o w Hs Hrun) as [Hk _ _]. split.
    + intros i j d1 d2 H1 H2 Hij.
      destruct (sorted_log _ _ Hk i j d1 d2 H1 H2 Hij) as [Hlt|[Heq Hseq]].
      * split; [lra|]. intros Heq. lra.
      * split; [lra|done].
    + intros d e Hd He. apply (Run.ok_before _ _ Hk); [|done].
      unfold Kernel.log in Hd. by apply elem_of_rev_1 in Hd.
  - intros X fuel p s o w Hs Hrun i d Hd Hkind.
    pose proof (simulate_ok fuel p s o w Hs Hrun) as Hok.
    pose proof (simulate_diagnoses_settled X fuel p s o w Hs Hrun) as HJ.
    split.
    + apply HJ; [|done]. apply list_elem_of_lookup_2 in Hd.
      unfold Kernel.log in Hd. by apply elem_of_rev_1 in Hd.
    + intros j d3 Hd3 Htr. by eapply treatment_after_biopsies.
Qed.


(** Witness for C3: the run of the example patient, whose fifth message is
    the clinical diagnosis at 60 and whose ninth is the [toTreatment] that
    it scheduled. *)
Lemma dispatch_is_fifo_witness :
  exists o w d d3,
    Kernel.simulate (H0 := Fhcrc.FhcrcPerson_process Examples.example_externals)
      40 Examples.example_person Kernel.initial_sim = Kernel.Ok (o, w)
    /\ Kernel.log w !! 4%nat = Some d
    /\ Kernel.log w !! 8%nat = Some d3
    /\ ((forall i j d1 d2,
            Kernel.log w !! i = Some d1 -> Kernel.log w !! j = Some d2 ->
            (i < j)%nat ->
            Kernel.e_time (Kernel.d_entry d1) <= Kernel.e_time (Kernel.d_entry d2)
            /\ (Kernel.e_time (Kernel.d_entry d1) == Kernel.e_time (Kernel.d_entry d2) ->
                (Kernel.e_seq (Kernel.d_entry d1) < Kernel.e_seq (Kernel.d_entry d2))%nat))
        /\ (forall d e, d ∈ Kernel.log w -> e ∈ Kernel.queue (Kernel.sim w) ->
              Run.lex_lt (Kernel.d_entry d) e))
    /\ exists j0 j1 j2 d0 d1 d2,
         (4 < j0)%nat /\ (j0 < j1)%nat /\ (j1 < j2)%nat /\ (j2 < 8)%nat
         /\ Kernel.log w !! j0 = Some d0
         /\ Kernel.d_entry d0 = Offspring.biopsy d 0
         /\ Kernel.log w !! j1 = Some d1
         /\ Kernel.d_entry d1 = Offspring.biopsy d 1
         /\ Kernel.log w !! j2 = Some d2
         /\ Kernel.d_entry d2 = Offspring.biopsy d 2.
Proof.
  destruct example_patient_diagnosis as (d & d3 & H4 & H8 & Hkind & Htr).
  destruct (Kernel.simulate 40%nat Examples.example_person Kernel.initial_sim)
    as [[o w]|e] eqn:E; [|discriminate H4].
  exists o, w, d, d3. split; [reflexivity|]. split; [exact H4|].
  split; [exact H8|]. split.
  - exact (proj1 dispatch_is_fifo _ _ 40%nat _ _ o w initial_sim_cleared E).
  - exact (proj2 (proj2 dispatch_is_fifo _ 40%nat _ _ o w initial_sim_cleared E
                    4%nat d H4 Hkind) 8%nat d3 H8 Htr).
Defined.

(** * Deaths *)
Section DeathFacts.
Import Kernel Run Stamps Quiet Deaths.

Lemma exec_requests_signals_keep rs s s' :
  Forall is_signal rs -> exec_requests rs s = Ok s' ->
  (forall e, e ∈ queue s -> e ∈ queue s') /\ running s' = running s.
Proof.
  revert s. induction rs as [|r rs IH]; intros s Hall; simpl.
  - by intros [= <-].
  - apply Forall_cons in Hall as [Hr Hall].
    destruct r as [msg d|pred|]; simpl in Hr; try done. simpl.
    unfold self_signal_event. destruct (Qltb d 0); [done|]. intros Hrs.
    destruct (IH _ Hall Hrs) as [Hkeep Hrun]. simpl in *. split; [|done].
    intros e He. apply Hkeep. apply elem_of_app. by left.
Qed.

Lemma exec_requests_signal_queued rs s s' msg d :
  Forall is_signal rs -> SelfSignal msg d ∈ rs ->
  exec_requests rs s = Ok s' ->
  exists e, e ∈ queue s' /\ e_msg e = msg.
Proof.
  revert s. induction rs as [|r rs IH]; intros s Hall Hin; simpl.
  - by apply elem_of_nil in Hin.
  - apply Forall_cons in Hall as [Hr Hall].
    destruct r as [msg' d'|pred|]; simpl in Hr; try done. simpl.
    unfold self_signal_event. destruct (Qltb d' 0); [done|]. intros Hrs.
    apply elem_of_cons in Hin as [[= <- <-]|Hin].
    + destruct (exec_requests_signals_keep _ _ _ Hall Hrs) as [Hkeep _].
      eexists. split; [apply Hkeep; simpl; apply elem_of_app; right; left|done].
    + by apply (IH _ Hall Hin Hrs).
Qed.

Lemma death_free_log (is_death : Z -> bool) (d : Dispatch) (ds : list Dispatch)
    (j : nat) (x : Dispatch) :
  death_free is_death ds ->
  rev (d :: ds) !! j = Some x ->
  is_death (kind (e_msg (d_entry x))) = true ->
  S j = length (rev (d :: ds)).
Proof.
  intros Hfree Hj Hx. simpl in *. rewrite length_app, length_rev. simpl.
  destruct (decide (j < length ds)%nat) as [Hlt|Hge].
  - rewrite lookup_app_l in Hj by (by rewrite length_rev).
    apply list_elem_of_lookup_2, elem_of_rev_1 in Hj.
    rewrite (Hfree x Hj) in Hx. discriminate.
  - apply lookup_lt_Some in Hj. rewrite length_app, length_rev in Hj.
    simpl in Hj. lia.
Qed.

(** Where a death occurs in the log of a dead or death-free world. *)
Lemma dead_death_is_last {P : Type} (is_death : Z -> bool) (w : World P) :
  dead is_death w \/ death_free is_death (dispatched w) ->
  forall j x, log w !! j = Some x ->
    is_death (kind (e_msg (d_entry x))) = true -> S j = length (log w).
Proof.
  intros [(_ & d & ds & Hd & _ & Hfree)|Hfree] j x Hj Hx; unfold log in *.
  - rewrite Hd in *. by eapply death_free_log.
  - apply list_elem_of_lookup_2, elem_of_rev_1 in Hj.
    rewrite (Hfree x Hj) in Hx. discriminate.
Qed.

Lemma dead_last {P : Type} (is_death : Z -> bool) (w : World P) :
  dead is_death w ->
  exists d, last (log w) = Some d /\ is_death (kind (e_msg (d_entry d))) = true.
Proof.
  intros (_ & d & ds & Hd & Hdeath & _). exists d. split; [|done].
  unfold log. rewrite Hd. simpl. by rewrite last_snoc.
Qed.
End DeathFacts.

(** ** The cancer model *)
Section FhcrcDeaths.
Import Kernel Run Stamps Quiet Deaths Fhcrc.
Variable X : Externals.

(** A postcondition of a handler. *)
Definition hpost {A : Type} (Q : HState FhcrcPerson -> Prop)
    (m : H FhcrcPerson A) : Prop :=
  forall h a h', m h = Ok (a, h') -> Q h'.

Lemma hpost_bind_tail {A B : Type} (Q : HState FhcrcPerson -> Prop)
    (m : H FhcrcPerson A) (f : A -> H FhcrcPerson B) :
  (forall a, hpost Q (f a)) -> hpost Q (m ≫= f).
Proof.
  intros Hf h b h'. unfold mbind, H_bind, bind.
  destruct (m h) as [[a h1]|]; [|done]. apply Hf.
Qed.

Lemma hpost_other_death {B : Type} (t : Q) (f : unit -> H FhcrcPerson B)
    (Φ : Q -> request -> Prop) :
  (forall a, hstep (emits Φ) (f a)) ->
  hpost schedules_other_death (schedule t toOtherDeath ≫= f).
Proof.
  intros Hf h b h'. destruct h as [p prev now calls]. unfold schedule. hrun.
  intros Hrun. destruct (Hf _ _ _ _ Hrun) as (_ & _ & new & Hc & _).
  unfold schedules_other_death. rewrite Hc. simpl.
  eexists _, _.
  split; [apply elem_of_app; left; apply elem_of_app; right; left|reflexivity].
Qed.

(** [init()] schedules the death from other causes. *)
Lemma FhcrcPerson_init_other_death :
  hpost schedules_other_death (FhcrcPerson_init X).
Proof.
  unfold FhcrcPerson_init.
  repeat match goal with
    | |- hpost _ (schedule _ toOtherDeath ≫= _) =>
        apply (hpost_other_death _ _
                 (fun now r => Stamps.stamped now r /\ is_signal r));
        intros _
    | |- hpost _ (_ ≫= _) => apply hpost_bind_tail; intros ?
    | |- hpost _ (let _ := _ in _) => cbv zeta
    end.
  unfold schedule_uptake, Rng_set, modify, R_draw, schedule,
    schedule_Utility, scheduleAt_kind.
  repeat first
    [ progress hstep_go emits_prim
    | match goal with
      | |- hstep _ (schedule_screens _ _ _) => apply schedule_screens_emits
      end ].
Qed.

Lemma fhcrc_alive_or_dead_step (w : World FhcrcPerson) e rest w2 :
  fhcrc_alive_or_dead w -> running (sim w) = true ->
  pop_min (queue (sim w)) = Some (e, rest) ->
  process_event (H0 := FhcrcPerson_process X) (e_msg e) (popped e rest w) = Ok w2 ->
  fhcrc_alive_or_dead w2.
Proof.
  intros [(_ & Hfree & e0 & He0 & Hk0)|(Hstop & _)] Hr Hpop Hev; [|congruence].
  apply process_event_inv in Hev as (h & Hm & Hx & _ & _ & Hd).
  rewrite FhcrcPerson_process_handleMessage in Hm.
  destruct (pop_min_spec _ _ _ Hpop) as [Hperm _].
  destruct (is_death (kind (e_msg e))) eqn:Hdeath.
  - right. rewrite (FhcrcPerson_handleMessage_death X _ _ _ Hdeath Hm) in Hx.
    simpl in Hx. injection Hx as Hx. split; [by rewrite <- Hx|].
    eexists _, _. split; [exact Hd|]. by split.
  - left.
    destruct (FhcrcPerson_handleMessage_quiet X _ Hdeath _ _ _ Hm)
      as (_ & _ & new & Hcalls & Hall).
    simpl in Hcalls. rewrite Hcalls in Hx.
    assert (Forall quiet new) as Hquiet.
    { eapply Forall_impl; [exact Hall|]. by intros r [_ Hq]. }
    split; [by rewrite (exec_requests_quiet_running _ _ _ Hquiet Hx)|]. split.
    + rewrite Hd. intros d Hin. simpl in Hin.
      apply elem_of_cons in Hin as [->|Hin]; [done|by apply Hfree].
    + exists e0. split; [|done].
      rewrite Hperm in He0. apply elem_of_cons in He0 as [->|He0].
      { rewrite Hk0 in Hdeath. discriminate. }
      eapply exec_requests_harmless_keeps; [|exact Hx|exact He0|].
      * eapply Forall_impl; [exact Hquiet|]. apply quiet_harmless.
      * rewrite Hk0. repeat split; discriminate.
Qed.

(** Along the run of an individual of the cancer model, either nobody has
    died and the death from other causes is pending, or the run has stopped
    on the only death. *)
Lemma simulate_fhcrc_alive_or_dead (fuel : nat) (p : FhcrcPerson) (s : Sim) o
    (w : World FhcrcPerson) :
  cleared s ->
  simulate (H0 := FhcrcPerson_process X) fuel p s = Ok (o, w) ->
  fhcrc_alive_or_dead w.
Proof.
  intros Hs. unfold simulate.
  destruct (create_process _ _) as [w0|] eqn:Hc; [|done].
  unfold run_simulation.
  pose proof (create_process_ok _ _ _ Hs Hc) as [Hk Hp Hch].
  revert Hc. unfold create_process. destruct Hs as (_ & _ & ->).
  intros Hrun. apply run_handler_inv in Hrun as (h & Hm & Hx & _ & _ & Hd0).
  simpl in Hd0. rewrite FhcrcPerson_process_init in Hm.
  destruct (FhcrcPerson_init_other_death _ _ _ Hm) as (msg & d & Hin & Hkind).
  destruct (FhcrcPerson_init_emits X _ _ _ Hm) as (_ & _ & new & Hcalls & Hall).
  simpl in Hcalls. rewrite Hcalls in Hin, Hx. clear Hm Hcalls.
  assert (Forall is_signal new) as Hsig.
  { eapply Forall_impl; [exact Hall|]. intros r [_ Hq]. exact Hq. }
  destruct (exec_requests_signal_queued _ _ _ _ _ Hsig Hin Hx)
    as (e & He & Hmsg).
  clear Hx Hin Hall Hsig.
  apply (run_loop_ind fhcrc_alive_or_dead).
  - intros w1 e1 rest w2 _ HI Hr Hpop Hev. by eapply fhcrc_alive_or_dead_step.
  - split; simpl; [|done|done]. destruct Hk. by split.
  - left. simpl. split; [done|]. split.
    + rewrite Hd0. intros d' Hd'. by apply elem_of_nil in Hd'.
    + exists e. split; [done|]. by rewrite Hmsg.
Qed.
End FhcrcDeaths.

(** ** The illness-death model *)
Section SimpleDeaths.
Import Kernel Run Stamps Quiet Deaths IllnessDeath.

Lemma SimplePerson_process_init :
  init (Process := SimplePerson_process) = SimplePerson_init.
Proof. reflexivity. Qed.

Lemma SimplePerson_process_handleMessage msg :
  handleMessage (Process := SimplePerson_process) msg
  = SimplePerson_handleMessage msg.
Proof. reflexivity. Qed.

(** The calls of [init()]: a [toOtherDeath], and for one individual in ten
    a [toCancer]. *)
Lemma SimplePerson_init_calls h h' :
  SimplePerson_init h = Ok (tt, h') ->
  exists m1 d1, kind m1 = event_code toOtherDeath
    /\ (h_calls h' = h_calls h ++ [SelfSignal m1 d1]
        \/ exists m2 d2, kind m2 = event_code toCancer
             /\ h_calls h' = h_calls h ++ [SelfSignal m1 d1; SelfSignal m2 d2]).
Proof.
  destruct h as [p prev t calls].
  unfold SimplePerson_init, set_state, set_z, R_draw. hrun.
  destruct (Qltb _ _); hrun; intros [= <-]; simpl; eexists _, _.
  - split; [|right; eexists _, _; split; [|by rewrite <- app_assoc]];
      reflexivity.
  - split; [|left; reflexivity]. reflexivity.
Qed.

(** The calls of [handleMessage(msg)]: a death stops the simulation;
    [toCancer] removes the death from other causes and, unless the
    individual is cured, schedules the death from cancer. *)
Lemma SimplePerson_handleMessage_calls msg h h' :
  SimplePerson_handleMessage msg h = Ok (tt, h') ->
  (simple_death (kind msg) = true
   /\ h_calls h' = h_calls h ++ [StopSimulation])
  \/ (simple_death (kind msg) = false
      /\ kind msg = event_code toCancer
      /\ (h_calls h' = h_calls h ++ [RemoveEvent toOtherDeathPred]
          \/ exists m d, kind m = event_code toCancerDeath
               /\ h_calls h'
                  = h_calls h ++ [RemoveEvent toOtherDeathPred; SelfSignal m d]))
  \/ (simple_death (kind msg) = false
      /\ kind msg <> event_code toCancer
      /\ h_calls h' = h_calls h).
Proof.
  destruct h as [p prev t calls]. unfold simple_death.
  unfold SimplePerson_handleMessage, report_add, set_state, R_draw. hrun.
  destruct (Report.add _ _ _ _ _) as [r|]; [|done]. hrun.
  destruct (bool_decide _ || bool_decide _) eqn:Hd; hrun.
  { intros [= <-]. by left. }
  destruct (bool_decide (kind msg = event_code toCancer)) eqn:Hc; hrun.
  2:{ intros [= <-]. right. right. apply bool_decide_eq_false in Hc. done. }
  apply bool_decide_eq_true in Hc. intros Hrun. right. left.
  split; [done|]. split; [done|]. revert Hrun.
  destruct (Qltb _ _); hrun; intros [= <-]; simpl.
  - right. eexists _, _. split; [|by rewrite <- app_assoc]. reflexivity.
  - by left.
Qed.
End SimpleDeaths.

Section SimpleInvariant.
Import Kernel Run Stamps Quiet Deaths IllnessDeath.

Lemma popped_not_pending {P : Type} (w : World P) e rest :
  world_ok w -> pop_min (queue (sim w)) = Some (e, rest) -> e ∉ rest.
Proof.
  intros Hok Hpop Hin.
  destruct (popped_ok w e rest Hok Hpop) as [Hk _].
  apply (lex_lt_irrefl e).
  apply (ok_before _ _ Hk (mkDispatch e (previousEventTime (process w))
                                      (next_seq (sim w))) e); [left|exact Hin].
Qed.

Lemma simple_death_cancer k :
  k = event_code toCancer -> simple_death k = false.
Proof. by intros ->. Qed.

Lemma simple_alive_or_dead_step (w : World SimplePerson) e rest w2 :
  world_ok w -> simple_alive_or_dead w -> running (sim w) = true ->
  pop_min (queue (sim w)) = Some (e, rest) ->
  process_event (e_msg e) (popped e rest w) = Ok w2 ->
  simple_alive_or_dead w2.
Proof.
  intros Hok HI Hr Hpop Hev.
  apply process_event_inv in Hev as (h & Hm & Hx & _ & _ & Hd).
  rewrite SimplePerson_process_handleMessage in Hm.
  apply SimplePerson_handleMessage_calls in Hm. simpl in Hm, Hx, Hd.
  destruct (pop_min_spec _ _ _ Hpop) as [Hperm _].
  pose proof (popped_not_pending _ _ _ Hok Hpop) as Hfresh.
  assert (e ∈ queue (sim w)) as Hein by (rewrite Hperm; left).
  assert (forall x, x ∈ rest -> x ∈ queue (sim w)) as Hsub.
  { intros x Hx'. rewrite Hperm. by right. }
  destruct HI as [(_ & Hd0 & _ & Hkinds & Huniq)
                 |[(_ & (d & Hdd & Hkd) & Hq)|(Hstop & _)]]; [| |congruence].
  - (* healthy *)
    destruct Hm as [(Hdeath & Hc)|[(Hnd & Hcancer & Hc)|(Hnd & Hnc & Hc)]].
    + right. right. rewrite Hc in Hx. injection Hx as Hx.
      split; [by rewrite <- Hx|]. eexists _, _. split; [exact Hd|].
      split; [done|]. rewrite Hd0. intros x Hx'. by apply elem_of_nil in Hx'.
    + right. left.
      assert (forall x, x ∈ filter (fun e => toOtherDeathPred (e_msg e) = false) rest ->
                False) as Hnone.
      { intros x Hx'. apply list_elem_of_filter in Hx' as [Hpred Hx'].
        destruct (Hkinds x (Hsub x Hx')) as [Hk|Hk].
        - unfold toOtherDeathPred, cMessageKindEq in Hpred.
          apply bool_decide_eq_false in Hpred. done.
        - apply Hfresh. by rewrite <- (Huniq x e (Hsub x Hx') Hein Hk Hcancer). }
      destruct Hc as [Hc|(m & dl & Hkm & Hc)]; rewrite Hc in Hx; simpl in Hx.
      * injection Hx as Hx. rewrite <- Hx. simpl. split; [done|]. split.
        -- eexists. split; [by rewrite Hd, Hd0|done].
        -- intros x Hx'. by apply Hnone in Hx'.
      * unfold self_signal_event in Hx. destruct (Qltb dl 0); [done|].
        injection Hx as Hx. rewrite <- Hx. simpl. split; [done|]. split.
        -- eexists. split; [by rewrite Hd, Hd0|done].
        -- intros x Hx'. apply elem_of_app in Hx' as [Hx'|Hx'].
           ++ by apply Hnone in Hx'.
           ++ by apply list_elem_of_singleton in Hx' as ->.
    + exfalso. destruct (Hkinds e Hein) as [Hk|Hk]; [|done].
      rewrite Hk in Hnd. discriminate.
  - (* cancer *)
    pose proof (Hq e Hein) as Hk.
    destruct Hm as [(Hdeath & Hc)|[(Hnd & _)|(Hnd & _)]];
      [|rewrite Hk in Hnd; discriminate|rewrite Hk in Hnd; discriminate].
    right. right. rewrite Hc in Hx. injection Hx as Hx.
    split; [by rewrite <- Hx|]. eexists _, _. split; [exact Hd|].
    split; [done|]. rewrite Hdd. intros x Hx'.
    apply list_elem_of_singleton in Hx' as ->. by apply simple_death_cancer.
Qed.
End SimpleInvariant.

Section SimpleRun.
Import Kernel Run Stamps Quiet Deaths IllnessDeath.

(** Along the run of an individual of the illness-death model. *)
Lemma simulate_simple_alive_or_dead (fuel : nat) (p : SimplePerson) (s : Sim) o
    (w : World SimplePerson) :
  cleared s -> simulate fuel p s = Ok (o, w) -> simple_alive_or_dead w.
Proof.
  intros Hs. unfold simulate.
  destruct (create_process _ _) as [w0|] eqn:Hc; [|done].
  unfold run_simulation.
  pose proof (create_process_ok _ _ _ Hs Hc) as [Hk Hp Hch].
  revert Hc. unfold create_process. destruct Hs as (Hq & _ & ->).
  intros Hrun. apply run_handler_inv in Hrun as (h & Hm & Hx & _ & _ & Hd0).
  rewrite SimplePerson_process_init in Hm.
  apply SimplePerson_init_calls in Hm as (m1 & d1 & Hk1 & Hcalls).
  simpl in Hd0, Hcalls, Hx. rewrite Hq in Hx.
  apply (run_loop_ind simple_alive_or_dead).
  - intros w1 e1 rest w2 Hok HI Hr Hpop Hev.
    by eapply simple_alive_or_dead_step.
  - split; simpl; [|done|done]. destruct Hk. by split.
  - left. simpl. split; [done|]. split; [done|].
    destruct Hcalls as [Hc|(m2 & d2 & Hk2 & Hc)]; rewrite Hc in Hx; simpl in Hx;
      unfold self_signal_event in Hx; simpl in Hx.
    + destruct (Qltb d1 0); simpl in Hx; [done|]. injection Hx as Hx. rewrite <- Hx. simpl.
      split; [eexists; split; [left|done]|]. split.
      * intros e He. apply list_elem_of_singleton in He as ->. by left.
      * intros e e' He He'. apply list_elem_of_singleton in He as ->.
        by apply list_elem_of_singleton in He' as ->.
    + destruct (Qltb d1 0); simpl in Hx; [done|].
      unfold self_signal_event in Hx; simpl in Hx.
      destruct (Qltb d2 0); simpl in Hx; [done|]. injection Hx as Hx. rewrite <- Hx. simpl.
      split; [eexists; split; [left|done]|]. split.
      * intros e He. rewrite !elem_of_cons, elem_of_nil in He.
        destruct He as [->|[->|[]]]; [by left|by right].
      * intros e e' He He'. rewrite !elem_of_cons, elem_of_nil in He, He'.
        destruct He as [->|[->|[]]], He' as [->|[->|[]]]; simpl;
          rewrite ?Hk1, ?Hk2; intros; done.
Qed.
End SimpleRun.

(** How a run of the two models ends. *)
Section Ends.
Import Kernel Run Deaths.
Context {P : Type} `{proc : Process P}.

Lemma simulate_finished (fuel : nat) (p : P) (s : Sim) (w : World P) :
  simulate fuel p s = Ok (Finished, w) ->
  running (sim w) = false \/ queue (sim w) = [].
Proof.
  unfold simulate. destruct (create_process _ _) as [w0|]; [|done].
  unfold run_simulation. apply run_loop_finished.
Qed.
End Ends.


(** C4, as amended.  In a run of either model a death, [toCancerDeath] or
    [toOtherDeath], is the last message dispatched, so that at most one is
    dispatched; whether an interval reaches [_max] changes what the report
    records, not what is dispatched.  A finished run of the cancer model
    ends with a death: exactly one is dispatched.  A finished run of the
    illness-death model ends with a death, or consists of the single
    message [toCancer] of an individual who is cured: the handler of
    [toCancer] removes the pending [toOtherDeath] and schedules
    [toCancerDeath] only for one uniform variate in two, so for a cured
    individual no death is dispatched at all. *)
Theorem death_is_the_last_message :
  (forall (X : Fhcrc.Externals) (fuel : nat) (p : Fhcrc.FhcrcPerson)
          (s : Kernel.Sim) o (w : Kernel.World Fhcrc.FhcrcPerson),
      Run.cleared s ->
      Kernel.simulate (H0 := Fhcrc.FhcrcPerson_process X) fuel p s
      = Kernel.Ok (o, w) ->
      (forall j x, Kernel.log w !! j = Some x ->
          Fhcrc.is_death (Kernel.kind (Kernel.e_msg (Kernel.d_entry x))) = true ->
          S j = length (Kernel.log w))
      /\ (o = Kernel.Finished ->
          exists d, last (Kernel.log w) = Some d
            /\ Fhcrc.is_death (Kernel.kind (Kernel.e_msg (Kernel.d_entry d)))
               = true))
  /\ (forall (fuel : nat) (p : IllnessDeath.SimplePerson) (s : Kernel.Sim) o
             (w : Kernel.World IllnessDeath.SimplePerson),
        Run.cleared s ->
        Kernel.simulate fuel p s = Kernel.Ok (o, w) ->
        (forall j x, Kernel.log w !! j = Some x ->
            Deaths.simple_death (Kernel.kind (Kernel.e_msg (Kernel.d_entry x)))
            = true ->
            S j = length (Kernel.log w))
        /\ (o = Kernel.Finished ->
            (exists d, last (Kernel.log w) = Some d
               /\ Deaths.simple_death
                    (Kernel.kind (Kernel.e_msg (Kernel.d_entry d))) = true)
            \/ (exists d, Kernel.log w = [d]
                  /\ Kernel.kind (Kernel.e_msg (Kernel.d_entry d))
                     = IllnessDeath.event_code IllnessDeath.toCancer))).
Proof.
  split.
  - intros X fuel p s o w Hs Hrun.
    pose proof (simulate_fhcrc_alive_or_dead X fuel p s o w Hs Hrun) as HI.
    split.
    + apply (dead_death_is_last Fhcrc.is_death).
      destruct HI as [(_ & Hfree & _)|Hdead]; [by right|by left].
    + intros ->. apply simulate_finished in Hrun.
      destruct HI as [(Hr & _ & e & He & _)|Hdead]; [|by apply dead_last].
      destruct Hrun as [Hstop|Hempty]; [congruence|].
      rewrite Hempty in He. by apply elem_of_nil in He.
  - intros fuel p s o w Hs Hrun.
    pose proof (simulate_simple_alive_or_dead fuel p s o w Hs Hrun) as HI.
    split.
    + apply (dead_death_is_last Deaths.simple_death).
      destruct HI as [(_ & Hd0 & _)|[(_ & (d & Hd & Hk) & _)|Hdead]];
        [right|right|by left].
      * rewrite Hd0. intros x Hx. by apply elem_of_nil in Hx.
      * rewrite Hd. intros x Hx. apply list_elem_of_singleton in Hx as ->.
        by apply simple_death_cancer.
    + intros ->. apply simulate_finished in Hrun.
      destruct HI as [(Hr & _ & (e & He & _) & _)
                     |[(Hr & (d & Hd & Hk) & _)|Hdead]].
      * destruct Hrun as [Hstop|Hempty]; [congruence|].
        rewrite Hempty in He. by apply elem_of_nil in He.
      * right. exists d. split; [|done]. unfold Kernel.log. by rewrite Hd.
      * left. by apply dead_last.
Qed.

(** Witness for C4 as amended: the example patient of the cancer model, who
    dies of cancer at 70, and the individual of the illness-death model who
    gets cancer at 50 and dies of it at 53. *)
Lemma death_is_the_last_message_witness :
  (exists w,
      Kernel.simulate (H0 := Fhcrc.FhcrcPerson_process Examples.example_externals)
        40 Examples.example_person Kernel.initial_sim
      = Kernel.Ok (Kernel.Finished, w)
      /\ (forall j x, Kernel.log w !! j = Some x ->
            Fhcrc.is_death (Kernel.kind (Kernel.e_msg (Kernel.d_entry x))) = true ->
            S j = length (Kernel.log w))
      /\ exists d, last (Kernel.log w) = Some d
           /\ Fhcrc.is_death (Kernel.kind (Kernel.e_msg (Kernel.d_entry d)))
              = true)
  /\ (exists w,
        Kernel.simulate 10 Examples.not_cured Kernel.initial_sim
        = Kernel.Ok (Kernel.Finished, w)
        /\ (forall j x, Kernel.log w !! j = Some x ->
              Deaths.simple_death (Kernel.kind (Kernel.e_msg (Kernel.d_entry x)))
              = true ->
              S j = length (Kernel.log w))
        /\ ((exists d, last (Kernel.log w) = Some d
               /\ Deaths.simple_death
                    (Kernel.kind (Kernel.e_msg (Kernel.d_entry d))) = true)
            \/ (exists d, Kernel.log w = [d]
                  /\ Kernel.kind (Kernel.e_msg (Kernel.d_entry d))
                     = IllnessDeath.event_code IllnessDeath.toCancer))).
Proof.
  destruct example_runs_finish as [F1 F2]. split.
  - destruct (Kernel.simulate 40%nat Examples.example_person Kernel.initial_sim)
      as [[o w]|e] eqn:E; [|discriminate F1].
    injection F1 as ->. exists w. split; [reflexivity|].
    destruct (proj1 death_is_the_last_message _ 40%nat _ _ _ w
                initial_sim_cleared E) as [Hlast Hone].
    split; [exact Hlast|exact (Hone eq_refl)].
  - destruct (Kernel.simulate 10%nat Examples.not_cured Kernel.initial_sim)
      as [[o w]|e] eqn:E; [|discriminate F2].
    injection F2 as ->. exists w. split; [reflexivity|].
    destruct (proj2 death_is_the_last_message 10%nat _ _ _ w
                initial_sim_cleared E) as [Hlast Hone].
    split; [exact Hlast|exact (Hone eq_refl)].
Defined.

(** Counterexample to C4 as stated: the individual of the illness-death
    model who gets cancer at 50 and is cured.  The run finishes, and its
    whole log is this single message, long before [_max] = 1.0e+6: no death
    is dispatched. *)
Lemma cured_individual_has_no_death :
  Examples.log_of Examples.cured_person
  = Some (Kernel.Finished,
          [(IllnessDeath.event_code IllnessDeath.toCancer, 50, 0)])
  /\ Deaths.simple_death (IllnessDeath.event_code IllnessDeath.toCancer) = false.
Proof. split; vm_compute; reflexivity. Qed.

(** * The survival computation *)
Section SurvivalFacts.
Import Fhcrc Survival.
Local Open Scope R_scope.

Lemma set_lower_bound_spec (s : list R) (x : R) :
  StronglySorted Rgt s ->
  match set_lower_bound s x with
  | Some a => In a s /\ a <= x /\ forall k, In k s -> k <= x -> k <= a
  | None => forall k, In k s -> x < k
  end.
Proof.
  induction 1 as [|e s Hs IH Hall]; simpl.
  - intros k [].
  - destruct (Rgt_dec e x) as [Hgt|Hle].
    + destruct (set_lower_bound s x) as [a|].
      * destruct IH as (Hin & Hle & Hmax). split; [by right|]. split; [done|].
        intros k [<-|Hk] Hkx; [lra|by apply Hmax].
      * intros k [<-|Hk]; [lra|by apply IH].
    + split; [by left|]. split; [lra|].
      intros k [<-|Hk] Hkx; [lra|].
      rewrite Forall_forall in Hall.
      assert (e > k); [|lra]. apply Hall. by apply list_elem_of_In.
Qed.

(** C5, as amended.  In the localised branch ([age_diag < tm + 35]) the row
    of [H_local] that [calculate_survival] uses is the one whose age is the
    greatest age key that is less than or equal to [clamp(age_diag, 50, 80)],
    as soon as the table has such a key. *)
Theorem calculate_survival_row_is_floor
    (c_txlt_interaction c_baseline_specific sxbenefit : R)
    (H_local_invert : R * base.grade_t -> R -> R)
    (H_dist_invert : base.grade_t -> R -> R)
    (H_local_age_set : list R) (tm : R) (grade : base.grade_t)
    (u age_diag age_c : R) (tx : treatment_t) (k0 : R) :
  StronglySorted Rgt H_local_age_set ->
  age_diag < tm + 35 ->
  In k0 H_local_age_set -> k0 <= bounds age_diag 50 80 ->
  exists a,
    survival_row H_local_age_set age_diag = Some a
    /\ In a H_local_age_set /\ a <= bounds age_diag 50 80
    /\ (forall k, In k H_local_age_set -> k <= bounds age_diag 50 80 -> k <= a)
    /\ calculate_survival c_txlt_interaction c_baseline_specific sxbenefit
         H_local_invert H_dist_invert H_local_age_set tm grade
         u age_diag age_c tx
       = Some (age_c
               + H_local_invert (a, grade)
                   (- ln (ustar c_txlt_interaction c_baseline_specific
                                sxbenefit tm u age_diag age_c tx))).
Proof.
  intros Hs Hloc Hk0 Hk0le.
  pose proof (set_lower_bound_spec H_local_age_set (bounds age_diag 50 80) Hs)
    as Hspec.
  unfold calculate_survival, survival_row.
  destruct (set_lower_bound _ _) as [a|].
  - exists a. destruct Hspec as (Hin & Hle & Hmax).
    repeat (split; [done|]).
    destruct (Rlt_dec age_diag (tm + 35)); [done|lra].
  - specialize (Hspec k0 Hk0). lra.
Qed.

Lemma example_age_set_sorted : StronglySorted Rgt example_age_set.
Proof.
  unfold example_age_set.
  repeat (constructor; [|repeat (constructor; try lra)]). constructor.
Defined.

(** Witness for C5 as amended: diagnosis at 65 with the keys 80, 70, 60,
    50. *)
Lemma calculate_survival_row_is_floor_witness :
  exists a,
    survival_row example_age_set 65 = Some a
    /\ In a example_age_set /\ a <= bounds 65 50 80
    /\ (forall k, In k example_age_set -> k <= bounds 65 50 80 -> k <= a)
    /\ calculate_survival 1 1 1 (fun k _ => fst k) (fun _ x => x)
         example_age_set 100 base.Gleason_le_7 (1/2) 65 70 CM
       = Some (70 + (fun k (_ : R) => fst k) (a, base.Gleason_le_7)
                      (- ln (ustar 1 1 1 100 (1/2) 65 70 CM))).
Proof.
  apply (calculate_survival_row_is_floor 1 1 1 (fun k _ => fst k) (fun _ x => x)
           example_age_set 100 base.Gleason_le_7 (1/2) 65 70 CM 50).
  - exact example_age_set_sorted.
  - lra.
  - simpl. tauto.
  - unfold bounds. destruct (Rlt_dec 65 50); [lra|].
    destruct (Rgt_dec 65 80); lra.
Defined.

(** Counterexample to C5 as stated: with the age keys 80, 70, 60, 50 and a
    diagnosis at 65, the smallest key at or above 65 is 70, but the row that
    is used is not at or above 65 at all (it is 60). *)
Lemma survival_row_is_not_ceiling :
  ~ (exists a, survival_row example_age_set 65 = Some a
               /\ bounds 65 50 80 <= a).
Proof.
  intros (a & Hrow & Hge). revert Hrow Hge.
  unfold survival_row, example_age_set, bounds.
  destruct (Rlt_dec 65 50); [lra|]. destruct (Rgt_dec 65 80); [lra|]. simpl.
  destruct (Rgt_dec 80 65); [|lra]. destruct (Rgt_dec 70 65); [|lra].
  destruct (Rgt_dec 60 65); [lra|]. intros [= <-]. lra.
Qed.

Lemma ustar_positive_exponent
    (c_txlt_interaction c_baseline_specific sxbenefit tm u age_diag age_c : R)
    (tx : treatment_t) :
  0 < c_baseline_specific -> 0 < sxbenefit ->
  exists p, 0 < p
    /\ forall v, ustar c_txlt_interaction c_baseline_specific sxbenefit tm
                       v age_diag age_c tx = Rpower v p.
Proof.
  intros Hc Hs. unfold ustar. eexists. split; [|reflexivity].
  apply Rdiv_lt_0_compat; [lra|].
  apply Rmult_lt_0_compat; [|done].
  apply Rmult_lt_0_compat; [done|]. apply exp_pos.
Qed.

(** C6, as amended.  [calculate_survival] is monotone non-increasing in its
    first argument: for fixed [(age_diag, age_c, tx)] and [u1 < u2] in (0,1)
    the ages at death satisfy [age_d(u2) <= age_d(u1)], when [invert] is
    monotone non-decreasing and the three parameters are positive; the two
    calls are defined together. *)
Theorem calculate_survival_antitone
    (c_txlt_interaction c_baseline_specific sxbenefit : R)
    (H_local_invert : R * base.grade_t -> R -> R)
    (H_dist_invert : base.grade_t -> R -> R)
    (H_local_age_set : list R) (tm : R) (grade : base.grade_t)
    (u1 u2 age_diag age_c : R) (tx : treatment_t) :
  0 < c_baseline_specific -> 0 < sxbenefit -> 0 < c_txlt_interaction ->
  (forall k x y, x <= y -> H_local_invert k x <= H_local_invert k y) ->
  (forall g x y, x <= y -> H_dist_invert g x <= H_dist_invert g y) ->
  0 < u1 -> u1 < u2 -> u2 < 1 ->
  match calculate_survival c_txlt_interaction c_baseline_specific sxbenefit
          H_local_invert H_dist_invert H_local_age_set tm grade
          u1 age_diag age_c tx,
        calculate_survival c_txlt_interaction c_baseline_specific sxbenefit
          H_local_invert H_dist_invert H_local_age_set tm grade
          u2 age_diag age_c tx with
  | Some d1, Some d2 => d2 <= d1
  | None, None => True
  | _, _ => False
  end.
Proof.
  intros Hc Hs _ Hloc Hdist Hu1 Hu12 Hu2.
  destruct (ustar_positive_exponent c_txlt_interaction c_baseline_specific
              sxbenefit tm u1 age_diag age_c tx Hc Hs) as (p & Hp & Hustar).
  assert (- ln (Rpower u2 p) <= - ln (Rpower u1 p)) as Hmono.
  { unfold Rpower. rewrite !ln_exp.
    assert (ln u1 < ln u2) by (apply ln_increasing; lra).
    apply Ropp_le_contravar, Rmult_le_compat_l; lra. }
  unfold calculate_survival. rewrite !Hustar.
  destruct (Rlt_dec age_diag (tm + 35)).
  - destruct (survival_row _ _) as [a|]; [|done].
    apply Rplus_le_compat_l. by apply Hloc.
  - apply Rplus_le_compat_l. by apply Hdist.
Qed.

(** Witness for C6 as amended, and the input of the counterexample below:
    a distant-stage diagnosis, [invert] the identity, all parameters 1. *)
Lemma calculate_survival_antitone_witness :
  match calculate_survival 1 1 1 (fun _ x => x) (fun _ x => x) example_age_set
          0 base.Gleason_le_7 (1/4) 50 50 CM,
        calculate_survival 1 1 1 (fun _ x => x) (fun _ x => x) example_age_set
          0 base.Gleason_le_7 (1/2) 50 50 CM with
  | Some d1, Some d2 => d2 <= d1
  | None, None => True
  | _, _ => False
  end.
Proof.
  apply (calculate_survival_antitone 1 1 1 (fun _ x => x) (fun _ x => x)
           example_age_set 0 base.Gleason_le_7 (1/4) (1/2) 50 50 CM);
    try lra; intros; lra.
Defined.

(** Counterexample to C6 as stated: with [invert] the identity (monotone
    non-decreasing) and all three parameters equal to 1 (positive), the
    draws [u1 = 1/4 < u2 = 1/2] give [age_d(u1) > age_d(u2)]. *)
Lemma calculate_survival_not_monotone :
  exists d1 d2,
    calculate_survival 1 1 1 (fun _ x => x) (fun _ x => x) example_age_set
      0 base.Gleason_le_7 (1/4) 50 50 CM = Some d1
    /\ calculate_survival 1 1 1 (fun _ x => x) (fun _ x => x) example_age_set
         0 base.Gleason_le_7 (1/2) 50 50 CM = Some d2
    /\ ~ d1 <= d2.
Proof.
  unfold calculate_survival.
  destruct (Rlt_dec 50 (0 + 35)); [lra|].
  eexists _, _. split; [reflexivity|]. split; [reflexivity|].
  unfold ustar. destruct (Rlt_dec 50 (0 + 35)); [lra|].
  unfold Rpower. rewrite !ln_exp.
  assert (ln (1/4) < ln (1/2)) by (apply ln_increasing; lra).
  rewrite ln_1, Rmult_0_l, Rplus_0_l, exp_0.
  replace (1 / (1 * 1 * 1)) with 1 by lra. lra.
Qed.
End SurvivalFacts.

(** * Person-time of an individual *)
Section PersonTime.
Import Kernel Run Recording.
Context {P Tstate Tevent : Type} `{Countable Tstate} `{Countable Tevent}.
Context `{proc : Process P}.
Variable rep : P -> Report.EventReport Tstate Tevent.
Hypothesis Hrec : records_interval rep proc.

(** A call of [add] that returns starts inside the partition. *)
Lemma add_Some_inside (r r' : Report.EventReport Tstate Tevent) state event
    lhs rhs :
  Report.well_formed r -> Report.add state event lhs rhs r = Some r' ->
  exists a0, head (Report._partition r) = Some a0
    /\ a0 <= lhs /\ lhs <= Report._max r.
Proof.
  intros Hwf Hadd.
  destruct (Report._partition r) as [|a0 v] eqn:Hv.
  { destruct Hwf as [_ Hl]. rewrite Hv in Hl. discriminate. }
  exists a0. split; [done|].
  assert (head (Report._partition r) = Some a0) as Hh by (by rewrite Hv).
  split.
  - destruct (Qlt_le_dec lhs a0) as [Hlt|Hle]; [|done].
    by rewrite (add_before_first r state event lhs rhs a0 Hh Hlt) in Hadd.
  - destruct (Qlt_le_dec (Report._max r) lhs) as [Hlt|Hle]; [|done].
    by rewrite (add_past_max r state event lhs rhs Hwf Hlt) in Hadd.
Qed.

Lemma recorded_step (r0 : Report.EventReport Tstate Tevent) (w : World P)
    e rest w2 :
  world_ok w -> recorded rep r0 w ->
  pop_min (queue (sim w)) = Some (e, rest) ->
  process_event (e_msg e) (popped e rest w) = Ok w2 ->
  recorded rep r0 w2.
Proof.
  intros Hok (Hwf & Hpart & Hmax & Htot) Hpop Hev.
  destruct (popped_ok w e rest Hok Hpop) as [_ Hle]. simpl in Hle.
  apply process_event_inv in Hev as (h & Hm & _ & Hself & _ & Hd).
  destruct Hrec as [_ Hhandle].
  destruct (Hhandle _ _ _ Hm) as (state & event & Hadd). simpl in Hadd.
  destruct (add_Some_inside _ _ _ _ _ _ Hwf Hadd) as (a0 & Hh & Ha0 & Hm0).
  pose proof (add_total_pt _ _ _ _ _ _ _ Hwf Hh Ha0 Hm0 Hle Hadd) as Hpt.
  destruct (add_well_formed _ _ _ _ _ _ Hwf Hadd) as (Hwf' & Hpart' & Hmax').
  unfold recorded. rewrite Hself, Hd. simpl.
  split; [done|]. split; [congruence|]. split; [congruence|].
  rewrite Hpt. rewrite Hmax. rewrite Hmax in Hm0.
  rewrite (ok_prev _ Hok) in Hm0 |- *.
  destruct (dispatched w) as [|d ds]; simpl in *; rewrite Htot.
  - ring.
  - rewrite (Q.min_l _ _ Hm0). ring.
Qed.

Lemma simulate_recorded (fuel : nat) (p : P) (s : Sim) o (w : World P) :
  Report.well_formed (rep p) -> cleared s ->
  simulate fuel p s = Ok (o, w) -> recorded rep (rep p) w.
Proof.
  intros Hwf Hs. unfold simulate.
  destruct (create_process _ _) as [w0|] eqn:Hc; [|done].
  unfold run_simulation.
  pose proof (create_process_ok _ _ _ Hs Hc) as [Hk Hp Hch].
  revert Hc. unfold create_process. destruct Hs as (_ & _ & ->).
  intros Hrun. apply run_handler_inv in Hrun as (h & Hm & _ & Hself & _ & Hd0).
  destruct Hrec as [Hinit _]. apply Hinit in Hm. simpl in Hm, Hd0.
  apply (run_loop_ind (recorded rep (rep p))).
  - intros w1 e rest w2 Hok HI _ Hpop Hev. by eapply recorded_step.
  - split; simpl; [|done|done]. destruct Hk. by split.
  - unfold recorded. simpl. rewrite Hself, Hm, Hd0.
    split; [done|]. split; [done|]. split; [done|]. reflexivity.
Qed.
End PersonTime.

(** * The two models record every interval *)
Section SimpleRecords.
Import Kernel Run Recording IllnessDeath.

Lemma SimplePerson_records : records_interval report SimplePerson_process.
Proof.
  split.
  - intros h h'. rewrite SimplePerson_process_init.
    destruct h as [p prev t calls].
    unfold SimplePerson_init, set_state, set_z, R_draw. hrun.
    destruct (Qltb _ _); hrun; by intros [= <-].
  - intros msg h h'. rewrite SimplePerson_process_handleMessage.
    destruct h as [p prev t calls].
    unfold SimplePerson_handleMessage, report_add, set_state, R_draw. hrun.
    destruct (Report.add _ _ _ _ _) as [r|] eqn:Hadd; [|done]. hrun.
    intros Hrun. exists (state_code (state p)), (kind msg). simpl.
    rewrite Hadd. f_equal. revert Hrun.
    destruct (bool_decide _ || bool_decide _); hrun; [by intros [= <-]|].
    destruct (bool_decide _); hrun; [|by intros [= <-]].
    destruct (Qltb _ _); hrun; by intros [= <-].
Qed.
End SimpleRecords.

Section FhcrcRecords.
Import Kernel Run Recording Fhcrc.
Variable X : Externals.

Lemma hstep_modify (R : relation (HState FhcrcPerson))
    (f : FhcrcPerson -> FhcrcPerson) :
  (forall h, R h {| h_self := f (h_self h);
                    h_previousEventTime := h_previousEventTime h;
                    h_now := h_now h; h_calls := h_calls h |}) ->
  hstep R (modify f).
Proof. intros HR h a h' [= <- <-]. apply HR. Qed.

Lemma hstep_R_draw (R : relation (HState FhcrcPerson)) :
  (forall h g, R h {| h_self := with_rng g (h_self h);
                      h_previousEventTime := h_previousEventTime h;
                      h_now := h_now h; h_calls := h_calls h |}) ->
  hstep R R_draw.
Proof. intros HR h a h' [= <- <-]. apply HR. Qed.
End FhcrcRecords.

(** Decomposes a handler of the cancer model down to the steps that change
    the person. *)
Ltac fhcrc_go tac :=
  repeat first
    [ progress hstep_go tac
    | match goal with
      | |- hstep _ (Fhcrc.modify _) => apply hstep_modify; intros ?; tac
      | |- hstep _ Fhcrc.R_draw => apply hstep_R_draw; intros ? ?; tac
      end ].

Section FhcrcSteady.
Import Kernel Run Recording Fhcrc.
Variable X : Externals.

Lemma schedule_screens_steady (n : nat) (start step : Q) :
  hstep (steady report) (schedule_screens n start step).
Proof.
  revert start. induction n as [|n IH]; intros start; simpl.
  - apply hstep_ret; tc_solve.
  - destruct (Qleb start 70); [|apply hstep_ret; tc_solve].
    apply hstep_bind; [tc_solve| |intros _; apply IH].
    unfold schedule, scheduleAt_kind. hstep_go ltac:(by repeat split).
Qed.

Lemma FhcrcPerson_init_steady : hstep (steady report) (FhcrcPerson_init X).
Proof.
  unfold FhcrcPerson_init, schedule_uptake, Rng_set, schedule,
    schedule_Utility, scheduleAt_kind.
  repeat first
    [ progress fhcrc_go ltac:(by repeat split)
    | match goal with
      | |- hstep _ (schedule_screens _ _ _) => apply schedule_screens_steady
      end ].
Qed.

Lemma y_steady t : hstep (steady report) (y X t).
Proof. unfold y. fhcrc_go ltac:(by repeat split). Qed.

Lemma report_add_inv s e lhs rhs h h' :
  report_add s e lhs rhs h = Ok (tt, h') ->
  Report.add s e lhs rhs (report (h_self h)) = Some (report (h_self h')).
Proof.
  destruct h as [p prev t calls]. unfold report_add. hrun.
  destruct (Report.add _ _ _ _ _) as [r|]; [|done]. hrun. by intros [= <-].
Qed.
End FhcrcSteady.

Section FhcrcRecording.
Import Kernel Run Recording Fhcrc.
Variable X : Externals.

Lemma FhcrcPerson_records : records_interval report (FhcrcPerson_process X).
Proof.
  split.
  - intros h h'. rewrite FhcrcPerson_process_init. intros Hrun.
    by destruct (hstep_run _ _ _ _ _ Hrun (FhcrcPerson_init_steady X))
      as (_ & _ & ?).
  - intros msg h h'. rewrite FhcrcPerson_process_handleMessage.
    unfold FhcrcPerson_handleMessage. intros Hrun.
    apply bind_inv in Hrun as (t & h1 & Hnow & Hrun).
    unfold now in Hnow. injection Hnow as <- <-.
    cbv beta zeta in Hrun.
    apply bind_inv in Hrun as (psa & h2 & Hy & Hrun).
    apply (hstep_run (steady report)) in Hy as (Hn2 & Hp2 & Hr2);
      [|apply y_steady].
    cbv beta zeta in Hrun.
    apply bind_inv in Hrun as (p & h3 & Hself & Hrun).
    unfold get_self in Hself. injection Hself as <- <-.
    cbv beta zeta in Hrun.
    apply bind_inv in Hrun as (prev & h4 & Hprev & Hrun).
    unfold get_previousEventTime in Hprev. injection Hprev as <- <-.
    cbv beta zeta in Hrun.
    apply bind_inv in Hrun as ([] & h5 & Hadd & Hrun).
    apply report_add_inv in Hadd.
    apply (hstep_run (steady report)) in Hrun as (_ & _ & Hr5).
    + eexists _, _. rewrite Hr5, <- Hr2, <- Hp2. exact Hadd.
    + clear. destruct (event_of_code (kind msg)) as [[]|];
        unfold handle_screen, handle_treatment, follow_up_screen,
          procedure_utilities, biopsy_utilities, y, Rng_set, RemoveKind,
          Sim_stop_simulation, schedule, schedule_UtilityChange,
          schedule_Utility, scheduleAt_kind;
        fhcrc_go ltac:(by repeat split).
Qed.
End FhcrcRecording.

Lemma last_rev_head {A : Type} (l : list A) : last (rev l) = head l.
Proof. destruct l as [|x l]; [done|]. simpl. by rewrite last_snoc. Qed.

Lemma IllnessDeath_initial_report_well_formed :
  Report.well_formed IllnessDeath.initial_report.
Proof.
  split; [|vm_compute; reflexivity].
  apply increasing_sorted. vm_compute. reflexivity.
Qed.

(** C1.  For a process whose handler records, on every message, the
    interval from [previousEventTime] to [now()] in a report, and whose
    report has a non-empty, strictly increasing partition: when the run of
    an individual has dispatched its last message at the age [death_age],
    a death or any other, the person-time of the report, summed over all
    states and all age buckets, has grown by [min(death_age, _max)] since
    the individual was created.  The handlers of the illness-death model
    and of the cancer model are such handlers. *)
Theorem person_time_is_age_at_death :
  (forall (P Tstate Tevent : Type) `{Countable Tstate} `{Countable Tevent}
          (proc : Kernel.Process P)
          (rep : P -> Report.EventReport Tstate Tevent)
          (fuel : nat) (p : P) (s : Kernel.Sim) o (w : Kernel.World P)
          (d : Kernel.Dispatch),
      Recording.records_interval rep proc ->
      Report.well_formed (rep p) ->
      Run.cleared s ->
      Kernel.simulate fuel p s = Kernel.Ok (o, w) ->
      last (Kernel.log w) = Some d ->
      Report.total_pt (rep (Kernel.self (Kernel.process w)))
      == Report.total_pt (rep p)
         + Qmin (Kernel.e_time (Kernel.d_entry d)) (Report._max (rep p)))
  /\ Recording.records_interval IllnessDeath.report
       IllnessDeath.SimplePerson_process
  /\ (forall X : Fhcrc.Externals,
        Recording.records_interval Fhcrc.report (Fhcrc.FhcrcPerson_process X)).
Proof.
  split; [|split].
  - intros P Tstate Tevent ? ? ? ? proc rep fuel p s o w d Hrec Hwf Hs Hrun Hd.
    destruct (simulate_recorded rep Hrec fuel p s o w Hwf Hs Hrun)
      as (_ & _ & _ & Htot).
    unfold Kernel.log in Hd. rewrite last_rev_head in Hd.
    destruct (Kernel.dispatched w) as [|d' ds]; [discriminate Hd|].
    injection Hd as ->. exact Htot.
  - exact SimplePerson_records.
  - exact FhcrcPerson_records.
Qed.

(** Witness for C1: the individual of the illness-death model who gets
    cancer at 50 and dies of it at 53, on a report without records: the
    report then holds 53 years of person-time. *)
Lemma person_time_is_age_at_death_witness :
  exists o w d,
    Kernel.simulate 10 Examples.not_cured Kernel.initial_sim = Kernel.Ok (o, w)
    /\ last (Kernel.log w) = Some d
    /\ Kernel.kind (Kernel.e_msg (Kernel.d_entry d))
       = IllnessDeath.event_code IllnessDeath.toCancerDeath
    /\ Kernel.e_time (Kernel.d_entry d) == 53
    /\ Report.total_pt (IllnessDeath.report (Kernel.self (Kernel.process w)))
       == Report.total_pt (IllnessDeath.report Examples.not_cured)
          + Qmin (Kernel.e_time (Kernel.d_entry d))
                 (Report._max (IllnessDeath.report Examples.not_cured)).
Proof.
  destruct not_cured_dies_at_53 as (d & Hd & Hk & Ht).
  destruct (Kernel.simulate 10%nat Examples.not_cured Kernel.initial_sim)
    as [[o w]|e] eqn:E; [|discriminate Hd].
  exists o, w, d. split; [reflexivity|]. split; [exact Hd|].
  split; [exact Hk|]. split; [exact Ht|].
  exact (proj1 person_time_is_age_at_death _ _ _ _ _ _ _ _
           IllnessDeath.report 10%nat Examples.not_cured Kernel.initial_sim
           o w d (proj1 (proj2 person_time_is_age_at_death))
           IllnessDeath_initial_report_well_formed initial_sim_cleared E Hd).
Defined.

(** * More on the report *)
Section ReportLifeCycle.
Context {Tstate Tevent : Type} `{Countable Tstate} `{Countable Tevent}.
Implicit Types r : Report.EventReport Tstate Tevent.


End ReportLifeCycle.

Section AddMore.
Context {Tstate Tevent : Type} `{Countable Tstate} `{Countable Tevent}.
Implicit Types r : Report.EventReport Tstate Tevent.

(** [add] returns a report for every interval that starts inside the
    partition and ends after its first cutpoint. *)
Lemma add_defined r state event lhs rhs a0 :
  Report.well_formed r -> head (Report._partition r) = Some a0 ->
  a0 <= lhs -> lhs <= Report._max r -> lhs <= rhs -> a0 < rhs ->
  exists r', Report.add state event lhs rhs r = Some r'.
Proof.
  intros Hwf Hh Ha0 Hm Hle Hpos.
  destruct (add_runs r state event lhs rhs a0 Hwf Hh Ha0 Hm Hle)
    as (lo & alo & pt' & prev' & it & c & Hlo & Halo & Hafter & Hbefore
        & Hinv & Hc & Hcge & ->).
  unfold add_result.
  destruct (Qltb rhs (Report._max r)) eqn:E; [|by eexists].
  apply Qltb_lt in E.
  assert (it <> 0%nat) as Hit.
  { intros ->. rewrite <- head_lookup, Hh in Hc. injection Hc as <-.
    revert Hcge. unfold itmax_of. cmp_cases; lra. }
  unfold deref. assert ((Z.of_nat it - 1 <? 0)%Z = false) as -> by lia.
  destruct (lookup_lt_is_Some_2 (Report._partition r) (Z.to_nat (Z.of_nat it - 1)))
    as [a Ha].
  { apply lookup_lt_Some in Hc. lia. }
  rewrite Ha. by eexists.
Qed.

(** The length of the part of [[lhs, rhs)] that lies in the bucket
    [[a, b)]. *)
Lemma overlap_cases (lhs rhs a b : Q) :
  a < b -> lhs <= rhs ->
  (if Qltb lhs b && Qltb a rhs then Qmin b rhs - Qmax a lhs else 0)
  == Qmax 0 (Qmin b rhs - Qmax a lhs).
Proof.
  intros Hab Hle.
  destruct (Q.min_spec b rhs) as [[Hb Emin]|[Hb Emin]];
    destruct (Q.max_spec a lhs) as [[Ha Emax]|[Ha Emax]];
    cmp_cases; simpl; rewrite Emin, Emax;
    first [ rewrite Q.max_r by lra; reflexivity
          | rewrite Q.max_l by lra; reflexivity ].
Qed.

(** The prevalence counts that one call adds: one at every cutpoint of the
    partition from [lhs] on and before both [rhs] and [_max]. *)
Lemma add_prev_cutpoint r state event lhs rhs a0 r' :
  Report.well_formed r -> head (Report._partition r) = Some a0 ->
  a0 <= lhs -> lhs <= Report._max r -> lhs <= rhs ->
  Report.add state event lhs rhs r = Some r' ->
  (forall i a, Report._partition r !! i = Some a ->
      Report.prev_at r' state a
      = (Report.prev_at r state a
         + (if Qleb lhs a && Qltb a rhs && Qltb a (Report._max r)
            then 1 else 0))%Z)
  /\ (forall s' k, s' <> state \/ ~ In k (Report._partition r) ->
        Report.prev_at r' s' k = Report.prev_at r s' k).
Proof.
  intros Hwf Hh Ha0 Hm Hle Hadd.
  destruct (add_runs r state event lhs rhs a0 Hwf Hh Ha0 Hm Hle)
    as (lo & alo & pt' & prev' & it & c & Hlo & Halo & Hafter & Hbefore
        & Hinv & Hc & Hcge & Heq).
  rewrite Heq in Hadd. apply add_result_fields in Hadd as (_ & Hprev & _).
  destruct Hwf as [Hs Hl].
  pose proof (loop_stop_index _ _ _ _ _ _ _ _ _ _ _ _ Hs Hinv Hc Hcge) as Hstop.
  destruct Hinv as (_ & Hge & Hvis & _ & _ & Hcount & Hsame & _).
  unfold Report.prev_at. rewrite Hprev. split.
  - intros i a Hi.
    assert (a < itmax_of rhs (Report._max r) <-> a < rhs /\ a < Report._max r)
      as Hit.
    { unfold itmax_of. cmp_cases; split; lra. }
    destruct (decide (lo <= i < it)%nat) as [Hin|Hout].
    + rewrite (Hcount i a Hin Hi).
      assert (a < rhs /\ a < Report._max r) as [H1 H2].
      { apply Hit. by apply (Hvis i). }
      apply Qltb_lt in H1, H2. by rewrite H1, H2, !andb_true_r.
    + assert (at2 0%Z prev' state a = at2 0%Z (Report._prev r) state a) as ->.
      { unfold at2, at1 at 1 3. rewrite Hsame; [done|]. right.
        intros (j & Hj & Hja).
        pose proof (sorted_lookup_inj _ _ _ _ Hs Hja Hi). lia. }
      assert (Qleb lhs a && Qltb a rhs && Qltb a (Report._max r) = false)
        as ->; [|lia].
      destruct (le_lt_dec lo i) as [Hlo_i|Hlo_i].
      * assert (~ a < itmax_of rhs (Report._max r)) as Hn.
        { intros Ha. apply Hout. apply (Hstop i a Hi). by split. }
        rewrite Hit in Hn. cmp_cases; simpl; try done. tauto.
      * assert (a < alo) by (eapply sorted_lookup_lt; eauto).
        assert (Qleb lhs a = false) as -> by (apply Qleb_gt; lra). done.
  - intros s' k Hk. unfold at2, at1 at 1 3. rewrite Hsame; [done|].
    destruct Hk as [Hk|Hk]; [by left|right].
    intros (j & Hj & Hjk). apply Hk. apply list_elem_of_In.
    by eapply list_elem_of_lookup_2.
Qed.
End AddMore.

Section AddTheorems.
Context {Tstate Tevent : Type} `{Countable Tstate} `{Countable Tevent}.
Implicit Types r : Report.EventReport Tstate Tevent.

(** X2.  For an interval [[lhs, rhs)] that starts inside the partition and ends
    after its first cutpoint, [add] returns a report with the same
    partition, credits to each bucket [[a, b)] of [state] the length of its
    overlap with the interval, changes no other person-time value, and so
    adds [min(rhs, _max) - lhs] to the total. *)
Theorem add_credits_overlap r state event lhs rhs a0 :
  Report.well_formed r -> head (Report._partition r) = Some a0 ->
  a0 <= lhs -> lhs <= Report._max r -> lhs <= rhs -> a0 < rhs ->
  exists r',
    Report.add state event lhs rhs r = Some r'
    /\ Report.well_formed r'
    /\ Report._partition r' = Report._partition r
    /\ Report._max r' = Report._max r
    /\ (forall i a b,
          Report._partition r !! i = Some a -> Report._partition r !! S i = Some b ->
          Report.pt_at r' state a
          == Report.pt_at r state a + Qmax 0 (Qmin b rhs - Qmax a lhs))
    /\ (forall s' k,
          s' <> state
          \/ (forall i, Report._partition r !! i = Some k ->
                        Report._partition r !! S i = None) ->
          Report.pt_at r' s' k = Report.pt_at r s' k)
    /\ Report.total_pt r'
       == Report.total_pt r + (Qmin rhs (Report._max r) - lhs).
Proof.
  intros Hwf Hh Ha0 Hm Hle Hpos.
  destruct (add_defined r state event lhs rhs a0 Hwf Hh Ha0 Hm Hle Hpos)
    as [r' Hadd].
  exists r'. split; [done|].
  destruct (add_well_formed _ _ _ _ _ _ Hwf Hadd) as (Hwf' & Hpart & Hmax).
  repeat (split; [done|]).
  destruct (add_pt_bucket r state event lhs rhs a0 r' Hwf Hh Ha0 Hm Hle Hadd)
    as [Hin Hout].
  split; [|split; [exact Hout|]].
  - intros i a b Hi HSi. rewrite (Hin i a b Hi HSi).
    destruct Hwf as [Hs _].
    assert (a < b) by (eapply sorted_lookup_lt; eauto).
    by rewrite overlap_cases.
  - by apply (add_total_pt r state event lhs rhs a0).
Qed.

(** X3.  Under the same conditions [add] adds one to the prevalence count of
    [state] at every cutpoint [a] with [lhs <= a < rhs] other than the last
    one, and changes no other prevalence count. *)
Theorem add_counts_prevalence r state event lhs rhs a0 :
  Report.well_formed r -> head (Report._partition r) = Some a0 ->
  a0 <= lhs -> lhs <= Report._max r -> lhs <= rhs -> a0 < rhs ->
  exists r',
    Report.add state event lhs rhs r = Some r'
    /\ (forall a, In a (Report._partition r) ->
          Report.prev_at r' state a
          = (Report.prev_at r state a
             + (if Qleb lhs a && Qltb a rhs && Qltb a (Report._max r)
                then 1 else 0))%Z)
    /\ (forall s' k, s' <> state \/ ~ In k (Report._partition r) ->
          Report.prev_at r' s' k = Report.prev_at r s' k).
Proof.
  intros Hwf Hh Ha0 Hm Hle Hpos.
  destruct (add_defined r state event lhs rhs a0 Hwf Hh Ha0 Hm Hle Hpos)
    as [r' Hadd].
  exists r'. split; [done|].
  destruct (add_prev_cutpoint r state event lhs rhs a0 r' Hwf Hh Ha0 Hm Hle Hadd)
    as [Hin Hout].
  split; [|exact Hout].
  intros a Ha. apply list_elem_of_In, list_elem_of_lookup in Ha as [i Hi].
  by apply (Hin i).
Qed.
End AddTheorems.

(** Witness: the interval [[1/2, 3/2)] on the partition 0, 1, 2. *)
Lemma add_credits_overlap_witness :
  exists r',
    Report.add 0%Z 7%Z (1#2) (3#2) report3 = Some r'
    /\ Report.well_formed r'
    /\ Report._partition r' = Report._partition report3
    /\ Report._max r' = Report._max report3
    /\ (forall i a b,
          Report._partition report3 !! i = Some a ->
          Report._partition report3 !! S i = Some b ->
          Report.pt_at r' 0%Z a
          == Report.pt_at report3 0%Z a + Qmax 0 (Qmin b (3#2) - Qmax a (1#2)))
    /\ (forall s' k,
          s' <> 0%Z
          \/ (forall i, Report._partition report3 !! i = Some k ->
                        Report._partition report3 !! S i = None) ->
          Report.pt_at r' s' k = Report.pt_at report3 s' k)
    /\ Report.total_pt r'
       == Report.total_pt report3 + (Qmin (3#2) (Report._max report3) - (1#2)).
Proof.
  apply (add_credits_overlap report3 0%Z 7%Z (1#2) (3#2) 0 report3_well_formed
           eq_refl);
    reflexivity || discriminate.
Defined.

(** Witness: the same interval; only the cutpoint 1 is counted. *)
Lemma add_counts_prevalence_witness :
  exists r',
    Report.add 0%Z 7%Z (1#2) (3#2) report3 = Some r'
    /\ (forall a, In a (Report._partition report3) ->
          Report.prev_at r' 0%Z a
          = (Report.prev_at report3 0%Z a
             + (if Qleb (1#2) a && Qltb a (3#2) && Qltb a (Report._max report3)
                then 1 else 0))%Z)
    /\ (forall s' k, s' <> 0%Z \/ ~ In k (Report._partition report3) ->
          Report.prev_at r' s' k = Report.prev_at report3 s' k).
Proof.
  apply (add_counts_prevalence report3 0%Z 7%Z (1#2) (3#2) 0 report3_well_formed
           eq_refl);
    reflexivity || discriminate.
Defined.

Section AddSplit.
Context {Tstate Tevent : Type} `{Countable Tstate} `{Countable Tevent}.
Implicit Types r : Report.EventReport Tstate Tevent.

Lemma overlap_split (lhs mid rhs a b : Q) :
  a < b -> lhs <= mid -> mid <= rhs ->
  Qmax 0 (Qmin b mid - Qmax a lhs) + Qmax 0 (Qmin b rhs - Qmax a mid)
  == Qmax 0 (Qmin b rhs - Qmax a lhs).
Proof.
  intros Hab H1 H2.
  rewrite <- !overlap_cases by lra.
  destruct (Q.min_spec b mid) as [[? E1]|[? E1]];
    destruct (Q.min_spec b rhs) as [[? E2]|[? E2]];
    destruct (Q.max_spec a lhs) as [[? E3]|[? E3]];
    destruct (Q.max_spec a mid) as [[? E4]|[? E4]];
    try lra; cmp_cases; simpl; rewrite ?E1, ?E2, ?E3, ?E4; lra.
Qed.

(** X4.  Recording an interval in two parts, as two successive messages do,
    gives the person-time and the prevalence counts of recording it in
    one. *)
Theorem add_splits_interval r state e1 e2 e3 lhs mid rhs a0 :
  Report.well_formed r -> head (Report._partition r) = Some a0 ->
  a0 <= lhs -> lhs <= mid -> mid <= rhs -> mid <= Report._max r -> a0 < mid ->
  exists r1 r2 r3,
    Report.add state e1 lhs mid r = Some r1
    /\ Report.add state e2 mid rhs r1 = Some r2
    /\ Report.add state e3 lhs rhs r = Some r3
    /\ (forall s' k, Report.pt_at r2 s' k == Report.pt_at r3 s' k)
    /\ (forall s' k, Report.prev_at r2 s' k = Report.prev_at r3 s' k)
    /\ Report.total_pt r2 == Report.total_pt r3.
Proof.
  intros Hwf Hh Ha0 H1 H2 Hm Hpos.
  assert (lhs <= Report._max r) as Hlm by lra.
  assert (lhs <= rhs) as Hle by lra.
  assert (a0 < rhs) as Hpos' by lra.
  destruct (add_defined r state e1 lhs mid a0 Hwf Hh Ha0 Hlm H1 Hpos)
    as [r1 Hadd1].
  destruct (add_well_formed _ _ _ _ _ _ Hwf Hadd1) as (Hwf1 & Hpart1 & Hmax1).
  assert (head (Report._partition r1) = Some a0) as Hh1 by (by rewrite Hpart1).
  assert (a0 <= mid) as Ha0m by lra.
  assert (mid <= Report._max r1) as Hm1 by (by rewrite Hmax1).
  destruct (add_defined r1 state e2 mid rhs a0 Hwf1 Hh1 Ha0m Hm1 H2 Hpos')
    as [r2 Hadd2].
  destruct (add_defined r state e3 lhs rhs a0 Hwf Hh Ha0 Hlm Hle Hpos')
    as [r3 Hadd3].
  exists r1, r2, r3. repeat (split; [done|]).
  destruct (add_pt_bucket r state e1 lhs mid a0 r1 Hwf Hh Ha0 Hlm H1 Hadd1)
    as [Hin1 Hout1].
  destruct (add_pt_bucket r1 state e2 mid rhs a0 r2 Hwf1 Hh1 Ha0m Hm1 H2 Hadd2)
    as [Hin2 Hout2].
  destruct (add_pt_bucket r state e3 lhs rhs a0 r3 Hwf Hh Ha0 Hlm Hle Hadd3)
    as [Hin3 Hout3].
  destruct (add_prev_cutpoint r state e1 lhs mid a0 r1 Hwf Hh Ha0 Hlm H1 Hadd1)
    as [Pin1 Pout1].
  destruct (add_prev_cutpoint r1 state e2 mid rhs a0 r2 Hwf1 Hh1 Ha0m Hm1 H2 Hadd2)
    as [Pin2 Pout2].
  destruct (add_prev_cutpoint r state e3 lhs rhs a0 r3 Hwf Hh Ha0 Hlm Hle Hadd3)
    as [Pin3 Pout3].
  rewrite Hpart1 in Hin2, Hout2, Pin2, Pout2. rewrite Hmax1 in Pin2.
  pose proof Hwf as [Hs _].
  split; [|split].
  - intros s' k. destruct (decide (s' = state)) as [->|Hs'].
    2:{ rewrite Hout2, Hout1, Hout3 by (by left). reflexivity. }
    destruct (decide (k ∈ Report._partition r)) as [Hk|Hk].
    + apply list_elem_of_lookup in Hk as [i Hi].
      destruct (Report._partition r !! S i) as [b|] eqn:HSi.
      * assert (k < b) by (eapply sorted_lookup_lt; eauto).
        rewrite (Hin2 i k b Hi HSi), (Hin1 i k b Hi HSi), (Hin3 i k b Hi HSi).
        rewrite !overlap_cases by lra.
        rewrite <- (overlap_split lhs mid rhs k b) by lra. ring.
      * assert (forall j, Report._partition r !! j = Some k ->
                          Report._partition r !! S j = None) as Hlastk.
        { intros j Hj. by rewrite (sorted_lookup_inj _ _ _ _ Hs Hj Hi). }
        rewrite Hout2, Hout1, Hout3 by (by right). reflexivity.
    + assert (forall j, Report._partition r !! j = Some k ->
                        Report._partition r !! S j = None) as Hnok.
      { intros j Hj. exfalso. apply Hk. by eapply list_elem_of_lookup_2. }
      rewrite Hout2, Hout1, Hout3 by (by right). reflexivity.
  - intros s' k. destruct (decide (s' = state)) as [->|Hs'].
    2:{ by rewrite Pout2, Pout1, Pout3 by (by left). }
    destruct (decide (k ∈ Report._partition r)) as [Hk|Hk].
    + apply list_elem_of_lookup in Hk as [i Hi].
      rewrite (Pin2 i k Hi), (Pin1 i k Hi), (Pin3 i k Hi).
      cmp_cases; simpl; lia || lra.
    + assert (~ In k (Report._partition r)) as Hnok.
      { intros Hin. apply Hk. by apply list_elem_of_In. }
      by rewrite Pout2, Pout1, Pout3 by (by right).
  - rewrite (add_total_pt r1 state e2 mid rhs a0 r2 Hwf1 Hh1 Ha0m Hm1 H2 Hadd2).
    rewrite (add_total_pt r state e1 lhs mid a0 r1 Hwf Hh Ha0 Hlm H1 Hadd1).
    rewrite (add_total_pt r state e3 lhs rhs a0 r3 Hwf Hh Ha0 Hlm Hle Hadd3).
    rewrite Hmax1. rewrite (Q.min_l mid) by lra. ring.
Qed.
End AddSplit.

(** Witness: [[1/2, 3/2)] recorded as [[1/2, 1)] and [[1, 3/2)] on the
    partition 0, 1, 2. *)
Lemma add_splits_interval_witness :
  exists r1 r2 r3,
    Report.add 0%Z 1%Z (1#2) 1 report3 = Some r1
    /\ Report.add 0%Z 2%Z 1 (3#2) r1 = Some r2
    /\ Report.add 0%Z 2%Z (1#2) (3#2) report3 = Some r3
    /\ (forall s' k, Report.pt_at r2 s' k == Report.pt_at r3 s' k)
    /\ (forall s' k, Report.prev_at r2 s' k = Report.prev_at r3 s' k)
    /\ Report.total_pt r2 == Report.total_pt r3.
Proof.
  apply (add_splits_interval report3 0%Z 1%Z 2%Z 2%Z (1#2) 1 (3#2) 0
           report3_well_formed eq_refl);
    reflexivity || discriminate.
Defined.

(** * [Means] *)
Section MeansFacts.
Import Means.



End MeansFacts.


(** * [Rpexp] *)
Section RpexpFacts.
Import Rpexp.

Lemma fill_length (Hp tp hp : Q) (hs ts : list Q) :
  length hs = length ts -> length (fill Hp tp hp hs ts) = length hs.
Proof.
  revert Hp tp hp ts. induction hs as [|hi hs IH]; intros Hp tp hp [|ti ts];
    simpl; try done.
  intros [= Hlen]. by rewrite IH.
Qed.

(** The recurrence of the constructor: [H[i+1] = H[i] + (t[i+1]-t[i])*h[i]]. *)
Lemma fill_step (Hp tp hp : Q) (hs ts : list Q) (i : nat) (Hi ti hi ti' : Q) :
  length hs = length ts ->
  (Hp :: fill Hp tp hp hs ts) !! i = Some Hi ->
  (tp :: ts) !! i = Some ti -> (hp :: hs) !! i = Some hi ->
  (tp :: ts) !! S i = Some ti' ->
  (Hp :: fill Hp tp hp hs ts) !! S i = Some (Hi + (ti' - ti) * hi).
Proof.
  revert Hp tp hp ts i Hi ti hi ti'.
  induction hs as [|h1 hs IH]; intros Hp tp hp [|t1 ts] i Hi ti hi ti';
    simpl; try done.
  intros [= Hlen] HHi Hti Hhi Hti'. destruct i as [|i]; simpl in *.
  - by injection HHi as <-; injection Hti as <-; injection Hhi as <-;
      injection Hti' as <-.
  - by apply (IH _ _ _ ts i).
Qed.

Lemma fill_sorted (Hp tp hp : Q) (hs ts : list Q) :
  length hs = length ts ->
  StronglySorted Qlt (tp :: ts) -> Forall (Qlt 0) (hp :: hs) ->
  StronglySorted Qlt (Hp :: fill Hp tp hp hs ts).
Proof.
  intros Hlen Hts Hhs. apply Sorted_StronglySorted.
  { intros x y z. apply Qlt_trans. }
  apply StronglySorted_Sorted in Hts.
  revert Hp tp hp ts Hlen Hts Hhs.
  induction hs as [|h1 hs IH]; intros Hp tp hp [|t1 ts]; simpl; try done.
  - intros _ _ _. by repeat constructor.
  - intros [= Hlen] Hts Hhs.
    apply Sorted_inv in Hts as [Hts Hrel]. apply HdRel_inv in Hrel.
    apply Forall_cons in Hhs as [Hhp Hhs].
    constructor; [by apply IH|]. constructor.
    assert (0 < (t1 - tp) * hp) by (apply Qmult_lt_0_compat; lra). lra.
Qed.

(** What the constructor builds. *)
Lemma new_Rpexp_inv (hin tin : list Q) (nin : Z) (p : Rpexp) :
  new_Rpexp hin tin nin = Some p ->
  exists h0 hs t0 ts,
    h p = h0 :: hs /\ t p = t0 :: ts /\ H p = 0 :: fill 0 t0 h0 hs ts
    /\ length hs = length ts /\ n p = Z.of_nat (S (length hs))
    /\ h p = take (Z.to_nat nin) hin /\ t p = take (Z.to_nat nin) tin
    /\ n p = nin.
Proof.
  unfold new_Rpexp. destruct (nin <=? 0)%Z eqn:E0; [done|].
  apply Z.leb_gt in E0.
  destruct (_ || _) eqn:E1; [done|].
  apply orb_false_iff in E1 as [E1 E2]. apply Z.ltb_ge in E1, E2.
  destruct (take (Z.to_nat nin) hin) as [|h0 hs] eqn:Eh; [done|].
  destruct (take (Z.to_nat nin) tin) as [|t0 ts] eqn:Et; [done|].
  intros [= <-]. simpl. exists h0, hs, t0, ts.
  assert (length (h0 :: hs) = Z.to_nat nin) as Hlh.
  { rewrite <- Eh, length_take. lia. }
  assert (length (t0 :: ts) = Z.to_nat nin) as Hlt.
  { rewrite <- Et, length_take. lia. }
  simpl in Hlh, Hlt. repeat split; try done; lia.
Qed.

(** The index that [rand] computes for [x] in a vector [v] whose first
    entry is before [x]: the last position whose entry is before [x], or
    the last position of all. *)
Lemma index_of_spec (v : list Q) (x v0 : Q) :
  head v = Some v0 -> v0 < x ->
  exists i vi,
    index_of v (Z.of_nat (length v)) x = Some (Z.of_nat i)
    /\ v !! i = Some vi /\ vi <= x
    /\ (forall v', v !! S i = Some v' -> vi < x /\ x <= v').
Proof.
  intros Hh Hlt. unfold index_of, deref.
  destruct v as [|a v]; [done|]. injection Hh as ->.
  assert ((Z.of_nat (length (v0 :: v)) - 1 <? 0)%Z = false) as ->.
  { apply Z.ltb_ge. simpl length. lia. }
  replace (Z.to_nat (Z.of_nat (length (v0 :: v)) - 1)) with (length v)
    by (simpl length; lia).
  destruct (lookup_lt_is_Some_2 (v0 :: v) (length v)) as [top Htop];
    [simpl; lia|].
  rewrite Htop. destruct (Qleb top x) eqn:E.
  - apply Qleb_le in E. exists (length v), top.
    split; [f_equal; simpl length; lia|]. split; [done|]. split; [done|].
    intros v' Hv'. apply lookup_lt_Some in Hv'. simpl in Hv'. lia.
  - apply Qleb_gt in E.
    pose proof (lower_bound_le_index (v0 :: v) x _ top Htop ltac:(lra)) as Hlb.
    assert (exists k, lower_bound (v0 :: v) x = S k) as [k Hk].
    { simpl. apply Qltb_lt in Hlt. rewrite Hlt. by eexists. }
    rewrite Hk in *.
    destruct (lookup_lt_is_Some_2 (v0 :: v) k) as [vk Hvk]; [simpl; lia|].
    exists k, vk. split; [f_equal; lia|]. split; [done|].
    assert (vk < x) as Hvkx.
    { apply (lower_bound_before (v0 :: v) x k); [lia|done]. }
    split; [lra|]. intros v' Hv'. split; [done|].
    apply (lower_bound_at (v0 :: v) x). by rewrite Hk.
Qed.
End RpexpFacts.

Section RpexpRand.
Import Rpexp.

Lemma deref_nat (v : list Q) (i : nat) : deref v (Z.of_nat i) = v !! i.
Proof.
  unfold deref. assert ((Z.of_nat i <? 0)%Z = false) as -> by (apply Z.ltb_ge; lia).
  by rewrite Nat2Z.id.
Qed.

(** The piece in which [rand] looks for its result, given the cumulative
    hazard [v] to reach. *)
Lemma rand_piece (p : Rpexp) (hin tin : list Q) (nin : Z) (v : Q) :
  new_Rpexp hin tin nin = Some p ->
  StronglySorted Qlt (t p) -> Forall (Qlt 0) (h p) -> 0 < v ->
  exists i Hi ti hi,
    index_of (H p) (n p) v = Some (Z.of_nat i)
    /\ H p !! i = Some Hi /\ t p !! i = Some ti /\ h p !! i = Some hi
    /\ 0 < hi /\ Hi <= v
    /\ (forall t', t p !! S i = Some t' ->
          Hi < v /\ v <= Hi + (t' - ti) * hi).
Proof.
  intros Hnew Hts Hhs Hv.
  destruct (new_Rpexp_inv _ _ _ _ Hnew)
    as (h0 & hs & t0 & ts & Eh & Et & EH & Hlen & En & _).
  assert (length (H p) = S (length hs)) as HlH.
  { rewrite EH. simpl. by rewrite fill_length. }
  destruct (index_of_spec (H p) v 0) as (i & Hi & Hidx & HHi & Hle & Hnext).
  { by rewrite EH. }
  { done. }
  rewrite HlH, <- En in Hidx.
  pose proof (lookup_lt_Some _ _ _ HHi) as Hi_lt. rewrite HlH in Hi_lt.
  destruct (lookup_lt_is_Some_2 (t p) i) as [ti Hti].
  { rewrite Et. simpl. lia. }
  destruct (lookup_lt_is_Some_2 (h p) i) as [hi Hhi].
  { rewrite Eh. simpl. lia. }
  exists i, Hi, ti, hi. repeat (split; [done|]).
  assert (0 < hi) as Hpos.
  { rewrite Forall_forall in Hhs. apply Hhs. by eapply list_elem_of_lookup_2. }
  split; [done|]. split; [done|].
  intros t' Ht'.
  assert (H p !! S i = Some (Hi + (t' - ti) * hi)) as HS.
  { rewrite EH. apply (fill_step 0 t0 h0 hs ts i Hi ti hi t' Hlen).
    - by rewrite <- EH.
    - by rewrite <- Et.
    - by rewrite <- Eh.
    - by rewrite <- Et. }
  by apply Hnext.
Qed.

(** The time at which the piece [i] reaches the cumulative hazard [v]. *)
Lemma piece_time (Hi ti hi v : Q) :
  0 < hi -> Hi <= v ->
  ti <= ti + (v - Hi) / hi
  /\ Hi + (ti + (v - Hi) / hi - ti) * hi == v
  /\ (Hi < v -> ti < ti + (v - Hi) / hi)
  /\ (forall t', v <= Hi + (t' - ti) * hi -> ti + (v - Hi) / hi <= t').
Proof.
  intros Hpos Hle.
  assert (0 <= (v - Hi) / hi) as H0.
  { apply Qle_shift_div_l; [done|]. lra. }
  split; [lra|]. split; [field; lra|]. split.
  - intros Hlt. assert (0 < (v - Hi) / hi); [|lra].
    apply Qlt_shift_div_l; [done|]. lra.
  - intros t' Ht'. assert ((v - Hi) / hi <= t' - ti); [|lra].
    apply Qle_shift_div_r; [done|]. lra.
Qed.
End RpexpRand.

Section RpexpTheorems.
Import Rpexp.

(** The cumulative hazard from which [rand(from)] starts: zero, or the
    hazard accumulated at [from] when [from] is positive and after the
    first cutpoint. *)
Lemma rand_start (p : Rpexp) (hin tin : list Q) (nin : Z) (from t0 : Q) :
  new_Rpexp hin tin nin = Some p ->
  StronglySorted Qlt (t p) -> Forall (Qlt 0) (h p) ->
  head (t p) = Some t0 -> t0 < from ->
  exists i0 Hi0 ti0 hi0,
    index_of (t p) (n p) from = Some (Z.of_nat i0)
    /\ H p !! i0 = Some Hi0 /\ t p !! i0 = Some ti0 /\ h p !! i0 = Some hi0
    /\ 0 < hi0 /\ ti0 <= from /\ 0 <= Hi0
    /\ hazard_at p (Z.of_nat i0) from = Some (Hi0 + (from - ti0) * hi0).
Proof.
  intros Hnew Hts Hhs Hhead Hlt.
  destruct (new_Rpexp_inv _ _ _ _ Hnew)
    as (h0 & hs & t0' & ts & Eh & Et & EH & Hlen & En & _).
  assert (length (t p) = S (length hs)) as Hlt'.
  { rewrite Et. simpl. lia. }
  destruct (index_of_spec (t p) from t0 Hhead Hlt)
    as (i0 & ti0 & Hidx & Hti0 & Hle & _).
  rewrite Hlt', <- En in Hidx.
  pose proof (lookup_lt_Some _ _ _ Hti0) as Hi_lt. rewrite Hlt' in Hi_lt.
  destruct (lookup_lt_is_Some_2 (H p) i0) as [Hi0 HHi0].
  { rewrite EH. simpl. rewrite fill_length; [lia|done]. }
  destruct (lookup_lt_is_Some_2 (h p) i0) as [hi0 Hhi0].
  { rewrite Eh. simpl. lia. }
  exists i0, Hi0, ti0, hi0. repeat (split; [done|]).
  assert (0 < hi0) as Hpos.
  { rewrite Forall_forall in Hhs. apply Hhs. by eapply list_elem_of_lookup_2. }
  split; [done|]. split; [done|].
  assert (0 <= Hi0) as HH0.
  { assert (StronglySorted Qlt (H p)) as HS.
    { rewrite EH. apply fill_sorted; [done|by rewrite <- Et|by rewrite <- Eh]. }
    destruct i0 as [|i0].
    - rewrite EH in HHi0. injection HHi0 as <-. lra.
    - apply Qlt_le_weak.
      apply (StronglySorted_lookup Qlt (H p) 0 (S i0) 0 Hi0 HS);
        [by rewrite EH|done|lia]. }
  split; [done|].
  unfold hazard_at. by rewrite !deref_nat, HHi0, Hti0, Hhi0.
Qed.

(** An [Rpexp] built by the constructor holds [n] cutpoints, hazards and
    cumulative hazards. *)
Lemma new_Rpexp_lengths (p : Rpexp) (hin tin : list Q) (nin : Z) :
  new_Rpexp hin tin nin = Some p ->
  (0 < nin)%Z /\ length (H p) = Z.to_nat nin /\ length (h p) = Z.to_nat nin
  /\ length (t p) = Z.to_nat nin.
Proof.
  intros Hnew.
  destruct (new_Rpexp_inv _ _ _ _ Hnew)
    as (h0 & hs & t0 & ts & Eh & Et & EH & Hlen & En & _ & _ & En').
  rewrite <- En', En. rewrite EH, Eh, Et. simpl. rewrite fill_length by done.
  repeat split; lia.
Qed.

(** X8.  The constructor [Rpexp(hin, tin, nin)] is defined exactly when [nin] is
    positive and both arrays hold [nin] values.  It copies the first [nin]
    hazards and cutpoints, starts the cumulative hazard at [H[0] = 0], and
    every further entry is [H[i+1] = H[i] + (t[i+1]-t[i])*h[i]]; with
    increasing cutpoints and positive hazards the cumulative hazard is
    strictly increasing. *)
Theorem new_Rpexp_cumulates (hin tin : list Q) (nin : Z) :
  match new_Rpexp hin tin nin with
  | None =>
      (nin <= 0)%Z \/ (Z.of_nat (length hin) < nin)%Z
      \/ (Z.of_nat (length tin) < nin)%Z
  | Some p =>
      (0 < nin)%Z /\ (nin <= Z.of_nat (length hin))%Z
      /\ (nin <= Z.of_nat (length tin))%Z
      /\ n p = nin
      /\ h p = take (Z.to_nat nin) hin /\ t p = take (Z.to_nat nin) tin
      /\ length (H p) = Z.to_nat nin
      /\ H p !! 0%nat = Some 0
      /\ (forall i Hi ti hi ti',
            H p !! i = Some Hi -> t p !! i = Some ti -> h p !! i = Some hi ->
            t p !! S i = Some ti' ->
            H p !! S i = Some (Hi + (ti' - ti) * hi))
      /\ (StronglySorted Qlt (t p) -> Forall (Qlt 0) (h p) ->
          StronglySorted Qlt (H p))
  end.
Proof.
  destruct (new_Rpexp hin tin nin) as [p|] eqn:Hnew.
  - destruct (new_Rpexp_lengths _ _ _ _ Hnew) as (Hpos & HlH & Hlh & Hlt).
    destruct (new_Rpexp_inv _ _ _ _ Hnew)
      as (h0 & hs & t0 & ts & Eh & Et & EH & Hlen & En & Eh' & Et' & En').
    split; [done|].
    split. { rewrite Eh' in Hlh. rewrite length_take in Hlh. lia. }
    split. { rewrite Et' in Hlt. rewrite length_take in Hlt. lia. }
    repeat (split; [done|]).
    split. { by rewrite EH. }
    split.
    + intros i Hi ti hi ti' HHi Hti Hhi Hti'. rewrite EH.
      apply (fill_step 0 t0 h0 hs ts i Hi ti hi ti' Hlen).
      * by rewrite <- EH.
      * by rewrite <- Et.
      * by rewrite <- Eh.
      * by rewrite <- Et.
    + intros Hts Hhs. rewrite EH.
      apply fill_sorted; [done|by rewrite <- Et|by rewrite <- Eh].
  - unfold new_Rpexp in Hnew.
    destruct (nin <=? 0)%Z eqn:E0; [left; by apply Z.leb_le|].
    apply Z.leb_gt in E0. right.
    destruct (_ || _) eqn:E1.
    + apply orb_true_iff in E1 as [E1|E1]; apply Z.ltb_lt in E1; [by left|by right].
    + apply orb_false_iff in E1 as [E1 E2]. apply Z.ltb_ge in E1, E2.
      destruct (take (Z.to_nat nin) hin) as [|h0 hs] eqn:Eh.
      { apply (f_equal length) in Eh. rewrite length_take in Eh. simpl in Eh.
        lia. }
      destruct (take (Z.to_nat nin) tin) as [|t0 ts] eqn:Et; [|done].
      apply (f_equal length) in Et. rewrite length_take in Et. simpl in Et.
      lia.
Qed.

(** X9.  [rand(from)] with a positive variate [e] inverts the cumulative hazard:
    the time [tstar] it returns lies in a piece [i] of the partition, after
    the first cutpoint, and the cumulative hazard at [tstar] is [e] when
    [from] is not positive, and [e] more than the cumulative hazard at
    [from] otherwise, in which case [tstar] is later than [from]. *)
Theorem rand_inverts_hazard (p : Rpexp) (hin tin : list Q) (nin : Z)
    (e from t0 : Q) :
  new_Rpexp hin tin nin = Some p ->
  StronglySorted Qlt (t p) -> Forall (Qlt 0) (h p) -> 0 < e ->
  head (t p) = Some t0 -> (0 < from -> t0 < from) ->
  exists tstar i ti Hstar,
    rand p e from = Some tstar
    /\ t p !! i = Some ti /\ ti <= tstar
    /\ (forall t', t p !! S i = Some t' -> ti < tstar /\ tstar <= t')
    /\ hazard_at p (Z.of_nat i) tstar = Some Hstar
    /\ ((from <= 0 /\ Hstar == e)
        \/ (0 < from /\ from < tstar
            /\ exists i0 H0,
                 index_of (t p) (n p) from = Some i0
                 /\ hazard_at p i0 from = Some H0 /\ Hstar == e + H0)).
Proof.
  intros Hnew Hts Hhs He Hhead Hfrom.
  assert (exists H0 : Q,
    (if Qltb 0 from then
       match index_of (t p) (n p) from with
       | None => None
       | Some i0 => hazard_at p i0 from
       end
     else Some 0) = Some H0 /\ 0 <= H0
    /\ ((from <= 0 /\ H0 == 0)
        \/ (0 < from /\ exists i0 Hi0 ti0 hi0,
              index_of (t p) (n p) from = Some (Z.of_nat i0)
              /\ H p !! i0 = Some Hi0 /\ t p !! i0 = Some ti0
              /\ h p !! i0 = Some hi0 /\ 0 < hi0 /\ ti0 <= from
              /\ hazard_at p (Z.of_nat i0) from = Some H0
              /\ H0 == Hi0 + (from - ti0) * hi0))) as (H0 & Estart & HH0 & Hcase).
  { destruct (Qltb 0 from) eqn:Ef.
    - apply Qltb_lt in Ef.
      destruct (rand_start p hin tin nin from t0 Hnew Hts Hhs Hhead (Hfrom Ef))
        as (i0 & Hi0 & ti0 & hi0 & Hidx & HHi0 & Hti0 & Hhi0 & Hpos & Hle
            & Hnn & Hhaz).
      exists (Hi0 + (from - ti0) * hi0). rewrite Hidx. split; [done|].
      split. { assert (0 <= (from - ti0) * hi0); [|lra]. apply Qmult_le_0_compat; lra. }
      right. split; [done|]. exists i0, Hi0, ti0, hi0.
      repeat (split; [done|]). reflexivity.
    - apply Qltb_ge in Ef. exists 0. split; [done|]. split; [lra|].
      left. split; [done|reflexivity]. }
  assert (0 < e + H0) as Hv by lra.
  destruct (rand_piece p hin tin nin (e + H0) Hnew Hts Hhs Hv)
    as (i & Hi & ti & hi & Hidx & HHi & Hti & Hhi & Hpos & Hle & Hnext).
  destruct (piece_time Hi ti hi (e + H0) Hpos Hle) as (Hge & Hinv & Hstrict & Hup).
  exists (ti + (e + H0 - Hi) / hi), i, ti, (Hi + (ti + (e + H0 - Hi) / hi - ti) * hi).
  split.
  { unfold rand. rewrite Estart. cbv zeta. rewrite Hidx, !deref_nat, HHi, Hti, Hhi.
    destruct (Qeq_bool hi 0) eqn:Ez; [|done].
    apply Qeq_bool_iff in Ez. lra. }
  split; [done|]. split; [done|].
  split.
  { intros t' Ht'. destruct (Hnext t' Ht') as [H1 H2]. split; [by apply Hstrict|by apply Hup]. }
  split.
  { unfold hazard_at. by rewrite !deref_nat, HHi, Hti, Hhi. }
  destruct Hcase as [[Hf HH00]|[Hf (i0 & Hi0 & ti0 & hi0 & Hidx0 & HHi0 & Hti0
                                     & Hhi0 & Hpos0 & Hle0 & Hhaz0 & EH0)]].
  - left. split; [done|]. rewrite Hinv. lra.
  - right. split; [done|]. split.
    2:{ exists (Z.of_nat i0), H0. repeat (split; [done|]). by rewrite Hinv. }
    (* [from < tstar] *)
    destruct (new_Rpexp_inv _ _ _ _ Hnew)
      as (h0 & hs & t0' & ts & Eh & Et & EH & Hlen & En & _).
    assert (StronglySorted Qlt (H p)) as HS.
    { rewrite EH. apply fill_sorted; [done|by rewrite <- Et|by rewrite <- Eh]. }
    destruct (lt_eq_lt_dec i i0) as [[Hlt|Heq]|Hgt].
    + (* the piece found is before the piece of [from]: impossible *)
      exfalso.
      destruct (lookup_lt_is_Some_2 (t p) (S i)) as [t' Ht'].
      { apply lookup_lt_Some in Hti0. lia. }
      destruct (Hnext t' Ht') as [_ Hupper].
      assert (H p !! S i = Some (Hi + (t' - ti) * hi)) as HSi.
      { rewrite EH. apply (fill_step 0 t0' h0 hs ts i Hi ti hi t' Hlen).
        - by rewrite <- EH.
        - by rewrite <- Et.
        - by rewrite <- Eh.
        - by rewrite <- Et. }
      assert (Hi + (t' - ti) * hi <= Hi0) as Hmono.
      { destruct (decide (S i = i0)) as [<-|Hne].
        - rewrite HSi in HHi0. injection HHi0 as <-. lra.
        - apply Qlt_le_weak.
          apply (StronglySorted_lookup Qlt (H p) (S i) i0 _ _ HS); [done|done|lia]. }
      assert (0 <= (from - ti0) * hi0) by (apply Qmult_le_0_compat; lra).
      lra.
    + subst i0. rewrite HHi in HHi0. injection HHi0 as <-.
      rewrite Hti in Hti0. injection Hti0 as <-.
      rewrite Hhi in Hhi0. injection Hhi0 as <-.
      assert ((e + H0 - Hi) / hi == e / hi + (from - ti)) as ->.
      { rewrite EH0. field. lra. }
      assert (0 < e / hi); [|lra].
      apply Qlt_shift_div_l; [done|]. lra.
    + (* a later piece: its cutpoint is not before [from] *)
      destruct (lookup_lt_is_Some_2 (t p) (S i0)) as [t' Ht'].
      { apply lookup_lt_Some in Hti. lia. }
      assert (from <= t') as Hft.
      { destruct (index_of_spec (t p) from t0 Hhead (Hfrom Hf))
          as (j & tj & Hidxj & Htj & Hlej & Hnextj).
        assert (length (t p) = S (length hs)) as Hlt'.
        { rewrite Et. simpl. lia. }
        rewrite Hlt', <- En, Hidx0 in Hidxj.
        assert (j = i0) as -> by (injection Hidxj; lia).
        by destruct (Hnextj t' Ht'). }
      destruct (decide (S i0 = i)) as [<-|Hne].
      * rewrite Hti in Ht'. injection Ht' as <-.
        assert (H p !! S i0 = Some (Hi0 + (ti - ti0) * hi0)) as HSi.
        { rewrite EH. apply (fill_step 0 t0' h0 hs ts i0 Hi0 ti0 hi0 ti Hlen).
          - by rewrite <- EH.
          - by rewrite <- Et.
          - by rewrite <- Eh.
          - by rewrite <- Et. }
        rewrite HSi in HHi. injection HHi as <-.
        destruct (Qlt_le_dec from ti) as [Hlt'|Hge']; [lra|].
        assert (H0 - (Hi0 + (ti - ti0) * hi0) == (from - ti) * hi0) as Hd.
        { rewrite EH0. ring. }
        assert ((from - ti) * hi0 == 0) as Hz.
        { assert (from - ti == 0) as -> by lra. ring. }
        assert (Hi0 + (ti - ti0) * hi0 < e + H0) as Hstrict' by lra.
        specialize (Hstrict Hstrict'). lra.
      * assert (t' < ti) as Htt.
        { apply (StronglySorted_lookup Qlt (t p) (S i0) i _ _ Hts);
            [done|done|lia]. }
        lra.
Qed.
End RpexpTheorems.

Section RpexpEdge.
Import Rpexp.

(** X10.  [rand(from)] for a positive [from] that is not after the first cutpoint
    (and before the last one) has no defined result: the piece of [from] is
    computed as [0 - 1], and [H[-1]] is read. *)
Theorem rand_before_first_cutpoint (p : Rpexp) (hin tin : list Q) (nin : Z)
    (e from t0 top : Q) :
  new_Rpexp hin tin nin = Some p ->
  head (t p) = Some t0 -> last (t p) = Some top ->
  0 < from -> from <= t0 -> from < top ->
  index_of (t p) (n p) from = Some (-1)%Z /\ rand p e from = None.
Proof.
  intros Hnew Hhead Hlast Hpos Hle Hlt.
  destruct (new_Rpexp_inv _ _ _ _ Hnew)
    as (h0 & hs & t0' & ts & Eh & Et & EH & Hlen & En & _).
  assert (index_of (t p) (n p) from = Some (-1)%Z) as Hidx.
  { unfold index_of, deref. rewrite En.
    assert ((Z.of_nat (S (length hs)) - 1 <? 0)%Z = false) as ->
      by (apply Z.ltb_ge; lia).
    replace (Z.to_nat (Z.of_nat (S (length hs)) - 1)) with (length hs) by lia.
    assert (t p !! length hs = Some top) as ->.
    { rewrite last_lookup in Hlast. rewrite Et in *. simpl in Hlast.
      by rewrite <- Hlen in Hlast. }
    assert (Qleb top from = false) as -> by (by apply Qleb_gt).
    rewrite Et in *. injection Hhead as ->. simpl.
    by assert (Qltb t0 from = false) as -> by (by apply Qltb_ge). }
  split; [done|].
  unfold rand. assert (Qltb 0 from = true) as -> by (by apply Qltb_lt).
  by rewrite Hidx.
Qed.
End RpexpEdge.

(** Witness: hazards 1, 2, 3 on the pieces that start at 0, 1 and 3. *)
Lemma new_Rpexp_cumulates_witness :
  exists p,
    Rpexp.new_Rpexp [1; 2; 3] [0; 1; 3] 3 = Some p
    /\ Rpexp.H p !! 2%nat = Some (0 + (1 - 0) * 1 + (3 - 1) * 2)
    /\ StronglySorted Qlt (Rpexp.H p).
Proof.
  pose proof (new_Rpexp_cumulates [1; 2; 3] [0; 1; 3] 3) as W.
  destruct (Rpexp.new_Rpexp [1; 2; 3] [0; 1; 3] 3) as [p|]; [|simpl in W; lia].
  destruct W as (_ & _ & _ & _ & Eh & Et & _ & H0 & Hstep & Hsorted).
  exists p. split; [reflexivity|]. split.
  - apply (Hstep 1%nat (0 + (1 - 0) * 1) 1 2 3).
    + apply (Hstep 0%nat 0 0 1 1); [exact H0|by rewrite Et|by rewrite Eh|by rewrite Et].
    + by rewrite Et.
    + by rewrite Eh.
    + by rewrite Et.
  - apply Hsorted.
    + rewrite Et. simpl. repeat constructor.
    + rewrite Eh. simpl. repeat constructor.
Defined.

(** Witness: the same hazards, the variate 1 and the starting time 2; the
    result is 5/2. *)
Lemma rand_inverts_hazard_witness :
  exists p tstar,
    Rpexp.new_Rpexp [1; 2; 3] [0; 1; 3] 3 = Some p
    /\ Rpexp.rand p 1 2 = Some tstar /\ 2 < tstar.
Proof.
  destruct (Rpexp.new_Rpexp [1; 2; 3] [0; 1; 3] 3) as [p|] eqn:E; [|discriminate E].
  exists p.
  destruct (rand_inverts_hazard p [1; 2; 3] [0; 1; 3] 3 1 2 0 E)
    as (tstar & i & ti & Hstar & Hrand & _ & _ & _ & _ & Hcase).
  - injection E as <-. simpl. repeat constructor.
  - injection E as <-. simpl. repeat constructor.
  - reflexivity.
  - by injection E as <-.
  - reflexivity.
  - exists tstar. split; [reflexivity|]. split; [exact Hrand|].
    destruct Hcase as [[Hneg _]|[_ [Hlt _]]]; [|exact Hlt].
    exfalso. revert Hneg. unfold Qle. simpl. lia.
Defined.

(** Witness: cutpoints 1 and 3, and the starting time 1/2. *)
Lemma rand_before_first_cutpoint_witness :
  exists p,
    Rpexp.new_Rpexp [1; 2] [1; 3] 2 = Some p
    /\ Rpexp.rand p 1 (1 # 2) = None.
Proof.
  destruct (Rpexp.new_Rpexp [1; 2] [1; 3] 2) as [p|] eqn:E; [|discriminate E].
  exists p. split; [reflexivity|].
  apply (rand_before_first_cutpoint p [1; 2] [1; 3] 2 1 (1 # 2) 1 3 E).
  - by injection E as <-.
  - by injection E as <-.
  - reflexivity.
  - unfold Qle. simpl. lia.
  - reflexivity.
Defined.

(** * [SimpleReport] *)
Section SimpleReportFacts.
Import SimpleReport.

Lemma column_record_eq field value d :
  column field (record field value d) = column field d ++ [value].
Proof. unfold column at 1, record. by rewrite lookup_insert_eq. Qed.

Lemma column_record_ne f field value d :
  f <> field -> column f (record field value d) = column f d.
Proof. intros Hne. unfold column, record. by rewrite lookup_insert_ne. Qed.

Lemma removelast_snoc {A : Type} (l : list A) (x : A) :
  removelast (l ++ [x]) = l.
Proof. rewrite removelast_app by done. simpl. apply app_nil_r. Qed.

(** X6.  [record] appends a value to its field and leaves the other fields
    alone; [revise] after it replaces that value, so that the two calls
    amount to recording the revised value; and [revise] is undefined
    exactly on a field that holds no value, absent or empty. *)
Theorem revise_replaces_last (field : string) (value x : Q) (d : gmap string (list Q)) :
  column field (record field x d) = column field d ++ [x]
  /\ (forall f, f <> field -> column f (record field x d) = column f d)
  /\ revise field value (record field x d) = Some (record field value d)
  /\ (revise field value d = None <-> column field d = []).
Proof.
  split; [apply column_record_eq|]. split; [intros f; apply column_record_ne|].
  split.
  - unfold revise. rewrite column_record_eq.
    destruct (column field d ++ [x]) as [|y l] eqn:E.
    { by destruct (column field d). }
    rewrite <- E, removelast_snoc. unfold record. by rewrite insert_insert_eq.
  - unfold revise. by destruct (column field d).
Qed.

Lemma append_lookup (obj d : gmap string (list Q)) (k : string) :
  append obj d !! k
  = match obj !! k with
    | Some values => Some (column k d ++ values)
    | None => d !! k
    end.
Proof.
  unfold append. revert k.
  apply (map_fold_weak_ind
           (fun acc (m : gmap string (list Q)) =>
              forall k, acc !! k = match m !! k with
                                   | Some values => Some (column k d ++ values)
                                   | None => d !! k
                                   end)).
  - intros k. by rewrite lookup_empty.
  - intros i x m acc Hi IH k. destruct (decide (i = k)) as [->|Hne].
    + rewrite !lookup_insert_eq. unfold column. by rewrite IH, Hi.
    + rewrite !lookup_insert_ne by done. apply IH.
Qed.

(** X7.  [append] concatenates field by field: a field of [obj] gets the
    values of [obj] after its own, created if it was absent, and the other
    fields stay as they are.  Appending a report without fields changes
    nothing, and appending two reports one after the other is appending
    the second appended to the first. *)
Theorem append_concatenates (a b c : gmap string (list Q)) (k : string) :
  append b a !! k
  = match b !! k with
    | Some values => Some (column k a ++ values)
    | None => a !! k
    end
  /\ column k (append b a) = column k a ++ column k b
  /\ append (clear b) a = a
  /\ append c (append b a) = append (append c b) a.
Proof.
  split; [apply append_lookup|]. split; [|split].
  - unfold column at 1. rewrite append_lookup. unfold column.
    destruct (b !! k); simpl; [done|]. by rewrite app_nil_r.
  - apply map_eq. intros i. rewrite append_lookup. unfold clear.
    by rewrite lookup_empty.
  - apply map_eq. intros i.
    rewrite (append_lookup c (append b a)), (append_lookup (append c b) a).
    rewrite (append_lookup c b). unfold column. rewrite (append_lookup b a).
    destruct (c !! i), (b !! i); simpl; by rewrite ?app_assoc.
Qed.
End SimpleReportFacts.

(** Witness: the field ["pca_death"], recorded as 0 at [init()] and
    revised to 1 at the death from cancer. *)
Lemma revise_replaces_last_witness :
  SimpleReport.column "pca_death" (SimpleReport.record "pca_death" 0 ∅) = [0]
  /\ SimpleReport.column "id" (SimpleReport.record "pca_death" 0 ∅) = []
  /\ SimpleReport.revise "pca_death" 1 (SimpleReport.record "pca_death" 0 ∅)
     = Some (SimpleReport.record "pca_death" 1 ∅)
  /\ SimpleReport.revise "age_psa" 1 (SimpleReport.record "pca_death" 0 ∅)
     = None.
Proof.
  destruct (revise_replaces_last "pca_death" 1 0 ∅) as (H1 & H2 & H3 & _).
  split; [exact H1|]. split; [apply H2; discriminate|]. split; [exact H3|].
  apply (proj2 (proj2 (proj2 (revise_replaces_last "age_psa" 1 0
                                (SimpleReport.record "pca_death" 0 ∅))))).
  reflexivity.
Defined.

(** * Runs with a bounded number of dispatches *)
Section BoundedRuns.
Import Kernel Run.
Context {P : Type} `{Process P}.

(** A dispatch keeps the invariant of the kernel and of the log. *)
Lemma dispatch_world_ok (w : World P) e rest w2 :
  world_ok w -> running (sim w) = true ->
  pop_min (queue (sim w)) = Some (e, rest) ->
  process_event (e_msg e) (popped e rest w) = Ok w2 ->
  world_ok w2.
Proof.
  intros Hok Hr Hpop Hev.
  assert (run_loop 1 w = run_loop 0 w2) as Hone.
  { simpl. by rewrite Hr, Hpop, Hev. }
  destruct (running (sim w2)) eqn:Hr2.
  - destruct (pop_min (queue (sim w2))) as [[e2 rest2]|] eqn:Hpop2.
    + apply (run_loop_ok 1 w OutOfFuel w2 Hok). rewrite Hone. simpl.
      by rewrite Hr2, Hpop2.
    + apply (run_loop_ok 1 w Finished w2 Hok). rewrite Hone. simpl.
      by rewrite Hr2, Hpop2.
  - apply (run_loop_ok 1 w Finished w2 Hok). rewrite Hone. simpl.
    by rewrite Hr2.
Qed.

(** Induction over the dispatches of a run whose worlds carry a bound [k]
    on the dispatches to come that every dispatch lowers: [k] units of fuel
    are enough. *)
Lemma run_loop_bounded (I : World P -> nat -> Prop) :
  (forall w, I w 0%nat -> running (sim w) = false) ->
  (forall w k e rest w2,
      world_ok w -> I w k -> running (sim w) = true ->
      pop_min (queue (sim w)) = Some (e, rest) ->
      process_event (e_msg e) (popped e rest w) = Ok w2 ->
      exists k', (k' < k)%nat /\ I w2 k') ->
  forall fuel w k o w',
    world_ok w -> I w k -> (k <= fuel)%nat ->
    run_loop fuel w = Ok (o, w') -> o = Finished /\ exists k', I w' k'.
Proof.
  intros Hzero Hstep fuel.
  induction fuel as [|fuel IH]; intros w k o w' Hok HI Hk; simpl.
  - assert (k = 0%nat) as -> by lia. rewrite (Hzero w HI). simpl.
    intros [= <- <-]. split; [done|by exists 0%nat].
  - destruct (running (sim w)) eqn:Hr; simpl;
      [|intros [= <- <-]; split; [done|by exists k]].
    destruct (pop_min _) as [[e rest]|] eqn:Hpop;
      [|intros [= <- <-]; split; [done|by exists k]].
    destruct (process_event _ _) as [w2|] eqn:Hev; [|done].
    destruct (Hstep w k e rest w2 Hok HI Hr Hpop Hev) as (k' & Hlt & HI2).
    apply (IH w2 k'); [|done|lia].
    by eapply dispatch_world_ok.
Qed.
End BoundedRuns.

Section SimpleHistories.
Import Kernel Run Stamps Quiet Deaths IllnessDeath IllnessDeathDriver.

(** [init()] leaves the individual healthy. *)
Lemma SimplePerson_init_state h h' :
  SimplePerson_init h = Ok (tt, h') ->
  state (h_self h') = Healthy /\ id (h_self h') = id (h_self h).
Proof.
  destruct h as [p prev t calls].
  unfold SimplePerson_init, set_state, set_z, R_draw. hrun.
  destruct (Qltb _ _); hrun; by intros [= <-].
Qed.

(** The handler moves the individual to [Cancer] on [toCancer] and keeps
    the state otherwise. *)
Lemma SimplePerson_handleMessage_state msg h h' :
  SimplePerson_handleMessage msg h = Ok (tt, h') ->
  state (h_self h')
  = (if bool_decide (kind msg = event_code toCancer) then Cancer
     else state (h_self h))
  /\ id (h_self h') = id (h_self h).
Proof.
  destruct h as [p prev t calls].
  unfold SimplePerson_handleMessage, report_add, set_state, R_draw. hrun.
  destruct (Report.add _ _ _ _ _) as [r|]; [|done]. hrun.
  destruct (bool_decide _ || bool_decide _) eqn:Hd; hrun.
  { intros [= <-]. simpl. split; [|done].
    destruct (bool_decide (kind msg = 1%Z)) eqn:Hc; [|done].
    apply bool_decide_eq_true in Hc. rewrite Hc in Hd. discriminate. }
  destruct (bool_decide (kind msg = event_code toCancer)) eqn:Hc; hrun.
  2:{ by intros [= <-]. }
  destruct (Qltb _ _); hrun; by intros [= <-].
Qed.

Lemma kinds_dispatch (w w2 : World SimplePerson) d :
  dispatched w2 = d :: dispatched w ->
  kinds w2 = kinds w ++ [kind (e_msg (d_entry d))].
Proof.
  intros Hd. unfold kinds, log. rewrite Hd. simpl. by rewrite map_app.
Qed.

Lemma kinds_nil (w : World SimplePerson) : dispatched w = [] -> kinds w = [].
Proof. intros Hd. unfold kinds, log. by rewrite Hd. Qed.

Lemma kinds_length (w : World SimplePerson) :
  length (kinds w) = length (dispatched w).
Proof. unfold kinds, log. by rewrite length_map, length_rev. Qed.

(** A dispatch moves the individual to a later stage. *)
Lemma life_stage_step (w : World SimplePerson) k e rest w2 :
  world_ok w -> life_stage w k -> running (sim w) = true ->
  pop_min (queue (sim w)) = Some (e, rest) ->
  process_event (e_msg e) (popped e rest w) = Ok w2 ->
  exists k', (k' < k)%nat /\ life_stage w2 k'.
Proof.
  intros Hok [HI Hstage] Hr Hpop Hev.
  pose proof (simple_alive_or_dead_step w e rest w2 Hok HI Hr Hpop Hev) as HI2.
  apply process_event_inv in Hev as (h & Hm & Hx & Hself & _ & Hd).
  rewrite SimplePerson_process_handleMessage in Hm.
  destruct (SimplePerson_handleMessage_state _ _ _ Hm) as [Hst _].
  apply SimplePerson_handleMessage_calls in Hm. simpl in Hm, Hx, Hd, Hst.
  destruct (pop_min_spec _ _ _ Hpop) as [Hperm _].
  assert (e ∈ queue (sim w)) as Hein by (rewrite Hperm; left).
  pose proof (kinds_dispatch w w2 _ Hd) as Hkinds. simpl in Hkinds.
  destruct k as [|[|[|k]]]; [| | |done].
  - destruct Hstage as [Hstop _]. congruence.
  - (* with cancer *)
    destruct Hstage as (_ & Hk & Hs).
    destruct HI as [(_ & Hd0 & _)|[(_ & _ & Hq)|(Hstop & _)]]; [| |congruence].
    { pose proof (kinds_length w) as Hl. rewrite Hk, Hd0 in Hl. discriminate. }
    pose proof (Hq e Hein) as Hke.
    destruct Hm as [(Hdeath & Hc)|[(Hnd & _)|(Hnd & _)]];
      [|rewrite Hke in Hnd; discriminate|rewrite Hke in Hnd; discriminate].
    exists 0%nat. split; [lia|]. split; [done|].
    rewrite Hc in Hx. injection Hx as Hx. split; [by rewrite <- Hx|].
    right. split.
    + by rewrite Hkinds, Hk, Hke.
    + rewrite Hself, Hst, Hke. simpl. done.
  - (* healthy *)
    destruct Hstage as (_ & Hd0 & Hs).
    destruct HI as [(_ & _ & _ & Hq & _)|[(_ & (d & Hdd & _) & _)|(Hstop & _)]];
      [|congruence|congruence].
    destruct (Hq e Hein) as [Hke|Hke].
    + destruct Hm as [(Hdeath & Hc)|[(Hnd & _)|(Hnd & _)]];
        [|rewrite Hke in Hnd; discriminate|rewrite Hke in Hnd; discriminate].
      exists 0%nat. split; [lia|]. split; [done|].
      rewrite Hc in Hx. injection Hx as Hx. split; [by rewrite <- Hx|].
      left. split.
      * by rewrite Hkinds, (kinds_nil w Hd0), Hke.
      * rewrite Hself, Hst, Hke. simpl. done.
    + destruct Hm as [(Hdeath & _)|[(_ & _ & Hc)|(_ & Hnc & _)]];
        [rewrite Hke in Hdeath; discriminate| |done].
      exists 1%nat. split; [lia|]. split; [done|].
      assert (running (sim w2) = true) as Hr2.
      { destruct Hc as [Hc|(m & dl & _ & Hc)]; rewrite Hc in Hx; simpl in Hx.
        - injection Hx as Hx. by rewrite <- Hx.
        - unfold self_signal_event in Hx. destruct (Qltb dl 0); [done|].
          injection Hx as Hx. by rewrite <- Hx. }
      split; [done|]. split.
      * by rewrite Hkinds, (kinds_nil w Hd0), Hke.
      * rewrite Hself, Hst, Hke. simpl. done.
Qed.

(** Every individual of the illness-death model lives one of the three
    lives, and receives at most two messages. *)
Lemma simulate_life_history (fuel : nat) (p : SimplePerson) (s : Sim) o
    (w : World SimplePerson) :
  cleared s -> (2 <= fuel)%nat -> simulate fuel p s = Ok (o, w) ->
  o = Finished /\ life_history w /\ id (self (process w)) = id p
  /\ (length (dispatched w) <= 2)%nat /\ dispatched w <> [].
Proof.
  intros Hs Hfuel. unfold simulate.
  destruct (create_process _ _) as [w0|] eqn:Hc; [|done].
  pose proof (create_process_ok _ _ _ Hs Hc) as [Hk Hp Hch].
  assert (simple_alive_or_dead
            {| sim := {| clock := clock (sim w0); queue := queue (sim w0);
                         next_seq := next_seq (sim w0); running := true;
                         attached := attached (sim w0) |};
               process := process w0; dispatched := dispatched w0 |}) as HI0.
  { destruct (pop_min (queue (sim w0))) as [[e0 rest0]|] eqn:Hpop.
    - apply (simulate_simple_alive_or_dead 0 p s OutOfFuel _ Hs).
      unfold simulate. rewrite Hc. unfold run_simulation. simpl.
      by rewrite Hpop.
    - apply (simulate_simple_alive_or_dead 0 p s Finished _ Hs).
      unfold simulate. rewrite Hc. unfold run_simulation. simpl.
      by rewrite Hpop. }
  revert Hc. unfold create_process. destruct Hs as (Hq & _ & ->).
  intros Hrun. apply run_handler_inv in Hrun as (h & Hm & _ & Hself & _ & Hd0).
  rewrite SimplePerson_process_init in Hm.
  apply SimplePerson_init_state in Hm as [Hst0 Hid0]. simpl in Hst0, Hid0, Hd0.
  unfold run_simulation. intros Hloop.
  destruct (run_loop_bounded
              (fun w k => life_stage w k /\ id (self (process w)) = id p)
              (fun w HI => proj1 (proj2 (proj1 HI)))) with (5 := Hloop) (k := 2%nat)
    as (-> & k' & Hstage & Hid).
  - intros w1 k e rest w2 Hok [HI Hid] Hr Hpop Hev.
    destruct (life_stage_step w1 k e rest w2 Hok HI Hr Hpop Hev) as (k' & Hlt & HI2).
    exists k'. split; [done|]. split; [done|].
    apply process_event_inv in Hev as (h' & Hm' & _ & Hself' & _).
    rewrite SimplePerson_process_handleMessage in Hm'.
    apply SimplePerson_handleMessage_state in Hm' as [_ Hid']. simpl in Hid'.
    by rewrite Hself', Hid'.
  - split; simpl; [|done|done]. destruct Hk. by split.
  - split; [|simpl; by rewrite Hself, Hid0].
    split; [done|]. simpl. split; [done|]. split; [done|].
    by rewrite Hself.
  - done.
  - split; [done|].
    assert (life_history w) as Hlife.
    { apply run_loop_finished in Hloop.
      destruct Hstage as [HI Hstage].
      destruct k' as [|[|[|k']]]; [| | |done].
      - destruct Hstage as (_ & [Hh|Hh]); [by left|by right; right].
      - destruct Hstage as (_ & Hk1 & Hs1). right. by left.
      - destruct Hstage as (Hr & Hd & _).
        destruct Hloop as [Hstop|Hempty]; [congruence|].
        destruct HI as [(_ & _ & (e & Hein & _) & _)
                       |[(_ & (d & Hdd & _) & _)|(Hstop & _)]];
          [|congruence|congruence].
        rewrite Hempty in Hein. by apply elem_of_nil in Hein. }
    split; [done|]. split; [done|].
    assert (length (dispatched w) = 1 \/ length (dispatched w) = 2)%nat as Hl.
    { rewrite <- kinds_length.
      destruct Hlife as [[-> _]|[[-> _]|[-> _]]]; simpl; lia. }
    split; [lia|]. intros Hnil. rewrite Hnil in Hl. simpl in Hl. lia.
Qed.
End SimpleHistories.

Section Populations.
Import Kernel Run Recording Deaths IllnessDeath IllnessDeathDriver.

Lemma callIllnessDeath_report (rep : Report.EventReport Z Z) :
  Report.setPartition ages (Report.clear rep) = Some initial_report.
Proof. vm_compute. reflexivity. Qed.

Lemma initial_report_empty : Report.total_pt initial_report == 0.
Proof. reflexivity. Qed.

(** One iteration of the loop of the driver. *)
Lemma simulate_person_spec (fuel : nat) (i : Z) (rep : Report.EventReport Z Z)
    (g : Random.state) (s : Sim) o (w : World SimplePerson) :
  cleared s -> Report.well_formed rep -> (2 <= fuel)%nat ->
  simulate_person fuel i rep g s = Ok (o, w) ->
  o = Finished /\ cleared (sim w) /\ life_history w
  /\ id (self (process w)) = i
  /\ Report.well_formed (report (self (process w)))
  /\ Report._partition (report (self (process w))) = Report._partition rep
  /\ Report._max (report (self (process w))) = Report._max rep
  /\ Report.total_pt (report (self (process w)))
     == Report.total_pt rep + Qmin (last_time (dispatched w)) (Report._max rep).
Proof.
  intros Hs Hwf Hfuel. unfold simulate_person.
  destruct (simulate fuel _ s) as [[o1 w1]|] eqn:Hrun; [|done].
  intros [= <- <-].
  destruct (simulate_life_history _ _ _ _ _ Hs Hfuel Hrun)
    as (Ho & Hlife & Hid & _ & Hne).
  destruct (simulate_recorded report SimplePerson_records fuel
              (new_SimplePerson i rep g) s o1 w1 Hwf Hs Hrun)
    as (Hwf' & Hpart & Hmax & Htot).
  simpl in *.
  split; [done|]. split; [done|]. split; [done|]. split; [done|].
  split; [done|]. split; [done|]. split; [done|].
  by destruct (dispatched w1) as [|d ds].
Qed.

(** The loop of the driver: every individual lives one of the three lives,
    and the report gains the person-time of each. *)
Lemma individuals_spec (fuel : nat) (count : nat) :
  (2 <= fuel)%nat ->
  forall (i : Z) (pop : Population) o (pop' : Population),
    cleared (pop_sim pop) -> Report.well_formed (pop_report pop) ->
    individuals fuel count i pop = Ok (o, pop') ->
    o = Finished
    /\ (count = 0%nat \/ cleared (pop_sim pop'))
    /\ Report.well_formed (pop_report pop')
    /\ Report._partition (pop_report pop') = Report._partition (pop_report pop)
    /\ Report._max (pop_report pop') = Report._max (pop_report pop)
    /\ exists new,
         pop_runs pop' = new ++ pop_runs pop
         /\ length new = count
         /\ Forall life_history new
         /\ (forall j w, rev new !! j = Some w ->
               id (self (process w)) = (i + Z.of_nat j)%Z)
         /\ Report.total_pt (pop_report pop')
            == Report.total_pt (pop_report pop)
               + person_years (Report._max (pop_report pop)) new.
Proof.
  intros Hfuel. induction count as [|count IH]; intros i pop o pop' Hs Hwf; simpl.
  - intros [= <- <-]. split; [done|]. split; [by left|].
    split; [done|]. split; [done|]. split; [done|].
    exists []. split; [done|]. split; [done|]. split; [constructor|].
    split; [done|]. simpl. ring.
  - destruct (simulate_person _ _ _ _ _) as [[o1 w1]|] eqn:Hone; [|done].
    destruct (simulate_person_spec _ _ _ _ _ _ _ Hs Hwf Hfuel Hone)
      as (-> & Hs1 & Hlife & Hid & Hwf1 & Hpart1 & Hmax1 & Htot1).
    intros Hrest.
    pose proof Hrest as Hrest'.
    apply IH in Hrest
      as (-> & Hs' & Hwf' & Hpart' & Hmax' & new & Hruns & Hlen & Hall & Hids
          & Htot'); [|exact Hs1|exact Hwf1].
    simpl in *.
    split; [done|]. split.
    { right. destruct Hs' as [->|Hs']; [|done].
      simpl in Hrest'. by injection Hrest' as <-. }
    split; [done|]. split; [congruence|]. split; [congruence|].
    exists (new ++ [w1]). split; [by rewrite <- app_assoc|].
    split; [rewrite length_app; simpl; lia|].
    split; [apply Forall_app; split; [done|by constructor]|].
    split.
    + intros j w. rewrite rev_app_distr. simpl. destruct j as [|j]; simpl.
      * intros [= <-]. rewrite Hid. lia.
      * intros Hj. rewrite (Hids j w Hj). lia.
    + rewrite Htot', Htot1, Hmax1.
      assert (forall cut (l1 l2 : list (World SimplePerson)),
                 person_years cut (l1 ++ l2)
                 == person_years cut l2 + person_years cut l1) as Happ.
      { intros cut l1 l2. induction l1 as [|x l1 IHl]; simpl; [ring|].
        rewrite IHl. ring. }
      rewrite Happ. simpl. ring.
Qed.
End Populations.

(** ** The lives and the report of the illness-death model *)
Section DriverTheorems.
Import Kernel Run Recording Deaths IllnessDeath IllnessDeathDriver.

(** X11.  Every individual of the illness-death model receives one or two
    messages and lives one of three lives: [toOtherDeath] while healthy;
    [toCancer] alone (cured; the pending death from other causes was
    removed); or [toCancer] followed by [toCancerDeath].  Two dispatches
    are always enough for the run to finish, and it never ends on a death
    from other causes after cancer. *)
Theorem SimplePerson_lives (fuel : nat) (p : SimplePerson) (s : Sim) o
    (w : World SimplePerson) :
  cleared s -> (2 <= fuel)%nat -> simulate fuel p s = Ok (o, w) ->
  o = Finished
  /\ (kinds w = [event_code toOtherDeath]
        /\ state (self (process w)) = Healthy
      \/ kinds w = [event_code toCancer]
        /\ state (self (process w)) = Cancer
      \/ kinds w = [event_code toCancer; event_code toCancerDeath]
        /\ state (self (process w)) = Cancer)
  /\ id (self (process w)) = id p.
Proof.
  intros Hs Hfuel Hrun.
  destruct (simulate_life_history _ _ _ _ _ Hs Hfuel Hrun)
    as (Ho & Hlife & Hid & _).
  done.
Qed.

(** X12.  [callIllnessDeath] with [n] individuals, whatever the report held
    before: every individual finishes and lives one of the three lives, the
    individuals carry the ids [0 .. n-1], the kernel is left cleared, and
    the report, on the partition 0, 1, .., 100, 1.0e+6, holds as
    person-time the sum over the individuals of the time of their last
    message (cut at 1.0e+6). *)
Theorem callIllnessDeath_person_time (fuel : nat) (n : Z)
    (rep : Report.EventReport Z Z) (g : Random.state) (s : Sim) o
    (pop : Population) :
  cleared s -> (2 <= fuel)%nat ->
  callIllnessDeath fuel n rep g s = Ok (o, pop) ->
  o = Finished
  /\ length (pop_runs pop) = Z.to_nat n
  /\ Forall life_history (pop_runs pop)
  /\ (forall j w, rev (pop_runs pop) !! j = Some w ->
        id (self (process w)) = Z.of_nat j)
  /\ cleared (pop_sim pop)
  /\ Report.well_formed (pop_report pop)
  /\ Report._partition (pop_report pop) = ages
  /\ Report.total_pt (pop_report pop)
     == person_years 1000000 (pop_runs pop).
Proof.
  intros Hs Hfuel. unfold callIllnessDeath.
  rewrite callIllnessDeath_report. intros Hrun.
  pose proof Hrun as Hrun'.
  apply (individuals_spec fuel (Z.to_nat n) Hfuel) in Hrun
    as (-> & Hs' & Hwf' & Hpart' & Hmax' & new & Hruns & Hlen & Hall & Hids
        & Htot');
    [|exact Hs|exact IllnessDeath_initial_report_well_formed].
  simpl in *. rewrite app_nil_r in Hruns. subst new.
  split; [done|]. split; [done|]. split; [done|]. split.
  { intros j w Hj. rewrite (Hids j w Hj). lia. }
  split.
  { destruct Hs' as [Hz|Hs']; [|done]. rewrite Hz in Hrun'. simpl in Hrun'.
    by injection Hrun' as <-. }
  split; [done|]. split; [done|].
  rewrite Htot'. rewrite initial_report_empty. ring.
Qed.
End DriverTheorems.

(** A population of two on the variates of [Examples.not_cured]: the run
    returns. *)
Lemma example_population_returns :
  match
    IllnessDeathDriver.callIllnessDeath 10 2 IllnessDeath.initial_report
      (Random.start Examples.not_cured_variates) Kernel.initial_sim
  with
  | Kernel.Ok (o, _) => Some o
  | Kernel.Err _ => None
  end = Some Kernel.Finished.
Proof. vm_compute. reflexivity. Qed.

(** Witness: the individual who gets cancer at 50 and dies of it at 53. *)
Lemma SimplePerson_lives_witness :
  exists o w,
    Kernel.simulate 10 Examples.not_cured Kernel.initial_sim = Kernel.Ok (o, w)
    /\ o = Kernel.Finished
    /\ IllnessDeath.id (Kernel.self (Kernel.process w)) = 0%Z.
Proof.
  pose proof (proj2 example_runs_finish) as Hfin.
  destruct (Kernel.simulate 10%nat Examples.not_cured Kernel.initial_sim)
    as [[o w]|e] eqn:E; [|discriminate Hfin].
  exists o, w. split; [reflexivity|].
  destruct (SimplePerson_lives 10 Examples.not_cured Kernel.initial_sim o w
              initial_sim_cleared) as (Ho & _ & Hid).
  - lia.
  - exact E.
  - split; [exact Ho|exact Hid].
Defined.

(** Witness: a population of two. *)
Lemma callIllnessDeath_person_time_witness :
  exists o pop,
    IllnessDeathDriver.callIllnessDeath 10 2 IllnessDeath.initial_report
      (Random.start Examples.not_cured_variates) Kernel.initial_sim
    = Kernel.Ok (o, pop)
    /\ o = Kernel.Finished
    /\ length (IllnessDeathDriver.pop_runs pop) = 2%nat
    /\ Report.total_pt (IllnessDeathDriver.pop_report pop)
       == IllnessDeathDriver.person_years 1000000
            (IllnessDeathDriver.pop_runs pop).
Proof.
  pose proof example_population_returns as Hfin.
  destruct (IllnessDeathDriver.callIllnessDeath 10 2 IllnessDeath.initial_report
              (Random.start Examples.not_cured_variates) Kernel.initial_sim)
    as [[o pop]|e] eqn:E; [|discriminate Hfin].
  exists o, pop. split; [reflexivity|].
  destruct (callIllnessDeath_person_time 10 2 IllnessDeath.initial_report
              (Random.start Examples.not_cured_variates) Kernel.initial_sim
              o pop initial_sim_cleared)
    as (Ho & Hlen & _ & _ & _ & _ & _ & Htot).
  - lia.
  - exact E.
  - split; [exact Ho|]. split; [exact Hlen|exact Htot].
Defined.

(** * The person of the cancer model *)
Section FhcrcBounds.
Import Fhcrc.

Lemma bounds_cases (x a b : Q) :
  a <= b ->
  (x < a /\ bounds x a b = a) \/ (b < x /\ bounds x a b = b)
  \/ (a <= x /\ x <= b /\ bounds x a b = x).
Proof.
  intros Hab. unfold bounds.
  destruct (Qltb x a) eqn:E1; [left; split; [by apply Qltb_lt|done]|].
  apply Qltb_ge in E1. right.
  destruct (Qltb b x) eqn:E2; [left; split; [by apply Qltb_lt|done]|].
  apply Qltb_ge in E2. by right.
Qed.

Lemma bounds_idempotent (x a b : Q) :
  a <= b -> bounds (bounds x a b) a b = bounds x a b.
Proof.
  intros Hab.
  destruct (bounds_cases x a b Hab) as [[_ ->]|[[_ ->]|(H1 & H2 & ->)]];
    unfold bounds.
  - assert (Qltb a a = false) as -> by (apply Qltb_ge; lra).
    by assert (Qltb b a = false) as -> by (by apply Qltb_ge).
  - assert (Qltb b a = false) as -> by (by apply Qltb_ge).
    by assert (Qltb b b = false) as -> by (apply Qltb_ge; lra).
  - assert (Qltb x a = false) as -> by (by apply Qltb_ge).
    by assert (Qltb b x = false) as -> by (by apply Qltb_ge).
Qed.

(** X13.  [bounds(x, a, b)] with [a <= b] clamps [x] to the interval from [a] to
    [b]: the result lies in the interval, is [x] itself when [x] does, is
    not changed by a second clamping, and does not decrease when [x]
    grows.  With [b < a] the result can lie outside: below [a], every [x]
    gives [a], which is above [b]. *)
Theorem bounds_clamps (x x' a b : Q) :
  a <= b ->
  a <= bounds x a b /\ bounds x a b <= b
  /\ (a <= x -> x <= b -> bounds x a b = x)
  /\ bounds (bounds x a b) a b = bounds x a b
  /\ (x <= x' -> bounds x a b <= bounds x' a b)
  /\ (forall lo hi, hi < lo -> x < lo -> hi < bounds x lo hi).
Proof.
  intros Hab.
  destruct (bounds_cases x a b Hab) as [[H1 E]|[[H1 E]|(H1 & H2 & E)]].
  all: split; [rewrite E; lra|]; split; [rewrite E; lra|].
  all: split;
    [intros Ha Hb; unfold bounds;
     assert (Qltb x a = false) as -> by (by apply Qltb_ge);
     by assert (Qltb b x = false) as -> by (by apply Qltb_ge)|].
  all: split; [by apply bounds_idempotent|].
  all: split;
    [intros Hx;
     destruct (bounds_cases x' a b Hab) as [[H1' E']|[[H1' E']|(H1' & H2' & E')]];
     rewrite E, E'; lra|].
  all: intros lo hi Hlt Hx; unfold bounds;
    by assert (Qltb x lo = true) as -> by (by apply Qltb_lt).
Qed.

Section Treatment.
Variable X : Externals.

(** X14.  [calculate_treatment] looks its two tables up at the age and the year
    clamped to 50..79 and 1973..2004, so that an age or a year outside
    gives the treatment of the nearest age or year inside.  It never
    returns [no_treatment], and in [u] it goes from [CM] over [RP] to [RT]
    at the two thresholds [pCM] and [pCM + pRP]. *)
Theorem calculate_treatment_clamps (p : FhcrcPerson) (u age year : Q) :
  calculate_treatment X p u age year
  = calculate_treatment X p u (bounds age 50 79) (bounds year 1973 2004)
  /\ calculate_treatment X p u age year <> no_treatment
  /\ (age < 50 ->
      calculate_treatment X p u age year = calculate_treatment X p u 50 year)
  /\ (79 < age ->
      calculate_treatment X p u age year = calculate_treatment X p u 79 year)
  /\ (year < 1973 ->
      calculate_treatment X p u age year = calculate_treatment X p u age 1973)
  /\ (2004 < year ->
      calculate_treatment X p u age year = calculate_treatment X p u age 2004)
  /\ (let key := (bounds age 50 79, bounds year 1973 2004,
                  grade_code (grade p)) in
      (calculate_treatment X p u age year = CM <-> u < prtxCM X key)
      /\ (calculate_treatment X p u age year = RP <->
          prtxCM X key <= u /\ u < prtxCM X key + prtxRP X key)
      /\ (calculate_treatment X p u age year = RT <->
          prtxCM X key <= u /\ prtxCM X key + prtxRP X key <= u)).
Proof.
  assert (50 <= 79) as H1 by lra. assert (1973 <= 2004) as H2 by lra.
  split.
  { unfold calculate_treatment.
    by rewrite (bounds_idempotent age 50 79 H1),
      (bounds_idempotent year 1973 2004 H2). }
  split.
  { unfold calculate_treatment. cbv zeta.
    destruct (Qltb u _); [done|]. by destruct (Qltb u _). }
  assert (forall a, a < 50 -> bounds a 50 79 = bounds 50 50 79) as Hlo.
  { intros a Ha. unfold bounds. by assert (Qltb a 50 = true) as ->
        by (by apply Qltb_lt). }
  assert (forall a, 79 < a -> bounds a 50 79 = bounds 79 50 79) as Hhi.
  { intros a Ha. unfold bounds.
    assert (Qltb a 50 = false) as -> by (apply Qltb_ge; lra).
    by assert (Qltb 79 a = true) as -> by (by apply Qltb_lt). }
  assert (forall a, a < 1973 -> bounds a 1973 2004 = bounds 1973 1973 2004)
    as Hlo'.
  { intros a Ha. unfold bounds. by assert (Qltb a 1973 = true) as ->
        by (by apply Qltb_lt). }
  assert (forall a, 2004 < a -> bounds a 1973 2004 = bounds 2004 1973 2004)
    as Hhi'.
  { intros a Ha. unfold bounds.
    assert (Qltb a 1973 = false) as -> by (apply Qltb_ge; lra).
    by assert (Qltb 2004 a = true) as -> by (by apply Qltb_lt). }
  split; [intros Ha; unfold calculate_treatment; by rewrite (Hlo age Ha)|].
  split; [intros Ha; unfold calculate_treatment; by rewrite (Hhi age Ha)|].
  split; [intros Ha; unfold calculate_treatment; by rewrite (Hlo' year Ha)|].
  split; [intros Ha; unfold calculate_treatment; by rewrite (Hhi' year Ha)|].
  unfold calculate_treatment. cbv zeta.
  destruct (Qltb u (prtxCM X _)) eqn:E1;
    [apply Qltb_lt in E1|apply Qltb_ge in E1].
  { split; [done|]. split; (split; [done|intros [? ?]; lra]). }
  destruct (Qltb u (_ + _)) eqn:E2; [apply Qltb_lt in E2|apply Qltb_ge in E2].
  - split; [split; [done|lra]|]. split; [done|].
    split; [done|intros [? ?]; lra].
  - split; [split; [done|lra]|]. split; [|done].
    split; [done|intros [? ?]; lra].
Qed.
End Treatment.
End FhcrcBounds.

(** Witness: clamping 85 to the ages 50..79. *)
Lemma bounds_clamps_witness :
  50 <= Fhcrc.bounds 85 50 79 /\ Fhcrc.bounds 85 50 79 <= 79
  /\ Fhcrc.bounds (Fhcrc.bounds 85 50 79) 50 79 = Fhcrc.bounds 85 50 79.
Proof.
  destruct (bounds_clamps 85 90 50 79) as (H1 & H2 & _ & H4 & _).
  - unfold Qle. simpl. lia.
  - split; [exact H1|]. split; [exact H2|exact H4].
Defined.

Section FhcrcEffects.
Import Kernel Run Recording Fhcrc FhcrcMembers.
Variable X : Externals.

Lemma schedule_screens_keeps {A : Type} (f : FhcrcPerson -> A) (n : nat)
    (start step : Q) :
  hstep (steady f) (schedule_screens n start step).
Proof.
  revert start. induction n as [|n IH]; intros start; simpl.
  - apply hstep_ret; tc_solve.
  - destruct (Qleb start 70); [|apply hstep_ret; tc_solve].
    apply hstep_bind; [tc_solve| |intros _; apply IH].
    unfold schedule, scheduleAt_kind. hstep_go ltac:(by repeat split).
Qed.

Lemma modify_inv (f : FhcrcPerson -> FhcrcPerson) h h' :
  modify f h = Ok (tt, h') ->
  h_self h' = f (h_self h) /\ h_now h' = h_now h
  /\ h_previousEventTime h' = h_previousEventTime h.
Proof. by intros [= <-]. Qed.

Lemma report_add_keeps {A : Type} (f : FhcrcPerson -> A) s e lhs rhs :
  (forall p r, f (with_report r p) = f p) ->
  hstep (steady f) (report_add s e lhs rhs).
Proof.
  intros Hf h a h'. destruct h as [p prev t calls]. unfold report_add. hrun.
  destruct (Report.add _ _ _ _ _) as [r|]; [|done]. hrun.
  intros [= <- <-]. unfold steady. simpl. split; [reflexivity|].
  split; [reflexivity|]. apply Hf.
Qed.

(** On every message the handler leaves alone what [init()] drew. *)
Lemma handleMessage_keeps_natural_history msg :
  hstep (steady natural_history) (FhcrcPerson_handleMessage X msg).
Proof.
  unfold FhcrcPerson_handleMessage.
  destruct (event_of_code (kind msg)) as [[]|];
    unfold handle_screen, handle_treatment, follow_up_screen,
      procedure_utilities, biopsy_utilities, y, Rng_set,
      RemoveKind, Sim_stop_simulation, schedule, schedule_UtilityChange,
      schedule_Utility, scheduleAt_kind;
    repeat first
      [ progress fhcrc_go ltac:(by repeat split)
      | match goal with
        | |- hstep _ (report_add _ _ _ _) => by apply report_add_keeps
        end ].
Qed.

(** Only [toTreatment] changes the treatment. *)
Lemma handleMessage_keeps_treatment msg :
  event_of_code (kind msg) <> Some toTreatment ->
  hstep (steady treatment) (FhcrcPerson_handleMessage X msg).
Proof.
  intros Hne. unfold FhcrcPerson_handleMessage.
  destruct (event_of_code (kind msg)) as [[]|]; try done;
    unfold handle_screen, follow_up_screen,
      procedure_utilities, biopsy_utilities, y, Rng_set,
      RemoveKind, Sim_stop_simulation, schedule, schedule_UtilityChange,
      schedule_Utility, scheduleAt_kind;
    repeat first
      [ progress fhcrc_go ltac:(by repeat split)
      | match goal with
        | |- hstep _ (report_add _ _ _ _) => by apply report_add_keeps
        end ].
Qed.

Ltac course_steady :=
  unfold handle_screen, handle_treatment, follow_up_screen,
    procedure_utilities, biopsy_utilities, y, Rng_set,
    RemoveKind, Sim_stop_simulation, schedule, schedule_UtilityChange,
    schedule_Utility, scheduleAt_kind;
  repeat first
    [ progress fhcrc_go ltac:(by repeat split)
    | match goal with
      | |- hstep _ (report_add _ _ _ _) => by apply report_add_keeps
      end ].

(** What a message does to the clinical course of the person. *)
Lemma handleMessage_course msg h h' :
  FhcrcPerson_handleMessage X msg h = Ok (tt, h') ->
  state (h_self h')
  = match event_of_code (kind msg) with
    | Some toLocalised => Localised
    | Some toMetastatic => Metastatic
    | _ => state (h_self h)
    end
  /\ dx (h_self h')
     = match event_of_code (kind msg) with
       | Some toClinicalDiagnosis => ClinicalDiagnosis
       | Some toScreenDiagnosis => ScreenDiagnosis
       | _ => dx (h_self h)
       end
  /\ organised (h_self h')
     = match event_of_code (kind msg) with
       | Some toOrganised => true
       | _ => organised (h_self h)
       end
  /\ utility (h_self h')
     = match event_of_code (kind msg), dynamic_class msg with
       | Some toUtility, MessageUtility u => u
       | Some toUtilityChange, MessageUtilityChange c => utility (h_self h) + c
       | _, _ => utility (h_self h)
       end.
Proof.
  unfold FhcrcPerson_handleMessage. intros Hrun.
  apply bind_inv in Hrun as (t & h1 & Hnow & Hrun).
  unfold now in Hnow. injection Hnow as <- <-.
  cbv beta zeta in Hrun.
  apply bind_inv in Hrun as (psa & h2 & Hy & Hrun).
  apply (hstep_run (steady clinical_course)) in Hy as (_ & _ & Hc2);
    [|course_steady].
  cbv beta zeta in Hrun.
  apply bind_inv in Hrun as (p & h3 & Hself & Hrun).
  unfold get_self in Hself. injection Hself as <- <-.
  cbv beta zeta in Hrun.
  apply bind_inv in Hrun as (prev & h4 & Hprev & Hrun).
  unfold get_previousEventTime in Hprev. injection Hprev as <- <-.
  cbv beta zeta in Hrun.
  apply bind_inv in Hrun as ([] & h5 & Hadd & Hrun).
  apply (hstep_run (steady clinical_course)) in Hadd as (_ & _ & Hc5);
    [|course_steady].
  apply bind_inv in Hrun as ([] & h6 & Hset & Hrun).
  apply (hstep_run (steady clinical_course)) in Hset as (_ & _ & Hc6);
    [|course_steady].
  assert (clinical_course (h_self h6) = clinical_course (h_self h)) as Hc
    by congruence.
  clear Hc2 Hc5 Hc6. unfold clinical_course in Hc.
  injection Hc as Hs Hd Hu Ho. rewrite <- Hs, <- Hd, <- Hu, <- Ho. clear Hs Hd Hu Ho.
  destruct (event_of_code (kind msg)) as [[]|] eqn:E.
  all: try (apply (hstep_run (steady clinical_course)) in Hrun as (_ & _ & Hc);
            [|clear; course_steady];
            unfold clinical_course in Hc; injection Hc as -> -> -> ->;
            by destruct (dynamic_class msg)).
  1-5: apply bind_inv in Hrun as ([] & h7 & Hmod & Hrun);
    apply modify_inv in Hmod as (Hmod & _ & _);
    apply (hstep_run (steady clinical_course)) in Hrun as (_ & _ & Hc);
    [|clear; course_steady];
    unfold clinical_course in Hc; rewrite Hmod in Hc; simpl in Hc;
    injection Hc as -> -> -> ->; done.
  all: destruct (dynamic_class msg);
    first [ apply modify_inv in Hrun as (Hmod & _ & _); rewrite Hmod; done
          | injection Hrun as <-; done ].
Qed.

(** ** What [init()] establishes *)

Lemma hpost_after {A B : Type} (g : FhcrcPerson -> A) (Q : A -> Prop)
    (F : FhcrcPerson -> FhcrcPerson) (rest : unit -> H FhcrcPerson B) :
  (forall p, Q (g (F p))) ->
  (forall a, hstep (steady g) (rest a)) ->
  hpost (fun h' => Q (g (h_self h'))) (modify F ≫= rest).
Proof.
  intros HF Hrest h b h' Hrun.
  apply bind_inv in Hrun as ([] & h1 & Hmod & Hrun).
  apply modify_inv in Hmod as (Hmod & _ & _).
  apply (hstep_run (steady g)) in Hrun as (_ & _ & Hg); [|apply Hrest].
  rewrite Hg, Hmod. apply HF.
Qed.

Ltac init_steady :=
  unfold schedule_uptake, Rng_set, schedule, schedule_Utility, scheduleAt_kind;
  repeat first
    [ progress fhcrc_go ltac:(by repeat split)
    | match goal with
      | |- hstep _ (schedule_screens _ _ _) => apply schedule_screens_keeps
      end ].

Ltac skip_to_modify :=
  repeat lazymatch goal with
    | |- hpost _ (modify _ ≫= _) => fail
    | |- hpost _ (_ ≫= _) => apply hpost_bind_tail; intros ?
    | |- hpost _ (let _ := _ in _) => cbv zeta
    end.

Lemma FhcrcPerson_init_flags :
  hpost (fun h' =>
           (state (h_self h'), dx (h_self h'), everPSA (h_self h'),
            previousNegativeBiopsy (h_self h'), organised (h_self h'),
            adt (h_self h'))
           = (Healthy, NotDiagnosed, false, false, false, false))
        (FhcrcPerson_init X).
Proof.
  unfold FhcrcPerson_init.
  apply (hpost_after
           (fun p => (state p, dx p, everPSA p, previousNegativeBiopsy p,
                      organised p, adt p))
           (fun a => a = (Healthy, NotDiagnosed, false, false, false, false))).
  - done.
  - intros _. init_steady.
Qed.

Lemma FhcrcPerson_init_treatment :
  hpost (fun h' =>
           (tx (h_self h'), txhaz (h_self h'), y0 (h_self h'))
           = (no_treatment, -1, ymean X (h_self h') (t0 (h_self h'))))
        (FhcrcPerson_init X).
Proof.
  unfold FhcrcPerson_init.
  apply hpost_bind_tail; intros _.
  skip_to_modify.
  apply (hpost_after
           (fun p => (tx p, txhaz p, y0 p, ymean X p (t0 p)))
           (fun a => (a.1.1.1, a.1.1.2, a.1.2) = (no_treatment, -1, a.2))).
  - done.
  - intros _. init_steady.
Qed.

Lemma FhcrcPerson_init_utility :
  hpost (fun h' => utility (h_self h') = 98 # 100) (FhcrcPerson_init X).
Proof.
  unfold FhcrcPerson_init.
  apply hpost_bind_tail; intros _.
  skip_to_modify.
  apply hpost_bind_tail; intros _.
  skip_to_modify.
  apply (hpost_after utility (fun a => a = 98 # 100)).
  - done.
  - intros _. init_steady.
Qed.

Lemma FhcrcPerson_init_keeps :
  hstep (steady (fun p => (id p, cohort p, report p))) (FhcrcPerson_init X).
Proof. unfold FhcrcPerson_init. init_steady. Qed.

Lemma ymean_natural_history (p q : FhcrcPerson) (t : Q) :
  natural_history p = natural_history q -> ymean X p t = ymean X q t.
Proof.
  unfold natural_history. intros [= Hb0 Hb1 Hb2 Ht0 _ _ _ _ _ _ _ _].
  unfold ymean. by rewrite Hb0, Hb1, Hb2, Ht0.
Qed.

(** Along a run, the person keeps the natural history that [init()]
    drew. *)
Lemma simulate_natural_history (fuel : nat) (p : FhcrcPerson) (s : Sim) o
    (w : World FhcrcPerson) :
  cleared s ->
  simulate (H0 := FhcrcPerson_process X) fuel p s = Ok (o, w) ->
  exists h0,
    FhcrcPerson_init X
      {| h_self := p; h_previousEventTime := 0; h_now := clock s;
         h_calls := [] |} = Ok (tt, h0)
    /\ natural_history (self (process w)) = natural_history (h_self h0).
Proof.
  intros Hs. unfold simulate.
  destruct (create_process _ _) as [w0|] eqn:Hc; [|done].
  unfold run_simulation.
  pose proof (create_process_ok _ _ _ Hs Hc) as [Hk Hp Hch].
  revert Hc. unfold create_process. destruct Hs as (_ & _ & ->).
  intros Hrun. apply run_handler_inv in Hrun as (h & Hm & _ & Hself & _ & _).
  rewrite FhcrcPerson_process_init in Hm. intros Hloop.
  exists h. split; [exact Hm|].
  revert Hloop.
  apply (run_loop_ind
           (fun w => natural_history (self (process w))
                     = natural_history (h_self h))).
  - intros w1 e rest w2 _ HI _ _ Hev.
    apply process_event_inv in Hev as (h' & Hm' & _ & Hself' & _).
    rewrite FhcrcPerson_process_handleMessage in Hm'.
    apply (hstep_run (steady natural_history)) in Hm' as (_ & _ & Hnh);
      [|apply handleMessage_keeps_natural_history].
    rewrite Hself', Hnh. exact HI.
  - split; simpl; [|done|done]. destruct Hk. by split.
  - simpl. by rewrite Hself.
Qed.

(** ** The person of the cancer model along its messages *)

(** X15.  What one message does to the person.  The handler never changes what
    [init()] drew for the natural history (the PSA parameters, the onset
    and progression times, the grades) nor [id] and [cohort].  The state
    changes on [toLocalised] and [toMetastatic] only, the diagnosis on the
    two diagnosis messages only, [organised] on [toOrganised] only, and the
    treatment on [toTreatment] only.  The utility is set by a [toUtility]
    message that is a [cMessageUtility], is shifted by a [toUtilityChange]
    message that is a [cMessageUtilityChange], and is not changed by any
    other message, nor by these two kinds when the message is of another
    class. *)
Theorem handleMessage_effect (msg : cMessage) (h h' : HState FhcrcPerson) :
  FhcrcPerson_handleMessage X msg h = Ok (tt, h') ->
  natural_history (h_self h') = natural_history (h_self h)
  /\ state (h_self h')
     = match event_of_code (kind msg) with
       | Some toLocalised => Localised
       | Some toMetastatic => Metastatic
       | _ => state (h_self h)
       end
  /\ dx (h_self h')
     = match event_of_code (kind msg) with
       | Some toClinicalDiagnosis => ClinicalDiagnosis
       | Some toScreenDiagnosis => ScreenDiagnosis
       | _ => dx (h_self h)
       end
  /\ organised (h_self h')
     = match event_of_code (kind msg) with
       | Some toOrganised => true
       | _ => organised (h_self h)
       end
  /\ utility (h_self h')
     = match event_of_code (kind msg), dynamic_class msg with
       | Some toUtility, MessageUtility u => u
       | Some toUtilityChange, MessageUtilityChange c => utility (h_self h) + c
       | _, _ => utility (h_self h)
       end
  /\ (event_of_code (kind msg) <> Some toTreatment ->
      treatment (h_self h') = treatment (h_self h)).
Proof.
  intros Hrun.
  split.
  { destruct (hstep_run _ _ _ _ _ Hrun
                (handleMessage_keeps_natural_history msg)) as (_ & _ & Hn).
    exact Hn. }
  destruct (handleMessage_course msg h h' Hrun) as (Hs & Hd & Ho & Hu).
  split; [exact Hs|]. split; [exact Hd|]. split; [exact Ho|].
  split; [exact Hu|].
  intros Hne.
  destruct (hstep_run _ _ _ _ _ Hrun
              (handleMessage_keeps_treatment msg Hne)) as (_ & _ & Ht).
  exact Ht.
Qed.

(** X16.  [init()] leaves the person healthy, not diagnosed, untreated, with all
    its flags unset and the utility 0.98, and with [y0], the PSA value at
    onset, equal to [ymean(t0)] for the parameters that it drew; it changes
    neither [id] nor [cohort] nor the report. *)
Theorem init_establishes (h h' : HState FhcrcPerson) :
  FhcrcPerson_init X h = Ok (tt, h') ->
  state (h_self h') = Healthy /\ dx (h_self h') = NotDiagnosed
  /\ everPSA (h_self h') = false
  /\ previousNegativeBiopsy (h_self h') = false
  /\ organised (h_self h') = false /\ adt (h_self h') = false
  /\ tx (h_self h') = no_treatment /\ txhaz (h_self h') = -1
  /\ utility (h_self h') = 98 # 100
  /\ y0 (h_self h') = ymean X (h_self h') (t0 (h_self h'))
  /\ id (h_self h') = id (h_self h) /\ cohort (h_self h') = cohort (h_self h)
  /\ report (h_self h') = report (h_self h).
Proof.
  intros Hrun.
  pose proof (FhcrcPerson_init_flags _ _ _ Hrun) as Hf.
  pose proof (FhcrcPerson_init_treatment _ _ _ Hrun) as Ht.
  pose proof (FhcrcPerson_init_utility _ _ _ Hrun) as Hu.
  destruct (hstep_run _ _ _ _ _ Hrun FhcrcPerson_init_keeps) as (_ & _ & Hk).
  simpl in Hf, Ht, Hu, Hk. clear Hrun.
  injection Hf as -> -> -> -> -> ->. injection Ht as -> -> Hy.
  injection Hk as -> -> ->.
  repeat (split; [reflexivity|]).
  split; [exact Hu|]. split; [exact Hy|]. by repeat split.
Qed.

(** X17.  Along the run of a person, whatever the messages: the natural history
    is the one that [init()] drew when the person was created, [y0] is
    [ymean(t0)], and [id] and [cohort] are those of the constructor. *)
Theorem natural_history_is_fixed (fuel : nat) (p : FhcrcPerson) (s : Sim) o
    (w : World FhcrcPerson) :
  cleared s ->
  simulate (H0 := FhcrcPerson_process X) fuel p s = Ok (o, w) ->
  exists h0,
    FhcrcPerson_init X
      {| h_self := p; h_previousEventTime := 0; h_now := clock s;
         h_calls := [] |} = Ok (tt, h0)
    /\ natural_history (self (process w)) = natural_history (h_self h0)
    /\ y0 (self (process w))
       = ymean X (self (process w)) (t0 (self (process w)))
    /\ id (self (process w)) = id p
    /\ cohort (self (process w)) = cohort p.
Proof.
  intros Hs Hrun.
  destruct (simulate_natural_history fuel p s o w Hs Hrun) as (h0 & Hinit & Hnh).
  exists h0.
  pose proof (FhcrcPerson_init_treatment _ _ _ Hinit) as Ht.
  destruct (hstep_run _ _ _ _ _ Hinit FhcrcPerson_init_keeps) as (_ & _ & Hk).
  simpl in Ht, Hk. injection Ht as _ _ Hy. injection Hk as Hid Hco _.
  clear Hrun. split; [exact Hinit|]. 
  clear Hinit. split; [exact Hnh|].
  rewrite (ymean_natural_history _ _ _ Hnh).
  unfold natural_history in Hnh.
  injection Hnh as _ _ _ Ht0 Hy0 _ _ _ _ _ Hid' Hco'.
  rewrite Hy0, Ht0, Hid', Hco'.
  split; [exact Hy|]. split; [exact Hid|exact Hco].
Qed.
End FhcrcEffects.

(** Witness for the effect of a message: a [cMessageUtilityChange] of
    -1/100 at the age 40. *)
Lemma example_utility_change_runs :
  exists h',
    Fhcrc.FhcrcPerson_handleMessage Examples.example_externals
      (Kernel.mkMessage (Fhcrc.event_code Fhcrc.toUtilityChange) "" 40 40
         (Kernel.MessageUtilityChange (- (1 # 100))))
      {| Kernel.h_self := Examples.example_person;
         Kernel.h_previousEventTime := 20; Kernel.h_now := 40;
         Kernel.h_calls := [] |} = Kernel.Ok (tt, h').
Proof. eexists. vm_compute. reflexivity. Qed.

Lemma handleMessage_effect_witness :
  exists h',
    Fhcrc.FhcrcPerson_handleMessage Examples.example_externals
      (Kernel.mkMessage (Fhcrc.event_code Fhcrc.toUtilityChange) "" 40 40
         (Kernel.MessageUtilityChange (- (1 # 100))))
      {| Kernel.h_self := Examples.example_person;
         Kernel.h_previousEventTime := 20; Kernel.h_now := 40;
         Kernel.h_calls := [] |} = Kernel.Ok (tt, h')
    /\ Fhcrc.utility (Kernel.h_self h')
       = Fhcrc.utility Examples.example_person + - (1 # 100)
    /\ Fhcrc.state (Kernel.h_self h') = Fhcrc.state Examples.example_person.
Proof.
  destruct example_utility_change_runs as (h' & Hrun).
  exists h'. split; [exact Hrun|].
  destruct (handleMessage_effect Examples.example_externals _ _ _ Hrun)
    as (_ & Hs & _ & _ & Hu & _).
  split; [exact Hu|exact Hs].
Defined.

(** Witness for [init()]: the example person. *)
Lemma example_init_runs :
  exists h',
    Fhcrc.FhcrcPerson_init Examples.example_externals
      {| Kernel.h_self := Examples.example_person;
         Kernel.h_previousEventTime := 0; Kernel.h_now := 0;
         Kernel.h_calls := [] |} = Kernel.Ok (tt, h').
Proof. eexists. vm_compute. reflexivity. Qed.

Lemma init_establishes_witness :
  exists h',
    Fhcrc.FhcrcPerson_init Examples.example_externals
      {| Kernel.h_self := Examples.example_person;
         Kernel.h_previousEventTime := 0; Kernel.h_now := 0;
         Kernel.h_calls := [] |} = Kernel.Ok (tt, h')
    /\ Fhcrc.state (Kernel.h_self h') = Fhcrc.Healthy
    /\ Fhcrc.utility (Kernel.h_self h') = 98 # 100.
Proof.
  destruct example_init_runs as (h' & Hrun).
  exists h'. split; [exact Hrun|].
  destruct (init_establishes Examples.example_externals _ _ Hrun)
    as (Hs & _ & _ & _ & _ & _ & _ & _ & Hu & _).
  split; [exact Hs|exact Hu].
Defined.

(** Witness for the natural history: the run of the example person. *)
Lemma natural_history_is_fixed_witness :
  exists o w,
    Kernel.simulate (H0 := Fhcrc.FhcrcPerson_process Examples.example_externals)
      40 Examples.example_person Kernel.initial_sim = Kernel.Ok (o, w)
    /\ Fhcrc.id (Kernel.self (Kernel.process w)) = 0%Z
    /\ Fhcrc.cohort (Kernel.self (Kernel.process w)) = 1950.
Proof.
  pose proof (proj1 example_runs_finish) as Hfin.
  destruct (Kernel.simulate
              (H0 := Fhcrc.FhcrcPerson_process Examples.example_externals)
              40 Examples.example_person Kernel.initial_sim)
    as [[o w]|e] eqn:E; [|discriminate Hfin].
  exists o, w. split; [reflexivity|].
  destruct (natural_history_is_fixed Examples.example_externals 40
              Examples.example_person Kernel.initial_sim o w
              initial_sim_cleared E) as (h0 & _ & _ & _ & Hid & Hco).
  split; [exact Hid|exact Hco].
Defined.

(** * The calibration model *)
Section TimeAtRisk.
Import Calib CalibReport.

Lemma time_at_risk_spec (cs : list Q) (clin : Q) :
  forall (i : nat) (v : list Q),
    (i <= length v)%nat ->
    length (time_at_risk cs i clin v)
    = Nat.max (length v) (i + iterations cs clin)
    /\ (forall k c, cs !! k = Some c -> (k < iterations cs clin)%nat ->
          time_at_risk cs i clin v !! (i + k)%nat
          = match v !! (i + k)%nat with
            | Some x => Some (x + Qmin c clin)
            | None => Some (Qmin c clin)
            end)
    /\ (forall j, (j < i)%nat \/ (i + iterations cs clin <= j)%nat ->
          time_at_risk cs i clin v !! j = v !! j).
Proof.
  induction cs as [|c cs IH]; intros i v Hi; simpl.
  { split; [lia|]. split; [intros k c' Hk; lia|done]. }
  set (v' := if (i <? length v)%nat then alter (fun x => x + Qmin c clin) i v
             else v ++ [Qmin c clin]).
  assert (length v' = Nat.max (length v) (S i)) as Hlen.
  { unfold v'. destruct (i <? length v)%nat eqn:E.
    - apply Nat.ltb_lt in E. rewrite length_alter. lia.
    - apply Nat.ltb_ge in E. rewrite length_app. simpl. lia. }
  assert (v' !! i = match v !! i with
                    | Some x => Some (x + Qmin c clin)
                    | None => Some (Qmin c clin)
                    end) as Hat.
  { unfold v'. destruct (i <? length v)%nat eqn:E.
    - apply Nat.ltb_lt in E.
      destruct (lookup_lt_is_Some_2 v i E) as [x Hx].
      rewrite list_lookup_alter_eq, Hx. simpl. reflexivity.
    - apply Nat.ltb_ge in E. assert (i = length v) as -> by lia.
      rewrite lookup_app_r by lia. rewrite Nat.sub_diag. simpl.
      by rewrite (lookup_ge_None_2 v (length v)) by lia. }
  assert (forall j, j <> i -> v' !! j = v !! j) as Hother.
  { intros j Hj. unfold v'. destruct (i <? length v)%nat eqn:E.
    - by rewrite list_lookup_alter_ne.
    - apply Nat.ltb_ge in E. assert (i = length v) as Hil by lia.
      destruct (decide (j < length v)%nat) as [Hlt|Hge].
      + by rewrite lookup_app_l.
      + rewrite (lookup_ge_None_2 v j) by lia.
        apply lookup_ge_None_2. rewrite length_app. simpl. lia. }
  destruct (Qltb clin c) eqn:Eb.
  - split; [lia|]. split.
    + intros k c' Hk Hlt. assert (k = 0%nat) as -> by lia.
      simpl in Hk. injection Hk as <-. by rewrite Nat.add_0_r.
    + intros j Hj. apply Hother. lia.
  - destruct (IH (S i) v') as (Hl & Hin & Hout); [lia|].
    split; [lia|]. split.
    + intros k c' Hk Hlt. destruct k as [|k].
      * simpl in Hk. injection Hk as <-. rewrite Nat.add_0_r.
        rewrite Hout by lia. exact Hat.
      * simpl in Hk. replace (i + S k)%nat with (S i + k)%nat by lia.
        rewrite (Hin k c' Hk) by lia. by rewrite Hother by lia.
    + intros j Hj. rewrite Hout by lia. apply Hother. lia.
Qed.

Lemma iterations_ctime (clin : Q) :
  iterations ctime clin
  = (if Qltb clin 20 then 1 else if Qltb clin 40 then 2
     else if Qltb clin 60 then 3 else 4)%nat.
Proof.
  unfold ctime. simpl. destruct (Qltb clin 20); [done|].
  destruct (Qltb clin 40); [done|]. destruct (Qltb clin 60); [done|].
  by destruct (Qltb clin 80).
Qed.

(** X18.  The loop of the case [toDeath] on the vector [report["TimeAtRisk"]]:
    the body runs for the first cutpoint of 20, 40, 60, 80 and for every
    further one whose predecessor is not after [clinTime] (one to four
    times); each of these entries gains [min(ctime[i], clinTime)], and is
    appended with that value if the vector did not have it; no other entry
    changes.  Whatever the vector held, no index is out of its bounds. *)
Theorem time_at_risk_credits (clin : Q) (v : list Q) :
  iterations ctime clin
  = (if Qltb clin 20 then 1 else if Qltb clin 40 then 2
     else if Qltb clin 60 then 3 else 4)%nat
  /\ length (time_at_risk ctime 0 clin v)
     = Nat.max (length v) (iterations ctime clin)
  /\ (forall i c, ctime !! i = Some c -> (i < iterations ctime clin)%nat ->
        time_at_risk ctime 0 clin v !! i
        = match v !! i with
          | Some x => Some (x + Qmin c clin)
          | None => Some (Qmin c clin)
          end)
  /\ (forall i, (iterations ctime clin <= i)%nat ->
        time_at_risk ctime 0 clin v !! i = v !! i).
Proof.
  split; [apply iterations_ctime|].
  destruct (time_at_risk_spec ctime clin 0 v) as (Hl & Hin & Hout); [lia|].
  split; [exact Hl|]. split.
  - intros i c Hc Hi. exact (Hin i c Hc Hi).
  - intros i Hi. apply Hout. right. simpl. exact Hi.
Qed.

End TimeAtRisk.

Section CountIndex.
Import Calib CalibReport.

Lemma to_int_floor (x : Q) (z : Z) :
  (0 <= z <= 2147483647)%Z ->
  inject_Z z <= x -> x < inject_Z (z + 1) -> to_int x = Some z.
Proof.
  intros Hz Hle Hlt. unfold to_int. destruct x as [n d]. simpl.
  revert Hle Hlt. unfold Qle, Qlt. simpl. intros Hle Hlt.
  assert (Z.quot n (Z.pos d) = z) as ->.
  { rewrite Z.quot_div_nonneg by nia. symmetry.
    apply Z.div_unique with (n - z * Z.pos d)%Z; lia. }
  assert ((-2147483648 <=? z)%Z && (z <=? 2147483647)%Z = true) as ->; [|done].
  apply andb_true_iff. split; apply Z.leb_le; lia.
Qed.

Lemma to_int_small_negative (x : Q) : -1 < x -> x < 0 -> to_int x = Some 0%Z.
Proof.
  intros H1 H2. unfold to_int. destruct x as [n d]. simpl.
  assert (Z.quot n (Z.pos d) = 0)%Z as ->; [|done].
  revert H1 H2. unfold Qlt. simpl. intros H1 H2.
  rewrite <- (Z.opp_involutive n), Z.quot_opp_l by lia.
  rewrite Z.quot_small by lia. done.
Qed.

Lemma to_int_negative (x : Q) (z : Z) : x <= -1 -> to_int x = Some z -> (z < 0)%Z.
Proof.
  intros H1. unfold to_int. destruct x as [n d]. simpl.
  destruct (_ && _); [|done]. intros [= <-].
  revert H1. unfold Qle. simpl. intros H1.
  assert (Z.quot n (Z.pos d) <= Z.quot (- Z.pos d) (Z.pos d))%Z as Hq.
  { apply Z.quot_le_mono; lia. }
  rewrite Z.quot_opp_l, Z.quot_same in Hq by lia. lia.
Qed.

(** The index of a count from the age 10 on. *)
Lemma count_index_in_group (now : Q) (k : Z) :
  (0 <= k <= 2147483647)%Z ->
  inject_Z (10 * (k + 1)) <= now -> now < inject_Z (10 * (k + 2)) ->
  count_index now = Some (Z.min 9 k).
Proof.
  assert (now / 10 * 10 == now) as Hq by (field; discriminate).
  unfold count_index. revert Hq. generalize (now / 10). intros q Hq.
  intros Hk Hle Hlt.
  rewrite (to_int_floor (q - 1) k Hk); [done| |].
  - rewrite inject_Z_mult, inject_Z_plus in Hle.
    change (inject_Z 10) with 10 in Hle. change (inject_Z 1) with 1 in Hle.
    lra.
  - rewrite inject_Z_mult, inject_Z_plus in Hlt. rewrite inject_Z_plus.
    change (inject_Z 10) with 10 in Hlt. change (inject_Z 2) with 2 in Hlt.
    change (inject_Z 1) with 1. lra.
Qed.

(** X19.  The index [cind = min(9, int(now()/10 - 1))] of a count: from the age
    10 on it is the number of the ten-year age group that ends at [now()]
    or contains it, the groups from 100 on being counted with the last one;
    below 10 the conversion to [int] rounds towards zero and gives the
    first group; at an age that is not positive the index is negative. *)
Theorem count_index_age_group (now : Q) :
  (forall k : Z,
      (0 <= k <= 2147483647)%Z ->
      inject_Z (10 * (k + 1)) <= now -> now < inject_Z (10 * (k + 2)) ->
      count_index now = Some (Z.min 9 k))
  /\ (0 < now -> now < 10 -> count_index now = Some 0%Z)
  /\ (now <= 0 -> forall c, count_index now = Some c -> (c < 0)%Z).
Proof.
  split; [intros k; apply count_index_in_group|].
  assert (now / 10 * 10 == now) as Hq by (field; discriminate).
  unfold count_index. revert Hq. generalize (now / 10). intros q Hq.
  split.
  - intros H1 H2.
    rewrite (to_int_small_negative (q - 1)); [done|lra|lra].
  - intros H1 c.
    destruct (to_int (q - 1)) as [z|] eqn:E; [|done].
    intros [= <-]. apply to_int_negative in E; [lia|lra].
Qed.

End CountIndex.

Section CalibHandlers.
Import Kernel Run Calib CalibReport.
Variables x_exp x_log : Q -> Q.

Lemma CalibPerson_process_init :
  init (Process := CalibPerson_process x_exp x_log) = CalibPerson_init x_log.
Proof. reflexivity. Qed.

Lemma CalibPerson_process_handleMessage msg :
  handleMessage (Process := CalibPerson_process x_exp x_log) msg
  = CalibPerson_handleMessage x_exp msg.
Proof. reflexivity. Qed.

(** What [handleMessage(msg)] does, by the kind of the message. *)
Lemma CalibPerson_handleMessage_cases msg h h' :
  CalibPerson_handleMessage x_exp msg h = Ok (tt, h') ->
  (kind msg = event_code toDeath
   /\ h_calls h' = h_calls h ++ [StopSimulation]
   /\ stage (h_self h') = Death
   /\ clinTime (h_self h') = Qmin (clinTime (h_self h)) (h_now h)
   /\ report (h_self h')
      = <["TimeAtRisk"%string :=
            time_at_risk ctime 0 (Qmin (clinTime (h_self h)) (h_now h))
              (default [] (report (h_self h) !! "TimeAtRisk"%string))]>
          (report (h_self h)))
  \/ (kind msg = event_code toPrecursor
      /\ stage (h_self h') = Precursor
      /\ report (h_self h') = report (h_self h)
      /\ clinTime (h_self h') = clinTime (h_self h)
      /\ ((diseasepot (h_self h) = false /\ h_calls h' = h_calls h)
          \/ (diseasepot (h_self h) = true
              /\ exists m d, kind m = event_code toPreClinical
                   /\ h_calls h' = h_calls h ++ [SelfSignal m d])))
  \/ (kind msg = event_code toPreClinical
      /\ stage (h_self h') = PreClinical
      /\ report (h_self h') = report (h_self h)
      /\ clinTime (h_self h') = clinTime (h_self h)
      /\ exists m d, kind m = event_code toClinical
           /\ h_calls h' = h_calls h ++ [SelfSignal m d])
  \/ (kind msg = event_code toClinical
      /\ stage (h_self h') = Clinical
      /\ report (h_self h') = report (h_self h)
      /\ clinTime (h_self h') = h_now h
      /\ h_calls h' = h_calls h)
  \/ (kind msg = event_code Count
      /\ stage (h_self h') = stage (h_self h)
      /\ clinTime (h_self h') = clinTime (h_self h)
      /\ h_calls h' = h_calls h
      /\ exists cind, count_index (h_now h) = Some cind
           /\ count_stage (stage (h_self h)) cind (report (h_self h))
              = Some (report (h_self h')))
  \/ ((forall e, kind msg <> event_code e)
      /\ stage (h_self h') = stage (h_self h)
      /\ report (h_self h') = report (h_self h)
      /\ clinTime (h_self h') = clinTime (h_self h)
      /\ h_calls h' = h_calls h).
Proof.
  destruct h as [p prev t calls].
  unfold CalibPerson_handleMessage, modify, R_draw. hrun.
  destruct (bool_decide (kind msg = event_code toDeath)) eqn:E3.
  { apply bool_decide_eq_true in E3. intros [= <-]. left. by simpl. }
  intros H.
  apply bool_decide_eq_false in E3.
  destruct (bool_decide (kind msg = event_code toPrecursor)) eqn:E0.
  { apply bool_decide_eq_true in E0. right. left. revert H.
    change (diseasepot (with_stage Precursor p)) with (diseasepot p).
    destruct (diseasepot p) eqn:Ed; hrun; intros [= <-]; simpl.
    - repeat (split; [done|]). right. split; [done|]. eexists _, _; split; [|reflexivity]; reflexivity.
    - repeat (split; [done|]). by left. }
  apply bool_decide_eq_false in E0.
  destruct (bool_decide (kind msg = event_code toPreClinical)) eqn:E1.
  { apply bool_decide_eq_true in E1. revert H. intros [= <-]. right. right. left.
    simpl. repeat (split; [done|]). eexists _, _; split; [|reflexivity]; reflexivity. }
  apply bool_decide_eq_false in E1.
  destruct (bool_decide (kind msg = event_code toClinical)) eqn:E2.
  { apply bool_decide_eq_true in E2. revert H. intros [= <-]. do 3 right. left.
    by simpl. }
  apply bool_decide_eq_false in E2.
  destruct (bool_decide (kind msg = event_code Count)) eqn:E4.
  { apply bool_decide_eq_true in E4. do 4 right. left. revert H.
    destruct (count_index t) as [cind|] eqn:Ec; [|done].
    destruct (count_stage (stage p) cind (report p)) as [r|] eqn:Er; [|done].
    hrun. intros [= <-]. simpl. repeat (split; [done|]). by exists cind. }
  apply bool_decide_eq_false in E4.
  revert H. intros [= <-]. do 5 right. split; [|done]. by intros [].
Qed.
End CalibHandlers.

Section CalibCounts.
Import Kernel Run Calib CalibReport.
Variables x_exp x_log : Q -> Q.

Lemma stage_names_inj (s s' : stage_t) :
  stage_names s = stage_names s' -> s = s'.
Proof. by destruct s, s'. Qed.

Lemma count_stage_spec (s : stage_t) (cind : Z) (r r' : gmap string (list Q)) :
  columns_ok r -> count_stage s cind r = Some r' ->
  (0 <= cind <= 9)%Z
  /\ r' = <[stage_names s :=
              alter (fun x => x + 1) (Z.to_nat cind)
                (default (replicate 10 0) (r !! stage_names s))]> r
  /\ columns_ok r'.
Proof.
  intros Hok. unfold count_stage.
  assert (length (default (replicate 10 0) (r !! stage_names s)) = 10%nat)
    as Hlen.
  { destruct (r !! stage_names s) as [col|] eqn:E; simpl; [|done].
    by apply (Hok s). }
  assert (match r !! stage_names s with
          | Some col => col
          | None => replicate 10 0
          end = default (replicate 10 0) (r !! stage_names s)) as ->
    by (by destruct (r !! stage_names s)).
  rewrite Hlen.
  destruct (_ && _) eqn:E; [|done]. intros [= <-].
  apply andb_true_iff in E as [E1 E2]. apply Z.leb_le in E1.
  apply Z.ltb_lt in E2.
  split; [lia|]. split; [done|].
  intros s' col. destruct (decide (stage_names s' = stage_names s)) as [->|Hne].
  - rewrite lookup_insert_eq. intros [= <-]. by rewrite length_alter.
  - rewrite lookup_insert_ne by done. apply Hok.
Qed.

Lemma count_stage_defined (s : stage_t) (cind : Z) (r : gmap string (list Q)) :
  columns_ok r -> (0 <= cind <= 9)%Z -> is_Some (count_stage s cind r).
Proof.
  intros Hok Hc. unfold count_stage.
  assert (length (match r !! stage_names s with
                  | Some col => col
                  | None => replicate 10 0
                  end) = 10%nat) as ->.
  { destruct (r !! stage_names s) as [col|] eqn:E; [|done]. by apply (Hok s). }
  assert ((0 <=? cind)%Z && (cind <? Z.of_nat 10)%Z = true) as ->; [|done].
  apply andb_true_iff. split; [apply Z.leb_le|apply Z.ltb_lt]; lia.
Qed.

(** X20.  A [Count] message at an age in the [k]-th ten-year group from 10 on,
    on a report whose columns hold the ten groups: the handler returns, the
    column of the current stage of the person (ten zeros if the report had
    none) has one more at the index [min(9, k)], its other entries and the
    other columns are as before, every column still holds ten groups, and
    the handler makes no call into the kernel. *)
Theorem Count_message_counts (msg : cMessage) (h : HState CalibPerson) (k : Z) :
  kind msg = event_code Count ->
  columns_ok (report (h_self h)) ->
  (0 <= k <= 2147483647)%Z ->
  inject_Z (10 * (k + 1)) <= h_now h -> h_now h < inject_Z (10 * (k + 2)) ->
  exists h' col x,
    CalibPerson_handleMessage x_exp msg h = Ok (tt, h')
    /\ h_calls h' = h_calls h
    /\ stage (h_self h') = stage (h_self h)
    /\ default (replicate 10 0)
         (report (h_self h) !! stage_names (stage (h_self h)))
       !! Z.to_nat (Z.min 9 k) = Some x
    /\ report (h_self h') !! stage_names (stage (h_self h)) = Some col
    /\ length col = 10%nat
    /\ col !! Z.to_nat (Z.min 9 k) = Some (x + 1)
    /\ (forall j, j <> Z.to_nat (Z.min 9 k) ->
          col !! j
          = default (replicate 10 0)
              (report (h_self h) !! stage_names (stage (h_self h))) !! j)
    /\ (forall key, key <> stage_names (stage (h_self h)) ->
          report (h_self h') !! key = report (h_self h) !! key)
    /\ columns_ok (report (h_self h')).
Proof.
  intros Hk Hok Hrange Hle Hlt.
  pose proof (count_index_in_group (h_now h) k Hrange Hle Hlt) as Hidx.
  destruct (count_stage_defined (stage (h_self h)) (Z.min 9 k)
              (report (h_self h)) Hok) as [r' Hr']; [lia|].
  destruct (count_stage_spec _ _ _ _ Hok Hr') as (_ & Er & Hok').
  set (old := default (replicate 10 0)
                (report (h_self h) !! stage_names (stage (h_self h)))) in *.
  assert (length old = 10%nat) as Hlen.
  { unfold old.
    destruct (report (h_self h) !! stage_names (stage (h_self h)))
      as [c|] eqn:E; simpl; [|done]. by apply (Hok (stage (h_self h))). }
  destruct (lookup_lt_is_Some_2 old (Z.to_nat (Z.min 9 k))) as [x Hx]; [lia|].
  exists {| h_self := with_report r' (h_self h);
            h_previousEventTime := h_previousEventTime h;
            h_now := h_now h; h_calls := h_calls h |},
    (alter (fun x => x + 1) (Z.to_nat (Z.min 9 k)) old), x.
  split.
  { destruct h as [p prev t calls]. simpl in *.
    unfold CalibPerson_handleMessage, modify. hrun.
    rewrite Hk. simpl. rewrite Hidx, Hr'. reflexivity. }
  simpl. split; [done|]. split; [done|]. split; [done|].
  split; [by rewrite Er, lookup_insert_eq|].
  split; [by rewrite length_alter|].
  split; [by rewrite list_lookup_alter_eq, Hx|].
  split; [intros j Hj; by rewrite list_lookup_alter_ne|].
  split; [|done].
  intros key Hkey. by rewrite Er, lookup_insert_ne.
Qed.
End CalibCounts.

(** Witness: a person in the stage [Precursor] counted at the age 30, on an
    empty report. *)
Lemma Count_message_counts_witness :
  exists p h' col,
    Calib.new_CalibPerson [1; 1; 1 # 2; 1; 1; 1] 0 ∅
      (Random.start (fun _ _ => 1 # 4)) = Some p
    /\ Calib.CalibPerson_handleMessage (fun x => x)
         (Kernel.mkMessage (Calib.event_code Calib.Count) "" 0 30
            Kernel.PlainMessage)
         {| Kernel.h_self := Calib.with_stage Calib.Precursor p;
            Kernel.h_previousEventTime := 20; Kernel.h_now := 30;
            Kernel.h_calls := [] |} = Kernel.Ok (tt, h')
    /\ Calib.report (Kernel.h_self h') !! "Precursor"%string = Some col
    /\ col !! 2%nat = Some (0 + 1).
Proof.
  eexists. 
  destruct (Count_message_counts (fun x => x)
              (Kernel.mkMessage (Calib.event_code Calib.Count) "" 0 30
                 Kernel.PlainMessage)
              {| Kernel.h_self :=
                   Calib.with_stage Calib.Precursor
                     {| Calib.stage := Calib.DiseaseFree;
                        Calib.diseasepot := false;
                        Calib.Lam1 := 1; Calib.sigm1 := 1; Calib.p2 := 1 # 2;
                        Calib.lam2 := 1; Calib.mu3 := 1; Calib.tau3 := 1;
                        Calib.clinTime := 0; Calib.id := 0;
                        Calib.report := ∅;
                        Calib.rng := Random.start (fun _ _ => 1 # 4) |};
                 Kernel.h_previousEventTime := 20; Kernel.h_now := 30;
                 Kernel.h_calls := [] |} 2)
    as (h' & col & x & Hrun & _ & _ & Hx & Hcol & _ & Hat & _).
  - reflexivity.
  - intros s c Hc. simpl in Hc. rewrite lookup_empty in Hc. discriminate Hc.
  - lia.
  - unfold Qle. simpl. lia.
  - reflexivity.
  - exists h', col. split; [reflexivity|]. split; [exact Hrun|].
    split; [exact Hcol|]. simpl in Hx. injection Hx as <-. exact Hat.
Defined.

Section CalibRuns.
Import Kernel Run Stamps Quiet Calib CalibReport CalibRun.
Variables x_exp x_log : Q -> Q.

Definition request_cost (r : request) : nat :=
  match r with
  | SelfSignal m _ => cost (kind m)
  | _ => 0%nat
  end.

Lemma exec_signals_cost rs s s' :
  Forall is_signal rs -> exec_requests rs s = Ok s' ->
  running s' = running s
  /\ pending_cost (queue s')
     = (pending_cost (queue s) + sum_list_with request_cost rs)%nat
  /\ (forall e, e ∈ queue s -> e ∈ queue s').
Proof.
  revert s. induction rs as [|r rs IH]; intros s Hall; simpl.
  - intros [= <-]. split; [done|]. split; [lia|done].
  - apply Forall_cons in Hall as [Hr Hall].
    destruct r as [msg d|pred|]; simpl in Hr; try done. simpl.
    unfold self_signal_event. destruct (Qltb d 0); [done|]. intros Hrs.
    destruct (IH _ Hall Hrs) as (Hrun & Hcost & Hkeep). simpl in *.
    split; [done|]. split.
    + rewrite Hcost. unfold pending_cost. rewrite sum_list_with_app. simpl. lia.
    + intros e He. apply Hkeep. apply elem_of_app. by left.
Qed.

Lemma cost_positive k : (1 <= cost k)%nat.
Proof. unfold cost. repeat case_bool_decide; lia. Qed.

Lemma pending_cost_elem (e : Entry) (q : list Entry) :
  e ∈ q -> (1 <= pending_cost q)%nat.
Proof.
  intros He. pose proof (sum_list_with_in e (fun e => cost (kind (e_msg e))) q He).
  pose proof (cost_positive (kind (e_msg e))). unfold pending_cost. lia.
Qed.

Lemma schedule_counts_eq :
  schedule_counts 10 10
  = (scheduleAt_kind 10 (event_code Count);;
     scheduleAt_kind 20 (event_code Count);;
     scheduleAt_kind 30 (event_code Count);;
     scheduleAt_kind 40 (event_code Count);;
     scheduleAt_kind 50 (event_code Count);;
     scheduleAt_kind 60 (event_code Count);;
     scheduleAt_kind 70 (event_code Count);;
     scheduleAt_kind 80 (event_code Count);;
     scheduleAt_kind 90 (event_code Count);;
     scheduleAt_kind 100 (event_code Count);;
     mret tt).
Proof. reflexivity. Qed.

(** The calls of [init()]: [toPrecursor], [toDeath], and the ten counts. *)
Lemma CalibPerson_init_calls h h' :
  CalibPerson_init x_log h = Ok (tt, h') ->
  stage (h_self h') = DiseaseFree
  /\ report (h_self h') = report (h_self h)
  /\ exists m1 d1 m2 d2 counts,
       kind m1 = event_code toPrecursor /\ kind m2 = event_code toDeath
       /\ h_calls h'
          = h_calls h ++ SelfSignal m1 d1 :: SelfSignal m2 d2 :: counts
       /\ Forall is_signal counts
       /\ sum_list_with request_cost counts = 10%nat.
Proof.
  destruct h as [p prev t calls].
  unfold CalibPerson_init. rewrite schedule_counts_eq.
  unfold modify, R_draw. hrun. intros [= <-]. simpl.
  split; [done|]. split; [done|].
  eexists _, _, _, _, _.
  split; [|split; [|split; [rewrite <- !app_assoc; simpl; reflexivity|]]].
  - reflexivity.
  - reflexivity.
  - split; [repeat constructor|reflexivity].
Qed.

Lemma TimeAtRisk_not_a_stage (s : stage_t) :
  stage_names s <> "TimeAtRisk"%string.
Proof. by destruct s. Qed.

Lemma Death_column (s : stage_t) :
  s <> Death -> stage_names s <> "Death"%string.
Proof. by destruct s. Qed.

(** A dispatch keeps the individual alive with its death pending, or is its
    death; what the pending messages can cost goes down. *)
Lemma calib_step (w : World CalibPerson) k e rest w2 :
  world_ok w -> alive_or_dead w k -> running (sim w) = true ->
  pop_min (queue (sim w)) = Some (e, rest) ->
  process_event (H0 := CalibPerson_process x_exp x_log) (e_msg e)
    (popped e rest w) = Ok w2 ->
  exists k', (k' < k)%nat /\ alive_or_dead w2 k'.
Proof.
  intros Hok (Hcols & Hnd & [(_ & Hst & (e0 & He0 & Hk0) & Hcost & Hlen)
                            |(Hstop & _)]) Hr Hpop Hev; [|congruence].
  apply process_event_inv in Hev as (h & Hm & Hx & Hself & _ & Hd).
  rewrite CalibPerson_process_handleMessage in Hm.
  apply CalibPerson_handleMessage_cases in Hm. simpl in Hm, Hx, Hd.
  destruct (pop_min_spec _ _ _ Hpop) as [Hperm _].
  assert (pending_cost (queue (sim w))
          = (cost (kind (e_msg e)) + pending_cost rest)%nat) as Hsum.
  { unfold pending_cost.
    by rewrite (sum_list_with_Permutation_proper _ _ _ Hperm). }
  pose proof (cost_positive (kind (e_msg e))) as Hpos.
  assert (kind (e_msg e) <> event_code toDeath -> e0 ∈ rest) as Hrest.
  { intros Hne. rewrite Hperm in He0.
    apply elem_of_cons in He0 as [->|He0]; [done|done]. }
  assert (length (dispatched w2) = S (length (dispatched w))) as Hdl
    by (by rewrite Hd).
  destruct Hm as [(Hkind & Hcalls & Hs' & Hclin & Hrep)
                 |[(Hkind & Hs' & Hrep & _ & Hcalls)
                  |[(Hkind & Hs' & Hrep & _ & m & d & Hkm & Hcalls)
                   |[(Hkind & Hs' & Hrep & _ & Hcalls)
                    |[(Hkind & Hs' & _ & Hcalls & cind & Hci & Hcs)
                     |(Hkind & Hs' & Hrep & _ & Hcalls)]]]]].
  - (* death *)
    exists 0%nat. split; [lia|]. rewrite Hcalls in Hx. simpl in Hx.
    injection Hx as Hx. unfold alive_or_dead; rewrite Hself.
    split.
    { rewrite Hrep. intros s col Hl.
      rewrite lookup_insert_ne in Hl by (symmetry; apply TimeAtRisk_not_a_stage).
      by apply (Hcols s). }
    split. { rewrite Hrep. by rewrite lookup_insert_ne. }
    right. split; [by rewrite <- Hx|]. split; [done|]. split; [lia|].
    eexists _, _. split; [exact Hd|]. split; [done|].
    rewrite Hclin. simpl. apply Q.le_min_r.
  - (* precursor *)
    assert (cost (kind (e_msg e)) = 3%nat) as Hc by (by rewrite Hkind).
    destruct Hcalls as [[_ Hcalls]|(_ & m & d & Hkm & Hcalls)];
      rewrite Hcalls in Hx; simpl in Hx.
    + injection Hx as Hx. exists (pending_cost rest). split; [lia|].
      unfold alive_or_dead; rewrite Hself, Hrep. split; [done|]. split; [done|]. left.
      rewrite <- Hx. simpl. split; [done|]. split; [by rewrite Hs'|].
      split; [exists e0; split; [apply Hrest; by rewrite Hkind|done]|].
      split; [done|lia].
    + unfold self_signal_event in Hx. destruct (Qltb d 0); [done|].
      injection Hx as Hx. exists (pending_cost rest + 2)%nat. split; [lia|].
      unfold alive_or_dead; rewrite Hself, Hrep. split; [done|]. split; [done|]. left.
      rewrite <- Hx. simpl. split; [done|]. split; [by rewrite Hs'|].
      split.
      { exists e0. split; [|done]. apply elem_of_app. left. apply Hrest.
        by rewrite Hkind. }
      split; [|lia]. unfold pending_cost. rewrite sum_list_with_app. simpl.
      by rewrite Hkm.
  - (* preclinical *)
    assert (cost (kind (e_msg e)) = 2%nat) as Hc by (by rewrite Hkind).
    rewrite Hcalls in Hx; simpl in Hx.
    unfold self_signal_event in Hx. destruct (Qltb d 0); [done|].
    injection Hx as Hx. exists (pending_cost rest + 1)%nat. split; [lia|].
    unfold alive_or_dead; rewrite Hself, Hrep. split; [done|]. split; [done|]. left.
    rewrite <- Hx. simpl. split; [done|]. split; [by rewrite Hs'|].
    split.
    { exists e0. split; [|done]. apply elem_of_app. left. apply Hrest.
      by rewrite Hkind. }
    split; [|lia]. unfold pending_cost. rewrite sum_list_with_app. simpl.
    by rewrite Hkm.
  - (* clinical *)
    rewrite Hcalls in Hx; simpl in Hx. injection Hx as Hx.
    exists (pending_cost rest). split; [lia|].
    unfold alive_or_dead; rewrite Hself, Hrep. split; [done|]. split; [done|]. left.
    rewrite <- Hx. simpl. split; [done|]. split; [by rewrite Hs'|].
    split; [exists e0; split; [apply Hrest; by rewrite Hkind|done]|].
    split; [done|lia].
  - (* count *)
    rewrite Hcalls in Hx; simpl in Hx. injection Hx as Hx.
    destruct (count_stage_spec _ _ _ _ Hcols Hcs) as (_ & Er & Hcols').
    exists (pending_cost rest). split; [lia|].
    unfold alive_or_dead; rewrite Hself. split; [done|]. split.
    { rewrite Er. rewrite lookup_insert_ne; [done|]. by apply Death_column. }
    left. rewrite <- Hx. simpl. split; [done|]. split; [by rewrite Hs'|].
    split; [exists e0; split; [apply Hrest; by rewrite Hkind|done]|].
    split; [done|lia].
  - (* another kind *)
    rewrite Hcalls in Hx; simpl in Hx. injection Hx as Hx.
    exists (pending_cost rest). split; [lia|].
    unfold alive_or_dead; rewrite Hself, Hrep. split; [done|]. split; [done|]. left.
    rewrite <- Hx. simpl. split; [done|]. split; [by rewrite Hs'|].
    split; [exists e0; split; [apply Hrest; apply Hkind|done]|].
    split; [done|lia].
Qed.

(** Every individual of the calibration model dies. *)
Lemma simulate_calib (fuel : nat) (p : CalibPerson) (s : Sim) o
    (w : World CalibPerson) :
  cleared s -> columns_ok (report p) -> report p !! "Death"%string = None ->
  (14 <= fuel)%nat ->
  simulate (H0 := CalibPerson_process x_exp x_log) fuel p s = Ok (o, w) ->
  o = Finished /\ alive_or_dead w 0 /\ running (sim w) = false.
Proof.
  intros Hs Hcols Hnd Hfuel. unfold simulate.
  destruct (create_process _ _) as [w0|] eqn:Hc; [|done].
  pose proof (create_process_ok _ _ _ Hs Hc) as [Hk Hp Hch].
  revert Hc. unfold create_process. destruct Hs as (Hq & _ & ->).
  intros Hrun. apply run_handler_inv in Hrun as (h & Hm & Hx & Hself & _ & Hd0).
  rewrite CalibPerson_process_init in Hm.
  apply CalibPerson_init_calls in Hm
    as (Hst & Hrep & m1 & d1 & m2 & d2 & counts & Hk1 & Hk2 & Hcalls & Hsig
        & Hcost).
  simpl in Hst, Hrep, Hcalls, Hx, Hd0. rewrite Hcalls in Hx.
  assert (Forall is_signal (SelfSignal m1 d1 :: SelfSignal m2 d2 :: counts))
    as Hall by (by repeat constructor).
  assert (exists e, e ∈ queue (sim w0) /\ kind (e_msg e) = event_code toDeath)
    as Hdeath.
  { assert (SelfSignal m2 d2
            ∈ SelfSignal m1 d1 :: SelfSignal m2 d2 :: counts) as Hin
      by (right; left).
    destruct (exec_requests_signal_queued _ _ _ m2 d2 Hall Hin Hx)
      as (e & He & Hmsg).
    exists e. split; [done|]. by rewrite Hmsg. }
  apply exec_signals_cost in Hx as (Hrun0 & Hcost0 & Hkeep0); [|done].
  unfold run_simulation. intros Hloop.
  destruct (@run_loop_bounded _ (CalibPerson_process x_exp x_log) alive_or_dead)
    with (6 := Hloop) (k := 14%nat)
    as (-> & k' & Hfin).
  - intros w1 (_ & _ & [(_ & _ & (e & He & _) & Hc & _)|(Hstop & _)]); [|done].
    apply pending_cost_elem in He. lia.
  - intros w1 k e rest w2 Hok HI Hr Hpop Hev. by eapply calib_step.
  - split; simpl; [|done|done]. destruct Hk. by split.
  - unfold alive_or_dead. simpl. rewrite Hself, Hrep.
    split; [done|]. split; [done|]. left.
    split; [done|]. split; [by rewrite Hst|]. split; [done|].
    rewrite Hd0. simpl. split; [|lia].
    rewrite Hcost0. simpl. rewrite Hq. simpl. rewrite Hk1, Hk2, Hcost. done.
  - done.
  - split; [done|].
    apply run_loop_finished in Hloop.
    destruct Hfin as (Hc' & Hn' & [(Hr & _ & (e & He & _) & _)|Hdead]).
    + destruct Hloop as [Hstop|Hempty]; [congruence|].
      rewrite Hempty in He. by apply elem_of_nil in He.
    + destruct Hdead as (Hstop & Hrest). split; [|done].
      split; [done|]. split; [done|]. right. split; [done|].
      destruct Hrest as (? & ? & ?). done.
Qed.

(** X21.  Every individual of the calibration model dies: a run from a cleared
    kernel that returns, with fuel for fourteen dispatches, has finished;
    it has dispatched at most fourteen messages (the ten counts, the death
    and the three stages of the disease); its last message is [toDeath],
    which left the person in the stage [Death] with [clinTime] not after
    the death.  The counts never see a dead person: the report gets no
    column for the stage [Death], and its columns keep their ten age
    groups. *)
Theorem CalibPerson_dies (fuel : nat) (p : CalibPerson) (s : Sim) o
    (w : World CalibPerson) :
  cleared s -> columns_ok (report p) -> report p !! "Death"%string = None ->
  (14 <= fuel)%nat ->
  simulate (H0 := CalibPerson_process x_exp x_log) fuel p s = Ok (o, w) ->
  o = Finished
  /\ running (sim w) = false
  /\ stage (self (process w)) = Death
  /\ (length (log w) <= 14)%nat
  /\ (exists d, last (log w) = Some d
        /\ kind (e_msg (d_entry d)) = event_code toDeath
        /\ clinTime (self (process w)) <= e_time (d_entry d))
  /\ columns_ok (report (self (process w)))
  /\ report (self (process w)) !! "Death"%string = None.
Proof.
  intros Hs Hcols Hnd Hfuel Hrun.
  destruct (simulate_calib fuel p s o w Hs Hcols Hnd Hfuel Hrun)
    as (Ho & (Hc & Hn & Hcase) & Hstop).
  clear Hrun.
  destruct Hcase as [(Hr & _)|(_ & Hst & Hlen & d & ds & Hd & Hk & Hclin)];
    [congruence|].
  split; [exact Ho|]. split; [exact Hstop|]. split; [exact Hst|].
  split; [unfold log; by rewrite length_rev|].
  split; [|by split].
  exists d. unfold log. rewrite last_rev_head, Hd. by repeat split.
Qed.
End CalibRuns.

(** The run of the example individual finishes. *)
Lemma example_calib_person_runs :
  Examples.outcome_of
    (Kernel.simulate
       (H0 := Calib.CalibPerson_process (fun x => x) (fun x => x)) 14
       CalibExamples.example_calib_person Kernel.initial_sim)
  = Some Kernel.Finished.
Proof. vm_compute. reflexivity. Qed.

Lemma CalibPerson_dies_witness :
  exists o w,
    Kernel.simulate
      (H0 := Calib.CalibPerson_process (fun x => x) (fun x => x)) 14
      CalibExamples.example_calib_person Kernel.initial_sim = Kernel.Ok (o, w)
    /\ o = Kernel.Finished
    /\ Calib.stage (Kernel.self (Kernel.process w)) = Calib.Death
    /\ Calib.report (Kernel.self (Kernel.process w)) !! "Death"%string = None.
Proof.
  pose proof example_calib_person_runs as Hfin.
  destruct (Kernel.simulate
              (H0 := Calib.CalibPerson_process (fun x => x) (fun x => x)) 14
              CalibExamples.example_calib_person Kernel.initial_sim)
    as [[o w]|e] eqn:E; [|discriminate Hfin].
  exists o, w. split; [reflexivity|].
  destruct (CalibPerson_dies (fun x => x) (fun x => x) 14
              CalibExamples.example_calib_person Kernel.initial_sim
              o w initial_sim_cleared) as (Ho & _ & Hst & _ & _ & _ & Hnd).
  - intros s c Hc. simpl in Hc. rewrite lookup_empty in Hc. discriminate Hc.
  - reflexivity.
  - lia.
  - exact E.
  - split; [exact Ho|]. split; [exact Hst|exact Hnd].
Defined.

Section CalibDeath.
Import Kernel Run Calib CalibReport.
Variable x_exp : Q -> Q.

(** X22.  A [toDeath] message: the handler always returns; the person is in the
    stage [Death], [clinTime] is cut at the time of the death, the
    simulation is stopped, and the vector [report["TimeAtRisk"]] (empty if
    the report had none) is credited with [min(ctime[i], clinTime)] at the
    entries that the loop reaches; no other entry of the report changes. *)
Theorem Death_message_records (msg : cMessage) (h : HState CalibPerson) :
  kind msg = event_code toDeath ->
  exists h' v',
    CalibPerson_handleMessage x_exp msg h = Ok (tt, h')
    /\ h_calls h' = h_calls h ++ [StopSimulation]
    /\ stage (h_self h') = Death
    /\ clinTime (h_self h') = Qmin (clinTime (h_self h)) (h_now h)
    /\ report (h_self h') !! "TimeAtRisk"%string = Some v'
    /\ (forall i c,
          ctime !! i = Some c ->
          (i < iterations ctime (clinTime (h_self h')))%nat ->
          v' !! i
          = match default [] (report (h_self h) !! "TimeAtRisk"%string) !! i
            with
            | Some x => Some (x + Qmin c (clinTime (h_self h')))
            | None => Some (Qmin c (clinTime (h_self h')))
            end)
    /\ (forall i,
          (iterations ctime (clinTime (h_self h')) <= i)%nat ->
          v' !! i
          = default [] (report (h_self h) !! "TimeAtRisk"%string) !! i)
    /\ (forall key, key <> "TimeAtRisk"%string ->
          report (h_self h') !! key = report (h_self h) !! key).
Proof.
  intros Hk. destruct h as [p prev t calls].
  eexists _, _. split.
  { unfold CalibPerson_handleMessage, modify. hrun. rewrite Hk. simpl.
    reflexivity. }
  simpl. split; [done|]. split; [done|]. split; [done|].
  split; [by rewrite lookup_insert_eq|].
  destruct (time_at_risk_spec ctime (Qmin (clinTime p) t) 0
              (default [] (report p !! "TimeAtRisk"%string)))
    as (_ & Hin & Hout); [lia|].
  split; [intros i c Hc Hi; exact (Hin i c Hc Hi)|].
  split; [intros i Hi; apply Hout; right; exact Hi|].
  intros key Hkey. by rewrite lookup_insert_ne.
Qed.
End CalibDeath.

(** Witness: a death at 50 of a person without clinical disease, on a
    report without time at risk: 20, 40 and 50 are appended. *)
Lemma Death_message_records_witness :
  exists h' v',
    Calib.CalibPerson_handleMessage (fun x => x)
      (Kernel.mkMessage (Calib.event_code Calib.toDeath) "" 0 50
         Kernel.PlainMessage)
      {| Kernel.h_self :=
           Calib.with_clinTime 1000 CalibExamples.example_calib_person;
         Kernel.h_previousEventTime := 40; Kernel.h_now := 50;
         Kernel.h_calls := [] |} = Kernel.Ok (tt, h')
    /\ Calib.report (Kernel.h_self h') !! "TimeAtRisk"%string = Some v'
    /\ Calib.stage (Kernel.h_self h') = Calib.Death.
Proof.
  destruct (Death_message_records (fun x => x)
              (Kernel.mkMessage (Calib.event_code Calib.toDeath) "" 0 50
                 Kernel.PlainMessage)
              {| Kernel.h_self :=
                   Calib.with_clinTime 1000 CalibExamples.example_calib_person;
                 Kernel.h_previousEventTime := 40; Kernel.h_now := 50;
                 Kernel.h_calls := [] |})
    as (h' & v' & Hrun & _ & Hst & _ & Hv & _).
  - reflexivity.
  - exists h', v'. split; [exact Hrun|]. split; [exact Hv|exact Hst].
Defined.
